(** * Radikant-JSON-C: a shallow embedding of [rjson.c] and its specification

    The C functions of [src/include/rjson.h] (the implementation part that
    follows the header) are written as Rocq functions over

    - C strings as lists of bytes ([list ascii]), the end of the list being
      the terminating NUL;
    - the C heap as an explicit state ([heap]): the set of live blocks and
      their sizes, an allocator that may refuse a request, and a log of
      invalid releases;
    - [rjson_value] trees that carry the addresses of the blocks they own, so
      that [rjson_free] and the failure paths of the parser can be checked
      for leaks and double releases;
    - binary64 numbers as [spec_float] with [prec = 53] and [emax = 1024].

    Functions that return a pointer or NULL return an [option]; functions
    that receive a pointer to a mutable object return the new state of the
    object next to their result. *)

From Stdlib Require Import ZArith List Ascii String Bool Lia ZifyBool Wf_nat.
From Stdlib Require Import Floats.SpecFloat.
From stdpp Require Import base gmap sets list.
Import ListNotations.

Local Open Scope char_scope.
Local Open Scope Z_scope.

#[local] Set Warnings "-register-all".

(** ** Bytes and C strings *)

Module Libc.

Abbreviation byte := ascii.

(** The value of a byte as [unsigned char]. *)
Definition code (c : byte) : Z := Z.of_N (N_of_ascii c).

Definition byte_of (z : Z) : byte := ascii_of_N (Z.to_N (z mod 256)).

Definition NUL : byte := "000".

(** A C string is the list of its bytes before the terminator. *)
Abbreviation c_string := (list ascii).

Definition lit (s : string) : c_string := list_ascii_of_string s.

(** The bytes of [s] with a quotation mark for every apostrophe. *)
Definition quoted (s : string) : c_string :=
  map (fun c => if Ascii.eqb c "'" then "034" else c) (lit s).

(** What a C function sees of a byte array handed to it as a string: the
    bytes before the first NUL. *)
Fixpoint c_str (s : list byte) : c_string :=
  match s with
  | [] => []
  | c :: s' => if Ascii.eqb c NUL then [] else c :: c_str s'
  end.

(** [*p] for a cursor [p] into a C string: the terminator at the end. *)
Definition peek (p : c_string) : byte :=
  match p with
  | [] => NUL
  | c :: _ => c
  end.

(** [p + n]; the callers never move a cursor past the terminator. *)
Definition advance (n : nat) (p : c_string) : c_string := skipn n p.

Definition strlen (s : c_string) : Z := Z.of_nat (length s).

(** [strcmp(a, b) == 0] *)
Definition streq (a b : c_string) : bool :=
  bool_decide (a = b).

(** [strncmp(p, w, strlen(w)) == 0] for a word [w] without NUL. *)
Fixpoint starts_with (w p : c_string) : bool :=
  match w, p with
  | [], _ => true
  | _ :: _, [] => false
  | a :: w', b :: p' => Ascii.eqb a b && starts_with w' p'
  end.

(** [isdigit((unsigned char)c)] *)
Definition isdigit (c : byte) : bool :=
  (code "0" <=? code c) && (code c <=? code "9").

(** ** The heap

    A block is known by its address. Addresses are never reused, so a
    release of a block that is not live (a double release, or the release of
    a stale pointer) is recognised and logged in [faults]. [fate] lists the
    allocator's answers to the coming requests; when the list is used up
    every request is granted (a block that is resized stays in place).
    [sizes] gives the size of every live block in bytes: the size of the
    request that allocated it or resized it last. *)

Definition addr := positive.

Inductive outcome := Fail | Stay | Move.

Record heap := Heap {
  live : gset addr;
  brk : addr;
  fate : list outcome;
  faults : list addr;
  sizes : gmap addr Z
}.

Definition next_outcome (h : heap) : outcome * heap :=
  match fate h with
  | [] => (Stay, h)
  | o :: f => (o, Heap (live h) (brk h) f (faults h) (sizes h))
  end.

(** A new block of [size] bytes. *)
Definition fresh (size : Z) (h : heap) : addr * heap :=
  (brk h,
   Heap ({[ brk h ]} ∪ live h) (Pos.succ (brk h)) (fate h) (faults h)
     (<[ brk h := size ]> (sizes h))).

(** The block [a] resized in place. *)
Definition resized (a : addr) (size : Z) (h : heap) : heap :=
  Heap (live h) (brk h) (fate h) (faults h) (<[ a := size ]> (sizes h)).

Definition fault (a : addr) (h : heap) : heap :=
  Heap (live h) (brk h) (fate h) (a :: faults h) (sizes h).

(** [malloc(size)] and [calloc(1, size)]: NULL when the allocator refuses. *)
Definition malloc (size : Z) (h : heap) : option addr * heap :=
  match next_outcome h with
  | (Fail, h') => (None, h')
  | (_, h') => let (a, h'') := fresh size h' in (Some a, h'')
  end.

Definition calloc (n size : Z) (h : heap) : option addr * heap :=
  malloc (n * size) h.

(** [free(p)]: nothing for NULL. *)
Definition free (p : option addr) (h : heap) : heap :=
  match p with
  | None => h
  | Some a =>
      if bool_decide (a ∈ live h)
      then Heap (live h ∖ {[ a ]}) (brk h) (fate h) (faults h) (delete a (sizes h))
      else fault a h
  end.

(** [realloc(p, size)]. With [p = NULL] it is [malloc]. With [size = 0]
    and [p] not NULL the block is released and NULL is returned (glibc: the
    call is then equivalent to [free(p)]; ISO C leaves it to the
    implementation). Otherwise the allocator refuses (NULL, the block is
    untouched), resizes the block in place, or moves it: the old block is
    released and the contents live on in a new one. A stale pointer is
    logged in [faults]. *)
Definition realloc (p : option addr) (size : Z) (h : heap) : option addr * heap :=
  match p with
  | None => malloc size h
  | Some a =>
      if size =? 0 then (None, free (Some a) h)
      else match next_outcome h with
           | (Fail, h') => (None, h')
           | (Stay, h') =>
               (Some a, if bool_decide (a ∈ live h') then resized a size h' else fault a h')
           | (Move, h') => let (q, h'') := fresh size h' in (Some q, free (Some a) h'')
           end
  end.

(** No coming request is refused. *)
Definition granted (h : heap) : Prop := Forall (fun o => o <> Fail) (fate h).

Definition sizeof_ptr : Z := 8.

(** ** binary64 and its conversions

    [strtod] and [snprintf] belong to the C library. They are modelled as
    the correctly rounded conversions (round to nearest, ties to even) in
    the "C" locale, which is the locale of a program that never calls
    [setlocale]. [strtod] covers the decimal and the hexadecimal forms (its
    callers hand it text that starts with a digit or with '-'); it reports a
    range error ([errno = ERANGE]) on overflow and on underflow. *)

Definition double := spec_float.

Definition isfinite (x : double) : bool :=
  match x with
  | S754_zero _ | S754_finite _ _ _ => true
  | S754_infinity _ | S754_nan => false
  end.

(** [num / den] to the nearest integer, ties to even. *)
Definition round_div (num den : Z) : Z :=
  let (q, r) := Z.div_eucl num den in
  match 2 * r ?= den with
  | Lt => q
  | Gt => q + 1
  | Eq => if Z.even q then q else q + 1
  end.

(** The nearest binary64 (ties to even) of the rational [num / den],
    [0 <= num], [0 < den], with the sign [neg]: the exponent [e] of the
    last place is that of a 53-bit significand, and not below -1074; the
    significand is [num / den / 2^e] rounded; a value beyond the largest
    binary64 becomes an infinity. *)
Definition round_ratio (neg : bool) (num den : Z) : double :=
  match num with
  | Z0 => S754_zero neg
  | _ =>
      let e := Z.max (Z.log2 (num * 2 ^ 1074 / den) - 1126) (-1074) in
      let m := round_div (num * 2 ^ 1074) (den * 2 ^ (e + 1074)) in
      let (m, e) := if m =? 2 ^ 53 then (2 ^ 52, e + 1) else (m, e) in
      match m with
      | Zpos m => if e <=? 971 then S754_finite neg m e else S754_infinity neg
      | _ => S754_zero neg
      end
  end.

(** The same rounding by the operations of the Standard Library's
    specification of IEEE 754 arithmetic. *)
Definition round_ratio_IEEE (neg : bool) (num den : Z) : double :=
  match num with
  | Z0 => S754_zero neg
  | _ =>
      let '(q, e, l) := SFdiv_core_binary 53 1024 num 0 den 0 in
      binary_round_aux 53 1024 neg q e l
  end.

(** Whether the binary64 [x] is exactly [num / den] in magnitude. *)
Definition is_exact (x : double) (num den : Z) : bool :=
  match x with
  | S754_zero _ => num =? 0
  | S754_finite _ m e => num * 2 ^ Z.max 0 (- e) =? Zpos m * 2 ^ Z.max 0 e * den
  | _ => false
  end.

(** Whether the magnitude [num / den] is tiny: rounded to 53 bits with an
    unbounded exponent it is below the least normal binary64, [2^-1022]
    (tininess is detected after rounding, as glibc does on x86-64). Below
    [2^-1022] the 53-bit values are at most [2^-1075] apart, and [2^-1022]
    is [2^53] times [2^-1075]: the values from [2^-1022 - 2^-1076] on are
    rounded up to [2^-1022] and are not tiny, all smaller ones are. *)
Definition is_tiny (num den : Z) : bool :=
  round_div (num * 2 ^ 1075) den <? 2 ^ 53.

(** The range error of a conversion: the result overflowed, or the value
    is tiny and the result is not the exact value (underflow). A value
    just below [2^-1022 - 2^-1076] is converted to [2^-1022] with the range
    error. *)
Definition range_error (x : double) (num den : Z) : bool :=
  negb (isfinite x) || (is_tiny num den && negb (is_exact x num den)).

Fixpoint take_while (f : byte -> bool) (p : c_string) : c_string * c_string :=
  match p with
  | c :: p' => if f c then let (d, r) := take_while f p' in (c :: d, r) else ([], p)
  | [] => ([], [])
  end.

Definition digit_val (c : byte) : Z :=
  if isdigit c then code c - code "0"
  else if (code "a" <=? code c) && (code c <=? code "f") then code c - code "a" + 10
  else code c - code "A" + 10.

Definition isxdigit (c : byte) : bool :=
  isdigit c
  || ((code "a" <=? code c) && (code c <=? code "f"))
  || ((code "A" <=? code c) && (code c <=? code "F")).

Definition number_of (base : Z) (ds : list byte) : Z :=
  fold_left (fun a c => base * a + digit_val c) ds 0.

(** The optional exponent part: one of the letters [l1] and [l2], an
    optional sign and at least one decimal digit; without a digit nothing
    is consumed. *)
Definition exponent_part (l1 l2 : byte) (p : c_string) : Z * c_string :=
  if Ascii.eqb (peek p) l1 || Ascii.eqb (peek p) l2 then
    let p1 := advance 1 p in
    let neg := Ascii.eqb (peek p1) "-" in
    let p2 := if neg || Ascii.eqb (peek p1) "+" then advance 1 p1 else p1 in
    let (ds, p3) := take_while isdigit p2 in
    match ds with
    | [] => (0, p)
    | _ => ((if neg then - number_of 10 ds else number_of 10 ds), p3)
    end
  else (0, p).

(** A mantissa in base [base] with an optional point: its digits as a
    number, the count of digits after the point, and the rest; [None]
    without any digit. *)
Definition mantissa (base : Z) (isdig : byte -> bool) (p : c_string)
  : option (Z * Z * c_string) :=
  let (ip, p1) := take_while isdig p in
  let point := Ascii.eqb (peek p1) "." in
  let (fp, p2) := if point then take_while isdig (advance 1 p1) else ([], p1) in
  match ip ++ fp with
  | [] => None
  | ds => Some (number_of base ds, Z.of_nat (length fp), p2)
  end.

(** The value [m * base ^ e] with its sign, and whether it is out of
    range. *)
Definition scaled (neg : bool) (m base e : Z) : double * bool :=
  let num := m * base ^ Z.max 0 e in
  let den := base ^ Z.max 0 (- e) in
  let x := round_ratio neg num den in
  (x, range_error x num den).

Definition strtod_decimal (neg : bool) (p nptr : c_string) : double * c_string * bool :=
  match mantissa 10 isdigit p with
  | None => (S754_zero false, nptr, false)
  | Some (m, k, p1) =>
      let (e, p2) := exponent_part "e" "E" p1 in
      let (x, err) := scaled neg m 10 (e - k) in
      (x, p2, err)
  end.

Definition strtod_hex (neg : bool) (p : c_string) : option (double * c_string * bool) :=
  match mantissa 16 isxdigit p with
  | None => None
  | Some (m, k, p1) =>
      let (e, p2) := exponent_part "p" "P" p1 in
      let (x, err) := scaled neg m 2 (e - 4 * k) in
      Some (x, p2, err)
  end.

(** The conversion of the text [p] behind the sign; [nptr] is returned as
    the end when nothing can be converted. *)
Definition strtod_magnitude (neg : bool) (p nptr : c_string)
  : double * c_string * bool :=
  let hex_prefix :=
    Ascii.eqb (peek p) "0"
    && (Ascii.eqb (peek (advance 1 p)) "x" || Ascii.eqb (peek (advance 1 p)) "X") in
  match (if hex_prefix then strtod_hex neg (advance 2 p) else None) with
  | Some r => r
  | None => strtod_decimal neg p nptr
  end.

(** [strtod(nptr, &end)] with [errno] cleared before: the value, [end], and
    whether [errno] is [ERANGE] afterwards. *)
Definition strtod (nptr : c_string) : double * c_string * bool :=
  if Ascii.eqb (peek nptr) "-" then strtod_magnitude true (advance 1 nptr) nptr
  else if Ascii.eqb (peek nptr) "+" then strtod_magnitude false (advance 1 nptr) nptr
  else strtod_magnitude false nptr nptr.

(** ** [snprintf] with the conversion [%.<P>g] *)

(** [floor (log10 (num / den))] for [0 < num], [0 < den]: by counting. *)
Fixpoint count_up (fuel : nat) (num den : Z) : Z :=
  match fuel with
  | O => 0
  | S fuel => if 10 * den <=? num then 1 + count_up fuel num (10 * den) else 0
  end.

Fixpoint count_down (fuel : nat) (num den : Z) : Z :=
  match fuel with
  | O => 0
  | S fuel => if num <? den then 1 + count_down fuel (10 * num) den else 0
  end.

Definition log10_floor (num den : Z) : Z :=
  if den <=? num then count_up (Z.to_nat (Z.log2 num)) num den
  else - count_down (Z.to_nat (Z.log2 den) + 1) num den.

(** The [P] significant digits [n] and the decimal exponent [x] of
    [num / den]: [10^(P-1) <= n < 10^P] and [num / den] is about
    [n * 10^(x - P + 1)]. *)
Definition sig_digits (P : Z) (num den : Z) : Z * Z :=
  let x := log10_floor num den in
  let s := x - P + 1 in
  let n := round_div (num * 10 ^ Z.max 0 (- s)) (den * 10 ^ Z.max 0 s) in
  if n =? 10 ^ P then (10 ^ (P - 1), x + 1) else (n, x).

Fixpoint digits_of (len : nat) (n : Z) (acc : c_string) : c_string :=
  match len with
  | O => acc
  | S len => digits_of len (n / 10) (byte_of (code "0" + n mod 10) :: acc)
  end.

(** The decimal digits of [0 <= n], at least [min] of them. *)
Definition decimal (min : nat) (n : Z) : c_string :=
  let len := Nat.max min (Z.to_nat (log10_floor (Z.max n 1) 1) + 1) in
  digits_of len n [].

Fixpoint strip_zeros_rev (r : c_string) : c_string :=
  match r with
  | "0" :: r' => strip_zeros_rev r'
  | _ => r
  end.

(** Trailing zeros of a fraction removed. *)
Definition strip_zeros (ds : c_string) : c_string := rev (strip_zeros_rev (rev ds)).

Definition with_fraction (point : byte) (ip fp : c_string) : c_string :=
  match strip_zeros fp with
  | [] => ip
  | fp' => ip ++ point :: fp'
  end.

(** The text of [%.<P>g] for a finite positive value [num / den]. *)
Definition format_g (P : Z) (point : byte) (num den : Z) : c_string :=
  let (n, x) := sig_digits P num den in
  let ds := digits_of (Z.to_nat P) n [] in
  if (x <? -4) || (P <=? x) then
    with_fraction point (firstn 1 ds) (skipn 1 ds)
      ++ "e" :: (if x <? 0 then "-" else "+") :: decimal 2 (Z.abs x)
  else if x <? 0 then
    with_fraction point ["0"] (repeat "0" (Z.to_nat (- x - 1)) ++ ds)
  else
    with_fraction point (firstn (Z.to_nat (x + 1)) ds) (skipn (Z.to_nat (x + 1)) ds).

Definition printf_g (P : Z) (point : byte) (x : double) : c_string :=
  match x with
  | S754_zero s => if s then ["-"; "0"] else ["0"]
  | S754_finite s m e =>
      (if s then ["-"] else [])
        ++ format_g P point (Zpos m * 2 ^ Z.max 0 e) (2 ^ Z.max 0 (- e))
  | S754_infinity s => if s then lit "-inf" else lit "inf"
  | S754_nan => lit "nan"
  end.

(** [snprintf(buf, size, "%.17g", x)]: the length of the whole text and
    what fits in [buf] before its terminator. *)
Definition snprintf_g17 (size : Z) (x : double) : Z * c_string :=
  let s := printf_g 17 "." x in
  (Z.of_nat (length s), firstn (Z.to_nat (size - 1)) s).

End Libc.
Export Libc.

(** ** The value tree

    [struct rjson_value]: a tag and a union. Each constructor carries the
    address [p] of the node itself and, for every pointer field of the
    union, the address of the block it points to ([None] for NULL) together
    with what the block holds. [count] is the length of the list. *)

Inductive rjson_type :=
| RJSON_NULL | RJSON_BOOL | RJSON_NUMBER | RJSON_STRING | RJSON_ARRAY | RJSON_OBJECT.

Inductive rjson_value :=
| V_NULL (p : addr)
| V_BOOL (p : addr) (bool_val : Z)
| V_NUMBER (p : addr) (num_val : double)
| V_STRING (p : addr) (str_val : option (addr * c_string))
| V_ARRAY (p : addr) (elements : option addr) (elems : list rjson_value)
| V_OBJECT (p : addr) (keys values : option addr)
           (members : list (addr * c_string * rjson_value)).

Definition type_of (v : rjson_value) : rjson_type :=
  match v with
  | V_NULL _ => RJSON_NULL
  | V_BOOL _ _ => RJSON_BOOL
  | V_NUMBER _ _ => RJSON_NUMBER
  | V_STRING _ _ => RJSON_STRING
  | V_ARRAY _ _ _ => RJSON_ARRAY
  | V_OBJECT _ _ _ _ => RJSON_OBJECT
  end.

Definition sizeof_rjson_value : Z := 32.

(** What [calloc] leaves in a node once the tag is set. *)
Definition zeroed (type : rjson_type) (p : addr) : rjson_value :=
  match type with
  | RJSON_NULL => V_NULL p
  | RJSON_BOOL => V_BOOL p 0
  | RJSON_NUMBER => V_NUMBER p (S754_zero false)
  | RJSON_STRING => V_STRING p None
  | RJSON_ARRAY => V_ARRAY p None []
  | RJSON_OBJECT => V_OBJECT p None None []
  end.

Definition create_value (type : rjson_type) (h : heap) : option rjson_value * heap :=
  match calloc 1 sizeof_rjson_value h with
  | (None, h) => (None, h)
  | (Some p, h) => (Some (zeroed type p), h)
  end.

Definition rjson_null_new (h : heap) : option rjson_value * heap :=
  create_value RJSON_NULL h.

Definition rjson_bool_new (bool_val : Z) (h : heap) : option rjson_value * heap :=
  match create_value RJSON_BOOL h with
  | (Some (V_BOOL p _), h) => (Some (V_BOOL p (if bool_val =? 0 then 0 else 1)), h)
  | r => r
  end.

Definition rjson_number_new (num_val : double) (h : heap) : option rjson_value * heap :=
  match create_value RJSON_NUMBER h with
  | (Some (V_NUMBER p _), h) => (Some (V_NUMBER p num_val), h)
  | r => r
  end.

Definition rjson_string_new (str_val : c_string) (h : heap) : option rjson_value * heap :=
  match create_value RJSON_STRING h with
  | (Some (V_STRING p _), h) =>
      match malloc (strlen str_val + 1) h with
      | (None, h) => (None, free (Some p) h)
      | (Some s, h) => (Some (V_STRING p (Some (s, str_val))), h)
      end
  | (_, h) => (None, h)
  end.

Definition rjson_array_new (h : heap) : option rjson_value * heap :=
  create_value RJSON_ARRAY h.

Definition rjson_object_new (h : heap) : option rjson_value * heap :=
  create_value RJSON_OBJECT h.

(** [rjson_free]: the node's own blocks after those of its children. *)
Fixpoint free_value (value : rjson_value) (h : heap) : heap :=
  match value with
  | V_STRING p str_val => free (Some p) (free (option_map fst str_val) h)
  | V_ARRAY p elements elems =>
      let h := fold_left (fun h e => free_value e h) elems h in
      free (Some p) (free elements h)
  | V_OBJECT p keys values members =>
      let h := fold_left
                 (fun h m => free_value (snd m) (free (Some (fst (fst m))) h))
                 members h in
      free (Some p) (free values (free keys h))
  | V_NULL p | V_BOOL p _ | V_NUMBER p _ => free (Some p) h
  end.

Definition rjson_free (value : option rjson_value) (h : heap) : heap :=
  match value with
  | None => h
  | Some v => free_value v h
  end.

(** The scan of [rjson_object_get_value] from index 0. *)
Fixpoint get_value_loop (members : list (addr * c_string * rjson_value))
    (key : c_string) : option rjson_value :=
  match members with
  | [] => None
  | (_, k, v) :: rest => if streq k key then Some v else get_value_loop rest key
  end.

Definition rjson_object_get_value (object : option rjson_value)
    (key : option c_string) : option rjson_value :=
  match object, key with
  | Some (V_OBJECT _ _ _ members), Some key => get_value_loop members key
  | _, _ => None
  end.

(** [rjson_array_add]: the result and the array as the call leaves it. *)
Definition rjson_array_add (array element : option rjson_value) (h : heap)
  : Z * option rjson_value * heap :=
  match array, element with
  | Some (V_ARRAY p elements elems), Some element =>
      let new_count := Z.of_nat (length elems) + 1 in
      match realloc elements (new_count * sizeof_ptr) h with
      | (None, h) => (-1, array, h)
      | (Some new_elements, h) =>
          (0, Some (V_ARRAY p (Some new_elements) (elems ++ [element])), h)
      end
  | _, _ => (-1, array, h)
  end.

(** [rjson_object_add]. When the second growth fails the object keeps the
    pointer [new_keys] it was given by the first one, and the result of the
    shrinking [realloc] is dropped. *)
Definition rjson_object_add (object : option rjson_value) (key : option c_string)
    (value : option rjson_value) (h : heap) : Z * option rjson_value * heap :=
  match object, key, value with
  | Some (V_OBJECT p keys values members), Some key, Some value =>
      match malloc (strlen key + 1) h with
      | (None, h) => (-1, object, h)
      | (Some new_key, h) =>
          let new_count := Z.of_nat (length members) + 1 in
          match realloc keys (new_count * sizeof_ptr) h with
          | (None, h) => (-1, object, free (Some new_key) h)
          | (Some new_keys, h) =>
              match realloc values (new_count * sizeof_ptr) h with
              | (None, h) =>
                  let (_, h) := realloc (Some new_keys) ((new_count - 1) * sizeof_ptr) h in
                  (-1, Some (V_OBJECT p (Some new_keys) values members),
                   free (Some new_key) h)
              | (Some new_values, h) =>
                  (0, Some (V_OBJECT p (Some new_keys) (Some new_values)
                              (members ++ [(new_key, key, value)])), h)
              end
          end
      end
  | _, _, _ => (-1, object, h)
  end.

(** ** Parsing

    A parsing function receives the cursor [json] and the heap and returns
    its result with the heap it leaves. A successful result comes with the
    cursor after what was read; after a failure (NULL) no caller reads the
    cursor, and none is returned. *)

Definition RJSON_MAX_DEPTH : Z := 512.

Definition parsed := (option (rjson_value * c_string) * heap)%type.

Fixpoint skip_whitespace (json : c_string) : c_string :=
  match json with
  | c :: json' =>
      if Ascii.eqb c " " || Ascii.eqb c "009" || Ascii.eqb c "010" || Ascii.eqb c "013"
      then skip_whitespace json'
      else json
  | [] => json
  end.

(** The value [v] of one hexadecimal digit in [unescape_string], [-1] for
    any other byte. *)
Definition hex_value (c : byte) : Z :=
  if (code "0" <=? code c) && (code c <=? code "9") then code c - code "0"
  else if (code "a" <=? code c) && (code c <=? code "f") then code c - code "a" + 10
  else if (code "A" <=? code c) && (code c <=? code "F") then code c - code "A" + 10
  else -1.

(** The loop [for (i = 0; i < n; i++)] over the next [n] bytes that builds
    [cp = (cp << 4) | v]; [None] at a byte that is no hexadecimal digit. *)
Fixpoint hex_digits (n : nat) (p : c_string) (cp : Z) : option Z :=
  match n with
  | O => Some cp
  | S n =>
      let v := hex_value (peek p) in
      if v <? 0 then None else hex_digits n (advance 1 p) (Z.lor (Z.shiftl cp 4) v)
  end.

(** The UTF-8 bytes written for the code point [cp]. *)
Definition utf8_encode (cp : Z) : c_string :=
  if cp <? 0x80 then [byte_of cp]
  else if cp <? 0x800 then
    [byte_of (Z.lor 0xC0 (Z.shiftr cp 6));
     byte_of (Z.lor 0x80 (Z.land cp 0x3F))]
  else if cp <? 0x10000 then
    [byte_of (Z.lor 0xE0 (Z.shiftr cp 12));
     byte_of (Z.lor 0x80 (Z.land (Z.shiftr cp 6) 0x3F));
     byte_of (Z.lor 0x80 (Z.land cp 0x3F))]
  else
    [byte_of (Z.lor 0xF0 (Z.shiftr cp 18));
     byte_of (Z.lor 0x80 (Z.land (Z.shiftr cp 12) 0x3F));
     byte_of (Z.lor 0x80 (Z.land (Z.shiftr cp 6) 0x3F));
     byte_of (Z.lor 0x80 (Z.land cp 0x3F))].

(** The surrogate step after the four digits of a [\u] escape: [p] is the
    text that follows them. A high surrogate followed by [\u] and four
    digits of a low surrogate becomes the combined code point, and the
    second escape is passed over. *)
Definition combine_surrogates (cp : Z) (p : c_string) : Z * c_string :=
  if (0xD800 <=? cp) && (cp <=? 0xDBFF) then
    if (6 <=? strlen p) && Ascii.eqb (peek p) "\"
       && Ascii.eqb (peek (advance 1 p)) "u" then
      match hex_digits 4 (advance 2 p) 0 with
      | Some low =>
          if (0xDC00 <=? low) && (low <=? 0xDFFF)
          then (0x10000 + Z.shiftl (cp - 0xD800) 10 + (low - 0xDC00), advance 6 p)
          else (cp, p)
      | None => (cp, p)
      end
    else (cp, p)
  else (cp, p).

(** The [for] loop of [unescape_string]: [p] runs to [in_end], [d] is what
    has been written to [out]. [None] where the C code releases [out] and
    returns NULL. Every turn moves [p] forward, so the loop ends within
    [length p] turns. *)
Fixpoint unescape_loop (fuel : nat) (p d : c_string) : option c_string :=
  match p with
  | [] => Some d
  | "\" :: p =>
      match fuel, p with
      | S fuel, c :: p' =>
          match c with
          | "034" => unescape_loop fuel p' (d ++ ["034"])
          | "\" => unescape_loop fuel p' (d ++ ["\"])
          | "/" => unescape_loop fuel p' (d ++ ["/"])
          | "b" => unescape_loop fuel p' (d ++ ["008"])
          | "f" => unescape_loop fuel p' (d ++ ["012"])
          | "n" => unescape_loop fuel p' (d ++ ["010"])
          | "r" => unescape_loop fuel p' (d ++ ["013"])
          | "t" => unescape_loop fuel p' (d ++ ["009"])
          | "u" =>
              if strlen p <? 5 then None
              else
                match hex_digits 4 p' 0 with
                | None => None
                | Some cp =>
                    let (cp, p'') := combine_surrogates cp (advance 4 p') in
                    if ((0xD800 <=? cp) && (cp <=? 0xDFFF)) || (cp =? 0) then None
                    else unescape_loop fuel p'' (d ++ utf8_encode cp)
                end
          | _ => None
          end
      | _, _ => None
      end
  | c :: p =>
      match fuel with
      | S fuel => unescape_loop fuel p (d ++ [c])
      | O => None
      end
  end.

(** [unescape_string(in_start, in_end, &out_len)] on the bytes from
    [in_start] up to [in_end]: the new block and its contents. *)
Definition unescape_string (span : c_string) (h : heap)
  : option (addr * c_string) * heap :=
  let max_len := strlen span in
  match malloc (max_len + 1) h with
  | (None, h) => (None, h)
  | (Some out, h) =>
      match unescape_loop (length span) span [] with
      | None => (None, free (Some out) h)
      | Some d => (Some (out, d), h)
      end
  end.

(** The scan of [parse_string] for the closing quote, from the byte after
    the opening one: the cursor where the loop stops, [None] where it
    returns NULL. *)
Fixpoint scan_string (json : c_string) : option c_string :=
  match json with
  | [] => Some json
  | c :: json' =>
      if Ascii.eqb c "034" then Some json
      else if code c <? 0x20 then None
      else if Ascii.eqb c "\" then
        match json' with
        | [] => None
        | _ :: json'' => scan_string json''
        end
      else scan_string json'
  end.

Definition parse_string (json : c_string) (h : heap) : parsed :=
  let start := advance 1 json in
  match scan_string start with
  | None => (None, h)
  | Some json =>
      if negb (Ascii.eqb (peek json) "034") then (None, h)
      else
        let span := firstn (length start - length json) start in
        let json := advance 1 json in
        match unescape_string span h with
        | (None, h) => (None, h)
        | (Some str_content, h) =>
            match create_value RJSON_STRING h with
            | (Some (V_STRING p _), h) => (Some (V_STRING p (Some str_content), json), h)
            | (_, h) => (None, free (Some (fst str_content)) h)
            end
        end
  end.

Definition skip_digits (json : c_string) : c_string := snd (take_while isdigit json).

(** The grammar check of [parse_number], block by block: each block
    returns the cursor it leaves, [None] where the C code returns NULL. *)
Definition scan_sign (json : c_string) : c_string :=
  if Ascii.eqb (peek json) "-" then advance 1 json else json.

Definition scan_int (json : c_string) : option c_string :=
  if Ascii.eqb (peek json) "0" then
    let json := advance 1 json in
    if isdigit (peek json) then None else Some json
  else if isdigit (peek json) then Some (skip_digits json)
  else None.

Definition scan_frac (json : c_string) : option c_string :=
  if Ascii.eqb (peek json) "." then
    let json := advance 1 json in
    if negb (isdigit (peek json)) then None else Some (skip_digits json)
  else Some json.

Definition scan_exp (json : c_string) : option c_string :=
  if Ascii.eqb (peek json) "e" || Ascii.eqb (peek json) "E" then
    let json := advance 1 json in
    let json :=
      if Ascii.eqb (peek json) "+" || Ascii.eqb (peek json) "-"
      then advance 1 json else json in
    if negb (isdigit (peek json)) then None else Some (skip_digits json)
  else Some json.

Definition scan_number (json : c_string) : option c_string :=
  match scan_int (scan_sign json) with
  | None => None
  | Some json =>
      match scan_frac json with
      | None => None
      | Some json => scan_exp json
      end
  end.

(** Two cursors into the same text are the same pointer when as much text
    is left after both. *)
Definition same_position (p q : c_string) : bool :=
  Nat.eqb (length p) (length q).

Definition parse_number (json : c_string) (h : heap) : parsed :=
  let start := json in
  match scan_number json with
  | None => (None, h)
  | Some json =>
      let '(num, end_, erange) := strtod start in
      if erange || negb (isfinite num) then (None, h)
      else
        let checked :=
          if negb (same_position end_ json) then
            let len := (length start - length json)%nat in
            match malloc (Z.of_nat len + 1) h with
            | (None, h) => (None, h)
            | (Some temp_num, h) =>
                let '(num, end_, _) := strtod (firstn len start) in
                let h := free (Some temp_num) h in
                if negb (Ascii.eqb (peek end_) NUL) then (None, h) else (Some num, h)
            end
          else (Some num, h) in
        match checked with
        | (None, h) => (None, h)
        | (Some num, h) =>
            match create_value RJSON_NUMBER h with
            | (Some (V_NUMBER p _), h) => (Some (V_NUMBER p num, json), h)
            | (_, h) => (None, h)
            end
        end
  end.

Definition parse_literal (json : c_string) (h : heap) : parsed :=
  if starts_with (lit "true") json then
    match create_value RJSON_BOOL h with
    | (Some (V_BOOL p _), h) => (Some (V_BOOL p 1, advance 4 json), h)
    | (_, h) => (None, h)
    end
  else if starts_with (lit "false") json then
    match create_value RJSON_BOOL h with
    | (Some (V_BOOL p _), h) => (Some (V_BOOL p 0, advance 5 json), h)
    | (_, h) => (None, h)
    end
  else if starts_with (lit "null") json then
    match create_value RJSON_NULL h with
    | (Some v, h) => (Some (v, advance 4 json), h)
    | (None, h) => (None, h)
    end
  else (None, h).

(** [parse_array] and [parse_object] call [parse_value] for the values they
    hold: in this section it is the variable [parse_value], and the knot is
    tied by the fixpoint below. Their loops [while (1)] read at least one
    byte per turn; [fuel] bounds the number of turns. *)
Section Containers.

Variable parse_value : Z -> c_string -> heap -> parsed.

Fixpoint parse_array_loop (fuel : nat) (depth : Z) (arr_val : option rjson_value)
    (json : c_string) (h : heap) : parsed :=
  match fuel with
  | O => (None, h)
  | S fuel =>
      match parse_value (depth + 1) json h with
      | (None, h) => (None, rjson_free arr_val h)
      | (Some (element, json), h) =>
          let '(ret, arr_val, h) := rjson_array_add arr_val (Some element) h in
          if negb (ret =? 0) then
            (None, rjson_free arr_val (rjson_free (Some element) h))
          else
            let json := skip_whitespace json in
            if Ascii.eqb (peek json) "]" then
              match arr_val with
              | Some a => (Some (a, advance 1 json), h)
              | None => (None, h)
              end
            else if negb (Ascii.eqb (peek json) ",") then
              (None, rjson_free arr_val h)
            else parse_array_loop fuel depth arr_val (advance 1 json) h
      end
  end.

Definition parse_array (json : c_string) (depth : Z) (h : heap) : parsed :=
  if depth >=? RJSON_MAX_DEPTH then (None, h)
  else
    let json := advance 1 json in
    match rjson_array_new h with
    | (None, h) => (None, h)
    | (Some arr_val, h) =>
        let json := skip_whitespace json in
        if Ascii.eqb (peek json) "]" then (Some (arr_val, advance 1 json), h)
        else parse_array_loop (S (length json)) depth (Some arr_val) json h
    end.

Fixpoint parse_object_loop (fuel : nat) (depth : Z) (obj_val : option rjson_value)
    (json : c_string) (h : heap) : parsed :=
  match fuel with
  | O => (None, h)
  | S fuel =>
      let json := skip_whitespace json in
      if negb (Ascii.eqb (peek json) "034") then (None, rjson_free obj_val h)
      else
        match parse_string json h with
        | (None, h) => (None, rjson_free obj_val h)
        | (Some (key_val, json), h) =>
            let json := skip_whitespace json in
            if negb (Ascii.eqb (peek json) ":") then
              (None, rjson_free obj_val (rjson_free (Some key_val) h))
            else
              let json := advance 1 json in
              match parse_value (depth + 1) json h with
              | (None, h) =>
                  (None, rjson_free obj_val (rjson_free (Some key_val) h))
              | (Some (val, json), h) =>
                  let key_str :=
                    match key_val with
                    | V_STRING _ str_val => str_val
                    | _ => None
                    end in
                  let '(ret, obj_val, h) :=
                    rjson_object_add obj_val (option_map snd key_str) (Some val) h in
                  if negb (ret =? 0) then
                    (None, rjson_free obj_val
                             (rjson_free (Some val) (rjson_free (Some key_val) h)))
                  else
                    let h := free (option_map fst key_str) h in
                    let h :=
                      match key_val with
                      | V_STRING p _ => free (Some p) h
                      | _ => h
                      end in
                    let json := skip_whitespace json in
                    if Ascii.eqb (peek json) "}" then
                      match obj_val with
                      | Some o => (Some (o, advance 1 json), h)
                      | None => (None, h)
                      end
                    else if negb (Ascii.eqb (peek json) ",") then
                      (None, rjson_free obj_val h)
                    else parse_object_loop fuel depth obj_val (advance 1 json) h
              end
        end
  end.

Definition parse_object (json : c_string) (depth : Z) (h : heap) : parsed :=
  if depth >=? RJSON_MAX_DEPTH then (None, h)
  else
    let json := advance 1 json in
    match rjson_object_new h with
    | (None, h) => (None, h)
    | (Some obj_val, h) =>
        let json := skip_whitespace json in
        if Ascii.eqb (peek json) "}" then (Some (obj_val, advance 1 json), h)
        else parse_object_loop (S (length json)) depth (Some obj_val) json h
    end.

(** The body of [parse_value]. *)
Definition parse_value_body (json : c_string) (depth : Z) (h : heap) : parsed :=
  let json := skip_whitespace json in
  match peek json with
  | "034" => parse_string json h
  | "[" => parse_array json depth h
  | "{" => parse_object json depth h
  | "t" | "f" | "n" => parse_literal json h
  | c =>
      if Ascii.eqb c "-" || isdigit c then parse_number json h
      else (None, h)
  end.

End Containers.

(** [parse_value]: [levels] bounds the nesting of its calls. An array or an
    object is refused at depth [RJSON_MAX_DEPTH] before the next call is
    made, so [RJSON_MAX_DEPTH + 1] levels from depth 0 are never used up. *)
Fixpoint parse_value_at (levels : nat) (depth : Z) (json : c_string) (h : heap)
  : parsed :=
  match levels with
  | O => (None, h)
  | S levels => parse_value_body (parse_value_at levels) json depth h
  end.

Definition parse_value (json : c_string) (depth : Z) (h : heap) : parsed :=
  parse_value_at (Z.to_nat (RJSON_MAX_DEPTH + 1 - depth)) depth json h.

Definition BOM : c_string := ["239"; "187"; "191"].

(** [rjson_parse]: [json_string] is NULL or the bytes of the caller's
    buffer, read up to the first NUL. *)
Definition rjson_parse (json_string : option (list byte)) (h : heap)
  : option rjson_value * heap :=
  match json_string with
  | None => (None, h)
  | Some bytes =>
      let json_string := c_str bytes in
      let json_string :=
        if starts_with BOM json_string then advance 3 json_string else json_string in
      match parse_value json_string 0 h with
      | (None, h) => (None, h)
      | (Some (result, current_pos), h) =>
          let current_pos := skip_whitespace current_pos in
          if negb (Ascii.eqb (peek current_pos) NUL) then
            (None, rjson_free (Some result) h)
          else (Some result, h)
      end
  end.

(** ** Serialization *)

(** [struct strbuf]: the block, the bytes written so far ([length] of
    them, a terminator after the last) and the capacity. *)
Record strbuf := Strbuf {
  buffer : option addr;
  written : c_string;
  capacity : Z
}.

Definition sb_length (sb : strbuf) : Z := strlen (written sb).

Definition strbuf_init (initial_capacity : Z) (h : heap) : Z * option strbuf * heap :=
  match malloc initial_capacity h with
  | (None, h) => (-1, None, h)
  | (Some b, h) => (0, Some (Strbuf (Some b) [] initial_capacity), h)
  end.

(** The loop [while (new_capacity < need) new_capacity *= 2]. *)
Fixpoint grow_capacity (fuel : nat) (new_capacity need : Z) : Z :=
  match fuel with
  | O => new_capacity
  | S fuel =>
      if new_capacity <? need then grow_capacity fuel (new_capacity * 2) need
      else new_capacity
  end.

Definition strbuf_append (sb : strbuf) (data : c_string) (len : Z) (h : heap)
  : Z * strbuf * heap :=
  let need := sb_length sb + len + 1 in
  let grown :=
    if need >? capacity sb then
      let new_capacity := if capacity sb =? 0 then 64 else capacity sb * 2 in
      let new_capacity := grow_capacity (Z.to_nat need) new_capacity need in
      match realloc (buffer sb) new_capacity h with
      | (None, h) => (None, h)
      | (Some new_buffer, h) =>
          (Some (Strbuf (Some new_buffer) (written sb) new_capacity), h)
      end
    else (Some sb, h) in
  match grown with
  | (None, h) => (-1, sb, h)
  | (Some sb, h) =>
      (0, Strbuf (buffer sb) (written sb ++ firstn (Z.to_nat len) data) (capacity sb), h)
  end.

Definition strbuf_free (sb : strbuf) (h : heap) : heap := free (buffer sb) h.

Definition hex_digit (v : Z) : byte :=
  if v <? 10 then byte_of (code "0" + v) else byte_of (code "a" + (v - 10)).

(** [snprintf(hex_buf, 7, "\\u%04x", c)] for a byte [c]. *)
Definition snprintf_u04x (c : byte) : c_string :=
  ["\"; "u"; hex_digit (code c / 4096 mod 16); hex_digit (code c / 256 mod 16);
   hex_digit (code c / 16 mod 16); hex_digit (code c mod 16)].

(** The [switch] of [escape_string]: the replacement and its length. *)
Definition replacement (c : byte) : option (c_string * Z) :=
  match c with
  | "034" => Some (["\"; "034"], 2)
  | "\" => Some (["\"; "\"], 2)
  | "008" => Some (["\"; "b"], 2)
  | "012" => Some (["\"; "f"], 2)
  | "010" => Some (["\"; "n"], 2)
  | "013" => Some (["\"; "r"], 2)
  | "009" => Some (["\"; "t"], 2)
  | _ => if code c <? 0x20 then Some (snprintf_u04x c, 6) else None
  end.

(** The loop of [escape_string] and what follows it: [p] is the text left,
    [chunk] the bytes from [start] up to [p] that are not yet appended. *)
Fixpoint escape_loop (p chunk : c_string) (sb : strbuf) (h : heap)
  : Z * strbuf * heap :=
  match p with
  | c :: p' =>
      match replacement c with
      | Some (r, len) =>
          let '(ret, sb, h) :=
            match chunk with
            | [] => (0, sb, h)
            | _ => strbuf_append sb chunk (strlen chunk) h
            end in
          if negb (ret =? 0) then (-1, sb, h)
          else
            let '(ret, sb, h) := strbuf_append sb r len h in
            if negb (ret =? 0) then (-1, sb, h)
            else escape_loop p' [] sb h
      | None => escape_loop p' (chunk ++ [c]) sb h
      end
  | [] =>
      let '(ret, sb, h) :=
        match chunk with
        | [] => (0, sb, h)
        | _ => strbuf_append sb chunk (strlen chunk) h
        end in
      if negb (ret =? 0) then (-1, sb, h)
      else
        let '(_, sb, h) := strbuf_append sb ["034"] 1 h in
        (0, sb, h)
  end.

Definition escape_string (in_ : c_string) (sb : strbuf) (h : heap)
  : Z * strbuf * heap :=
  let '(_, sb, h) := strbuf_append sb ["034"] 1 h in
  escape_loop in_ [] sb h.

(** [strchr(num_buf, ',')] and the store of a '.' there. *)
Fixpoint fix_comma (s : c_string) : c_string :=
  match s with
  | [] => []
  | c :: s' => if Ascii.eqb c "," then "." :: s' else c :: fix_comma s'
  end.

Definition serialize_number (num : double) (sb : strbuf) (h : heap)
  : Z * strbuf * heap :=
  if negb (isfinite num) then (-1, sb, h)
  else
    let (len, num_buf) := snprintf_g17 64 num in
    let num_buf := fix_comma num_buf in
    if (len <? 0) || (len >=? 64) then (-1, sb, h)
    else strbuf_append sb num_buf len h.

Section Elements.

Variable serialize_value : rjson_value -> strbuf -> heap -> Z * strbuf * heap.

(** The loop over the elements of an array, [first] when [i = 0]. *)
Fixpoint serialize_elements (first : bool) (elems : list rjson_value)
    (sb : strbuf) (h : heap) : Z * strbuf * heap :=
  match elems with
  | [] => (0, sb, h)
  | e :: elems =>
      let '(ret, sb, h) :=
        if first then (0, sb, h) else strbuf_append sb [","] 1 h in
      if negb (ret =? 0) then (-1, sb, h)
      else
        let '(ret, sb, h) := serialize_value e sb h in
        if negb (ret =? 0) then (-1, sb, h)
        else serialize_elements false elems sb h
  end.

(** The loop over the members of an object. *)
Fixpoint serialize_members (first : bool)
    (members : list (addr * c_string * rjson_value))
    (sb : strbuf) (h : heap) : Z * strbuf * heap :=
  match members with
  | [] => (0, sb, h)
  | m :: members =>
      let '(ret, sb, h) :=
        if first then (0, sb, h) else strbuf_append sb [","] 1 h in
      if negb (ret =? 0) then (-1, sb, h)
      else
        let '(ret, sb, h) := escape_string (snd (fst m)) sb h in
        if negb (ret =? 0) then (-1, sb, h)
        else
          let '(ret, sb, h) := strbuf_append sb [":"] 1 h in
          if negb (ret =? 0) then (-1, sb, h)
          else
            let '(ret, sb, h) := serialize_value (snd m) sb h in
            if negb (ret =? 0) then (-1, sb, h)
            else serialize_members false members sb h
  end.

End Elements.

Fixpoint serialize_value (value : rjson_value) (sb : strbuf) (depth : Z) (h : heap)
  : Z * strbuf * heap :=
  if depth >=? RJSON_MAX_DEPTH then (-1, sb, h)
  else
    match value with
    | V_NULL _ => strbuf_append sb (lit "null") 4 h
    | V_BOOL _ bool_val =>
        if negb (bool_val =? 0) then strbuf_append sb (lit "true") 4 h
        else strbuf_append sb (lit "false") 5 h
    | V_NUMBER _ num_val => serialize_number num_val sb h
    | V_STRING _ (Some (_, str_val)) => escape_string str_val sb h
    | V_STRING _ None => (-1, sb, h) (* a NULL [str_val]: no tree built by
                                        this library holds one *)
    | V_ARRAY _ _ elems =>
        let '(ret, sb, h) := strbuf_append sb ["["] 1 h in
        if negb (ret =? 0) then (-1, sb, h)
        else
          let '(ret, sb, h) :=
            serialize_elements (fun e sb h => serialize_value e sb (depth + 1) h)
              true elems sb h in
          if negb (ret =? 0) then (-1, sb, h)
          else strbuf_append sb ["]"] 1 h
    | V_OBJECT _ _ _ members =>
        let '(ret, sb, h) := strbuf_append sb ["{"] 1 h in
        if negb (ret =? 0) then (-1, sb, h)
        else
          let '(ret, sb, h) :=
            serialize_members (fun e sb h => serialize_value e sb (depth + 1) h)
              true members sb h in
          if negb (ret =? 0) then (-1, sb, h)
          else strbuf_append sb ["}"] 1 h
    end.

(** [rjson_serialize(value, out_string, out_length)]. [out_string] and
    [out_length] are NULL ([None]) or hold what the caller's variables
    contain; the result comes with what they contain after the call. *)
Definition rjson_serialize (value : option rjson_value)
    (out_string : option (option (addr * c_string))) (out_length : option Z)
    (h : heap)
  : Z * option (option (addr * c_string)) * option Z * heap :=
  match value, out_string with
  | Some value, Some _ =>
      match strbuf_init 1024 h with
      | (_, None, h) => (-1, out_string, out_length, h)
      | (_, Some sb, h) =>
          let '(ret, sb, h) := serialize_value value sb 0 h in
          if negb (ret =? 0) then (-1, out_string, out_length, strbuf_free sb h)
          else
            (0,
             Some (option_map (fun b => (b, written sb)) (buffer sb)),
             option_map (fun _ => sb_length sb) out_length,
             h)
      end
  | _, _ => (-1, out_string, out_length, h)
  end.

(** ** What a tree denotes

    The tree without its addresses: the variant, the bytes of the strings,
    the numbers, and the elements and members in their order. *)

Inductive json :=
| J_NULL
| J_BOOL (b : Z)
| J_NUMBER (x : double)
| J_STRING (s : option c_string)
| J_ARRAY (elems : list json)
| J_OBJECT (members : list (c_string * json)).

Definition key_of (m : addr * c_string * rjson_value) : c_string := snd (fst m).

Fixpoint shape (v : rjson_value) : json :=
  match v with
  | V_NULL _ => J_NULL
  | V_BOOL _ b => J_BOOL b
  | V_NUMBER _ x => J_NUMBER x
  | V_STRING _ s => J_STRING (option_map snd s)
  | V_ARRAY _ _ elems => J_ARRAY (map shape elems)
  | V_OBJECT _ _ _ members =>
      J_OBJECT (map (fun m => (snd (fst m), shape (snd m))) members)
  end.

(** The number of arrays and objects around the innermost value, the
    value itself included. *)
Fixpoint nesting (v : rjson_value) : Z :=
  match v with
  | V_ARRAY _ _ elems => 1 + fold_right (fun e n => Z.max (nesting e) n) 0 elems
  | V_OBJECT _ _ _ members =>
      1 + fold_right (fun m n => Z.max (nesting (snd m)) n) 0 members
  | _ => 0
  end.

(** A heap without blocks whose allocator answers [f]. *)
Definition heap_init (f : list outcome) : heap := Heap ∅ 1%positive f [] ∅.

(** [n] opening brackets, [inner], [n] closing brackets. *)
Fixpoint nested_arrays (n : nat) (inner : c_string) : c_string :=
  match n with
  | O => inner
  | S n => "[" :: nested_arrays n inner ++ ["]"]
  end.

(** ** Vocabulary of the properties *)

Definition high_surrogate (cp : Z) : Prop := 0xD800 <= cp <= 0xDBFF.
Definition low_surrogate (cp : Z) : Prop := 0xDC00 <= cp <= 0xDFFF.

(** The run behind C6 and C9: an empty object, a key and a child, and an
    allocator that grants the object, the child, the copy of the key and
    the growth of [keys], and refuses the growth of [values]. *)
Definition second_growth_refused : list outcome := [Stay; Stay; Stay; Stay; Fail].

(** The escape table of the encoder, as the specification gives it. *)
Definition lower_hex (v : Z) : byte := nth (Z.to_nat v) (lit "0123456789abcdef") "0".

Definition escaped_byte (c : byte) : c_string :=
  if code c =? 0x22 then lit "\" ++ ["034"]
  else if code c =? 0x5C then lit "\\"
  else if code c =? 0x08 then lit "\b"
  else if code c =? 0x0C then lit "\f"
  else if code c =? 0x0A then lit "\n"
  else if code c =? 0x0D then lit "\r"
  else if code c =? 0x09 then lit "\t"
  else if code c <? 0x20 then
    lit "\u00" ++ [lower_hex (code c / 16); lower_hex (code c mod 16)]
  else [c].

Definition escaped (s : c_string) : c_string := concat (map escaped_byte s).

(** A number that is not finite somewhere in the tree. *)
Fixpoint has_nonfinite (v : rjson_value) : bool :=
  match v with
  | V_NUMBER _ x => negb (isfinite x)
  | V_ARRAY _ _ elems => existsb has_nonfinite elems
  | V_OBJECT _ _ _ members => existsb (fun m => has_nonfinite (snd m)) members
  | _ => false
  end.

(** The text [Line], a line feed, [Break], a tab, [Tab]. *)
Definition line_break_tab : c_string :=
  lit "Line" ++ ["010"] ++ lit "Break" ++ ["009"] ++ lit "Tab".

(** The bytes [%.17g] can write in the "C" locale. *)
Definition number_byte (c : byte) : Prop :=
  isdigit c = true \/ In c ["."; "e"; "E"; "+"; "-"].

(** The number grammar of the specification:
    [number = [ "-" ] int [ frac ] [ exp ]], [int = "0" | nonzero-digit digit*],
    [frac = "." digit+], [exp = ("e"|"E") [ "+"|"-" ] digit+]. *)
Definition digits (ds : c_string) : Prop := Forall (fun c => isdigit c = true) ds.

Definition int_part (s : c_string) : Prop :=
  s = ["0"]
  \/ exists d ds, s = d :: ds /\ isdigit d = true /\ d <> "0" /\ digits ds.

Definition frac_part (s : c_string) : Prop :=
  s = [] \/ exists d ds, s = "." :: d :: ds /\ digits (d :: ds).

Definition exp_part (s : c_string) : Prop :=
  s = []
  \/ exists e sign d ds,
      s = e :: sign ++ d :: ds /\ (e = "e" \/ e = "E")
      /\ (sign = [] \/ sign = ["+"] \/ sign = ["-"]) /\ digits (d :: ds).

Definition number_token (tok : c_string) : Prop :=
  exists sign i f x,
    tok = sign ++ i ++ f ++ x /\ (sign = [] \/ sign = ["-"])
    /\ int_part i /\ frac_part f /\ exp_part x.

(** What may follow a number: no byte that [strtod] or the grammar check
    would take for a part of it. *)
Definition ends_number (rest : c_string) : bool :=
  let c := peek rest in
  negb (isdigit c || Ascii.eqb c "." || Ascii.eqb c "e" || Ascii.eqb c "E"
        || Ascii.eqb c "x" || Ascii.eqb c "X").

(** The first byte of what follows the integer part. *)
Definition tail_byte (c : byte) : Prop :=
  isdigit c = false /\ c <> "x" /\ c <> "X".

(** ** The text of a tree

    What the encoder writes for a tree when no allocation is refused, as a
    function of what the tree denotes. *)

(** The texts of the items of an array or object, a comma before each one
    but the first. *)
Fixpoint separated (first : bool) (items : list c_string) : c_string :=
  match items with
  | [] => []
  | x :: items => (if first then [] else [","]) ++ x ++ separated false items
  end.

Definition encode_string (s : c_string) : c_string := "034" :: escaped s ++ ["034"].

Fixpoint encode (j : json) : c_string :=
  match j with
  | J_NULL => lit "null"
  | J_BOOL b => if b =? 0 then lit "false" else lit "true"
  | J_NUMBER x => printf_g 17 "." x
  | J_STRING (Some s) => encode_string s
  | J_STRING None => []
  | J_ARRAY elems => "[" :: separated true (map encode elems) ++ ["]"]
  | J_OBJECT members =>
      "{" :: separated true
               (map (fun m => encode_string (fst m) ++ ":" :: encode (snd m)) members)
          ++ ["}"]
  end.

(** The number of values around the innermost value, itself included: the
    depth the encoder reaches plus one. *)
Fixpoint height (j : json) : Z :=
  match j with
  | J_ARRAY elems => 1 + fold_right (fun e n => Z.max (height e) n) 0 elems
  | J_OBJECT members => 1 + fold_right (fun m n => Z.max (height (snd m)) n) 0 members
  | _ => 1
  end.

(** A number that the decoder reads back from its text: it is finite, and
    the text fits the buffer of [serialize_number], is a number of the
    grammar, and is converted to the same binary64 without a range error. *)
Definition reads_back (x : double) : Prop :=
  isfinite x = true
  /\ (length (printf_g 17 "." x) < 64)%nat
  /\ number_token (printf_g 17 "." x)
  /\ strtod (printf_g 17 "." x) = (x, [], false).

Fixpoint numbers_read_back (j : json) : Prop :=
  match j with
  | J_NUMBER x => reads_back x
  | J_ARRAY elems => fold_right (fun e P => numbers_read_back e /\ P) True elems
  | J_OBJECT members =>
      fold_right (fun m P => numbers_read_back (snd m) /\ P) True members
  | _ => True
  end.

Definition no_nul (s : c_string) : Prop := Forall (fun c => c <> NUL) s.

(** What the decoder builds: flags that are 0 or 1, numbers that are
    finite binary64 values, and strings and keys that are present and hold
    no NUL. *)
Fixpoint well_formed (j : json) : Prop :=
  match j with
  | J_BOOL b => b = 0 \/ b = 1
  | J_NUMBER x => isfinite x = true /\ valid_binary 53 1024 x = true
  | J_STRING s => exists s', s = Some s' /\ no_nul s'
  | J_ARRAY elems => fold_right (fun e P => well_formed e /\ P) True elems
  | J_OBJECT members =>
      fold_right (fun m P => (no_nul (fst m) /\ well_formed (snd m)) /\ P) True members
  | _ => True
  end.

(** What the text of a value starts with: no white space, no closing
    bracket, not the first byte of a byte order mark. *)
Definition value_start (c : byte) : bool :=
  negb (Ascii.eqb c " " || Ascii.eqb c "009" || Ascii.eqb c "010" || Ascii.eqb c "013"
        || Ascii.eqb c "]" || Ascii.eqb c "}" || Ascii.eqb c NUL || Ascii.eqb c "239").

(** The exponent that an exponent part of the grammar denotes. *)
Definition exp_value (x : c_string) : Z :=
  match x with
  | _ :: "-" :: ds => - number_of 10 ds
  | _ :: "+" :: ds => number_of 10 ds
  | _ :: ds => number_of 10 ds
  | [] => 0
  end.

(** A zero, or a binary64 with a significand of 53 bits: not subnormal. *)
Definition normal (x : double) : Prop :=
  match x with
  | S754_zero _ => True
  | S754_finite _ m e => 2 ^ 52 <= Zpos m < 2 ^ 53 /\ -1074 <= e <= 971
  | _ => False
  end.

Fixpoint numbers_normal (j : json) : Prop :=
  match j with
  | J_NUMBER x => normal x
  | J_ARRAY elems => fold_right (fun e P => numbers_normal e /\ P) True elems
  | J_OBJECT members =>
      fold_right (fun m P => numbers_normal (snd m) /\ P) True members
  | _ => True
  end.

(** A subnormal number somewhere in the tree: a number whose significand
    has fewer than 53 bits. *)
Definition subnormal (x : double) : bool :=
  match x with
  | S754_finite _ m _ => Zpos m <? 2 ^ 52
  | _ => false
  end.

Fixpoint has_subnormal (j : json) : bool :=
  match j with
  | J_NUMBER x => subnormal x
  | J_ARRAY elems => existsb has_subnormal elems
  | J_OBJECT members => existsb (fun m => has_subnormal (snd m)) members
  | _ => false
  end.

(** The smallest positive binary64, [2^-1074], written out exactly: a
    zero, the point and the 1074 digits of [5^1074]. *)
Definition tiny_text : c_string := lit "0." ++ digits_of 1074 (5 ^ 1074) [].

(** The bytes of UTF-8 for the code point [cp], by the table of RFC 3629:
    one byte below 80, two below 800, three below 10000, four from there. *)
Definition utf8_bytes (cp : Z) : list Z :=
  if cp <? 0x80 then [cp]
  else if cp <? 0x800 then [0xC0 + cp / 64; 0x80 + cp mod 64]
  else if cp <? 0x10000 then [0xE0 + cp / 4096; 0x80 + cp / 64 mod 64; 0x80 + cp mod 64]
  else [0xF0 + cp / 262144; 0x80 + cp / 4096 mod 64; 0x80 + cp / 64 mod 64;
        0x80 + cp mod 64].

(** ** Ownership

    The blocks a tree holds: the node, the blocks its pointer fields point
    to, and the blocks of its children. *)
Fixpoint blocks (v : rjson_value) : list addr :=
  match v with
  | V_NULL p | V_BOOL p _ | V_NUMBER p _ => [p]
  | V_STRING p str_val => p :: option_list (option_map fst str_val)
  | V_ARRAY p elements elems => p :: option_list elements ++ flat_map blocks elems
  | V_OBJECT p keys values members =>
      p :: option_list keys ++ option_list values
        ++ flat_map (fun m => fst (fst m) :: blocks (snd m)) members
  end.

(** Every live block was handed out by the allocator: its address is below
    the next fresh one. *)
Definition heap_wf (h : heap) : Prop :=
  forall a, a ∈ live h -> (a < brk h)%positive.

(** From [h] to [h'] the blocks [bs] were allocated and are still live,
    nothing else changed, and no invalid release was logged. *)
Definition allocated (h h' : heap) (bs : list addr) : Prop :=
  NoDup bs
  /\ (forall a, a ∈ bs -> (brk h <= a)%positive)
  /\ live h' = live h ∪ list_to_set bs
  /\ faults h' = faults h
  /\ (brk h <= brk h')%positive
  /\ heap_wf h'.

(** The heap after [bs] were released one by one, no release being
    invalid. *)
Definition released (h h' : heap) (bs : list addr) : Prop :=
  live h' = live h ∖ list_to_set bs
  /\ faults h' = faults h /\ brk h' = brk h /\ fate h' = fate h.

(** What a parsing function leaves of the heap [h]: the blocks of the
    tree it returns and nothing else, nothing at all when it fails. *)
Definition keeps (h : heap) (r : parsed) : Prop :=
  granted (snd r)
  /\ allocated h (snd r)
       match fst r with
       | Some (v, _) => blocks v
       | None => []
       end.

(** An array of a string and a null, and a heap in which its five blocks
    and one more are live. *)
Definition sample_tree : rjson_value :=
  V_ARRAY 1%positive (Some 2%positive)
    [V_STRING 3%positive (Some (4%positive, lit "a")); V_NULL 5%positive].

(** The sizes of the blocks of [sample_tree]: three nodes, two pointers,
    and the text with its terminator. *)
Definition sample_sizes : gmap addr Z :=
  list_to_map [(1%positive, 32); (2%positive, 16); (3%positive, 32); (4%positive, 2);
               (5%positive, 32)].

Definition sample_heap : heap :=
  Heap (list_to_set [1; 2; 3; 4; 5; 6]%positive) 7%positive [] []
    (<[ 6%positive := 32 ]> sample_sizes).

(** What a constructor leaves of the heap [h]: nothing when it returns
    NULL, and else a node that denotes [j] and holds the new blocks. *)
Definition built (h : heap) (r : option rjson_value * heap) (j : json) : Prop :=
  match fst r with
  | None => live (snd r) = live h /\ faults (snd r) = faults h
  | Some v => shape v = j /\ allocated h (snd r) (blocks v)
  end.

(** The buffer of the encoder is the one block allocated since [h0]. *)
Definition holds_buffer (h0 : heap) (sb : strbuf) (h : heap) : Prop :=
  exists b, buffer sb = Some b /\ allocated h0 h [b].

(** What the encoder can write: flags that are 0 or 1, numbers that are
    binary64 values, finite or not, and strings and keys that are present
    and hold no NUL. *)
Fixpoint canonical (j : json) : Prop :=
  match j with
  | J_BOOL b => b = 0 \/ b = 1
  | J_NUMBER x => valid_binary 53 1024 x = true
  | J_STRING s => exists s', s = Some s' /\ no_nul s'
  | J_ARRAY elems => fold_right (fun e P => canonical e /\ P) True elems
  | J_OBJECT members =>
      fold_right (fun m P => (no_nul (fst m) /\ canonical (snd m)) /\ P) True members
  | _ => True
  end.

(** The heap [h] once its allocator has answered one request. *)
Definition answered (h : heap) : heap := snd (next_outcome h).

(** The text of the buffer lies in its block: the block is live, it has
    [capacity] bytes, and the text and its terminator are no more. A buffer
    without a block has the capacity 0 and holds nothing. *)
Definition holds_text (sb : strbuf) (h : heap) : Prop :=
  match buffer sb with
  | Some b =>
      b ∈ live h /\ sizes h !! b = Some (capacity sb)
      /\ sb_length sb + 1 <= capacity sb
  | None => capacity sb = 0 /\ written sb = []
  end.

(** The bytes that [skip_whitespace] passes over. *)
Definition is_space (c : byte) : bool :=
  Ascii.eqb c " " || Ascii.eqb c "009" || Ascii.eqb c "010" || Ascii.eqb c "013".

(** The bytes at which the [switch] of [parse_value] calls a parser. *)
Definition opens_value (c : byte) : bool :=
  Ascii.eqb c "034" || Ascii.eqb c "[" || Ascii.eqb c "{"
  || Ascii.eqb c "t" || Ascii.eqb c "f" || Ascii.eqb c "n"
  || Ascii.eqb c "-" || isdigit c.

(** The text of the caller's buffer behind the byte order mark, if it
    starts with one. *)
Definition behind_BOM (bytes : list byte) : c_string :=
  if starts_with BOM (c_str bytes) then advance 3 (c_str bytes) else c_str bytes.

(** A byte that stands for itself in a string: no control byte, no
    quotation mark, no backslash. *)
Definition plain (c : byte) : bool :=
  (0x20 <=? code c) && negb (Ascii.eqb c "034") && negb (Ascii.eqb c "\").

(** The letters that may follow a backslash. *)
Definition escape_letters : list byte := ["034"; "\"; "/"; "b"; "f"; "n"; "r"; "t"; "u"].

(** The sign bit of a binary64. *)
Definition sign_bit (x : double) : bool :=
  match x with
  | S754_zero s | S754_infinity s | S754_finite s _ _ => s
  | S754_nan => false
  end.

(** ** Printing

    [rjson_print] writes to [stdout]: the functions return the bytes they
    write. [printf("%g", x)] is the conversion with the precision 6, and
    [printf("%s", p)] of a NULL pointer writes [(null)] (glibc). *)

(** [for (int j = 0; j < n; ++j) printf("  ");] *)
Definition print_indent (n : Z) : c_string := concat (repeat (lit "  ") (Z.to_nat n)).

Definition printf_s (s : option c_string) : c_string :=
  match s with
  | Some s => s
  | None => lit "(null)"
  end.

Section Print_elements.

Variable print : rjson_value -> c_string.

Variable indent : Z.

(** The loop over the elements of an array: the comma is written when
    [i < count - 1]. *)
Fixpoint print_elements (elems : list rjson_value) : c_string :=
  match elems with
  | [] => []
  | e :: elems =>
      print_indent (indent + 1) ++ print e
        ++ (match elems with [] => [] | _ => [","] end) ++ ["010"]
        ++ print_elements elems
  end.

(** The loop over the members of an object. *)
Fixpoint print_members (members : list (addr * c_string * rjson_value)) : c_string :=
  match members with
  | [] => []
  | m :: members =>
      print_indent (indent + 1)
        ++ ("034" :: printf_s (Some (snd (fst m))) ++ "034" :: lit ": ")
        ++ print (snd m)
        ++ (match members with [] => [] | _ => [","] end) ++ ["010"]
        ++ print_members members
  end.

End Print_elements.

Fixpoint print_value (value : rjson_value) (indent : Z) : c_string :=
  match value with
  | V_NULL _ => lit "null"
  | V_BOOL _ bool_val => if negb (bool_val =? 0) then lit "true" else lit "false"
  | V_NUMBER _ num_val => printf_g 6 "." num_val
  | V_STRING _ str_val => "034" :: printf_s (option_map snd str_val) ++ ["034"]
  | V_ARRAY _ _ elems =>
      "[" :: "010"
        :: print_elements (fun e => print_value e (indent + 1)) indent elems
        ++ print_indent indent ++ ["]"]
  | V_OBJECT _ _ _ members =>
      "{" :: "010"
        :: print_members (fun e => print_value e (indent + 1)) indent members
        ++ print_indent indent ++ ["}"]
  end.

Definition rjson_print_internal (value : option rjson_value) (indent : Z) : c_string :=
  match value with
  | None => lit "null"
  | Some value => print_value value indent
  end.

Definition rjson_print (value : option rjson_value) (indent : Z) : c_string :=
  rjson_print_internal value indent.

(** The text [s] with [pad] written behind each of its line feeds. *)
Fixpoint indented (pad s : c_string) : c_string :=
  match s with
  | [] => []
  | c :: s' => if Ascii.eqb c "010" then c :: pad ++ indented pad s' else c :: indented pad s'
  end.

(** No string and no key of the tree holds a line feed; every string is
    present. *)
Fixpoint one_line_strings (v : rjson_value) : Prop :=
  match v with
  | V_STRING _ str_val => exists a s, str_val = Some (a, s) /\ "010" ∉ s
  | V_ARRAY _ _ elems => fold_right (fun e P => one_line_strings e /\ P) True elems
  | V_OBJECT _ _ _ members =>
      fold_right (fun m P => (("010" ∉ snd (fst m)) /\ one_line_strings (snd m)) /\ P)
        True members
  | _ => True
  end.

(** The result of a parsing function when the text [ws] is written behind
    its input: the same, with [ws] behind the cursor it leaves. *)
Definition followed_by (ws : c_string) (r : parsed) : parsed :=
  match r with
  | (Some (v, json), h) => (Some (v, json ++ ws), h)
  | (None, h) => (None, h)
  end.

(** What a parsing function leaves of the heap [h] whatever the allocator
    answers: the blocks of the tree it returns, nothing when it fails, and
    no release that is invalid. *)
Definition owned (h : heap) (r : parsed) : Prop :=
  allocated h (snd r)
    match fst r with
    | Some (v, _) => blocks v
    | None => []
    end.

(** A text in which no object starts. *)
Definition no_brace (json : c_string) : Prop := Forall (fun c => c <> "{") json.

(** * Properties *)

(** ** Container operations *)

Lemma get_value_loop_first pre a key v post :
  key ∉ map key_of pre ->
  get_value_loop (pre ++ (a, key, v) :: post) key = Some v.
Proof.
  induction pre as [|[[b k] w] pre IH]; intros Hpre; simpl.
  - unfold streq. rewrite bool_decide_eq_true_2; reflexivity.
  - unfold streq. rewrite bool_decide_eq_false_2.
    + apply IH. intros Hin. apply Hpre. simpl. right. exact Hin.
    + intros ->. apply Hpre. simpl. left.
Qed.

Lemma get_value_loop_none members key :
  key ∉ map key_of members -> get_value_loop members key = None.
Proof.
  induction members as [|[[b k] w] ms IH]; intros Hms; simpl; [reflexivity|].
  unfold streq. rewrite bool_decide_eq_false_2.
  - apply IH. intros Hin. apply Hms. simpl. right. exact Hin.
  - intros ->. apply Hms. simpl. left.
Qed.

(** C5: [rjson_object_get_value] scans the keys in insertion order and
    returns the value of the first key that matches: a member is found
    behind any members with other keys, whatever follows it (duplicates
    stay in the object); the result is none when no key matches and when
    the argument is not an object. After decoding [{"a":1,"a":2}] both
    members are in the object and the lookup of ["a"] gives the number 1. *)
Theorem C5_get_value_first_match :
  (forall p keys values pre a key v post,
      key ∉ map key_of pre ->
      rjson_object_get_value
        (Some (V_OBJECT p keys values (pre ++ (a, key, v) :: post))) (Some key)
      = Some v)
  /\ (forall p keys values members key,
         key ∉ map key_of members ->
         rjson_object_get_value (Some (V_OBJECT p keys values members)) (Some key)
         = None)
  /\ (forall v key, type_of v <> RJSON_OBJECT ->
         rjson_object_get_value (Some v) key = None)
  /\ (forall key, rjson_object_get_value None key = None)
  /\ (exists p keys values members h,
         rjson_parse (Some (quoted "{'a':1,'a':2}")) (heap_init [])
         = (Some (V_OBJECT p keys values members), h)
         /\ map (fun m => (key_of m, shape (snd m))) members
            = [(lit "a", J_NUMBER (S754_finite false 4503599627370496 (-52)));
               (lit "a", J_NUMBER (S754_finite false 4503599627370496 (-51)))]
         /\ option_map shape
              (rjson_object_get_value (Some (V_OBJECT p keys values members))
                 (Some (lit "a")))
            = Some (J_NUMBER (S754_finite false 4503599627370496 (-52)))).
Proof.
  split; [|split; [|split; [|split]]].
  - intros. simpl. apply get_value_loop_first. assumption.
  - intros. simpl. apply get_value_loop_none. assumption.
  - intros v key Hv. destruct v; simpl; try reflexivity. contradiction.
  - reflexivity.
  - eexists _, _, _, _, _. split; [vm_compute; reflexivity|].
    split; vm_compute; reflexivity.
Qed.

Lemma C5_get_value_first_match_witness :
  rjson_object_get_value
    (Some (V_OBJECT 1%positive None None
             ([(2%positive, lit "b", V_NULL 3%positive)]
                ++ (4%positive, lit "a", V_BOOL 5%positive 1)
                :: [(6%positive, lit "a", V_BOOL 7%positive 0)])))
    (Some (lit "a"))
  = Some (V_BOOL 5%positive 1).
Proof.
  apply (proj1 C5_get_value_first_match).
  vm_compute. intros H. inversion H as [|? ? ? H']; subst. inversion H'.
Defined.

Lemma rjson_array_add_result array element h ret array' h' :
  rjson_array_add array element h = (ret, array', h') ->
  (ret = -1 /\ array' = array)
  \/ (exists p elements new_elements elems e,
         ret = 0 /\ array = Some (V_ARRAY p elements elems) /\ element = Some e
         /\ array' = Some (V_ARRAY p (Some new_elements) (elems ++ [e]))).
Proof.
  unfold rjson_array_add. intros H.
  destruct array as [[]|]; try (inversion H; left; split; reflexivity).
  destruct element as [e|]; try (inversion H; left; split; reflexivity).
  destruct (realloc _ _ h) as [[q|] h1]; inversion H; subst.
  - right. eexists _, _, _, _, _. repeat split.
  - left. split; reflexivity.
Qed.

Lemma rjson_object_add_result object key value h ret object' h' :
  rjson_object_add object key value h = (ret, object', h') ->
  (ret = -1 /\ option_map shape object' = option_map shape object
   /\ option_map type_of object' = option_map type_of object)
  \/ (exists p keys values new_keys new_values new_key members k v,
         ret = 0 /\ object = Some (V_OBJECT p keys values members)
         /\ key = Some k /\ value = Some v
         /\ object' = Some (V_OBJECT p (Some new_keys) (Some new_values)
                              (members ++ [(new_key, k, v)]))).
Proof.
  unfold rjson_object_add. intros H.
  destruct object as [[]|]; try (inversion H; left; repeat split; reflexivity).
  destruct key as [k|]; try (inversion H; left; repeat split; reflexivity).
  destruct value as [v|]; try (inversion H; left; repeat split; reflexivity).
  destruct (malloc _ h) as [[new_key|] h1];
    try (inversion H; left; repeat split; reflexivity).
  destruct (realloc keys _ h1) as [[new_keys|] h2];
    try (inversion H; left; repeat split; reflexivity).
  destruct (realloc values _ h2) as [[new_values|] h3].
  - inversion H; subst. right. eexists _, _, _, _, _, _, _, _, _. repeat split.
  - destruct (realloc (Some new_keys) _ h3) as [r h4].
    inversion H; subst. left. repeat split; reflexivity.
Qed.




(** C6: [rjson_object_add] on an empty object when the second growth is
    refused. It returns -1 with no member added, but the object is not as
    it was: [keys] was NULL and is now the address of the block that the
    first growth returned and that [realloc(keys, 0)] has released. The
    block is not live, and releasing the object afterwards releases it a
    second time. *)
Theorem C6_second_growth_failure_leaves_stale_keys :
  exists object child h k h',
    rjson_object_new (heap_init second_growth_refused) = (Some object, h)
    /\ object = V_OBJECT 1%positive None None []
    /\ rjson_null_new h = (Some child, snd (rjson_null_new h))
    /\ rjson_object_add (Some object) (Some (lit "a")) (Some child)
         (snd (rjson_null_new h))
       = (-1, Some (V_OBJECT 1%positive (Some k) None []), h')
    /\ bool_decide (k ∈ live h') = false
    /\ faults h' = []
    /\ faults (rjson_free (Some (V_OBJECT 1%positive (Some k) None [])) h') = [k]
    /\ faults (rjson_free (Some object) h') = [].
Proof.
  eexists _, _, _, _, _.
  split; [vm_compute; reflexivity|].
  split; [reflexivity|].
  split; [vm_compute; reflexivity|].
  split; [vm_compute; reflexivity|].
  repeat split; vm_compute; reflexivity.
Qed.

(** C9: decoding [{"a":1}] when the growth of [values] for the first member
    is refused. The decoder reports the failure, but the block of [keys] is
    released twice: by [realloc(keys, 0)] in [rjson_object_add] and again
    by [rjson_free(obj_val)] in [parse_object]. *)
Theorem C9_refused_growth_releases_keys_twice :
  exists h,
    rjson_parse (Some (quoted "{'a':1}"))
      (heap_init [Stay; Stay; Stay; Stay; Stay; Stay; Fail])
    = (None, h)
    /\ faults h = [6%positive]
    /\ elements (live h) = [].
Proof.
  eexists. split; [vm_compute; reflexivity|].
  split; vm_compute; reflexivity.
Qed.

(** ** Surrogate pairs in [unescape_string] *)

Lemma hex_digits_app n a rest cp :
  length a = n -> hex_digits n (a ++ rest) cp = hex_digits n a cp.
Proof.
  revert a cp. induction n as [|n IH]; intros a cp Ha; [reflexivity|].
  destruct a as [|c a]; [discriminate|]. simpl.
  destruct (hex_value c <? 0); [reflexivity|].
  unfold advance. simpl. apply IH. simpl in Ha. lia.
Qed.

Lemma hex_digits_split n p cp r :
  hex_digits n p cp = Some r -> (n <= length p)%nat ->
  exists a rest, p = a ++ rest /\ length a = n /\ hex_digits n a cp = Some r.
Proof.
  intros H Hn. exists (firstn n p), (skipn n p).
  assert (Hl : length (firstn n p) = n) by (rewrite length_firstn; lia).
  split; [symmetry; apply firstn_skipn|]. split; [exact Hl|].
  rewrite <- (hex_digits_app n (firstn n p) (skipn n p) cp Hl).
  rewrite firstn_skipn. exact H.
Qed.

Lemma combine_surrogates_pair hi lo b rest :
  high_surrogate hi -> low_surrogate lo ->
  length b = 4%nat -> hex_digits 4 b 0 = Some lo ->
  combine_surrogates hi ("\" :: "u" :: b ++ rest)
  = (0x10000 + Z.shiftl (hi - 0xD800) 10 + (lo - 0xDC00), rest).
Proof.
  intros [Hh1 Hh2] [Hl1 Hl2] Hb Hlo. unfold combine_surrogates.
  destruct b as [|b1 [|b2 [|b3 [|b4 [|]]]]]; try discriminate.
  replace ((0xD800 <=? hi) && (hi <=? 0xDBFF)) with true by lia.
  replace (6 <=? strlen ("\" :: "u" :: [b1; b2; b3; b4] ++ rest)) with true
    by (unfold strlen; simpl length; lia).
  change (advance 2 ("\" :: "u" :: [b1; b2; b3; b4] ++ rest))
    with ([b1; b2; b3; b4] ++ rest).
  rewrite (hex_digits_app 4 [b1; b2; b3; b4] rest 0 eq_refl), Hlo.
  replace ((0xDC00 <=? lo) && (lo <=? 0xDFFF)) with true by lia.
  reflexivity.
Qed.

Lemma combine_surrogates_alone cp p :
  (~ exists b rest lo, p = "\" :: "u" :: b ++ rest /\ length b = 4%nat
                       /\ hex_digits 4 b 0 = Some lo /\ low_surrogate lo) ->
  combine_surrogates cp p = (cp, p).
Proof.
  intros Hno. unfold combine_surrogates.
  destruct ((0xD800 <=? cp) && (cp <=? 0xDBFF)); [|reflexivity].
  destruct (6 <=? strlen p) eqn:Hlen; [|reflexivity].
  destruct p as [|c1 p]; [reflexivity|]. simpl peek.
  destruct (Ascii.eqb_spec c1 "\") as [->|]; [|reflexivity].
  change (advance 1 ("\" :: p)) with p.
  destruct p as [|c2 p]; [reflexivity|]. simpl peek.
  destruct (Ascii.eqb_spec c2 "u") as [->|]; [|reflexivity].
  change (advance 2 ("\" :: "u" :: p)) with p. simpl andb.
  destruct (hex_digits 4 p 0) as [lo|] eqn:Hlo; [|reflexivity].
  destruct ((0xDC00 <=? lo) && (lo <=? 0xDFFF)) eqn:Hrange; [|reflexivity].
  exfalso. apply Hno.
  destruct (hex_digits_split 4 p 0 lo Hlo) as (b & rest & -> & Hb & Hb').
  { unfold strlen in Hlen. simpl length in Hlen. lia. }
  exists b, rest, lo. repeat split; try assumption; lia.
Qed.

(** The bytes that [unescape_string] writes for a code point, against the
    table of UTF-8. *)
Lemma land_low x y k :
  0 <= k -> 0 <= y < 2 ^ k -> Z.land (x * 2 ^ k) y = 0.
Proof.
  intros Hk Hy.
  rewrite <- (Z.mod_small y (2 ^ k)) by lia.
  rewrite <- (Z.land_ones y k) by lia.
  rewrite Z.land_assoc, (Z.land_comm (x * 2 ^ k) y), <- Z.land_assoc.
  rewrite (Z.land_ones (x * 2 ^ k) k) by lia.
  rewrite Z.mod_mul by lia. apply Z.land_0_r.
Qed.

Lemma lor_low x y k :
  0 <= k -> 0 <= y < 2 ^ k -> Z.lor (x * 2 ^ k) y = x * 2 ^ k + y.
Proof.
  intros Hk Hy. pose proof (Z.add_lor_land (x * 2 ^ k) y) as H.
  rewrite land_low in H by assumption. lia.
Qed.

Lemma code_byte_of z : 0 <= z < 256 -> code (byte_of z) = z.
Proof.
  intros Hz. unfold code, byte_of. rewrite Z.mod_small by lia.
  rewrite N_ascii_embedding by lia. lia.
Qed.

Lemma byte_of_code c : byte_of (code c) = c.
Proof.
  unfold code, byte_of.
  assert (H : (N_of_ascii c < 256)%N) by apply N_ascii_bounded.
  rewrite Z.mod_small by lia. rewrite N2Z.id. apply ascii_N_embedding.
Qed.

Lemma land_63 x : Z.land x 0x3F = x mod 64.
Proof. exact (Z.land_ones x 6 ltac:(lia)). Qed.

Lemma utf8_encode_table cp :
  0 <= cp < 0x110000 -> map code (utf8_encode cp) = utf8_bytes cp.
Proof.
  intros Hcp. unfold utf8_encode, utf8_bytes.
  rewrite !land_63, !Z.shiftr_div_pow2 by lia.
  change (2 ^ 6) with 64. change (2 ^ 12) with 4096. change (2 ^ 18) with 262144.
  assert (H64 : forall x, 0 <= x mod 64 < 2 ^ 6) by (intros x; apply Z.mod_pos_bound; lia).
  assert (Hcont : forall x, Z.lor 128 (x mod 64) = 128 + x mod 64).
  { intros x. exact (lor_low 2 (x mod 64) 6 ltac:(lia) (H64 x)). }
  rewrite !Hcont.
  destruct (Z.ltb_spec cp 128).
  { cbn [map]. rewrite code_byte_of by lia. reflexivity. }
  destruct (Z.ltb_spec cp 2048).
  { assert (0 <= cp / 64 < 2 ^ 6)
      by (split; [apply Z.div_pos; lia|apply Z.div_lt_upper_bound; lia]).
    rewrite (lor_low 3 (cp / 64) 6 ltac:(lia) ltac:(lia) : Z.lor 192 _ = 192 + _).
    cbn [map]. pose proof (H64 cp). rewrite !code_byte_of by lia. reflexivity. }
  destruct (Z.ltb_spec cp 65536).
  { assert (0 <= cp / 4096 < 2 ^ 4)
      by (split; [apply Z.div_pos; lia|apply Z.div_lt_upper_bound; lia]).
    rewrite (lor_low 14 (cp / 4096) 4 ltac:(lia) ltac:(lia) : Z.lor 224 _ = 224 + _).
    cbn [map]. pose proof (H64 cp). pose proof (H64 (cp / 64)).
    rewrite !code_byte_of by lia. reflexivity. }
  assert (0 <= cp / 262144 < 2 ^ 3)
    by (split; [apply Z.div_pos; lia|apply Z.div_lt_upper_bound; lia]).
  rewrite (lor_low 30 (cp / 262144) 3 ltac:(lia) ltac:(lia) : Z.lor 240 _ = 240 + _).
  cbn [map]. pose proof (H64 cp). pose proof (H64 (cp / 64)). pose proof (H64 (cp / 4096)).
  rewrite !code_byte_of by lia. reflexivity.
Qed.

Lemma utf8_encode_bytes cp :
  0 <= cp < 0x110000 -> utf8_encode cp = map byte_of (utf8_bytes cp).
Proof.
  intros Hcp. rewrite <- (utf8_encode_table cp Hcp), map_map.
  rewrite <- (map_id (utf8_encode cp)) at 1. apply map_ext.
  intros c. symmetry. apply byte_of_code.
Qed.

Lemma number_of_from base ds : forall a,
  fold_left (fun a c => base * a + digit_val c) ds a
  = a * base ^ Z.of_nat (length ds) + number_of base ds.
Proof.
  unfold number_of. induction ds as [|d ds IH]; intros a.
  - cbn [fold_left length]. change (base ^ Z.of_nat 0) with 1. lia.
  - cbn [fold_left length]. rewrite IH, (IH (base * 0 + digit_val d)).
    rewrite Nat2Z.inj_succ, Z.pow_succ_r by lia. ring.
Qed.

Lemma number_of_app base a b :
  number_of base (a ++ b)
  = number_of base a * base ^ Z.of_nat (length b) + number_of base b.
Proof.
  unfold number_of at 1. rewrite fold_left_app. fold (number_of base a).
  apply number_of_from.
Qed.

(** The code point that the four digits of an escape denote. *)
Lemma hex_value_digit_val c :
  isxdigit c = true -> hex_value c = digit_val c /\ 0 <= digit_val c < 16.
Proof.
  destruct c as [[] [] [] [] [] [] [] []]; intros H; try discriminate H;
    vm_compute; repeat split; discriminate.
Qed.

Lemma hex_digits_value ds : forall rest cp,
  Forall (fun c => isxdigit c = true) ds -> 0 <= cp ->
  hex_digits (length ds) (ds ++ rest) cp
  = Some (cp * 16 ^ Z.of_nat (length ds) + number_of 16 ds).
Proof.
  induction ds as [|c ds IH]; intros rest cp Hds Hcp.
  - cbn [length hex_digits]. change (number_of 16 []) with 0.
    change (16 ^ Z.of_nat 0) with 1. f_equal. lia.
  - inversion Hds as [|? ? Hc Hrest]; subst.
    destruct (hex_value_digit_val c Hc) as [Hv Hb].
    cbn [length app hex_digits peek]. rewrite Hv.
    replace (digit_val c <? 0) with false by lia.
    change (advance 1 (c :: ds ++ rest)) with (ds ++ rest).
    rewrite Z.shiftl_mul_pow2 by lia.
    rewrite (lor_low cp (digit_val c) 4) by lia.
    rewrite IH by (assumption || lia). f_equal.
    change (c :: ds) with ([c] ++ ds). rewrite number_of_app.
    change (number_of 16 [c]) with (16 * 0 + digit_val c).
    rewrite Nat2Z.inj_succ, Z.pow_succ_r by lia. change (2 ^ 4) with 16. lia.
Qed.

(** C4: in [unescape_string], at an escape [\uHHHH] whose code point is a
    high surrogate that is followed at once by an escape [\uHHHH] of a low
    surrogate, the loop writes the bytes that UTF-8 has for the code point
    [0x10000 + ((high - 0xD800) << 10) + (low - 0xDC00)] by the table of
    RFC 3629 ([utf8_bytes]: four bytes here, the code point being at least
    [0x10000]) and goes on behind the second escape; a high surrogate that
    is not so followed, and a low surrogate at the place of an escape, make
    the decoding fail. The text of the two escapes D83D and DE00 between
    quotation marks decodes to the string of the bytes F0 9F 98 80. The
    code point of an escape is the number that its four hexadecimal digits,
    upper or lower case, denote in base 16. *)
Theorem C4_surrogate_pairs :
  (forall fuel d a b rest hi lo,
      length a = 4%nat -> hex_digits 4 a 0 = Some hi -> high_surrogate hi ->
      length b = 4%nat -> hex_digits 4 b 0 = Some lo -> low_surrogate lo ->
      let cp := 0x10000 + Z.shiftl (hi - 0xD800) 10 + (lo - 0xDC00) in
      unescape_loop (S fuel) ("\" :: "u" :: a ++ "\" :: "u" :: b ++ rest) d
      = unescape_loop fuel rest (d ++ map byte_of (utf8_bytes cp))
      /\ utf8_bytes cp
         = [0xF0 + cp / 2 ^ 18; 0x80 + cp / 2 ^ 12 mod 64; 0x80 + cp / 2 ^ 6 mod 64;
            0x80 + cp mod 64]
      /\ Forall (fun v => 0 <= v < 256) (utf8_bytes cp))
  /\ (forall fuel d a rest hi,
         length a = 4%nat -> hex_digits 4 a 0 = Some hi -> high_surrogate hi ->
         (~ exists b rest' lo, rest = "\" :: "u" :: b ++ rest' /\ length b = 4%nat
                               /\ hex_digits 4 b 0 = Some lo /\ low_surrogate lo) ->
         unescape_loop fuel ("\" :: "u" :: a ++ rest) d = None)
  /\ (forall fuel d a rest lo,
         length a = 4%nat -> hex_digits 4 a 0 = Some lo -> low_surrogate lo ->
         unescape_loop fuel ("\" :: "u" :: a ++ rest) d = None)
  /\ (exists p s h,
         rjson_parse (Some (quoted "'\uD83D\uDE00'")) (heap_init [])
         = (Some (V_STRING p (Some (s, ["240"; "159"; "152"; "128"]))), h))
  /\ (forall a rest,
         length a = 4%nat -> Forall (fun c => isxdigit c = true) a ->
         hex_digits 4 (a ++ rest) 0 = Some (number_of 16 a)).
Proof.
  split; [|split; [|split; [|split]]].
  - intros fuel d a b rest hi lo Ha Hhi Hh Hb Hlo Hl.
    destruct a as [|a1 [|a2 [|a3 [|a4 [|]]]]]; try discriminate.
    cbn [unescape_loop].
    replace (strlen ("u" :: [a1; a2; a3; a4] ++ "\" :: "u" :: b ++ rest) <? 5)
      with false by (unfold strlen; simpl length; lia).
    rewrite (hex_digits_app 4 [a1; a2; a3; a4] _ 0 eq_refl), Hhi.
    change (advance 4 ([a1; a2; a3; a4] ++ "\" :: "u" :: b ++ rest))
      with ("\" :: "u" :: b ++ rest).
    rewrite (combine_surrogates_pair hi lo b rest Hh Hl Hb Hlo).
    destruct Hh as [Hh1 Hh2], Hl as [Hl1 Hl2].
    assert (Hs : Z.shiftl (hi - 0xD800) 10 = (hi - 0xD800) * 1024)
      by (rewrite Z.shiftl_mul_pow2 by lia; reflexivity).
    rewrite Hs.
    assert (Hcp : 0x10000 <= 0x10000 + (hi - 0xD800) * 1024 + (lo - 0xDC00) < 0x110000)
      by lia.
    remember (0x10000 + (hi - 0xD800) * 1024 + (lo - 0xDC00)) as cp eqn:Ecp.
    clear Ecp Hs. cbv zeta.
    replace (_ || _) with false by lia.
    rewrite (utf8_encode_bytes cp ltac:(lia)). split; [reflexivity|].
    unfold utf8_bytes.
    replace (cp <? 128) with false by lia. replace (cp <? 2048) with false by lia.
    replace (cp <? 65536) with false by lia.
    change (2 ^ 18) with 262144. change (2 ^ 12) with 4096. change (2 ^ 6) with 64.
    split; [reflexivity|].
    assert (0 <= cp / 262144 < 8)
      by (split; [apply Z.div_pos; lia|apply Z.div_lt_upper_bound; lia]).
    pose proof (Z.mod_pos_bound (cp / 4096) 64 ltac:(lia)).
    pose proof (Z.mod_pos_bound (cp / 64) 64 ltac:(lia)).
    pose proof (Z.mod_pos_bound cp 64 ltac:(lia)).
    repeat constructor; lia.
  - intros fuel d a rest hi Ha Hhi Hh Hno.
    destruct a as [|a1 [|a2 [|a3 [|a4 [|]]]]]; try discriminate.
    destruct fuel as [|fuel]; [reflexivity|]. cbn [unescape_loop].
    replace (strlen ("u" :: [a1; a2; a3; a4] ++ rest) <? 5)
      with false by (unfold strlen; simpl length; lia).
    rewrite (hex_digits_app 4 [a1; a2; a3; a4] _ 0 eq_refl), Hhi.
    change (advance 4 ([a1; a2; a3; a4] ++ rest)) with rest.
    rewrite (combine_surrogates_alone hi rest Hno).
    destruct Hh as [Hh1 Hh2]. replace (_ || _) with true by lia. reflexivity.
  - intros fuel d a rest lo Ha Hlo Hl.
    destruct a as [|a1 [|a2 [|a3 [|a4 [|]]]]]; try discriminate.
    destruct fuel as [|fuel]; [reflexivity|]. cbn [unescape_loop].
    replace (strlen ("u" :: [a1; a2; a3; a4] ++ rest) <? 5)
      with false by (unfold strlen; simpl length; lia).
    rewrite (hex_digits_app 4 [a1; a2; a3; a4] _ 0 eq_refl), Hlo.
    destruct Hl as [Hl1 Hl2]. unfold combine_surrogates.
    replace ((0xD800 <=? lo) && (lo <=? 0xDBFF)) with false by lia.
    replace (_ || _) with true by lia. reflexivity.
  - eexists _, _, _. vm_compute. reflexivity.
  - intros a rest Ha Hx. rewrite <- Ha.
    rewrite (hex_digits_value a rest 0 Hx ltac:(lia)). reflexivity.
Qed.

Lemma C4_surrogate_pairs_witness :
  unescape_loop 12 ("\" :: "u" :: lit "D83D" ++ "\" :: "u" :: lit "DE00" ++ []) []
  = Some ["240"; "159"; "152"; "128"]
  /\ unescape_loop 6 ("\" :: "u" :: lit "D83D" ++ lit "x") [] = None
  /\ unescape_loop 6 ("\" :: "u" :: lit "DE00" ++ []) [] = None
  /\ hex_digits 4 (lit "d83D" ++ lit "x") 0 = Some (number_of 16 (lit "d83D")).
Proof.
  split; [|split; [|split]].
  - rewrite (proj1 (proj1 C4_surrogate_pairs 11%nat [] (lit "D83D") (lit "DE00") []
                      0xD83D 0xDE00 eq_refl eq_refl ltac:(unfold high_surrogate; lia)
                      eq_refl eq_refl ltac:(unfold low_surrogate; lia))).
    reflexivity.
  - apply (proj1 (proj2 C4_surrogate_pairs) 6%nat [] (lit "D83D") (lit "x") 0xD83D);
      try reflexivity; [unfold high_surrogate; lia|].
    intros (b & rest' & lo & H & _). discriminate H.
  - apply (proj1 (proj2 (proj2 C4_surrogate_pairs)) 6%nat [] (lit "DE00") [] 0xDE00);
      try reflexivity. unfold low_surrogate; lia.
  - apply (proj2 (proj2 (proj2 (proj2 C4_surrogate_pairs))) (lit "d83D") (lit "x"));
      [reflexivity|repeat constructor].
Defined.

(** ** The heap when no request is refused *)

Lemma next_outcome_granted h :
  granted h ->
  fst (next_outcome h) <> Fail /\ granted (snd (next_outcome h)).
Proof.
  unfold granted, next_outcome. intros H.
  destruct (fate h) as [|o f] eqn:Hf; simpl.
  - split; [discriminate|]. rewrite Hf. constructor.
  - inversion H; subst. split; assumption.
Qed.

Lemma malloc_granted size h :
  granted h -> exists a h', malloc size h = (Some a, h') /\ granted h'.
Proof.
  intros H. unfold malloc.
  destruct (next_outcome_granted h H) as [Ho Hg].
  destruct (next_outcome h) as [o h1]. simpl in Ho, Hg.
  destruct o; [contradiction| |]; eexists _, _; (split; [reflexivity|exact Hg]).
Qed.

Lemma free_granted p h : granted h -> granted (free p h).
Proof.
  unfold granted, free, fault. intros H.
  destruct p as [a|]; [|exact H]. destruct (bool_decide _); exact H.
Qed.

Lemma realloc_granted p size h :
  granted h -> size <> 0 ->
  exists a h', realloc p size h = (Some a, h') /\ granted h'.
Proof.
  intros H Hs. unfold realloc. destruct p as [a|]; [|apply malloc_granted, H].
  replace (size =? 0) with false by lia.
  destruct (next_outcome_granted h H) as [Ho Hg].
  destruct (next_outcome h) as [o h1]. simpl in Ho, Hg.
  destruct o; [contradiction| |]; eexists _, _; (split; [reflexivity|]).
  - destruct (bool_decide _); exact Hg.
  - apply (free_granted (Some a)). exact Hg.
Qed.

Lemma create_value_granted type h :
  granted h ->
  exists p h', create_value type h = (Some (zeroed type p), h') /\ granted h'.
Proof.
  intros H. unfold create_value, calloc.
  destruct (malloc_granted (1 * sizeof_rjson_value) h H) as (a & h' & -> & Hg).
  eexists _, _. split; [reflexivity|exact Hg].
Qed.

Lemma grow_capacity_nonzero fuel c need : c <> 0 -> grow_capacity fuel c need <> 0.
Proof.
  revert c. induction fuel as [|fuel IH]; intros c Hc; simpl; [exact Hc|].
  destruct (c <? need); [apply IH; lia|exact Hc].
Qed.

(** The loop of [strbuf_append] stops within its bound: the capacity it
    leaves holds what is needed. *)
Lemma grow_capacity_reaches fuel : forall c need,
  0 < c -> need <= c * 2 ^ Z.of_nat fuel -> need <= grow_capacity fuel c need.
Proof.
  induction fuel as [|fuel IH]; intros c need Hc Hn; cbn [grow_capacity].
  - change (2 ^ Z.of_nat 0) with 1 in Hn. lia.
  - destruct (Z.ltb_spec c need) as [Hlt|Hge]; [|exact Hge].
    apply IH; [lia|]. rewrite Nat2Z.inj_succ, Z.pow_succ_r in Hn by lia. lia.
Qed.

Lemma grow_capacity_enough c need :
  0 < c -> need <= grow_capacity (Z.to_nat need) c need.
Proof.
  intros Hc. destruct (Z_le_gt_dec need 0) as [Hn|Hn].
  - replace (Z.to_nat need) with 0%nat by lia. cbn [grow_capacity]. lia.
  - apply grow_capacity_reaches; [exact Hc|]. rewrite Z2Nat.id by lia.
    assert (need < 2 ^ need) by (apply Z.pow_gt_lin_r; lia). nia.
Qed.

Lemma strbuf_append_granted sb data len h :
  granted h ->
  exists sb' h',
    strbuf_append sb data len h = (0, sb', h')
    /\ written sb' = written sb ++ firstn (Z.to_nat len) data
    /\ granted h'.
Proof.
  intros H. unfold strbuf_append.
  destruct (sb_length sb + len + 1 >? capacity sb).
  - edestruct (realloc_granted (buffer sb)) as (a & h' & -> & Hg); [exact H| |].
    + apply grow_capacity_nonzero. destruct (capacity sb =? 0) eqn:E; lia.
    + eexists _, _. split; [reflexivity|]. split; [reflexivity|exact Hg].
  - eexists _, _. split; [reflexivity|]. split; [reflexivity|exact H].
Qed.

(** ** Escaping *)

Lemma replacement_escaped c :
  match replacement c with
  | Some (r, len) => escaped_byte c = r /\ len = strlen r
  | None => escaped_byte c = [c]
  end.
Proof.
  destruct c as [[] [] [] [] [] [] [] []]; vm_compute; repeat split; reflexivity.
Qed.

Lemma firstn_strlen (s : c_string) : firstn (Z.to_nat (strlen s)) s = s.
Proof. unfold strlen. rewrite Nat2Z.id. apply firstn_all. Qed.

Lemma escape_loop_granted p chunk sb h :
  granted h ->
  exists sb' h',
    escape_loop p chunk sb h = (0, sb', h')
    /\ written sb' = written sb ++ chunk ++ escaped p ++ ["034"]
    /\ granted h'.
Proof.
  revert chunk sb h. induction p as [|c p IH]; intros chunk sb h H.
  - cbn [escape_loop escaped map concat app].
    assert (Hchunk : exists sb1 h1,
               match chunk with
               | [] => (0, sb, h)
               | _ :: _ => strbuf_append sb chunk (strlen chunk) h
               end = (0, sb1, h1)
               /\ written sb1 = written sb ++ chunk /\ granted h1).
    { destruct chunk as [|c0 chunk0].
      - eexists _, _. rewrite app_nil_r. repeat split. exact H.
      - destruct (strbuf_append_granted sb (c0 :: chunk0) (strlen (c0 :: chunk0)) h H)
          as (sb1 & h1 & E & Hw & Hg).
        rewrite firstn_strlen in Hw. eexists _, _. repeat split; eassumption. }
    destruct Hchunk as (sb1 & h1 & -> & Hw1 & Hg1). simpl negb. cbv iota.
    destruct (strbuf_append_granted sb1 ["034"] 1 h1 Hg1) as (sb2 & h2 & -> & Hw2 & Hg2).
    eexists _, _. split; [reflexivity|]. split; [|exact Hg2].
    rewrite Hw2, Hw1. simpl. rewrite <- app_assoc. reflexivity.
  - cbn [escape_loop]. unfold escaped. cbn [map concat]. fold (escaped p).
    pose proof (replacement_escaped c) as Hr.
    destruct (replacement c) as [[r len]|].
    + destruct Hr as [Hr ->].
      assert (Hchunk : exists sb1 h1,
                 match chunk with
                 | [] => (0, sb, h)
                 | _ :: _ => strbuf_append sb chunk (strlen chunk) h
                 end = (0, sb1, h1)
                 /\ written sb1 = written sb ++ chunk /\ granted h1).
      { destruct chunk as [|c0 chunk0].
        - eexists _, _. rewrite app_nil_r. repeat split. exact H.
        - destruct (strbuf_append_granted sb (c0 :: chunk0) (strlen (c0 :: chunk0)) h H)
            as (sb1 & h1 & E & Hw & Hg).
          rewrite firstn_strlen in Hw. eexists _, _. repeat split; eassumption. }
      destruct Hchunk as (sb1 & h1 & -> & Hw1 & Hg1). simpl negb. cbv iota.
      destruct (strbuf_append_granted sb1 r (strlen r) h1 Hg1)
        as (sb2 & h2 & -> & Hw2 & Hg2).
      rewrite firstn_strlen in Hw2. simpl negb. cbv iota.
      destruct (IH [] sb2 h2 Hg2) as (sb3 & h3 & -> & Hw3 & Hg3).
      eexists _, _. split; [reflexivity|]. split; [|exact Hg3].
      rewrite Hw3, Hw2, Hw1, Hr. simpl. rewrite <- !app_assoc. reflexivity.
    + destruct (IH (chunk ++ [c]) sb h H) as (sb3 & h3 & -> & Hw3 & Hg3).
      eexists _, _. split; [reflexivity|]. split; [|exact Hg3].
      rewrite Hw3, Hr. rewrite <- !app_assoc. reflexivity.
Qed.

Lemma escape_string_granted in_ sb h :
  granted h ->
  exists sb' h',
    escape_string in_ sb h = (0, sb', h')
    /\ written sb' = written sb ++ "034" :: escaped in_ ++ ["034"]
    /\ granted h'.
Proof.
  intros H. unfold escape_string.
  destruct (strbuf_append_granted sb ["034"] 1 h H) as (sb1 & h1 & -> & Hw1 & Hg1).
  destruct (escape_loop_granted in_ [] sb1 h1 Hg1) as (sb2 & h2 & -> & Hw2 & Hg2).
  eexists _, _. split; [reflexivity|]. split; [|exact Hg2].
  rewrite Hw2, Hw1. simpl. rewrite <- app_assoc. reflexivity.
Qed.

(** C7: [escape_string] writes a quotation mark, for every byte of the
    string its escape, and a quotation mark, where the escape of a byte is:
    a backslash and the byte itself for the quotation mark and the
    backslash; the two characters [\b \f \n \r \t] for the bytes 08, 0C,
    0A, 0D, 09; [\u00XX] with lowercase digits for any other byte below
    20; the byte itself for every byte from 20 up other than the two
    (the solidus and the bytes from 80 up among them). The string of the
    one byte 01 is encoded as [\u0001] between quotation marks, and the
    line feed and the tab of [line_break_tab] as [\n] and [\t]. *)
Theorem C7_escape_string_table :
  (forall in_ sb h,
      granted h ->
      exists sb' h',
        escape_string in_ sb h = (0, sb', h')
        /\ written sb' = written sb ++ "034" :: escaped in_ ++ ["034"])
  /\ (forall c, 0x20 <= code c -> c <> "034" -> c <> "\" -> escaped_byte c = [c])
  /\ (forall c, code c < 0x20 ->
         ~ In (code c) [0x08; 0x09; 0x0A; 0x0C; 0x0D] ->
         escaped_byte c
         = lit "\u00" ++ [lower_hex (code c / 16); lower_hex (code c mod 16)])
  /\ (escaped_byte "034" = quoted "\'" /\ escaped_byte "\" = lit "\\"
      /\ escaped_byte "008" = lit "\b" /\ escaped_byte "012" = lit "\f"
      /\ escaped_byte "010" = lit "\n" /\ escaped_byte "013" = lit "\r"
      /\ escaped_byte "009" = lit "\t" /\ escaped_byte "/" = lit "/")
  /\ (exists v h b h',
         rjson_string_new ["001"] (heap_init []) = (Some v, h)
         /\ rjson_serialize (Some v) (Some None) None h
            = (0, Some (Some (b, quoted "'\u0001'")), None, h'))
  /\ (exists v h b h',
         rjson_string_new line_break_tab (heap_init []) = (Some v, h)
         /\ rjson_serialize (Some v) (Some None) None h
            = (0, Some (Some (b, quoted "'Line\nBreak\tTab'")), None, h')).
Proof.
  split; [|split; [|split; [|split; [|split]]]].
  - intros in_ sb h H.
    destruct (escape_string_granted in_ sb h H) as (sb' & h' & E & Hw & _).
    eexists _, _. split; eassumption.
  - intros c Hc Hq Hb.
    destruct c as [[] [] [] [] [] [] [] []];
      try reflexivity; try (exfalso; vm_compute in Hc; apply Hc; reflexivity);
      try (exfalso; apply Hq; reflexivity); exfalso; apply Hb; reflexivity.
  - intros c Hc Hn.
    destruct c as [[] [] [] [] [] [] [] []];
      try reflexivity; try (exfalso; vm_compute in Hc; discriminate Hc);
      exfalso; apply Hn; vm_compute; tauto.
  - repeat split; reflexivity.
  - eexists _, _, _, _. split; [vm_compute; reflexivity|]. vm_compute. reflexivity.
  - eexists _, _, _, _. split; [vm_compute; reflexivity|]. vm_compute. reflexivity.
Qed.

Lemma C7_escape_string_table_witness :
  exists sb' h',
    escape_string ["001"; "/"; "034"] (Strbuf None [] 0) (heap_init [])
    = (0, sb', h')
    /\ written sb' = [] ++ "034" :: escaped ["001"; "/"; "034"] ++ ["034"].
Proof.
  apply (proj1 C7_escape_string_table). unfold granted. simpl. constructor.
Defined.

(** ** Induction on trees *)

Lemma rjson_value_induction (P : rjson_value -> Prop) :
  (forall p, P (V_NULL p)) ->
  (forall p b, P (V_BOOL p b)) ->
  (forall p x, P (V_NUMBER p x)) ->
  (forall p s, P (V_STRING p s)) ->
  (forall p elements elems, Forall P elems -> P (V_ARRAY p elements elems)) ->
  (forall p keys values members,
      Forall (fun m => P (snd m)) members -> P (V_OBJECT p keys values members)) ->
  forall v, P v.
Proof.
  intros Hn Hb Hx Hs Ha Ho. fix IH 1.
  intros [p|p b|p x|p s|p elements elems|p keys values members].
  - apply Hn.
  - apply Hb.
  - apply Hx.
  - apply Hs.
  - apply Ha. induction elems as [|e elems IHe]; constructor; [apply IH|exact IHe].
  - apply Ho. induction members as [|m members IHm]; constructor; [apply IH|exact IHm].
Qed.

(** ** Numbers that are not finite *)

Lemma strbuf_append_ret sb data len h :
  fst (fst (strbuf_append sb data len h)) = 0
  \/ fst (fst (strbuf_append sb data len h)) = -1.
Proof.
  unfold strbuf_append.
  destruct (_ >? _); [|left; reflexivity].
  destruct (realloc _ _ _) as [[b|] h']; [left|right]; reflexivity.
Qed.

Section Failing_elements.

Variable ser : rjson_value -> strbuf -> heap -> Z * strbuf * heap.

Lemma serialize_elements_fails first elems sb h :
  Exists (fun e => forall sb h, fst (fst (ser e sb h)) = -1) elems ->
  fst (fst (serialize_elements ser first elems sb h)) = -1.
Proof.
  intros Hex. revert first sb h.
  induction elems as [|e elems IH]; intros first sb h; [inversion Hex|].
  cbn [serialize_elements].
  destruct (if first then (0, sb, h) else strbuf_append sb [","] 1 h)
    as [[ret sb1] h1].
  destruct (ret =? 0); [|reflexivity]. simpl negb. cbv iota.
  destruct (ser e sb1 h1) as [[ret2 sb2] h2] eqn:E2.
  destruct (ret2 =? 0) eqn:Hret2; [|reflexivity]. simpl negb. cbv iota.
  inversion Hex as [? ? Hbad|? ? Hrest]; subst.
  - specialize (Hbad sb1 h1). rewrite E2 in Hbad. simpl in Hbad. lia.
  - apply IH. exact Hrest.
Qed.

Lemma serialize_members_fails first members sb h :
  Exists (fun m => forall sb h, fst (fst (ser (snd m) sb h)) = -1) members ->
  fst (fst (serialize_members ser first members sb h)) = -1.
Proof.
  intros Hex. revert first sb h.
  induction members as [|m members IH]; intros first sb h; [inversion Hex|].
  cbn [serialize_members].
  destruct (if first then (0, sb, h) else strbuf_append sb [","] 1 h)
    as [[ret sb1] h1].
  destruct (ret =? 0); [|reflexivity]. simpl negb. cbv iota.
  destruct (escape_string (snd (fst m)) sb1 h1) as [[ret2 sb2] h2].
  destruct (ret2 =? 0); [|reflexivity]. simpl negb. cbv iota.
  destruct (strbuf_append sb2 [":"] 1 h2) as [[ret3 sb3] h3].
  destruct (ret3 =? 0); [|reflexivity]. simpl negb. cbv iota.
  destruct (ser (snd m) sb3 h3) as [[ret4 sb4] h4] eqn:E4.
  destruct (ret4 =? 0) eqn:Hret4; [|reflexivity]. simpl negb. cbv iota.
  inversion Hex as [? ? Hbad|? ? Hrest]; subst.
  - specialize (Hbad sb3 h3). rewrite E4 in Hbad. simpl in Hbad. lia.
  - apply IH. exact Hrest.
Qed.

End Failing_elements.

Lemma serialize_value_nonfinite v :
  has_nonfinite v = true ->
  forall sb depth h, fst (fst (serialize_value v sb depth h)) = -1.
Proof.
  induction v as [p|p b|p x|p s|p elements elems IH|p keys values members IH]
    using rjson_value_induction; intros Hv sb depth h; try discriminate Hv.
  - cbn [serialize_value]. destruct (depth >=? RJSON_MAX_DEPTH); [reflexivity|].
    unfold serialize_number. simpl in Hv. rewrite Hv. reflexivity.
  - cbn [serialize_value]. destruct (depth >=? RJSON_MAX_DEPTH); [reflexivity|].
    destruct (strbuf_append sb ["["] 1 h) as [[ret sb1] h1].
    destruct (ret =? 0); [|reflexivity]. simpl negb. cbv iota.
    match goal with
    | |- context [serialize_elements ?f true elems sb1 h1] =>
        pose proof (serialize_elements_fails f true elems sb1 h1) as Hf;
        destruct (serialize_elements f true elems sb1 h1) as [[ret2 sb2] h2]
    end.
    simpl in Hf. rewrite Hf; [reflexivity|].
    simpl in Hv. apply existsb_exists in Hv. destruct Hv as (e & Hin & He).
    apply Exists_exists. exists e. split; [apply list_elem_of_In; exact Hin|].
    rewrite Forall_forall in IH. intros sb' h'.
    apply (IH e); [apply list_elem_of_In; exact Hin|exact He].
  - cbn [serialize_value]. destruct (depth >=? RJSON_MAX_DEPTH); [reflexivity|].
    destruct (strbuf_append sb ["{"] 1 h) as [[ret sb1] h1].
    destruct (ret =? 0); [|reflexivity]. simpl negb. cbv iota.
    match goal with
    | |- context [serialize_members ?f true members sb1 h1] =>
        pose proof (serialize_members_fails f true members sb1 h1) as Hf;
        destruct (serialize_members f true members sb1 h1) as [[ret2 sb2] h2]
    end.
    simpl in Hf. rewrite Hf; [reflexivity|].
    simpl in Hv. apply existsb_exists in Hv. destruct Hv as (m & Hin & Hm).
    apply Exists_exists. exists m. split; [apply list_elem_of_In; exact Hin|].
    rewrite Forall_forall in IH. intros sb' h'.
    apply (IH m); [apply list_elem_of_In; exact Hin|exact Hm].
Qed.

Lemma rjson_serialize_nonfinite value out_string out_length h :
  has_nonfinite value = true ->
  exists h',
    rjson_serialize (Some value) out_string out_length h
    = (-1, out_string, out_length, h').
Proof.
  intros Hv. unfold rjson_serialize.
  destruct out_string as [cell|]; [|eexists; reflexivity].
  destruct (strbuf_init 1024 h) as [[ret [sb|]] h1]; [|eexists; reflexivity].
  pose proof (serialize_value_nonfinite value Hv sb 0 h1) as Hf.
  destruct (serialize_value value sb 0 h1) as [[ret2 sb2] h2].
  simpl in Hf. subst ret2. simpl. eexists; reflexivity.
Qed.

(** ** The text of a finite number *)

Ltac number_byte_known := first [left; reflexivity | right; simpl; tauto].

Lemma digit_byte_isdigit n : isdigit (byte_of (code "0" + n mod 10)) = true.
Proof.
  assert (H : 0 <= n mod 10 < 10) by (apply Z.mod_pos_bound; lia).
  assert (Hc : n mod 10 = 0 \/ n mod 10 = 1 \/ n mod 10 = 2 \/ n mod 10 = 3
               \/ n mod 10 = 4 \/ n mod 10 = 5 \/ n mod 10 = 6 \/ n mod 10 = 7
               \/ n mod 10 = 8 \/ n mod 10 = 9) by lia.
  repeat (destruct Hc as [Hc|Hc]; [rewrite Hc; reflexivity|]).
  rewrite Hc; reflexivity.
Qed.

Lemma digits_of_length len n acc :
  length (digits_of len n acc) = (len + length acc)%nat.
Proof.
  revert n acc. induction len as [|len IH]; intros n acc; simpl; [reflexivity|].
  rewrite IH. simpl. lia.
Qed.

Lemma digits_of_bytes (P : byte -> Prop) len n acc :
  (forall c, isdigit c = true -> P c) -> Forall P acc -> Forall P (digits_of len n acc).
Proof.
  intros HP. revert n acc. induction len as [|len IH]; intros n acc Hacc; simpl.
  - exact Hacc.
  - apply IH. constructor; [apply HP, digit_byte_isdigit|exact Hacc].
Qed.

Lemma strip_zeros_rev_suffix r : exists pre, r = pre ++ strip_zeros_rev r.
Proof.
  induction r as [|c r [pre IH]]; [exists []; reflexivity|].
  simpl. destruct (Ascii.eqb_spec c "0") as [->|Hc].
  - exists ("0" :: pre). simpl. f_equal. exact IH.
  - exists []. destruct c as [[] [] [] [] [] [] [] []]; try reflexivity.
    contradiction Hc. reflexivity.
Qed.

Lemma strip_zeros_prefix ds : exists post, ds = strip_zeros ds ++ post.
Proof.
  unfold strip_zeros. destruct (strip_zeros_rev_suffix (rev ds)) as [pre H].
  exists (rev pre). rewrite <- rev_app_distr, <- H. symmetry. apply rev_involutive.
Qed.

Lemma with_fraction_length point ip fp :
  (length (with_fraction point ip fp) <= length ip + 1 + length fp)%nat.
Proof.
  unfold with_fraction. destruct (strip_zeros_prefix fp) as [post H].
  destruct (strip_zeros fp) as [|c fp'] eqn:E; [lia|].
  apply (f_equal (@length byte)) in H. rewrite length_app in H.
  rewrite length_app. simpl in *. lia.
Qed.

Lemma with_fraction_bytes (P : byte -> Prop) point ip fp :
  P point -> Forall P ip -> Forall P fp -> Forall P (with_fraction point ip fp).
Proof.
  intros Hp Hip Hfp. unfold with_fraction.
  destruct (strip_zeros_prefix fp) as [post H].
  destruct (strip_zeros fp) as [|c fp'] eqn:E; [exact Hip|].
  apply Forall_app. split; [exact Hip|]. constructor; [exact Hp|].
  rewrite H in Hfp. apply Forall_app in Hfp. destruct Hfp as [Hfp _].
  exact Hfp.
Qed.

Lemma count_up_bounds fuel num den :
  0 <= count_up fuel num den <= Z.of_nat fuel.
Proof.
  revert den. induction fuel as [|fuel IH]; intros den; cbn [count_up]; [lia|].
  destruct (10 * den <=? num); [specialize (IH (10 * den))|]; lia.
Qed.

Lemma count_down_bounds fuel num den :
  0 <= count_down fuel num den <= Z.of_nat fuel.
Proof.
  revert num. induction fuel as [|fuel IH]; intros num; cbn [count_down]; [lia|].
  destruct (num <? den); [specialize (IH (10 * num))|]; lia.
Qed.

Lemma log10_floor_bounds num den :
  0 < num -> 0 < den ->
  - (Z.log2 den + 1) <= log10_floor num den <= Z.log2 num.
Proof.
  intros Hn Hd. unfold log10_floor.
  pose proof (Z.log2_nonneg num). pose proof (Z.log2_nonneg den).
  destruct (den <=? num).
  - pose proof (count_up_bounds (Z.to_nat (Z.log2 num)) num den). lia.
  - pose proof (count_down_bounds (Z.to_nat (Z.log2 den) + 1) num den). lia.
Qed.

Lemma decimal_length min n :
  (length (decimal min n) <= Nat.max min (Z.to_nat (Z.log2 (Z.max n 1)) + 1))%nat.
Proof.
  unfold decimal. rewrite digits_of_length. simpl length.
  pose proof (log10_floor_bounds (Z.max n 1) 1 ltac:(lia) ltac:(lia)). lia.
Qed.

Lemma decimal_bytes (P : byte -> Prop) min n :
  (forall c, isdigit c = true -> P c) -> Forall P (decimal min n).
Proof. intros HP. unfold decimal. apply digits_of_bytes; [exact HP|constructor]. Qed.

Lemma sig_digits_exponent P num den :
  0 < num -> 0 < den ->
  - (Z.log2 den + 1) <= snd (sig_digits P num den) <= Z.log2 num + 1.
Proof.
  intros Hn Hd. unfold sig_digits.
  pose proof (log10_floor_bounds num den Hn Hd).
  destruct (_ =? _); simpl; lia.
Qed.

Lemma format_g_17 num den :
  0 < num -> 0 < den -> Z.log2 num < 1100 -> Z.log2 den < 1100 ->
  (length (format_g 17 "." num den) <= 40)%nat
  /\ Forall number_byte (format_g 17 "." num den).
Proof.
  intros Hn Hd Hln Hld. unfold format_g.
  pose proof (sig_digits_exponent 17 num den Hn Hd) as Hx.
  destruct (sig_digits 17 num den) as [n x]. simpl in Hx.
  assert (Hdigit : forall c, isdigit c = true -> number_byte c)
    by (intros c Hc; left; exact Hc).
  assert (Hds : Forall number_byte (digits_of (Z.to_nat 17) n []))
    by (apply digits_of_bytes; [exact Hdigit|constructor]).
  assert (Hlen : length (digits_of (Z.to_nat 17) n []) = 17%nat)
    by (rewrite digits_of_length; reflexivity).
  assert (Hpoint : number_byte ".") by number_byte_known.
  remember (digits_of (Z.to_nat 17) n []) as ds eqn:Eds. clear Eds.
  destruct ((x <? -4) || (17 <=? x)) eqn:Hexp.
  - split.
    + pose proof (with_fraction_length "." (firstn 1 ds) (skipn 1 ds)) as Hw.
      pose proof (decimal_length 2 (Z.abs x)) as Hdec.
      assert (Z.log2 (Z.max (Z.abs x) 1) <= 11).
      { apply Z.lt_succ_r. apply Z.log2_lt_pow2; [lia|].
        change (2 ^ Z.succ 11) with 4096. lia. }
      rewrite length_app. rewrite length_firstn, length_skipn, Hlen in Hw.
      cbn [length]. lia.
    + apply Forall_app. split.
      * apply with_fraction_bytes; [exact Hpoint| |].
        -- apply Forall_take. exact Hds.
        -- apply Forall_drop. exact Hds.
      * constructor; [number_byte_known|].
        constructor; [destruct (x <? 0); number_byte_known|].
        apply decimal_bytes. exact Hdigit.
  - destruct (x <? 0) eqn:Hneg.
    + split.
      * pose proof (with_fraction_length "." ["0"]
                      (repeat "0" (Z.to_nat (- x - 1)) ++ ds)) as Hw.
        rewrite length_app, repeat_length, Hlen in Hw. cbn [length] in Hw. lia.
      * apply with_fraction_bytes; [exact Hpoint| |].
        -- constructor; [number_byte_known|constructor].
        -- apply Forall_app. split; [|exact Hds].
           apply Forall_forall. intros c Hc. apply list_elem_of_In in Hc.
           apply repeat_spec in Hc. subst c. number_byte_known.
    + split.
      * pose proof (with_fraction_length "."
                      (firstn (Z.to_nat (x + 1)) ds) (skipn (Z.to_nat (x + 1)) ds)) as Hw.
        rewrite length_firstn, length_skipn, Hlen in Hw. lia.
      * apply with_fraction_bytes; [exact Hpoint| |].
        -- apply Forall_take. exact Hds.
        -- apply Forall_drop. exact Hds.
Qed.

Lemma digits2_pos_bound m : Zpos m < 2 ^ Zpos (digits2_pos m).
Proof.
  induction m as [m IH|m IH|]; cbn [digits2_pos].
  - rewrite Pos2Z.inj_succ, Z.pow_succ_r by lia. lia.
  - rewrite Pos2Z.inj_succ, Z.pow_succ_r by lia. lia.
  - reflexivity.
Qed.

Lemma valid_binary64_bounds s m e :
  valid_binary 53 1024 (S754_finite s m e) = true ->
  Zpos m < 2 ^ 53 /\ -1074 <= e <= 971.
Proof.
  unfold valid_binary, bounded, canonical_mantissa, fexp, emin. intros H.
  apply andb_true_iff in H. destruct H as [Hc He].
  apply Z.eqb_eq in Hc. apply Z.leb_le in He.
  split; [|lia].
  apply Z.lt_le_trans with (2 ^ Zpos (digits2_pos m)); [apply digits2_pos_bound|].
  apply Z.pow_le_mono_r; lia.
Qed.

Lemma printf_g_17_text x :
  isfinite x = true -> valid_binary 53 1024 x = true ->
  (length (printf_g 17 "." x) <= 41)%nat /\ Forall number_byte (printf_g 17 "." x).
Proof.
  intros Hf Hv. destruct x as [s|s| |s m e]; try discriminate Hf.
  - assert (H0 : number_byte "0") by number_byte_known.
    assert (Hm : number_byte "-") by number_byte_known.
    destruct s; simpl; (split; [lia|]); repeat (constructor; try assumption).
  - destruct (valid_binary64_bounds s m e Hv) as [Hm He].
    unfold printf_g.
    assert (Hnum : 0 < Zpos m * 2 ^ Z.max 0 e) by (apply Z.mul_pos_pos; lia).
    assert (Hden : 0 < 2 ^ Z.max 0 (- e)) by lia.
    destruct (format_g_17 (Zpos m * 2 ^ Z.max 0 e) (2 ^ Z.max 0 (- e)) Hnum Hden)
      as [Hlen Hbytes].
    + apply Z.log2_lt_pow2; [exact Hnum|].
      apply Z.lt_le_trans with (2 ^ 53 * 2 ^ Z.max 0 e).
      * apply Z.mul_lt_mono_pos_r; lia.
      * rewrite <- Z.pow_add_r by lia. apply Z.pow_le_mono_r; lia.
    + rewrite Z.log2_pow2 by lia. lia.
    + split.
      * rewrite length_app.
        destruct s; cbn [length]; lia.
      * apply Forall_app. split; [|exact Hbytes].
        destruct s; [|constructor].
        constructor; [number_byte_known|constructor].
Qed.

Lemma fix_comma_number s : Forall number_byte s -> fix_comma s = s.
Proof.
  induction 1 as [|c s Hc _ IH]; [reflexivity|]. simpl.
  destruct (Ascii.eqb_spec c ",") as [->|_]; [|f_equal; exact IH].
  destruct Hc as [Hc|Hc]; [discriminate Hc|].
  simpl in Hc. repeat (destruct Hc as [Hc|Hc]; [discriminate Hc|]). contradiction.
Qed.

Lemma serialize_number_text num sb h :
  granted h -> isfinite num = true ->
  (length (printf_g 17 "." num) < 64)%nat ->
  Forall number_byte (printf_g 17 "." num) ->
  exists sb' h',
    serialize_number num sb h = (0, sb', h')
    /\ written sb' = written sb ++ printf_g 17 "." num
    /\ granted h'.
Proof.
  intros H Hf Hlen Hbytes. unfold serialize_number, snprintf_g17. rewrite Hf.
  simpl negb. cbv iota.
  remember (printf_g 17 "." num) as s eqn:Es. clear Es.
  replace ((Z.of_nat (length s) <? 0) || (Z.of_nat (length s) >=? 64)) with false
    by lia.
  rewrite firstn_all2 by (simpl; lia).
  rewrite (fix_comma_number s Hbytes).
  destruct (strbuf_append_granted sb s (Z.of_nat (length s)) h H)
    as (sb' & h' & E & Hw & Hg).
  rewrite Nat2Z.id, firstn_all in Hw.
  eexists _, _. split; [exact E|]. split; assumption.
Qed.

Lemma serialize_number_granted num sb h :
  granted h -> isfinite num = true -> valid_binary 53 1024 num = true ->
  exists sb' h',
    serialize_number num sb h = (0, sb', h')
    /\ written sb' = written sb ++ printf_g 17 "." num
    /\ granted h'.
Proof.
  intros H Hf Hv. destruct (printf_g_17_text num Hf Hv) as [Hlen Hbytes].
  apply serialize_number_text; try assumption. lia.
Qed.

(** ** The depth bound of the decoder *)

Lemma nesting_array_snoc p elements elems e p' elements' :
  nesting (V_ARRAY p' elements' (elems ++ [e]))
  = Z.max (nesting (V_ARRAY p elements elems)) (1 + nesting e).
Proof.
  cbn [nesting]. induction elems as [|x elems IH]; simpl in *; lia.
Qed.

Lemma nesting_object_snoc p keys values members m p' keys' values' :
  nesting (V_OBJECT p' keys' values' (members ++ [m]))
  = Z.max (nesting (V_OBJECT p keys values members)) (1 + nesting (snd m)).
Proof.
  cbn [nesting]. induction members as [|x members IH]; simpl in *; lia.
Qed.

Lemma nesting_nonneg v : 0 <= nesting v.
Proof.
  destruct v as [| | | |p elements elems|p keys values members]; simpl; try lia.
  - induction elems; simpl in *; lia.
  - induction members; simpl in *; lia.
Qed.

Lemma parse_string_scalar json h v json' h' :
  parse_string json h = (Some (v, json'), h') -> type_of v = RJSON_STRING.
Proof.
  unfold parse_string. intros H.
  destruct (scan_string _) as [j|]; [|discriminate].
  destruct (negb _); [discriminate|].
  destruct (unescape_string _ h) as [[c|] h1]; [|discriminate].
  unfold create_value in H. destruct (calloc _ _ h1) as [[p|] h2]; inversion H.
  reflexivity.
Qed.

Lemma parse_number_scalar json h v json' h' :
  parse_number json h = (Some (v, json'), h') -> type_of v = RJSON_NUMBER.
Proof.
  unfold parse_number. intros H.
  destruct (scan_number json) as [j|]; [|discriminate].
  destruct (strtod json) as [[num e] err].
  destruct (err || negb (isfinite num)); [discriminate|].
  match type of H with
  | (match ?c with _ => _ end) = _ => destruct c as [[n|] h1]
  end; [|discriminate].
  unfold create_value in H. destruct (calloc _ _ h1) as [[p|] h2]; inversion H.
  reflexivity.
Qed.

Lemma parse_literal_scalar json h v json' h' :
  parse_literal json h = (Some (v, json'), h') ->
  type_of v = RJSON_BOOL \/ type_of v = RJSON_NULL.
Proof.
  unfold parse_literal, create_value. intros H.
  destruct (starts_with (lit "true") json).
  { destruct (calloc _ _ h) as [[p|] h1]; inversion H. left; reflexivity. }
  destruct (starts_with (lit "false") json).
  { destruct (calloc _ _ h) as [[p|] h1]; inversion H. left; reflexivity. }
  destruct (starts_with (lit "null") json); [|discriminate].
  destruct (calloc _ _ h) as [[p|] h1]; inversion H. right; reflexivity.
Qed.

Lemma scalar_nesting v :
  type_of v <> RJSON_ARRAY -> type_of v <> RJSON_OBJECT -> nesting v = 0.
Proof. destruct v; simpl; intros Ha Ho; try reflexivity; contradiction. Qed.

Section Depth_bound.

Variable rec : Z -> c_string -> heap -> parsed.

Hypothesis rec_bound :
  forall depth json h v json' h',
    depth <= RJSON_MAX_DEPTH ->
    rec depth json h = (Some (v, json'), h') ->
    depth + nesting v <= RJSON_MAX_DEPTH.

Lemma parse_array_loop_bound fuel depth arr json h v json' h' :
  depth < RJSON_MAX_DEPTH ->
  (exists p elements elems,
      arr = Some (V_ARRAY p elements elems)
      /\ depth + nesting (V_ARRAY p elements elems) <= RJSON_MAX_DEPTH) ->
  parse_array_loop rec fuel depth arr json h = (Some (v, json'), h') ->
  depth + nesting v <= RJSON_MAX_DEPTH.
Proof.
  intros Hd. revert arr json h.
  induction fuel as [|fuel IH]; intros arr json h Harr H; [discriminate|].
  cbn [parse_array_loop] in H.
  destruct (rec (depth + 1) json h) as [[[element json1]|] h1] eqn:Erec;
    [|discriminate].
  apply rec_bound in Erec; [|lia].
  destruct (rjson_array_add arr (Some element) h1) as [[ret arr1] h2] eqn:Eadd.
  destruct (rjson_array_add_result _ _ _ _ _ _ Eadd)
    as [[-> ->]|(p & els & nels & es & e & -> & Ea & Ee & ->)]; [discriminate|].
  simpl negb in H. cbv iota in H. inversion Ee; subst e.
  destruct Harr as (p0 & els0 & es0 & Harr & Hn). rewrite Ea in Harr.
  inversion Harr; subst p0 els0 es0.
  assert (Hn' : depth + nesting (V_ARRAY p (Some nels) (es ++ [element]))
                <= RJSON_MAX_DEPTH).
  { rewrite (nesting_array_snoc p els es element). lia. }
  destruct (Ascii.eqb (peek (skip_whitespace json1)) "]").
  { inversion H; subst. exact Hn'. }
  destruct (negb _); [discriminate|].
  eapply IH; [|exact H]. eexists _, _, _. split; [reflexivity|exact Hn'].
Qed.

Lemma parse_array_bound json depth h v json' h' :
  parse_array rec json depth h = (Some (v, json'), h') ->
  depth + nesting v <= RJSON_MAX_DEPTH.
Proof.
  unfold parse_array. destruct (depth >=? RJSON_MAX_DEPTH) eqn:Hd; [discriminate|].
  unfold rjson_array_new, create_value.
  destruct (calloc _ _ h) as [[p|] h1]; [|discriminate]. cbn [zeroed].
  destruct (Ascii.eqb _ "]").
  - intros H. inversion H; subst. simpl. lia.
  - apply parse_array_loop_bound; [lia|].
    eexists _, _, _. split; [reflexivity|]. simpl. lia.
Qed.

Lemma parse_object_loop_bound fuel depth obj json h v json' h' :
  depth < RJSON_MAX_DEPTH ->
  (exists p keys values members,
      obj = Some (V_OBJECT p keys values members)
      /\ depth + nesting (V_OBJECT p keys values members) <= RJSON_MAX_DEPTH) ->
  parse_object_loop rec fuel depth obj json h = (Some (v, json'), h') ->
  depth + nesting v <= RJSON_MAX_DEPTH.
Proof.
  intros Hd. revert obj json h.
  induction fuel as [|fuel IH]; intros obj json h Hobj H; [discriminate|].
  cbn [parse_object_loop] in H.
  destruct (negb (Ascii.eqb (peek (skip_whitespace json)) "034")); [discriminate|].
  destruct (parse_string (skip_whitespace json) h) as [[[key_val json1]|] h1];
    [|discriminate].
  destruct (negb (Ascii.eqb (peek (skip_whitespace json1)) ":")); [discriminate|].
  destruct (rec (depth + 1) (advance 1 (skip_whitespace json1)) h1)
    as [[[val json2]|] h2] eqn:Erec; [|discriminate].
  apply rec_bound in Erec; [|lia].
  match type of H with
  | context [rjson_object_add obj ?k (Some val) h2] =>
      destruct (rjson_object_add obj k (Some val) h2) as [[ret obj1] h3] eqn:Eadd
  end.
  destruct (rjson_object_add_result _ _ _ _ _ _ _ Eadd)
    as [(-> & _)|(p & ks & vs & nks & nvs & nk & ms & k & w
                  & -> & Eo & Ek & Ew & ->)]; [discriminate|].
  simpl negb in H. cbv iota in H. inversion Ew; subst w.
  destruct Hobj as (p0 & ks0 & vs0 & ms0 & Hobj & Hn). rewrite Eo in Hobj.
  inversion Hobj; subst p0 ks0 vs0 ms0.
  assert (Hn' : depth + nesting (V_OBJECT p (Some nks) (Some nvs) (ms ++ [(nk, k, val)]))
                <= RJSON_MAX_DEPTH).
  { rewrite (nesting_object_snoc p ks vs ms (nk, k, val)). simpl snd. lia. }
  match type of H with
  | context [Ascii.eqb (peek ?j) "}"] => destruct (Ascii.eqb (peek j) "}")
  end.
  { inversion H; subst. exact Hn'. }
  destruct (negb _); [discriminate|].
  eapply IH; [|exact H]. eexists _, _, _, _. split; [reflexivity|exact Hn'].
Qed.

Lemma parse_object_bound json depth h v json' h' :
  parse_object rec json depth h = (Some (v, json'), h') ->
  depth + nesting v <= RJSON_MAX_DEPTH.
Proof.
  unfold parse_object. destruct (depth >=? RJSON_MAX_DEPTH) eqn:Hd; [discriminate|].
  unfold rjson_object_new, create_value.
  destruct (calloc _ _ h) as [[p|] h1]; [|discriminate]. cbn [zeroed].
  destruct (Ascii.eqb _ "}").
  - intros H. inversion H; subst. simpl. lia.
  - apply parse_object_loop_bound; [lia|].
    eexists _, _, _, _. split; [reflexivity|]. simpl. lia.
Qed.

Lemma parse_value_body_bound json depth h v json' h' :
  depth <= RJSON_MAX_DEPTH ->
  parse_value_body rec json depth h = (Some (v, json'), h') ->
  depth + nesting v <= RJSON_MAX_DEPTH.
Proof.
  intros Hd H. unfold parse_value_body in H.
  assert (Hscalar : type_of v <> RJSON_ARRAY -> type_of v <> RJSON_OBJECT ->
                    depth + nesting v <= RJSON_MAX_DEPTH)
    by (intros Ha Ho; rewrite (scalar_nesting v Ha Ho); lia).
  assert (Hstr : forall j, parse_string j h = (Some (v, json'), h') ->
                           depth + nesting v <= RJSON_MAX_DEPTH).
  { intros j Hj. apply parse_string_scalar in Hj.
    apply Hscalar; rewrite Hj; discriminate. }
  assert (Hnum : forall j, parse_number j h = (Some (v, json'), h') ->
                           depth + nesting v <= RJSON_MAX_DEPTH).
  { intros j Hj. apply parse_number_scalar in Hj.
    apply Hscalar; rewrite Hj; discriminate. }
  assert (Hlit : forall j, parse_literal j h = (Some (v, json'), h') ->
                           depth + nesting v <= RJSON_MAX_DEPTH).
  { intros j Hj. apply parse_literal_scalar in Hj.
    destruct Hj as [Hj|Hj]; apply Hscalar; rewrite Hj; discriminate. }
  assert (Harr : forall j, parse_array rec j depth h = (Some (v, json'), h') ->
                           depth + nesting v <= RJSON_MAX_DEPTH)
    by (intros j; apply parse_array_bound).
  assert (Hobj : forall j, parse_object rec j depth h = (Some (v, json'), h') ->
                           depth + nesting v <= RJSON_MAX_DEPTH)
    by (intros j; apply parse_object_bound).
  destruct (peek (skip_whitespace json)) as [[] [] [] [] [] [] [] []];
    cbv iota in H;
    try discriminate H;
    first [ apply Hstr in H; exact H | apply Hnum in H; exact H
          | apply Hlit in H; exact H | apply Harr in H; exact H
          | apply Hobj in H; exact H
          | (match type of H with
             | (if ?c then _ else _) = _ =>
                 destruct c; [apply Hnum in H; exact H|discriminate H]
             end) ].
Qed.

End Depth_bound.

Lemma parse_value_at_bound levels depth json h v json' h' :
  depth <= RJSON_MAX_DEPTH ->
  parse_value_at levels depth json h = (Some (v, json'), h') ->
  depth + nesting v <= RJSON_MAX_DEPTH.
Proof.
  revert depth json h v json' h'.
  induction levels as [|levels IH]; intros depth json h v json' h' Hd H;
    [discriminate|].
  cbn [parse_value_at] in H.
  eapply parse_value_body_bound; [|exact Hd|exact H].
  intros. eapply IH; eassumption.
Qed.

Lemma parse_value_at_brackets k : forall levels depth rest h,
  depth <= RJSON_MAX_DEPTH -> RJSON_MAX_DEPTH < depth + Z.of_nat k ->
  fst (parse_value_at levels depth (repeat "[" k ++ rest) h) = None.
Proof.
  induction k as [|k IH]; intros levels depth rest h Hd Hk; [lia|].
  destruct levels as [|levels]; [reflexivity|].
  cbn [parse_value_at repeat app]. unfold parse_value_body.
  change (skip_whitespace ("[" :: repeat "[" k ++ rest))
    with ("[" :: repeat "[" k ++ rest). cbn [peek]. cbv iota.
  unfold parse_array. destruct (Z.geb_spec depth RJSON_MAX_DEPTH) as [Hge|Hlt];
    [reflexivity|].
  change (advance 1 ("[" :: repeat "[" k ++ rest)) with (repeat "[" k ++ rest).
  destruct (rjson_array_new h) as [[arr|] h1]; [|reflexivity].
  destruct k as [|k]; [lia|].
  change (repeat "[" (S k) ++ rest) with ("[" :: repeat "[" k ++ rest) in *.
  change (skip_whitespace ("[" :: repeat "[" k ++ rest))
    with ("[" :: repeat "[" k ++ rest). cbn [peek].
  change (Ascii.eqb "[" "]") with false. cbv iota.
  cbn [parse_array_loop].
  specialize (IH levels (depth + 1) rest h1 ltac:(lia) ltac:(lia)).
  change (repeat "[" (S k) ++ rest) with ("[" :: repeat "[" k ++ rest) in IH.
  destruct (parse_value_at levels (depth + 1) ("[" :: repeat "[" k ++ rest) h1)
    as [[[e j]|] h2]; [cbn [fst] in IH; discriminate IH|reflexivity].
Qed.

Lemma c_str_brackets n rest : c_str (repeat "[" n ++ rest) = repeat "[" n ++ c_str rest.
Proof. induction n as [|n IH]; [reflexivity|]. cbn [repeat app c_str]. rewrite IH. reflexivity. Qed.

Lemma rjson_parse_brackets n rest h :
  (Z.to_nat RJSON_MAX_DEPTH < n)%nat ->
  fst (rjson_parse (Some (repeat "[" n ++ rest)) h) = None.
Proof.
  intros Hn. unfold rjson_parse. rewrite c_str_brackets.
  destruct n as [|n]; [lia|].
  change (starts_with BOM (repeat "[" (S n) ++ c_str rest)) with false. cbv iota.
  unfold parse_value.
  pose proof (parse_value_at_brackets (S n) (Z.to_nat (RJSON_MAX_DEPTH + 1 - 0)) 0
                (c_str rest) h ltac:(unfold RJSON_MAX_DEPTH; lia)
                ltac:(unfold RJSON_MAX_DEPTH in *; lia)) as H.
  destruct (parse_value_at _ 0 _ h) as [[[t j]|] h1]; [cbn [fst] in H; discriminate H|reflexivity].
Qed.

(** C2 as stated fails: 512 arrays inside one another are accepted. *)
Lemma C2_nesting_512_is_accepted :
  exists t h,
    rjson_parse (Some (nested_arrays 512 [])) (heap_init []) = (Some t, h)
    /\ nesting t = 512.
Proof.
  eexists _, _. split; [vm_compute; reflexivity|]. vm_compute. reflexivity.
Qed.

(** C2, amended: [rjson_parse] fails on every input in which arrays and
    objects are nested more than 512 deep: a tree it returns has at most
    [RJSON_MAX_DEPTH] = 512 levels of arrays and objects. [parse_array] and
    [parse_object] fail at once, leaving the heap as it is, when they are
    entered with a depth of 512 or more; [rjson_parse] starts
    [parse_value] at depth 0, [parse_value] hands its own depth to
    [parse_array] and [parse_object], and these parse the values they hold
    at depth + 1. So an input that starts with more than 512 opening
    brackets fails, whatever follows them and whatever the allocator
    does; 513 nested arrays fail. *)
Theorem C2_nesting_above_512_fails :
  (forall d h t h',
      rjson_parse (Some d) h = (Some t, h') -> nesting t <= RJSON_MAX_DEPTH)
  /\ (forall rec json depth h,
         RJSON_MAX_DEPTH <= depth ->
         parse_array rec json depth h = (None, h)
         /\ parse_object rec json depth h = (None, h))
  /\ (forall rec json depth h,
         (peek (skip_whitespace json) = "[" ->
          parse_value_body rec json depth h
          = parse_array rec (skip_whitespace json) depth h)
         /\ (peek (skip_whitespace json) = "{" ->
             parse_value_body rec json depth h
             = parse_object rec (skip_whitespace json) depth h))
  /\ (forall rec fuel depth arr json h,
         rec (depth + 1) json h = (None, h) ->
         parse_array_loop rec (S fuel) depth arr json h = (None, rjson_free arr h))
  /\ (forall n rest h,
         (Z.to_nat RJSON_MAX_DEPTH < n)%nat ->
         fst (rjson_parse (Some (repeat "[" n ++ rest)) h) = None)
  /\ (exists h,
         rjson_parse (Some (nested_arrays 513 [])) (heap_init []) = (None, h)).
Proof.
  split; [|split; [|split; [|split; [|split]]]].
  - intros d h t h' H. unfold rjson_parse, parse_value in H.
    match type of H with
    | context [parse_value_at ?l 0 ?j h] =>
        destruct (parse_value_at l 0 j h) as [[[v j']|] h1] eqn:E
    end; [|discriminate].
    apply parse_value_at_bound in E; [|unfold RJSON_MAX_DEPTH; lia].
    destruct (negb _); inversion H; subst. lia.
  - intros rec json depth h Hd. unfold parse_array, parse_object.
    replace (depth >=? RJSON_MAX_DEPTH) with true by lia. split; reflexivity.
  - intros rec json depth h. unfold parse_value_body.
    split; intros ->; reflexivity.
  - intros rec fuel depth arr json h H. cbn [parse_array_loop]. rewrite H.
    reflexivity.
  - intros n rest h Hn. apply rjson_parse_brackets. exact Hn.
  - eexists. vm_compute. reflexivity.
Qed.

Lemma C2_nesting_above_512_fails_witness :
  nesting (V_ARRAY 1%positive (Some 5%positive)
             [V_ARRAY 2%positive (Some 4%positive)
                [V_NUMBER 3%positive (S754_finite false 4503599627370496 (-52))]])
  <= RJSON_MAX_DEPTH
  /\ parse_array (fun _ _ h => (None, h)) (lit "[1]") 512 (heap_init [])
     = (None, heap_init [])
  /\ parse_object (fun _ _ h => (None, h)) (lit "[1]") 512 (heap_init [])
     = (None, heap_init [])
  /\ fst (rjson_parse (Some (repeat "[" 513 ++ lit "1")) (heap_init [])) = None.
Proof.
  split; [|split].
  - eapply (proj1 C2_nesting_above_512_fails (lit "[[1]]") (heap_init [])).
    vm_compute. reflexivity.
  - apply (proj1 (proj1 (proj2 C2_nesting_above_512_fails) _ _ 512 _
                    ltac:(unfold RJSON_MAX_DEPTH; lia))).
  - split.
    + apply (proj2 (proj1 (proj2 C2_nesting_above_512_fails) _ _ 512 _
                      ltac:(unfold RJSON_MAX_DEPTH; lia))).
    + apply (proj1 (proj2 (proj2 (proj2 (proj2 C2_nesting_above_512_fails))))).
      vm_compute. lia.
Defined.

(** ** Numbers: the grammar check and [strtod] agree on a token *)

Lemma take_while_digits ds rest :
  digits ds -> isdigit (peek rest) = false ->
  take_while isdigit (ds ++ rest) = (ds, rest).
Proof.
  intros Hds Hrest. induction Hds as [|d ds Hd _ IH]; cbn [app take_while].
  - destruct rest as [|c rest]; [reflexivity|]. cbn [peek] in Hrest.
    cbn [take_while]. rewrite Hrest. reflexivity.
  - rewrite Hd, IH. reflexivity.
Qed.

Lemma ends_number_spec rest :
  ends_number rest = true ->
  tail_byte (peek rest) /\ peek rest <> "." /\ peek rest <> "e" /\ peek rest <> "E".
Proof.
  unfold ends_number, tail_byte. intros H.
  destruct (isdigit (peek rest)); [discriminate|].
  destruct (Ascii.eqb_spec (peek rest) "."); [discriminate|].
  destruct (Ascii.eqb_spec (peek rest) "e"); [discriminate|].
  destruct (Ascii.eqb_spec (peek rest) "E"); [discriminate|].
  destruct (Ascii.eqb_spec (peek rest) "x"); [discriminate|].
  destruct (Ascii.eqb_spec (peek rest) "X"); [discriminate|].
  repeat split; assumption.
Qed.

Lemma exp_tail x rest :
  exp_part x -> ends_number rest = true ->
  tail_byte (peek (x ++ rest)) /\ peek (x ++ rest) <> ".".
Proof.
  intros Hx Hrest. destruct (ends_number_spec rest Hrest) as (Ht & Hp & _).
  destruct Hx as [->|(e & sign & d & ds & -> & He & _)]; [split; assumption|].
  simpl. destruct He as [->| ->]; repeat split; discriminate.
Qed.

Lemma frac_tail f x rest :
  frac_part f -> exp_part x -> ends_number rest = true ->
  tail_byte (peek (f ++ x ++ rest)).
Proof.
  intros Hf Hx Hrest. destruct Hf as [->|(d & ds & -> & _)].
  - exact (proj1 (exp_tail x rest Hx Hrest)).
  - simpl. repeat split; discriminate.
Qed.

Lemma scan_int_token i rest :
  int_part i -> isdigit (peek rest) = false -> scan_int (i ++ rest) = Some rest.
Proof.
  intros Hi Hrest. unfold scan_int.
  destruct Hi as [->|(d & ds & -> & Hd & Hd0 & Hds)].
  - simpl. change (advance 1 ("0" :: rest)) with rest. rewrite Hrest. reflexivity.
  - simpl peek. destruct (Ascii.eqb_spec d "0") as [->|_]; [contradiction|].
    rewrite Hd. unfold skip_digits.
    change (take_while isdigit ((d :: ds) ++ rest))
      with (take_while isdigit ((d :: ds) ++ rest)).
    assert (Hall : digits (d :: ds)) by (constructor; assumption).
    pose proof (take_while_digits (d :: ds) rest Hall Hrest) as Ht.
    cbn [app] in Ht |- *. rewrite Ht. reflexivity.
Qed.

Lemma scan_frac_token f rest :
  frac_part f -> isdigit (peek rest) = false -> peek rest <> "." ->
  scan_frac (f ++ rest) = Some rest.
Proof.
  intros Hf Hrest Hp. unfold scan_frac.
  destruct Hf as [->|(d & ds & -> & Hds)].
  - simpl. destruct (Ascii.eqb_spec (peek rest) "."); [contradiction|reflexivity].
  - cbn [app peek]. rewrite Ascii.eqb_refl.
    change (advance 1 ("." :: d :: ds ++ rest)) with (d :: ds ++ rest).
    cbn [peek].
    inversion Hds as [|? ? Hd Hds']; subst. rewrite Hd. cbn [negb].
    unfold skip_digits.
    pose proof (take_while_digits (d :: ds) rest Hds Hrest) as Ht.
    cbn [app] in Ht |- *. rewrite Ht. reflexivity.
Qed.

Lemma scan_exp_token x rest :
  exp_part x -> ends_number rest = true -> scan_exp (x ++ rest) = Some rest.
Proof.
  intros Hx Hrest. destruct (ends_number_spec rest Hrest) as ((Hd & _) & _ & He1 & He2).
  unfold scan_exp.
  destruct Hx as [->|(e & sign & d & ds & -> & He & Hs & Hds)].
  - simpl. destruct (Ascii.eqb_spec (peek rest) "e"); [contradiction|].
    destruct (Ascii.eqb_spec (peek rest) "E"); [contradiction|]. reflexivity.
  - cbn [app peek].
    replace (Ascii.eqb e "e" || Ascii.eqb e "E") with true
      by (destruct He as [->| ->]; reflexivity).
    change (advance 1 (e :: (sign ++ d :: ds) ++ rest))
      with ((sign ++ d :: ds) ++ rest).
    inversion Hds as [|? ? Hd1 Hds']; subst.
    assert (Hskip : (if Ascii.eqb (peek ((sign ++ d :: ds) ++ rest)) "+"
                        || Ascii.eqb (peek ((sign ++ d :: ds) ++ rest)) "-"
                     then advance 1 ((sign ++ d :: ds) ++ rest)
                     else (sign ++ d :: ds) ++ rest)
                    = (d :: ds) ++ rest).
    { destruct Hs as [->|[->| ->]]; try reflexivity.
      cbn [app peek]. destruct (Ascii.eqb_spec d "+") as [->|_]; [discriminate Hd1|].
      destruct (Ascii.eqb_spec d "-") as [->|_]; [discriminate Hd1|]. reflexivity. }
    rewrite Hskip. cbn [app peek]. rewrite Hd1. cbn [negb].
    unfold skip_digits.
    pose proof (take_while_digits (d :: ds) rest Hds Hd) as Ht.
    cbn [app] in Ht |- *. rewrite Ht. reflexivity.
Qed.

Lemma int_part_head i rest :
  int_part i -> isdigit (peek (i ++ rest)) = true.
Proof.
  intros [->|(d & ds & -> & Hd & _)]; [reflexivity|exact Hd].
Qed.

Lemma scan_number_token tok rest :
  number_token tok -> ends_number rest = true ->
  scan_number (tok ++ rest) = Some rest.
Proof.
  intros (sign & i & f & x & -> & Hs & Hi & Hf & Hx) Hrest.
  unfold scan_number. rewrite <- !app_assoc.
  assert (Hsign : scan_sign (sign ++ i ++ f ++ x ++ rest) = i ++ f ++ x ++ rest).
  { unfold scan_sign. destruct Hs as [->| ->]; [|reflexivity].
    simpl app. pose proof (int_part_head i (f ++ x ++ rest) Hi) as Hh.
    destruct (Ascii.eqb_spec (peek (i ++ f ++ x ++ rest)) "-") as [E|_];
      [rewrite E in Hh; discriminate Hh|reflexivity]. }
  rewrite Hsign.
  destruct (frac_tail f x rest Hf Hx Hrest) as (Hd1 & _).
  rewrite (scan_int_token i _ Hi Hd1).
  destruct (exp_tail x rest Hx Hrest) as ((Hd2 & _) & Hp2).
  rewrite (scan_frac_token f _ Hf Hd2 Hp2).
  apply scan_exp_token; assumption.
Qed.

Lemma int_part_digits i : int_part i -> digits i /\ i <> [].
Proof.
  intros [->|(d & ds & -> & Hd & _ & Hds)].
  - split; [constructor; [reflexivity|constructor]|discriminate].
  - split; [constructor; assumption|discriminate].
Qed.

Lemma mantissa_token i f x rest :
  int_part i -> frac_part f -> exp_part x -> ends_number rest = true ->
  exists m k,
    mantissa 10 isdigit (i ++ f ++ x ++ rest) = Some (m, k, x ++ rest)
    /\ forall rest', ends_number rest' = true ->
         mantissa 10 isdigit (i ++ f ++ x ++ rest') = Some (m, k, x ++ rest').
Proof.
  intros Hi Hf Hx Hrest.
  assert (Hgen : exists m k, forall rest', ends_number rest' = true ->
             mantissa 10 isdigit (i ++ f ++ x ++ rest') = Some (m, k, x ++ rest')).
  { destruct (int_part_digits i Hi) as [Hdi Hne].
    destruct Hf as [->|(d & ds & -> & Hds)].
    - exists (number_of 10 i), 0. intros rest' Hr'. unfold mantissa.
      destruct (exp_tail x rest' Hx Hr') as ((Hd & _) & Hp).
      cbn [app]. rewrite (take_while_digits i (x ++ rest') Hdi Hd).
      destruct (Ascii.eqb_spec (peek (x ++ rest')) ".") as [E|_]; [contradiction|].
      rewrite app_nil_r. destruct i; [contradiction|reflexivity].
    - exists (number_of 10 (i ++ d :: ds)), (Z.of_nat (length (d :: ds))).
      intros rest' Hr'. unfold mantissa.
      destruct (exp_tail x rest' Hx Hr') as ((Hd & _) & Hp).
      rewrite (take_while_digits i (("." :: d :: ds) ++ x ++ rest') Hdi eq_refl).
      cbn [app peek]. rewrite Ascii.eqb_refl.
      change (advance 1 ("." :: d :: ds ++ x ++ rest')) with ((d :: ds) ++ x ++ rest').
      rewrite (take_while_digits (d :: ds) (x ++ rest') Hds Hd).
      destruct i; [contradiction|reflexivity]. }
  destruct Hgen as (m & k & Hgen). exists m, k. split; [apply Hgen; exact Hrest|exact Hgen].
Qed.

Lemma exponent_token x :
  exp_part x ->
  exists e, forall rest, ends_number rest = true ->
    exponent_part "e" "E" (x ++ rest) = (e, rest).
Proof.
  intros [->|(e & sign & d & ds & -> & He & Hs & Hds)].
  - exists 0. intros rest Hrest.
    destruct (ends_number_spec rest Hrest) as (_ & _ & He1 & He2).
    unfold exponent_part. cbn [app].
    destruct (Ascii.eqb_spec (peek rest) "e"); [contradiction|].
    destruct (Ascii.eqb_spec (peek rest) "E"); [contradiction|]. reflexivity.
  - inversion Hds as [|? ? Hd1 Hds']; subst.
    exists (if match sign with ["-"] => true | _ => false end
            then - number_of 10 (d :: ds) else number_of 10 (d :: ds)).
    intros rest Hrest.
    destruct (ends_number_spec rest Hrest) as ((Hd & _) & _).
    unfold exponent_part. cbn [app peek].
    replace (Ascii.eqb e "e" || Ascii.eqb e "E") with true
      by (destruct He as [->| ->]; reflexivity).
    change (advance 1 (e :: (sign ++ d :: ds) ++ rest))
      with ((sign ++ d :: ds) ++ rest).
    pose proof (take_while_digits (d :: ds) rest Hds Hd) as Ht. cbn [app] in Ht.
    destruct Hs as [->|[->| ->]]; cbn [app peek].
    + destruct (Ascii.eqb_spec d "-") as [->|_]; [discriminate Hd1|].
      destruct (Ascii.eqb_spec d "+") as [->|_]; [discriminate Hd1|].
      cbn [orb]. rewrite Ht. reflexivity.
    + cbn [Ascii.eqb]. simpl orb. cbv iota.
      change (advance 1 ("+" :: d :: ds ++ rest)) with (d :: ds ++ rest).
      rewrite Ht. reflexivity.
    + cbn [Ascii.eqb]. simpl orb. cbv iota.
      change (advance 1 ("-" :: d :: ds ++ rest)) with (d :: ds ++ rest).
      rewrite Ht. reflexivity.
Qed.

Lemma strtod_magnitude_token neg i f x nptr :
  int_part i -> frac_part f -> exp_part x ->
  exists num err, forall rest, ends_number rest = true ->
    strtod_magnitude neg (i ++ f ++ x ++ rest) (nptr rest) = (num, rest, err).
Proof.
  intros Hi Hf Hx.
  destruct (mantissa_token i f x [] Hi Hf Hx eq_refl) as (m & k & _ & Hm).
  destruct (exponent_token x Hx) as (e & He).
  exists (fst (scaled neg m 10 (e - k))), (snd (scaled neg m 10 (e - k))).
  intros rest Hrest. unfold strtod_magnitude.
  assert (Hhex : Ascii.eqb (peek (i ++ f ++ x ++ rest)) "0"
                 && (Ascii.eqb (peek (advance 1 (i ++ f ++ x ++ rest))) "x"
                     || Ascii.eqb (peek (advance 1 (i ++ f ++ x ++ rest))) "X")
                 = false).
  { destruct Hi as [->|(d & ds & -> & Hd & Hd0 & Hds)].
    - cbn [app peek]. change (advance 1 ("0" :: f ++ x ++ rest)) with (f ++ x ++ rest).
      destruct (frac_tail f x rest Hf Hx Hrest) as (_ & Hx1 & Hx2).
      destruct (Ascii.eqb_spec (peek (f ++ x ++ rest)) "x"); [contradiction|].
      destruct (Ascii.eqb_spec (peek (f ++ x ++ rest)) "X"); [contradiction|].
      reflexivity.
    - cbn [app peek]. destruct (Ascii.eqb_spec d "0"); [contradiction|reflexivity]. }
  rewrite Hhex. unfold strtod_decimal. rewrite (Hm rest Hrest), (He rest Hrest).
  destruct (scaled neg m 10 (e - k)); reflexivity.
Qed.

Lemma strtod_token tok :
  number_token tok ->
  exists num err, forall rest, ends_number rest = true ->
    strtod (tok ++ rest) = (num, rest, err).
Proof.
  intros (sign & i & f & x & -> & Hs & Hi & Hf & Hx).
  destruct Hs as [->| ->].
  - destruct (strtod_magnitude_token false i f x (fun r => i ++ f ++ x ++ r) Hi Hf Hx)
      as (num & err & H).
    exists num, err. intros rest Hrest. cbn [app]. rewrite <- !app_assoc.
    unfold strtod. pose proof (int_part_head i (f ++ x ++ rest) Hi) as Hh.
    destruct (Ascii.eqb_spec (peek (i ++ f ++ x ++ rest)) "-") as [E|_];
      [rewrite E in Hh; discriminate Hh|].
    destruct (Ascii.eqb_spec (peek (i ++ f ++ x ++ rest)) "+") as [E|_];
      [rewrite E in Hh; discriminate Hh|].
    apply H. exact Hrest.
  - destruct (strtod_magnitude_token true i f x (fun r => "-" :: i ++ f ++ x ++ r)
                Hi Hf Hx) as (num & err & H).
    exists num, err. intros rest Hrest. cbn [app]. rewrite <- !app_assoc.
    unfold strtod. cbn [peek]. rewrite Ascii.eqb_refl.
    change (advance 1 ("-" :: i ++ f ++ x ++ rest)) with (i ++ f ++ x ++ rest).
    apply H. exact Hrest.
Qed.

Lemma number_token_length tok rest :
  number_token tok -> tok ++ rest <> rest.
Proof.
  intros (sign & i & f & x & -> & _ & Hi & _) E.
  apply (f_equal (@length ascii)) in E. rewrite !length_app in E.
  destruct (int_part_digits i Hi) as [_ Hne]. destruct i; [contradiction|].
  simpl in E. lia.
Qed.

(** [parse_number] on a token of the grammar followed by [rest]. *)
Lemma parse_number_token tok rest h :
  number_token tok -> ends_number rest = true -> granted h ->
  strtod (tok ++ rest) = (fst (fst (strtod tok)), rest, snd (strtod tok))
  /\ (snd (strtod tok) || negb (isfinite (fst (fst (strtod tok)))) = true ->
      parse_number (tok ++ rest) h = (None, h))
  /\ (snd (strtod tok) || negb (isfinite (fst (fst (strtod tok)))) = false ->
      exists p h',
        parse_number (tok ++ rest) h
        = (Some (V_NUMBER p (fst (fst (strtod tok))), rest), h')
        /\ granted h').
Proof.
  intros Htok Hrest Hg.
  destruct (strtod_token tok Htok) as (num & err & H).
  pose proof (H [] eq_refl) as H0. rewrite app_nil_r in H0. rewrite H0. cbn [fst snd].
  split; [apply H; exact Hrest|].
  unfold parse_number. rewrite (scan_number_token tok rest Htok Hrest).
  rewrite (H rest Hrest).
  split; intros Herr; rewrite Herr; [reflexivity|].
  unfold same_position. rewrite Nat.eqb_refl. cbn [negb].
  destruct (create_value_granted RJSON_NUMBER h Hg) as (p & h' & -> & Hg').
  cbn [zeroed]. eexists _, _. split; [reflexivity|exact Hg'].
Qed.

Lemma c_str_id s : Forall (fun c => c <> NUL) s -> c_str s = s.
Proof.
  induction 1 as [|c s Hc _ IH]; [reflexivity|]. simpl.
  destruct (Ascii.eqb_spec c NUL); [contradiction|]. rewrite IH. reflexivity.
Qed.

Lemma digits_not_nul ds : digits ds -> Forall (fun c => c <> NUL) ds.
Proof.
  intros H. eapply Forall_impl; [exact H|]. intros c Hc ->. discriminate Hc.
Qed.

Lemma number_token_not_nul tok : number_token tok -> Forall (fun c => c <> NUL) tok.
Proof.
  intros (sign & i & f & x & -> & Hs & Hi & Hf & Hx).
  repeat apply Forall_app_2.
  - destruct Hs as [->| ->]; repeat constructor. discriminate.
  - apply digits_not_nul. apply (int_part_digits i Hi).
  - destruct Hf as [->|(d & ds & -> & Hds)]; [constructor|].
    constructor; [discriminate|apply digits_not_nul; exact Hds].
  - destruct Hx as [->|(e & sign' & d & ds & -> & He & Hs' & Hds)]; [constructor|].
    constructor; [destruct He as [->| ->]; discriminate|].
    apply Forall_app_2; [|apply digits_not_nul; exact Hds].
    destruct Hs' as [->|[->| ->]]; repeat constructor; discriminate.
Qed.

Lemma number_token_head tok :
  number_token tok -> peek tok = "-" \/ isdigit (peek tok) = true.
Proof.
  intros (sign & i & f & x & -> & Hs & Hi & _).
  destruct Hs as [->| ->]; [right|left; reflexivity].
  exact (int_part_head i (f ++ x) Hi).
Qed.

Lemma parse_value_body_number rec json depth h :
  peek json = "-" \/ isdigit (peek json) = true ->
  parse_value_body rec json depth h = parse_number json h.
Proof.
  intros H. destruct json as [|c json]; [destruct H as [H|H]; discriminate H|].
  cbn [peek] in H. unfold parse_value_body.
  destruct c as [[] [] [] [] [] [] [] []];
    try (exfalso; destruct H as [H|H]; discriminate H); reflexivity.
Qed.

Lemma starts_with_BOM_number json :
  peek json = "-" \/ isdigit (peek json) = true -> starts_with BOM json = false.
Proof.
  intros H. destruct json as [|c json]; [reflexivity|]. cbn [peek] in H.
  unfold BOM. cbn [starts_with].
  destruct (Ascii.eqb_spec "239" c) as [<-|_]; [|reflexivity].
  destruct H as [H|H]; discriminate H.
Qed.

Lemma rjson_parse_number_token tok h :
  number_token tok ->
  rjson_parse (Some tok) h
  = match parse_number tok h with
    | (Some (result, []), h') => (Some result, h')
    | (Some (result, c :: rest), h') =>
        if negb (Ascii.eqb (peek (skip_whitespace (c :: rest))) NUL)
        then (None, rjson_free (Some result) h') else (Some result, h')
    | (None, h') => (None, h')
    end.
Proof.
  intros Htok. unfold rjson_parse.
  rewrite (c_str_id tok (number_token_not_nul tok Htok)).
  rewrite (starts_with_BOM_number tok (number_token_head tok Htok)).
  unfold parse_value.
  change (Z.to_nat (RJSON_MAX_DEPTH + 1 - 0)) with (S 512).
  cbn [parse_value_at].
  rewrite (parse_value_body_number _ tok 0 h (number_token_head tok Htok)).
  destruct (parse_number tok h) as [[[result [|c rest]]|] h']; reflexivity.
Qed.

(** C3 as stated fails: [1e-400] is a number of the grammar whose
    conversion gives the finite value zero, and it is rejected, because the
    conversion sets the range error and [parse_number] tests it. *)
Lemma C3_underflow_to_zero_is_rejected :
  number_token (lit "1e-400")
  /\ strtod (lit "1e-400") = (S754_zero false, [], true)
  /\ isfinite (S754_zero false) = true
  /\ rjson_parse (Some (lit "1e-400")) (heap_init []) = (None, heap_init []).
Proof.
  split; [|split; [|split]]; try (vm_compute; reflexivity).
  exists [], (lit "1"), [], (lit "e-400"). split; [reflexivity|].
  split; [left; reflexivity|]. split; [|split].
  - right. exists "1", []. repeat split; [discriminate|constructor].
  - left. reflexivity.
  - right. exists "e", ["-"], "4", (lit "00").
    split; [reflexivity|]. split; [left; reflexivity|].
    split; [right; right; reflexivity|]. repeat constructor.
Qed.

(** C3, amended: for every number token of the grammar, [rjson_parse]
    fails exactly when the conversion by [strtod] reports a range error
    (overflow, or underflow as for [1e-400]) or gives a value that is not
    finite; otherwise the result is a Number that holds the converted
    value. [1e309] overflows to infinity and fails; [1e-400] underflows to
    zero with the range error and fails as well; so does
    [2.2250738585072012e-308], which lies just below [2^-1022 - 2^-1076]:
    it is converted to the normal number [2^-1022], but it is tiny and the
    conversion is inexact, so the range error is set. *)
Theorem C3_number_fails_on_range_error :
  (forall tok h,
      number_token tok -> granted h ->
      (snd (strtod tok) = true \/ isfinite (fst (fst (strtod tok))) = false ->
       rjson_parse (Some tok) h = (None, h))
      /\ (snd (strtod tok) = false -> isfinite (fst (fst (strtod tok))) = true ->
          exists p h',
            rjson_parse (Some tok) h
            = (Some (V_NUMBER p (fst (fst (strtod tok)))), h')))
  /\ (strtod (lit "1e309") = (S754_infinity false, [], true)
      /\ rjson_parse (Some (lit "1e309")) (heap_init []) = (None, heap_init []))
  /\ (strtod (lit "1e-400") = (S754_zero false, [], true)
      /\ rjson_parse (Some (lit "1e-400")) (heap_init []) = (None, heap_init []))
  /\ (strtod (lit "2.2250738585072012e-308")
      = (S754_finite false (2 ^ 52) (-1074), [], true)
      /\ rjson_parse (Some (lit "2.2250738585072012e-308")) (heap_init [])
         = (None, heap_init [])).
Proof.
  split; [|split; [|split]; split; vm_compute; reflexivity].
  intros tok h Htok Hg.
  destruct (parse_number_token tok [] h Htok eq_refl Hg) as (_ & Hfail & Hok).
  rewrite app_nil_r in Hfail, Hok.
  rewrite (rjson_parse_number_token tok h Htok).
  split.
  - intros Herr. rewrite Hfail; [reflexivity|].
    destruct Herr as [-> | ->]; [reflexivity|apply orb_true_r].
  - intros He Hf. destruct Hok as (p & h' & -> & _); [rewrite He, Hf; reflexivity|].
    eexists _, _. reflexivity.
Qed.

Lemma C3_number_fails_on_range_error_witness :
  (snd (strtod (lit "-0.5e1")) = true
   \/ isfinite (fst (fst (strtod (lit "-0.5e1")))) = false ->
   rjson_parse (Some (lit "-0.5e1")) (heap_init []) = (None, heap_init []))
  /\ (snd (strtod (lit "-0.5e1")) = false ->
      isfinite (fst (fst (strtod (lit "-0.5e1")))) = true ->
      exists p h',
        rjson_parse (Some (lit "-0.5e1")) (heap_init [])
        = (Some (V_NUMBER p (fst (fst (strtod (lit "-0.5e1"))))), h')).
Proof.
  apply (proj1 C3_number_fails_on_range_error (lit "-0.5e1") (heap_init [])).
  - exists ["-"], (lit "0"), (lit ".5"), (lit "e1"). split; [reflexivity|].
    split; [right; reflexivity|]. split; [|split].
    + left. reflexivity.
    + right. exists "5", []. split; [reflexivity|]. repeat constructor.
    + right. exists "e", [], "1", []. split; [reflexivity|].
      split; [left; reflexivity|]. split; [left; reflexivity|]. repeat constructor.
  - unfold granted. simpl. constructor.
Defined.

(** ** Rounding *)

(** [round_ratio] against the Standard Library's rounding, at values that
    are exact, halfway between two neighbours, subnormal, too small and
    too large. *)
Lemma round_ratio_IEEE_examples :
  Forall (fun r => round_ratio false (fst r) (snd r)
                   = round_ratio_IEEE false (fst r) (snd r))
    [(1, 10); (1, 3); (2, 3); (123456789, 1000); (2 ^ 53 + 1, 1); (2 ^ 53 + 3, 1);
     (2 ^ 54 - 1, 1); (2 ^ 54 - 1, 2 ^ 1076); (1, 2 ^ 1074); (1, 2 ^ 1075);
     (3, 2 ^ 1075); (3, 2 ^ 1076); (1, 2 ^ 1076); (2 ^ 53 - 1, 2 ^ 1075);
     (10 ^ 308, 1); (10 ^ 309, 1); (2 ^ 1024, 1); (2 ^ 1024 - 2 ^ 970, 1);
     (2 ^ 1024 - 2 ^ 970 - 1, 1); (1, 10 ^ 400); (17976931348623157, 10 ^ 5);
     (22250738585072014, 10 ^ 324); (49406564584124654, 10 ^ 340)].
Proof. repeat (constructor; [vm_compute; reflexivity|]). constructor. Qed.

Lemma round_div_spec num den :
  0 < den -> 2 * Z.abs (num - round_div num den * den) <= den.
Proof.
  intros Hden. unfold round_div.
  pose proof (Z_div_mod num den ltac:(lia)) as Hdm.
  destruct (Z.div_eucl num den) as [q r]. destruct Hdm as [Hnum Hr].
  destruct (2 * r ?= den) eqn:Hc.
  - apply Z.compare_eq in Hc. destruct (Z.even q); nia.
  - rewrite Z.compare_lt_iff in Hc. nia.
  - rewrite Z.compare_gt_iff in Hc. nia.
Qed.

Lemma round_div_unique num den q :
  0 < den -> 2 * Z.abs (num - q * den) < den -> round_div num den = q.
Proof.
  intros Hden Hq. unfold round_div.
  pose proof (Z_div_mod num den ltac:(lia)) as Hdm.
  destruct (Z.div_eucl num den) as [q0 r]. destruct Hdm as [Hnum Hr].
  assert (Hcases : q0 = q \/ q0 = q - 1) by nia.
  destruct (2 * r ?= den) eqn:Hc.
  - apply Z.compare_eq in Hc. nia.
  - rewrite Z.compare_lt_iff in Hc. nia.
  - rewrite Z.compare_gt_iff in Hc. nia.
Qed.

Lemma round_div_between num den lo hi :
  0 < den -> lo * den <= num <= hi * den -> lo <= round_div num den <= hi.
Proof.
  intros Hden Hb. pose proof (round_div_spec num den Hden) as Hs. nia.
Qed.

Lemma round_ratio_pos neg num den :
  0 < num ->
  round_ratio neg num den
  = let e := Z.max (Z.log2 (num * 2 ^ 1074 / den) - 1126) (-1074) in
    let m := round_div (num * 2 ^ 1074) (den * 2 ^ (e + 1074)) in
    let (m, e) := if m =? 2 ^ 53 then (2 ^ 52, e + 1) else (m, e) in
    match m with
    | Zpos m => if e <=? 971 then S754_finite neg m e else S754_infinity neg
    | _ => S754_zero neg
    end.
Proof. intros H. destruct num; try lia. reflexivity. Qed.

Lemma round_ratio_normal neg m e num den :
  2 ^ 52 <= Zpos m < 2 ^ 53 -> -1074 <= e <= 971 -> 0 < num -> 0 < den ->
  2 * 10 ^ 16 * Z.abs (num * 2 ^ 1074 - Zpos m * 2 ^ (e + 1074) * den)
    <= Zpos m * 2 ^ (e + 1074) * den ->
  round_ratio neg num den = S754_finite neg m e.
Proof.
  intros Hm He Hnum Hden Hclose. rewrite (round_ratio_pos neg num den Hnum).
  change (2 ^ 52) with 4503599627370496 in *.
  change (2 ^ 53) with 9007199254740992 in *.
  change (10 ^ 16) with 10000000000000000 in *.
  remember (num * 2 ^ 1074) as A eqn:HA.
  assert (HP : 0 < 2 ^ (e + 1074)) by (apply Z.pow_pos_nonneg; lia).
  remember (2 ^ (e + 1074)) as P eqn:HPdef.
  assert (HX : 0 < den * P) by nia.
  replace (Zpos m * P * den) with (Zpos m * (den * P)) in Hclose by ring.
  assert (HY : 4503599627370496 * (den * P) <= Zpos m * (den * P)
               <= 9007199254740991 * (den * P)) by nia.
  remember (den * P) as X eqn:HXdef. remember (Zpos m * X) as Y eqn:HYdef.
  destruct (Z_le_gt_dec (4503599627370496 * X) A) as [Hge|Hlt].
  - (* the value lies in the binade of [m] *)
    assert (Hlog : Z.log2 (A / den) = e + 1126).
    { apply Z.log2_unique; [lia|].
      replace (e + 1126) with (52 + (e + 1074)) by lia.
      replace (Z.succ (52 + (e + 1074))) with (53 + (e + 1074)) by lia.
      rewrite (Z.pow_add_r 2 52 (e + 1074)), (Z.pow_add_r 2 53 (e + 1074)) by lia.
      rewrite <- HPdef.
      change (2 ^ 52) with 4503599627370496.
      change (2 ^ 53) with 9007199254740992.
      split.
      - apply Z.div_le_lower_bound; [lia|].
        replace (den * (4503599627370496 * P)) with (4503599627370496 * X)
          by (rewrite HXdef; ring).
        exact Hge.
      - apply Z.div_lt_upper_bound; [lia|].
        replace (den * (9007199254740992 * P)) with (9007199254740992 * X)
          by (rewrite HXdef; ring).
        lia. }
    cbv zeta. rewrite Hlog.
    replace (Z.max (e + 1126 - 1126) (-1074)) with e by lia.
    rewrite <- HPdef, <- HXdef.
    rewrite (round_div_unique A X (Zpos m)) by (rewrite <- ?HYdef; lia).
    destruct (Z.eqb_spec (Zpos m) 9007199254740992) as [Heq|_]; [lia|].
    destruct (Z.leb_spec e 971); [reflexivity|lia].
  - (* the value lies just below the binade: [m] is its first member *)
    assert (Hm52 : Zpos m = 4503599627370496).
    { destruct (Z.eq_dec (Zpos m) 4503599627370496) as [Heq|Hne]; [exact Heq|].
      assert (4503599627370497 * X <= Y) by (rewrite HYdef; nia). lia. }
    assert (Hmp : m = 4503599627370496%positive) by lia.
    assert (HYX : Y = 4503599627370496 * X) by (rewrite HYdef, Hm52; reflexivity).
    assert (Hlog : Z.log2 (A / den) = e + 1125).
    { apply Z.log2_unique; [lia|].
      replace (e + 1125) with (51 + (e + 1074)) by lia.
      replace (Z.succ (51 + (e + 1074))) with (52 + (e + 1074)) by lia.
      rewrite (Z.pow_add_r 2 51 (e + 1074)), (Z.pow_add_r 2 52 (e + 1074)) by lia.
      rewrite <- HPdef.
      change (2 ^ 51) with 2251799813685248.
      change (2 ^ 52) with 4503599627370496.
      split.
      - apply Z.div_le_lower_bound; [lia|].
        replace (den * (2251799813685248 * P)) with (2251799813685248 * X)
          by (rewrite HXdef; ring).
        lia.
      - apply Z.div_lt_upper_bound; [lia|].
        replace (den * (4503599627370496 * P)) with (4503599627370496 * X)
          by (rewrite HXdef; ring).
        lia. }
    cbv zeta. rewrite Hlog.
    destruct (Z.eq_dec e (-1074)) as [Hee|Hne].
    + replace (Z.max (e + 1125 - 1126) (-1074)) with e by lia.
      rewrite <- HPdef, <- HXdef.
      rewrite (round_div_unique A X 4503599627370496) by lia.
      rewrite Hmp. change (4503599627370496 =? 9007199254740992) with false.
      cbv iota. destruct (Z.leb_spec e 971); [reflexivity|lia].
    + replace (Z.max (e + 1125 - 1126) (-1074)) with (e - 1) by lia.
      assert (HP2 : P = 2 * 2 ^ (e - 1 + 1074)).
      { rewrite HPdef. replace (e + 1074) with (1 + (e - 1 + 1074)) by lia.
        rewrite Z.pow_add_r by lia. reflexivity. }
      remember (2 ^ (e - 1 + 1074)) as P' eqn:HP'.
      assert (HX2 : X = 2 * (den * P')) by (rewrite HXdef, HP2; ring).
      rewrite (round_div_unique A (den * P') 9007199254740992) by lia.
      change (9007199254740992 =? 9007199254740992) with true. cbv iota.
      replace (e - 1 + 1) with e by lia.
      destruct (Z.leb_spec e 971); [|lia]. rewrite Hmp. reflexivity.
Qed.

(** ** The decimal exponent and the significant digits *)

Lemma count_up_spec fuel : forall num den,
  0 < den -> den <= num -> num < den * 2 ^ (Z.of_nat fuel + 1) ->
  0 <= count_up fuel num den
  /\ den * 10 ^ count_up fuel num den <= num
     < den * 10 ^ (count_up fuel num den + 1).
Proof.
  induction fuel as [|fuel IH]; intros num den Hden Hle Hlt.
  - cbn [count_up]. change (2 ^ (Z.of_nat 0 + 1)) with 2 in Hlt.
    change (10 ^ 0) with 1. change (10 ^ (0 + 1)) with 10. lia.
  - cbn [count_up]. destruct (Z.leb_spec (10 * den) num) as [H10|H10].
    + assert (Hpow : 2 ^ (Z.of_nat (S fuel) + 1) = 2 * 2 ^ (Z.of_nat fuel + 1)).
      { replace (Z.of_nat (S fuel) + 1) with (1 + (Z.of_nat fuel + 1)) by lia.
        rewrite Z.pow_add_r by lia. reflexivity. }
      assert (0 < 2 ^ (Z.of_nat fuel + 1)) by (apply Z.pow_pos_nonneg; lia).
      destruct (IH num (10 * den) ltac:(lia) H10 ltac:(nia)) as (Hx & Hlo & Hhi).
      set (x := count_up fuel num (10 * den)) in *.
      split; [lia|].
      replace (1 + x + 1) with (1 + (x + 1)) by lia.
      rewrite (Z.pow_add_r 10 1 x), (Z.pow_add_r 10 1 (x + 1)) by lia.
      change (10 ^ 1) with 10. lia.
    + change (10 ^ 0) with 1. change (10 ^ (0 + 1)) with 10. lia.
Qed.

Lemma count_down_spec fuel : forall num den,
  0 < num -> den <= num * 2 ^ Z.of_nat fuel ->
  0 <= count_down fuel num den
  /\ den <= num * 10 ^ count_down fuel num den
  /\ (0 < count_down fuel num den ->
      num * 10 ^ (count_down fuel num den - 1) < den).
Proof.
  induction fuel as [|fuel IH]; intros num den Hnum Hle.
  - cbn [count_down]. change (2 ^ Z.of_nat 0) with 1 in Hle.
    change (10 ^ 0) with 1. lia.
  - cbn [count_down]. destruct (Z.ltb_spec num den) as [Hlt|Hge].
    + assert (Hpow : 2 ^ Z.of_nat (S fuel) = 2 * 2 ^ Z.of_nat fuel).
      { replace (Z.of_nat (S fuel)) with (1 + Z.of_nat fuel) by lia.
        rewrite Z.pow_add_r by lia. reflexivity. }
      assert (0 < 2 ^ Z.of_nat fuel) by (apply Z.pow_pos_nonneg; lia).
      destruct (IH (10 * num) den ltac:(lia) ltac:(nia)) as (Hc & Hlo & Hhi).
      set (c := count_down fuel (10 * num) den) in *.
      split; [lia|]. split.
      * rewrite (Z.pow_add_r 10 1 c) by lia. change (10 ^ 1) with 10. lia.
      * intros _. replace (1 + c - 1) with c by lia.
        destruct (Z.eq_dec c 0) as [Hc0|Hc0].
        -- rewrite Hc0. change (10 ^ 0) with 1. lia.
        -- specialize (Hhi ltac:(lia)).
           replace c with (1 + (c - 1)) at 1 by lia.
           rewrite (Z.pow_add_r 10 1 (c - 1)) by lia. change (10 ^ 1) with 10. lia.
    + change (10 ^ 0) with 1. lia.
Qed.

Lemma log10_floor_spec num den :
  0 < num -> 0 < den ->
  den * 10 ^ Z.max 0 (log10_floor num den)
    <= num * 10 ^ Z.max 0 (- log10_floor num den)
  /\ num * 10 ^ Z.max 0 (- (log10_floor num den + 1))
     < den * 10 ^ Z.max 0 (log10_floor num den + 1).
Proof.
  intros Hnum Hden. unfold log10_floor.
  destruct (Z.leb_spec den num) as [Hle|Hlt].
  - destruct (count_up_spec (Z.to_nat (Z.log2 num)) num den Hden Hle)
      as (Hx & Hlo & Hhi).
    { pose proof (Z.log2_nonneg num). rewrite Z2Nat.id by lia.
      pose proof (Z.log2_spec num Hnum) as [_ Hs].
      replace (Z.log2 num + 1) with (Z.succ (Z.log2 num)) by lia. nia. }
    set (x := count_up _ num den) in *.
    replace (Z.max 0 x) with x by lia. replace (Z.max 0 (- x)) with 0 by lia.
    replace (Z.max 0 (- (x + 1))) with 0 by lia.
    replace (Z.max 0 (x + 1)) with (x + 1) by lia.
    change (10 ^ 0) with 1. lia.
  - destruct (count_down_spec (Z.to_nat (Z.log2 den) + 1) num den Hnum)
      as (Hc & Hlo & Hhi).
    { pose proof (Z.log2_nonneg den).
      rewrite Nat2Z.inj_add, Z2Nat.id by lia. change (Z.of_nat 1) with 1.
      pose proof (Z.log2_spec den Hden) as [_ Hs].
      replace (Z.log2 den + 1) with (Z.succ (Z.log2 den)) by lia. nia. }
    set (c := count_down _ num den) in *.
    assert (Hc1 : 0 < c).
    { destruct (Z.eq_dec c 0) as [Hc0|Hc0]; [|lia].
      rewrite Hc0 in Hlo. change (10 ^ 0) with 1 in Hlo. lia. }
    specialize (Hhi Hc1).
    replace (Z.max 0 (- c)) with 0 by lia. replace (Z.max 0 (- - c)) with c by lia.
    replace (Z.max 0 (- (- c + 1))) with (c - 1) by lia.
    replace (Z.max 0 (- c + 1)) with 0 by lia.
    change (10 ^ 0) with 1. lia.
Qed.

Lemma pow10_pos k : 0 < 10 ^ Z.max 0 k.
Proof. apply Z.pow_pos_nonneg; lia. Qed.

Lemma pow10_split p q : 0 <= p -> 0 <= q -> 10 ^ (p + q) = 10 ^ p * 10 ^ q.
Proof. intros. apply Z.pow_add_r; assumption. Qed.

(** The scaled value lies between [10^16] and [10^17]. *)
Lemma sig_digits_scaled num den :
  0 < num -> 0 < den ->
  let s := log10_floor num den - 16 in
  10 ^ 16 * (den * 10 ^ Z.max 0 s) <= num * 10 ^ Z.max 0 (- s)
  < 10 ^ 17 * (den * 10 ^ Z.max 0 s).
Proof.
  intros Hnum Hden. cbv zeta.
  destruct (log10_floor_spec num den Hnum Hden) as [L1 L2].
  set (x := log10_floor num den) in *.
  change (10 ^ 16) with 10000000000000000.
  change (10 ^ 17) with 100000000000000000.
  destruct (Z_le_gt_dec 16 x) as [Hx|Hx].
  - replace (Z.max 0 x) with (16 + (x - 16)) in L1 by lia.
    replace (Z.max 0 (- x)) with 0 in L1 by lia.
    replace (Z.max 0 (- (x + 1))) with 0 in L2 by lia.
    replace (Z.max 0 (x + 1)) with (17 + (x - 16)) in L2 by lia.
    rewrite pow10_split in L1, L2 by lia.
    replace (Z.max 0 (x - 16)) with (x - 16) by lia.
    replace (Z.max 0 (- (x - 16))) with 0 by lia.
    change (10 ^ 0) with 1 in *.
    change (10 ^ 16) with 10000000000000000 in *.
    change (10 ^ 17) with 100000000000000000 in *.
    remember (10 ^ (x - 16)) as T. nia.
  - destruct (Z_le_gt_dec 0 x) as [Hx0|Hx0].
    + replace (Z.max 0 x) with x in L1 by lia.
      replace (Z.max 0 (- x)) with 0 in L1 by lia.
      replace (Z.max 0 (- (x + 1))) with 0 in L2 by lia.
      replace (Z.max 0 (x + 1)) with (1 + x) in L2 by lia.
      rewrite pow10_split in L2 by lia.
      replace (Z.max 0 (x - 16)) with 0 by lia.
      replace (Z.max 0 (- (x - 16))) with (16 - x) by lia.
      change (10 ^ 0) with 1 in *. change (10 ^ 1) with 10 in *.
      assert (HUT : 10 ^ x * 10 ^ (16 - x) = 10000000000000000).
      { rewrite <- pow10_split by lia. replace (x + (16 - x)) with 16 by lia.
        reflexivity. }
      assert (0 < 10 ^ (16 - x)) by (apply Z.pow_pos_nonneg; lia).
      remember (10 ^ x) as U. remember (10 ^ (16 - x)) as T. nia.
    + replace (Z.max 0 x) with 0 in L1 by lia.
      replace (Z.max 0 (- x)) with (1 + (- x - 1)) in L1 by lia.
      replace (Z.max 0 (- (x + 1))) with (- x - 1) in L2 by lia.
      replace (Z.max 0 (x + 1)) with 0 in L2 by lia.
      rewrite pow10_split in L1 by lia.
      replace (Z.max 0 (x - 16)) with 0 by lia.
      replace (Z.max 0 (- (x - 16))) with (17 + (- x - 1)) by lia.
      rewrite pow10_split by lia.
      change (10 ^ 0) with 1 in *. change (10 ^ 1) with 10 in *.
      change (10 ^ 17) with 100000000000000000 in *.
      assert (0 < 10 ^ (- x - 1)) by (apply Z.pow_pos_nonneg; lia).
      remember (10 ^ (- x - 1)) as W. nia.
Qed.

Lemma sig_digits_17 num den :
  0 < num -> 0 < den ->
  10 ^ 16 <= fst (sig_digits 17 num den) < 10 ^ 17
  /\ 2 * 10 ^ 16
     * Z.abs (fst (sig_digits 17 num den)
                * 10 ^ Z.max 0 (snd (sig_digits 17 num den) - 16) * den
              - num * 10 ^ Z.max 0 (16 - snd (sig_digits 17 num den)))
     <= num * 10 ^ Z.max 0 (16 - snd (sig_digits 17 num den)).
Proof.
  intros Hnum Hden. unfold sig_digits.
  pose proof (sig_digits_scaled num den Hnum Hden) as Hsc. cbv zeta in Hsc.
  set (x := log10_floor num den) in *.
  replace (x - 17 + 1) with (x - 16) by lia.
  pose proof (pow10_pos (x - 16)) as Hb. pose proof (pow10_pos (- (x - 16))) as Ha.
  assert (HD : 0 < den * 10 ^ Z.max 0 (x - 16)) by nia.
  pose proof (round_div_spec (num * 10 ^ Z.max 0 (- (x - 16)))
                (den * 10 ^ Z.max 0 (x - 16)) HD) as Hr.
  pose proof (round_div_between (num * 10 ^ Z.max 0 (- (x - 16)))
                (den * 10 ^ Z.max 0 (x - 16)) (10 ^ 16) (10 ^ 17) HD ltac:(lia)) as Hn.
  set (n0 := round_div _ _) in *.
  change (10 ^ 16) with 10000000000000000 in *.
  change (10 ^ 17) with 100000000000000000 in *.
  destruct (Z.eqb_spec n0 100000000000000000) as [Hcarry|Hno]; cbn [fst snd].
  - split; [lia|]. rewrite Hcarry in Hr.
    destruct (Z_le_gt_dec 16 x) as [Hx|Hx].
    + replace (Z.max 0 (x + 1 - 16)) with (1 + (x - 16)) by lia.
      replace (Z.max 0 (16 - (x + 1))) with 0 by lia.
      replace (Z.max 0 (x - 16)) with (x - 16) in * by lia.
      replace (Z.max 0 (- (x - 16))) with 0 in * by lia.
      rewrite pow10_split by lia. change (10 ^ 0) with 1 in *.
      change (10 ^ 1) with 10. remember (10 ^ (x - 16)) as T. nia.
    + replace (Z.max 0 (x + 1 - 16)) with 0 by lia.
      replace (Z.max 0 (16 - (x + 1))) with (15 - x) by lia.
      replace (Z.max 0 (x - 16)) with 0 in * by lia.
      replace (Z.max 0 (- (x - 16))) with (1 + (15 - x)) in * by lia.
      rewrite pow10_split in Hr, Hsc, Ha by lia. change (10 ^ 0) with 1 in *.
      change (10 ^ 1) with 10 in *.
      assert (0 < 10 ^ (15 - x)) by (apply Z.pow_pos_nonneg; lia).
      remember (10 ^ (15 - x)) as T. nia.
  - split; [lia|].
    replace (16 - x) with (- (x - 16)) by lia.
    remember (num * 10 ^ Z.max 0 (- (x - 16))) as N.
    replace (n0 * 10 ^ Z.max 0 (x - 16) * den)
      with (n0 * (den * 10 ^ Z.max 0 (x - 16))) by ring.
    remember (den * 10 ^ Z.max 0 (x - 16)) as D. lia.
Qed.

(** Closeness to a value does not depend on how the two fractions are
    written. *)
Lemma closeness_transfer c Vn Vd Ta Tb n Rn Rd mP K :
  0 < c -> 0 < Vd -> 0 < Ta -> 0 < Rd -> 0 < K ->
  c * Z.abs (n * Tb * Vd - Vn * Ta) <= Vn * Ta ->
  mP * Vd = Vn * K ->
  Rn * Ta = n * Tb * Rd ->
  c * Z.abs (Rn * K - mP * Rd) <= mP * Rd.
Proof.
  intros Hc HVd HTa HRd HK Hclose K1 K2.
  assert (Hdiff : (Rn * K - mP * Rd) * (Ta * Vd) = Rd * K * (n * Tb * Vd - Vn * Ta)).
  { transitivity ((Rn * Ta) * K * Vd - (mP * Vd) * Rd * Ta); [ring|].
    rewrite K1, K2. ring. }
  assert (Habs : Z.abs (Rn * K - mP * Rd) * (Ta * Vd)
                 = Rd * K * Z.abs (n * Tb * Vd - Vn * Ta)).
  { rewrite <- (Z.abs_eq (Ta * Vd)) at 1 by nia.
    rewrite <- Z.abs_mul, Hdiff, Z.abs_mul. rewrite (Z.abs_eq (Rd * K)) by nia.
    reflexivity. }
  apply (Z.mul_le_mono_pos_r _ _ (Ta * Vd)); [nia|].
  replace (c * Z.abs (Rn * K - mP * Rd) * (Ta * Vd))
    with (c * (Z.abs (Rn * K - mP * Rd) * (Ta * Vd))) by ring.
  rewrite Habs.
  replace (mP * Rd * (Ta * Vd)) with ((mP * Vd) * Rd * Ta) by ring.
  rewrite K1.
  replace (c * (Rd * K * Z.abs (n * Tb * Vd - Vn * Ta)))
    with (Rd * K * (c * Z.abs (n * Tb * Vd - Vn * Ta))) by ring.
  replace (Vn * K * Rd * Ta) with (Rd * K * (Vn * Ta)) by ring.
  apply Z.mul_le_mono_nonneg_l; [nia|exact Hclose].
Qed.

(** The least value that is not tiny is [2^-1022 - 2^-1076], which is
    [(2^54 - 1) / 2^1076]. *)
Lemma is_tiny_below num den :
  0 < den -> is_tiny num den = (num * 2 ^ 1076 <? (2 ^ 54 - 1) * den).
Proof.
  intros Hden. unfold is_tiny.
  replace (num * 2 ^ 1076) with (2 * (num * 2 ^ 1075))
    by (change (2 ^ 1076) with (2 * 2 ^ 1075); ring).
  generalize (num * 2 ^ 1075). intros n. unfold round_div.
  pose proof (Z_div_mod n den ltac:(lia)) as Hdm.
  destruct (Z.div_eucl n den) as [q r]. destruct Hdm as [Hn Hr].
  change (2 ^ 53) with 9007199254740992. change (2 ^ 54 - 1) with 18014398509481983.
  destruct (2 * r ?= den) eqn:Hc.
  - apply Z.compare_eq in Hc. destruct (Z.even q) eqn:He.
    + apply Z.even_spec in He as [k Hk].
      destruct (Z.ltb_spec q 9007199254740992);
        destruct (Z.ltb_spec (2 * n) (18014398509481983 * den)); try reflexivity; nia.
    + assert (Ho : Z.odd q = true) by (rewrite <- Z.negb_even, He; reflexivity).
      apply Z.odd_spec in Ho as [k Hk].
      destruct (Z.ltb_spec (q + 1) 9007199254740992);
        destruct (Z.ltb_spec (2 * n) (18014398509481983 * den)); try reflexivity; nia.
  - rewrite Z.compare_lt_iff in Hc.
    destruct (Z.ltb_spec q 9007199254740992);
      destruct (Z.ltb_spec (2 * n) (18014398509481983 * den)); try reflexivity; nia.
  - rewrite Z.compare_gt_iff in Hc.
    destruct (Z.ltb_spec (q + 1) 9007199254740992);
      destruct (Z.ltb_spec (2 * n) (18014398509481983 * den)); try reflexivity; nia.
Qed.

(** A value within [1 / (2 * 10^16)] of a normal binary64 is not tiny. *)
Lemma close_to_normal_not_tiny m e num den :
  2 ^ 52 <= Zpos m -> -1074 <= e -> 0 < den ->
  2 * 10 ^ 16 * Z.abs (num * 2 ^ 1074 - Zpos m * 2 ^ (e + 1074) * den)
    <= Zpos m * 2 ^ (e + 1074) * den ->
  is_tiny num den = false.
Proof.
  intros Hm He Hden Hclose. rewrite (is_tiny_below num den Hden). apply Z.ltb_ge.
  assert (HP : 1 <= 2 ^ (e + 1074)).
  { pose proof (Z.pow_pos_nonneg 2 (e + 1074) ltac:(lia) ltac:(lia)). lia. }
  remember (2 ^ (e + 1074)) as P eqn:HPdef. clear HPdef.
  change (2 ^ 1076) with (4 * 2 ^ 1074).
  remember (num * 2 ^ 1074) as A eqn:HA.
  replace (num * (4 * 2 ^ 1074)) with (4 * A) by (rewrite HA; ring). clear HA.
  change (2 ^ 52) with 4503599627370496 in Hm.
  change (2 ^ 54 - 1) with 18014398509481983.
  change (10 ^ 16) with 10000000000000000 in Hclose.
  assert (HmP : 4503599627370496 <= Zpos m * P).
  { transitivity (Zpos m * 1); [lia|]. apply Z.mul_le_mono_nonneg_l; lia. }
  assert (HB : 4503599627370496 * den <= Zpos m * P * den)
    by (apply Z.mul_le_mono_nonneg_r; lia).
  remember (Zpos m * P * den) as B eqn:HBdef. clear HBdef.
  lia.
Qed.

(** The text of a normal binary64 is converted back to it: [M] and [t] are
    the digits and the exponent that [strtod] reads, [j] counts the zeros
    dropped at the end of the 17 digits. *)
Lemma scaled_reads_back neg m e M t j :
  2 ^ 52 <= Zpos m < 2 ^ 53 -> -1074 <= e <= 971 -> 0 <= j ->
  fst (sig_digits 17 (Zpos m * 2 ^ Z.max 0 e) (2 ^ Z.max 0 (- e))) = M * 10 ^ j ->
  t = snd (sig_digits 17 (Zpos m * 2 ^ Z.max 0 e) (2 ^ Z.max 0 (- e))) - 16 + j ->
  scaled neg M 10 t = (S754_finite neg m e, false).
Proof.
  intros Hm He Hj HM Ht.
  assert (HVd : 0 < 2 ^ Z.max 0 (- e)) by (apply Z.pow_pos_nonneg; lia).
  assert (HVn : 0 < Zpos m * 2 ^ Z.max 0 e).
  { apply Z.mul_pos_pos; [lia|]. apply Z.pow_pos_nonneg; lia. }
  destruct (sig_digits_17 _ _ HVn HVd) as [Hn Hclose].
  set (Vn := Zpos m * 2 ^ Z.max 0 e) in *. set (Vd := 2 ^ Z.max 0 (- e)) in *.
  set (X := snd (sig_digits 17 Vn Vd)) in *. rewrite HM in Hn, Hclose.
  assert (H10j : 0 < 10 ^ j) by (apply Z.pow_pos_nonneg; lia).
  assert (HMpos : 0 < M).
  { change (10 ^ 16) with 10000000000000000 in Hn. nia. }
  assert (Hnum : 0 < M * 10 ^ Z.max 0 t).
  { apply Z.mul_pos_pos; [exact HMpos|]. apply Z.pow_pos_nonneg; lia. }
  assert (Hden : 0 < 10 ^ Z.max 0 (- t)) by (apply Z.pow_pos_nonneg; lia).
  assert (Hclose' :
            2 * 10 ^ 16
            * Z.abs (M * 10 ^ Z.max 0 t * 2 ^ 1074
                     - Zpos m * 2 ^ (e + 1074) * 10 ^ Z.max 0 (- t))
            <= Zpos m * 2 ^ (e + 1074) * 10 ^ Z.max 0 (- t)).
  { apply (closeness_transfer (2 * 10 ^ 16) Vn Vd (10 ^ Z.max 0 (16 - X))
             (10 ^ Z.max 0 (X - 16)) (M * 10 ^ j)); try assumption.
    - reflexivity.
    - apply Z.pow_pos_nonneg; lia.
    - apply Z.pow_pos_nonneg; lia.
    - unfold Vn, Vd.
      replace (Zpos m * 2 ^ (e + 1074) * 2 ^ Z.max 0 (- e))
        with (Zpos m * (2 ^ (e + 1074) * 2 ^ Z.max 0 (- e))) by ring.
      replace (Zpos m * 2 ^ Z.max 0 e * 2 ^ 1074)
        with (Zpos m * (2 ^ Z.max 0 e * 2 ^ 1074)) by ring.
      rewrite <- !Z.pow_add_r by lia. do 2 f_equal. lia.
    - replace (M * 10 ^ Z.max 0 t * 10 ^ Z.max 0 (16 - X))
        with (M * (10 ^ Z.max 0 t * 10 ^ Z.max 0 (16 - X))) by ring.
      replace (M * 10 ^ j * 10 ^ Z.max 0 (X - 16) * 10 ^ Z.max 0 (- t))
        with (M * (10 ^ j * 10 ^ Z.max 0 (X - 16) * 10 ^ Z.max 0 (- t))) by ring.
      rewrite <- !Z.pow_add_r by lia. do 2 f_equal. lia. }
  assert (Hround : round_ratio neg (M * 10 ^ Z.max 0 t) (10 ^ Z.max 0 (- t))
                   = S754_finite neg m e)
    by (apply round_ratio_normal; assumption).
  unfold scaled. rewrite Hround. unfold range_error.
  rewrite (close_to_normal_not_tiny m e _ _ ltac:(lia) ltac:(lia) Hden Hclose').
  reflexivity.
Qed.

(** ** The number that digits denote *)

Lemma number_of_zeros j : number_of 10 (repeat "0" j) = 0.
Proof.
  induction j as [|j IH]; [reflexivity|].
  change (repeat "0" (S j)) with (["0"] ++ repeat "0" j).
  rewrite number_of_app, IH. reflexivity.
Qed.

Lemma digit_val_digit c : isdigit c = true -> 0 <= digit_val c <= 9.
Proof.
  intros Hc. unfold digit_val. rewrite Hc. unfold isdigit in Hc.
  change (code "0") with 48 in *. change (code "9") with 57 in *. lia.
Qed.

Lemma number_of_bound l :
  digits l -> 0 <= number_of 10 l < 10 ^ Z.of_nat (length l).
Proof.
  induction l as [|d l IH] using rev_ind; intros Hl.
  - change (number_of 10 []) with 0. change (10 ^ Z.of_nat (length (@nil byte))) with 1.
    lia.
  - apply Forall_app in Hl. destruct Hl as [Hl Hd].
    inversion Hd as [|? ? Hd1 _]; subst. specialize (IH Hl).
    pose proof (digit_val_digit d Hd1).
    rewrite number_of_app, length_app, Nat2Z.inj_add, Z.pow_add_r by lia.
    change (number_of 10 [d]) with (10 * 0 + digit_val d).
    change (10 ^ Z.of_nat (length [d])) with 10. lia.
Qed.

Lemma digit_val_byte v :
  0 <= v < 10 -> digit_val (byte_of (code "0" + v)) = v.
Proof.
  intros Hv.
  assert (Hc : v = 0 \/ v = 1 \/ v = 2 \/ v = 3 \/ v = 4 \/ v = 5 \/ v = 6
               \/ v = 7 \/ v = 8 \/ v = 9) by lia.
  repeat (destruct Hc as [Hc|Hc]; [rewrite Hc; reflexivity|]).
  rewrite Hc; reflexivity.
Qed.

Lemma digits_of_acc len : forall n acc,
  digits_of len n acc = digits_of len n [] ++ acc.
Proof.
  induction len as [|len IH]; intros n acc; cbn [digits_of]; [reflexivity|].
  rewrite IH, (IH (n / 10) [_]), <- app_assoc. reflexivity.
Qed.

Lemma number_of_digits_of len : forall n,
  0 <= n -> number_of 10 (digits_of len n []) = n mod 10 ^ Z.of_nat len.
Proof.
  induction len as [|len IH]; intros n Hn.
  - change (10 ^ Z.of_nat 0) with 1. rewrite Z.mod_1_r. reflexivity.
  - cbn [digits_of]. rewrite digits_of_acc, number_of_app.
    rewrite IH by (apply Z.div_pos; lia).
    change (number_of 10 [byte_of (code "0" + n mod 10)])
      with (10 * 0 + digit_val (byte_of (code "0" + n mod 10))).
    rewrite digit_val_byte by (apply Z.mod_pos_bound; lia).
    change (10 ^ Z.of_nat (length [byte_of (code "0" + n mod 10)])) with 10.
    rewrite Nat2Z.inj_succ, Z.pow_succ_r by lia.
    rewrite (Z.rem_mul_r n 10 (10 ^ Z.of_nat len)) by lia. lia.
Qed.

Lemma digits_of_digits len n : digits (digits_of len n []).
Proof.
  apply (digits_of_bytes (fun c => isdigit c = true)); [auto|constructor].
Qed.

Lemma strip_zeros_rev_zeros r : exists j, r = repeat "0" j ++ strip_zeros_rev r.
Proof.
  induction r as [|c r [j IH]]; [exists O; reflexivity|].
  cbn [strip_zeros_rev]. destruct (Ascii.eqb_spec c "0") as [->|Hc].
  - exists (S j). cbn [repeat app]. f_equal. exact IH.
  - exists O. destruct c as [[] [] [] [] [] [] [] []]; try reflexivity.
    contradiction Hc. reflexivity.
Qed.

Lemma strip_zeros_zeros ds : exists j, ds = strip_zeros ds ++ repeat "0" j.
Proof.
  unfold strip_zeros. destruct (strip_zeros_rev_zeros (rev ds)) as [j H].
  exists j. apply (f_equal (@rev byte)) in H.
  rewrite rev_involutive, rev_app_distr in H. rewrite H at 1.
  f_equal. clear. induction j as [|j IH]; [reflexivity|].
  cbn [repeat rev]. rewrite IH. clear.
  induction j as [|j IH]; [reflexivity|]. cbn [repeat app]. f_equal. exact IH.
Qed.

(** The digits before and after the point of [with_fraction]: the zeros
    dropped at the end scale the number by a power of ten. *)
Lemma with_fraction_value a b :
  digits b ->
  exists f j,
    with_fraction "." a b = a ++ f
    /\ frac_part f
    /\ number_of 10 (a ++ b) = number_of 10 (a ++ tl f) * 10 ^ Z.of_nat j
    /\ (length (tl f) + j = length b)%nat.
Proof.
  intros Hb. destruct (strip_zeros_zeros b) as [j Hj]. unfold with_fraction.
  assert (Hval : forall s, b = s ++ repeat "0" j ->
                 number_of 10 (a ++ b) = number_of 10 (a ++ s) * 10 ^ Z.of_nat j
                 /\ (length s + j = length b)%nat).
  { intros s Hs. rewrite Hs at 1. rewrite app_assoc, number_of_app, number_of_zeros.
    rewrite repeat_length. split; [lia|].
    rewrite Hs, length_app, repeat_length. reflexivity. }
  destruct (strip_zeros b) as [|c fp'] eqn:E.
  - exists [], j. rewrite app_nil_r. split; [reflexivity|].
    split; [left; reflexivity|]. apply (Hval [] Hj).
  - exists ("." :: c :: fp'), j. split; [reflexivity|]. split.
    + right. exists c, fp'. split; [reflexivity|].
      rewrite Hj in Hb. apply Forall_app in Hb. exact (proj1 Hb).
    + apply (Hval (c :: fp') Hj).
Qed.

Lemma number_of_decimal min v : 0 <= v -> number_of 10 (decimal min v) = v.
Proof.
  intros Hv. unfold decimal. rewrite number_of_digits_of by exact Hv.
  apply Z.mod_small. split; [exact Hv|].
  destruct (log10_floor_spec (Z.max v 1) 1 ltac:(lia) ltac:(lia)) as [L1 L2].
  pose proof (log10_floor_bounds (Z.max v 1) 1 ltac:(lia) ltac:(lia)) as Hb.
  change (Z.log2 1) with 0 in Hb.
  set (x := log10_floor (Z.max v 1) 1) in *.
  assert (Hx : 0 <= x).
  { destruct (Z_le_gt_dec 0 x) as [H|H]; [exact H|]. exfalso.
    replace (Z.max 0 (- (x + 1))) with 0 in L2 by lia.
    replace (Z.max 0 (x + 1)) with 0 in L2 by lia.
    change (10 ^ 0) with 1 in L2. lia. }
  replace (Z.max 0 (- (x + 1))) with 0 in L2 by lia.
  replace (Z.max 0 (x + 1)) with (x + 1) in L2 by lia.
  change (10 ^ 0) with 1 in L2.
  apply Z.lt_le_trans with (10 ^ (x + 1)); [lia|].
  apply Z.pow_le_mono_r; lia.
Qed.

Lemma decimal_digits min v : digits (decimal min v).
Proof. unfold decimal. apply digits_of_digits. Qed.

Lemma decimal_2 v : exists d ds, decimal 2 v = d :: ds.
Proof.
  pose proof (digits_of_length
                (Nat.max 2 (Z.to_nat (log10_floor (Z.max v 1) 1) + 1)) v []) as H.
  unfold decimal. destruct (digits_of _ v []) as [|d ds]; [simpl in H; lia|].
  exists d, ds. reflexivity.
Qed.

(** ** What [strtod] reads from a number of the grammar *)

Lemma mantissa_value i f x :
  int_part i -> frac_part f -> exp_part x ->
  mantissa 10 isdigit (i ++ f ++ x)
  = Some (number_of 10 (i ++ tl f), Z.of_nat (length (tl f)), x).
Proof.
  intros Hi Hf Hx. destruct (int_part_digits i Hi) as [Hdi Hne].
  destruct (exp_tail x [] Hx eq_refl) as ((Hd & _) & Hp). rewrite app_nil_r in Hd, Hp.
  unfold mantissa. destruct Hf as [->|(d & ds & -> & Hds)].
  - cbn [app tl length]. rewrite (take_while_digits i x Hdi Hd).
    destruct (Ascii.eqb_spec (peek x) ".") as [E|_]; [contradiction|].
    rewrite app_nil_r. destruct i; [contradiction|reflexivity].
  - rewrite (take_while_digits i (("." :: d :: ds) ++ x) Hdi eq_refl).
    cbn [app peek tl]. rewrite Ascii.eqb_refl.
    change (advance 1 ("." :: d :: ds ++ x)) with ((d :: ds) ++ x).
    rewrite (take_while_digits (d :: ds) x Hds Hd).
    destruct i; [contradiction|reflexivity].
Qed.

Lemma exponent_value x :
  exp_part x -> exponent_part "e" "E" x = (exp_value x, []).
Proof.
  intros [->|(e & sign & d & ds & -> & He & Hs & Hds)]; [reflexivity|].
  inversion Hds as [|? ? Hd1 Hds']; subst.
  unfold exponent_part. cbn [peek].
  replace (Ascii.eqb e "e" || Ascii.eqb e "E") with true
    by (destruct He as [->| ->]; reflexivity).
  change (advance 1 (e :: sign ++ d :: ds)) with (sign ++ d :: ds).
  pose proof (take_while_digits (d :: ds) [] Hds eq_refl) as Ht.
  rewrite app_nil_r in Ht.
  destruct Hs as [->|[->| ->]]; cbn [app peek].
  - destruct (Ascii.eqb_spec d "-") as [->|Hm]; [discriminate Hd1|].
    destruct (Ascii.eqb_spec d "+") as [->|Hp]; [discriminate Hd1|].
    cbn [orb]. rewrite Ht. unfold exp_value.
    destruct d as [[] [] [] [] [] [] [] []]; try reflexivity;
      first [contradiction Hm; reflexivity | contradiction Hp; reflexivity].
  - cbn [Ascii.eqb]. simpl orb. cbv iota.
    change (advance 1 ("+" :: d :: ds)) with (d :: ds).
    rewrite Ht. reflexivity.
  - cbn [Ascii.eqb]. simpl orb. cbv iota.
    change (advance 1 ("-" :: d :: ds)) with (d :: ds).
    rewrite Ht. reflexivity.
Qed.

Lemma strtod_magnitude_value neg i f x nptr :
  int_part i -> frac_part f -> exp_part x ->
  strtod_magnitude neg (i ++ f ++ x) nptr
  = (fst (scaled neg (number_of 10 (i ++ tl f)) 10
            (exp_value x - Z.of_nat (length (tl f)))),
     [],
     snd (scaled neg (number_of 10 (i ++ tl f)) 10
            (exp_value x - Z.of_nat (length (tl f))))).
Proof.
  intros Hi Hf Hx. unfold strtod_magnitude.
  assert (Hhex : Ascii.eqb (peek (i ++ f ++ x)) "0"
                 && (Ascii.eqb (peek (advance 1 (i ++ f ++ x))) "x"
                     || Ascii.eqb (peek (advance 1 (i ++ f ++ x))) "X")
                 = false).
  { destruct Hi as [->|(d & ds & -> & Hd & Hd0 & Hds)].
    - cbn [app peek]. change (advance 1 ("0" :: f ++ x)) with (f ++ x).
      destruct (frac_tail f x [] Hf Hx eq_refl) as (_ & Hx1 & Hx2).
      rewrite app_nil_r in Hx1, Hx2.
      destruct (Ascii.eqb_spec (peek (f ++ x)) "x"); [contradiction|].
      destruct (Ascii.eqb_spec (peek (f ++ x)) "X"); [contradiction|].
      reflexivity.
    - cbn [app peek]. destruct (Ascii.eqb_spec d "0"); [contradiction|reflexivity]. }
  rewrite Hhex. unfold strtod_decimal.
  rewrite (mantissa_value i f x Hi Hf Hx), (exponent_value x Hx).
  destruct (scaled neg _ 10 _); reflexivity.
Qed.

Lemma strtod_value (neg : bool) i f x :
  int_part i -> frac_part f -> exp_part x ->
  strtod ((if neg then ["-"] else []) ++ i ++ f ++ x)
  = (fst (scaled neg (number_of 10 (i ++ tl f)) 10
            (exp_value x - Z.of_nat (length (tl f)))),
     [],
     snd (scaled neg (number_of 10 (i ++ tl f)) 10
            (exp_value x - Z.of_nat (length (tl f))))).
Proof.
  intros Hi Hf Hx. unfold strtod. destruct neg; cbn [app].
  - cbn [peek]. rewrite Ascii.eqb_refl.
    change (advance 1 ("-" :: i ++ f ++ x)) with (i ++ f ++ x).
    apply strtod_magnitude_value; assumption.
  - pose proof (int_part_head i (f ++ x) Hi) as Hh.
    destruct (Ascii.eqb_spec (peek (i ++ f ++ x)) "-") as [E|_];
      [rewrite E in Hh; discriminate Hh|].
    destruct (Ascii.eqb_spec (peek (i ++ f ++ x)) "+") as [E|_];
      [rewrite E in Hh; discriminate Hh|].
    apply strtod_magnitude_value; assumption.
Qed.

(** ** The text of [%.17g] as a number of the grammar *)

Lemma format_g_value num den :
  0 < num -> 0 < den ->
  exists i f x j,
    format_g 17 "." num den = i ++ f ++ x
    /\ int_part i /\ frac_part f /\ exp_part x
    /\ fst (sig_digits 17 num den) = number_of 10 (i ++ tl f) * 10 ^ Z.of_nat j
    /\ exp_value x - Z.of_nat (length (tl f))
       = snd (sig_digits 17 num den) - 16 + Z.of_nat j.
Proof.
  intros Hnum Hden. unfold format_g.
  destruct (sig_digits_17 num den Hnum Hden) as [Hn _].
  destruct (sig_digits 17 num den) as [n X]. cbn [fst snd] in *.
  change (Z.to_nat 17) with 17%nat.
  pose proof (digits_of_length 17 n []) as Hlen. cbn [length] in Hlen.
  pose proof (digits_of_digits 17 n) as Hdig.
  assert (Hval : number_of 10 (digits_of 17 n []) = n).
  { rewrite number_of_digits_of by (change (10 ^ 16) with 10000000000000000 in Hn; lia).
    apply Z.mod_small. change (10 ^ Z.of_nat 17) with (10 ^ 17).
    change (10 ^ 16) with 10000000000000000 in Hn. lia. }
  destruct (digits_of 17 n []) as [|d0 ds'] eqn:Eds; [discriminate Hlen|].
  apply Forall_cons in Hdig. destruct Hdig as [Hd0 Hds'].
  assert (Hlen' : length ds' = 16%nat) by (cbn [length] in Hlen; lia).
  assert (Hnz : d0 <> "0").
  { intros ->. change ("0" :: ds') with (["0"] ++ ds') in Hval.
    rewrite number_of_app in Hval. change (number_of 10 ["0"]) with 0 in Hval.
    pose proof (number_of_bound ds' Hds') as Hb. rewrite Hlen' in Hb.
    change (10 ^ Z.of_nat 16) with (10 ^ 16) in Hb. lia. }
  destruct ((X <? -4) || (17 <=? X)) eqn:Hexp.
  - (* d.ddde+XX *)
    change (firstn 1 (d0 :: ds')) with [d0]. change (skipn 1 (d0 :: ds')) with ds'.
    destruct (with_fraction_value [d0] ds' Hds') as (f & j & -> & Hf & Hv & Hl).
    destruct (decimal_2 (Z.abs X)) as (d & dd & Hdec).
    pose proof (decimal_digits 2 (Z.abs X)) as Hdd. rewrite Hdec in Hdd.
    exists [d0], f, ("e" :: (if X <? 0 then "-" else "+") :: decimal 2 (Z.abs X)), j.
    split; [rewrite <- app_assoc; reflexivity|].
    split; [right; exists d0, []; repeat split; [exact Hd0|exact Hnz|constructor]|].
    split; [exact Hf|]. split.
    { right. exists "e", [if X <? 0 then "-" else "+"], d, dd.
      rewrite Hdec. split; [reflexivity|]. split; [left; reflexivity|].
      split; [destruct (X <? 0); auto|exact Hdd]. }
    split.
    { rewrite <- Hv. exact (eq_sym Hval). }
    assert (Hx : exp_value ("e" :: (if X <? 0 then "-" else "+") :: decimal 2 (Z.abs X))
                 = X).
    { destruct (Z.ltb_spec X 0); cbn [exp_value];
        rewrite number_of_decimal by lia; lia. }
    rewrite Hx. lia.
  - destruct (Z.ltb_spec X 0) as [Hneg|Hpos].
    + (* 0.000ddd *)
      assert (Hb : digits (repeat "0" (Z.to_nat (- X - 1)) ++ d0 :: ds')).
      { apply Forall_app. split; [|constructor; assumption].
        apply Forall_forall. intros c Hc. apply list_elem_of_In in Hc.
        apply repeat_spec in Hc. subst c. reflexivity. }
      destruct (with_fraction_value ["0"] _ Hb) as (f & j & -> & Hf & Hv & Hl).
      exists ["0"], f, [], j. rewrite app_nil_r.
      split; [reflexivity|]. split; [left; reflexivity|].
      split; [exact Hf|]. split; [left; reflexivity|]. split.
      * rewrite <- Hv. rewrite number_of_app. change (number_of 10 ["0"]) with 0.
        rewrite number_of_app, number_of_zeros. cbn [length] in *. lia.
      * rewrite length_app, repeat_length in Hl. cbn [length exp_value] in *. lia.
    + (* ddd.ddd *)
      assert (Hsplit : firstn (Z.to_nat (X + 1)) (d0 :: ds')
                       = d0 :: firstn (Z.to_nat X) ds').
      { replace (Z.to_nat (X + 1)) with (S (Z.to_nat X)) by lia. reflexivity. }
      assert (Hb : digits (skipn (Z.to_nat (X + 1)) (d0 :: ds')))
        by (apply Forall_drop; constructor; assumption).
      destruct (with_fraction_value (firstn (Z.to_nat (X + 1)) (d0 :: ds')) _ Hb)
        as (f & j & -> & Hf & Hv & Hl).
      exists (firstn (Z.to_nat (X + 1)) (d0 :: ds')), f, [], j. rewrite app_nil_r.
      split; [reflexivity|]. split.
      { right. rewrite Hsplit. exists d0, (firstn (Z.to_nat X) ds').
        repeat split; [exact Hd0|exact Hnz|]. apply Forall_take. exact Hds'. }
      split; [exact Hf|]. split; [left; reflexivity|]. split.
      * rewrite <- Hv, firstn_skipn. exact (eq_sym Hval).
      * rewrite length_skipn in Hl. cbn [length exp_value] in *. lia.
Qed.

(** C8: for every tree with a number that is not finite, whatever the
    output variables hold and whatever the allocator does, [rjson_serialize]
    returns -1 and the output variables hold what they held. A finite
    binary64 is written as [snprintf] writes it for [%.17g], that is with
    17 significant digits of which the zeros at the end are left out: the
    text of a number other than zero is a number of the grammar, and the
    digits of its integer part and its fraction, followed by [j] zeros,
    make a number of 17 digits. So 0.1 becomes [0.10000000000000001]. *)
Theorem C8_nonfinite_number_fails :
  (forall value out_string out_length h,
      has_nonfinite value = true ->
      exists h',
        rjson_serialize (Some value) out_string out_length h
        = (-1, out_string, out_length, h'))
  /\ (forall num sb h,
         granted h -> isfinite num = true -> valid_binary 53 1024 num = true ->
         exists sb' h',
           serialize_number num sb h = (0, sb', h')
           /\ written sb' = written sb ++ printf_g 17 "." num)
  /\ (forall s m e,
         exists i f x j,
           printf_g 17 "." (S754_finite s m e)
           = (if s then ["-"] else []) ++ i ++ f ++ x
           /\ int_part i /\ frac_part f /\ exp_part x
           /\ 10 ^ 16 <= number_of 10 (i ++ tl f) * 10 ^ Z.of_nat j < 10 ^ 17)
  /\ (exists v h b h',
         rjson_parse (Some (lit "0.1")) (heap_init []) = (Some v, h)
         /\ rjson_serialize (Some v) (Some None) None h
            = (0, Some (Some (b, lit "0.10000000000000001")), None, h')).
Proof.
  split; [|split; [|split]].
  - intros. apply rjson_serialize_nonfinite. assumption.
  - intros num sb h H Hf Hv.
    destruct (serialize_number_granted num sb h H Hf Hv) as (sb' & h' & E & Hw & _).
    eexists _, _. split; eassumption.
  - intros s m e. unfold printf_g.
    assert (Hnum : 0 < Zpos m * 2 ^ Z.max 0 e) by (apply Z.mul_pos_pos; lia).
    assert (Hden : 0 < 2 ^ Z.max 0 (- e)) by lia.
    destruct (format_g_value _ _ Hnum Hden)
      as (i & f & x & j & Htext & Hi & Hf & Hx & Hn & _).
    destruct (sig_digits_17 _ _ Hnum Hden) as [Hb _]. rewrite Hn in Hb.
    exists i, f, x, j. rewrite Htext. repeat split; try assumption; apply Hb.
  - eexists _, _, _, _. split; [vm_compute; reflexivity|]. vm_compute. reflexivity.
Qed.

Lemma C8_nonfinite_number_fails_witness :
  (exists h',
      rjson_serialize
        (Some (V_ARRAY 1%positive (Some 2%positive)
                 [V_NULL 3%positive; V_NUMBER 4%positive S754_nan]))
        (Some None) (Some 7) (heap_init [])
      = (-1, Some None, Some 7, h'))
  /\ (exists sb' h',
         serialize_number (S754_finite false 4503599627370496 (-52))
           (Strbuf None [] 0) (heap_init [])
         = (0, sb', h')
         /\ written sb' = [] ++ printf_g 17 "." (S754_finite false 4503599627370496 (-52))).
Proof.
  split.
  - apply (proj1 C8_nonfinite_number_fails). reflexivity.
  - apply (proj1 (proj2 C8_nonfinite_number_fails));
      [unfold granted; simpl; constructor|reflexivity|reflexivity].
Defined.

(** ** Seventeen digits are read back *)

Lemma normal_reads_back x : normal x -> reads_back x.
Proof.
  destruct x as [s|s| |s m e]; try contradiction.
  - intros _. destruct s.
    + split; [reflexivity|]. split; [apply Nat.ltb_lt; reflexivity|].
      split; [|vm_compute; reflexivity].
      exists ["-"], ["0"], [], []. split; [reflexivity|].
      split; [right; reflexivity|]. split; [left; reflexivity|].
      split; left; reflexivity.
    + split; [reflexivity|]. split; [apply Nat.ltb_lt; reflexivity|].
      split; [|vm_compute; reflexivity].
      exists [], ["0"], [], []. split; [reflexivity|].
      split; [left; reflexivity|]. split; [left; reflexivity|].
      split; left; reflexivity.
  - intros [Hm He]. unfold reads_back, printf_g.
    assert (Hnum : 0 < Zpos m * 2 ^ Z.max 0 e) by (apply Z.mul_pos_pos; lia).
    assert (Hden : 0 < 2 ^ Z.max 0 (- e)) by lia.
    destruct (format_g_17 (Zpos m * 2 ^ Z.max 0 e) (2 ^ Z.max 0 (- e)) Hnum Hden)
      as [Hlen _].
    { apply Z.log2_lt_pow2; [exact Hnum|].
      apply Z.lt_le_trans with (2 ^ 53 * 2 ^ Z.max 0 e).
      - apply Z.mul_lt_mono_pos_r; lia.
      - rewrite <- Z.pow_add_r by lia. apply Z.pow_le_mono_r; lia. }
    { rewrite Z.log2_pow2 by lia. lia. }
    destruct (format_g_value _ _ Hnum Hden) as (i & f & x & j & Htext & Hi & Hf & Hx & Hn & Ht).
    split; [reflexivity|]. split.
    { rewrite length_app. destruct s; cbn [length]; lia. }
    rewrite Htext in *. split.
    { exists (if s then ["-"] else []), i, f, x. split; [reflexivity|].
      split; [destruct s; auto|]. repeat split; assumption. }
    rewrite (strtod_value s i f x Hi Hf Hx).
    rewrite (scaled_reads_back s m e (number_of 10 (i ++ tl f))
               (exp_value x - Z.of_nat (length (tl f))) (Z.of_nat j) Hm He
               ltac:(lia) Hn Ht).
    reflexivity.
Qed.

(** ** What [strtod] returns is a binary64 *)

Lemma digits2_pos_lower m : 2 ^ (Zpos (digits2_pos m) - 1) <= Zpos m.
Proof.
  induction m as [m IH|m IH|]; cbn [digits2_pos].
  - rewrite Pos2Z.inj_succ. replace (Z.succ (Zpos (digits2_pos m)) - 1)
      with (Z.succ (Zpos (digits2_pos m) - 1)) by lia.
    rewrite Z.pow_succ_r by lia. lia.
  - rewrite Pos2Z.inj_succ. replace (Z.succ (Zpos (digits2_pos m)) - 1)
      with (Z.succ (Zpos (digits2_pos m) - 1)) by lia.
    rewrite Z.pow_succ_r by lia. lia.
  - reflexivity.
Qed.

Lemma digits2_pos_log2 m : Zpos (digits2_pos m) = Z.log2 (Zpos m) + 1.
Proof.
  pose proof (digits2_pos_bound m) as Hu. pose proof (digits2_pos_lower m) as Hl.
  rewrite (Z.log2_unique (Zpos m) (Zpos (digits2_pos m) - 1)); [lia|lia|].
  replace (Z.succ (Zpos (digits2_pos m) - 1)) with (Zpos (digits2_pos m)) by lia.
  lia.
Qed.

Lemma bounded_binary64 m e :
  Zpos m < 2 ^ 53 -> -1074 <= e <= 971 -> (2 ^ 52 <= Zpos m \/ e = -1074) ->
  bounded 53 1024 m e = true.
Proof.
  intros Hm He Hn. unfold bounded, canonical_mantissa, fexp, emin.
  rewrite digits2_pos_log2.
  assert (Hlog : Z.log2 (Zpos m) <= 52).
  { apply Z.lt_succ_r. apply Z.log2_lt_pow2; [lia|]. exact Hm. }
  apply andb_true_iff. split; [|apply Z.leb_le; lia].
  apply Z.eqb_eq. destruct Hn as [Hn| ->].
  - assert (52 <= Z.log2 (Zpos m)) by (apply Z.log2_le_pow2; lia). lia.
  - lia.
Qed.

Lemma round_ratio_valid neg num den :
  0 <= num -> 0 < den -> valid_binary 53 1024 (round_ratio neg num den) = true.
Proof.
  intros Hnum Hden. destruct (Z.eq_dec num 0) as [->|Hnz]; [reflexivity|].
  rewrite round_ratio_pos by lia. cbv zeta.
  remember (num * 2 ^ 1074) as A eqn:HA.
  assert (HApos : 0 < A) by (rewrite HA; apply Z.mul_pos_pos; lia).
  remember (A / den) as q eqn:Hq.
  assert (Hq0 : 0 <= q) by (rewrite Hq; apply Z.div_pos; lia).
  assert (Hqden : q * den <= A < (q + 1) * den).
  { rewrite Hq. pose proof (Z_div_mod_eq_full A den).
    pose proof (Z.mod_pos_bound A den Hden). nia. }
  remember (Z.max (Z.log2 q - 1126) (-1074)) as e0 eqn:He0.
  assert (HP : 0 < 2 ^ (e0 + 1074)) by (apply Z.pow_pos_nonneg; lia).
  remember (2 ^ (e0 + 1074)) as P eqn:HPdef.
  change (2 ^ 53) with 9007199254740992. change (2 ^ 52) with 4503599627370496.
  assert (Hm0 : 0 <= round_div A (den * P) <= 9007199254740992
                /\ (-1074 < e0 -> 4503599627370496 <= round_div A (den * P))).
  { destruct (Z_lt_le_dec (-1074) (Z.log2 q - 1126)) as [Hbig|Hsmall].
    - (* the exponent of a significand of 53 bits *)
      assert (HL : 52 < Z.log2 q) by lia.
      assert (Hqpos : 0 < q).
      { destruct (Z.eq_dec q 0) as [Hz|Hz]; [|lia].
        rewrite Hz in HL. change (Z.log2 0) with 0 in HL. lia. }
      pose proof (Z.log2_spec q Hqpos) as [Hlo Hhi].
      assert (He : e0 + 1074 = Z.log2 q - 52) by lia.
      assert (Hpow : 2 ^ Z.log2 q = 4503599627370496 * P).
      { rewrite HPdef, He. change 4503599627370496 with (2 ^ 52).
        rewrite <- Z.pow_add_r by lia. f_equal. lia. }
      rewrite Z.pow_succ_r in Hhi by lia. rewrite Hpow in Hlo, Hhi.
      assert (Hb : 4503599627370496 * (den * P) <= A <= 9007199254740992 * (den * P))
        by nia.
      pose proof (round_div_between A (den * P) _ _ ltac:(nia) Hb). lia.
    - assert (He : e0 = -1074) by lia.
      assert (HP1 : P = 1) by (rewrite HPdef, He; reflexivity).
      rewrite HP1, Z.mul_1_r.
      assert (Hq53 : q < 9007199254740992).
      { destruct (Z.eq_dec q 0) as [Hz|Hz]; [lia|].
        pose proof (Z.log2_spec q ltac:(lia)) as [_ Hhi].
        apply Z.lt_le_trans with (2 ^ Z.succ (Z.log2 q)); [exact Hhi|].
        change 9007199254740992 with (2 ^ 53). apply Z.pow_le_mono_r; lia. }
      assert (Hb : 0 * den <= A <= 9007199254740992 * den) by nia.
      pose proof (round_div_between A den _ _ Hden Hb). lia. }
  destruct Hm0 as [Hm0 Hnorm].
  remember (round_div A (den * P)) as m0 eqn:Em0.
  destruct (Z.eqb_spec m0 9007199254740992) as [Hcarry|Hno].
  - destruct (Z.leb_spec (e0 + 1) 971); [|reflexivity].
    apply bounded_binary64; [reflexivity|lia|left; reflexivity].
  - destruct m0 as [|m|m]; [reflexivity| |reflexivity].
    destruct (Z.leb_spec e0 971); [|reflexivity].
    apply bounded_binary64; [change (2 ^ 53) with 9007199254740992; lia|lia|].
    change (2 ^ 52) with 4503599627370496.
    destruct (Z.eq_dec e0 (-1074)) as [E|E]; [right; exact E|left; apply Hnorm; lia].
Qed.

Lemma take_while_Forall f p : Forall (fun c => f c = true) (fst (take_while f p)).
Proof.
  induction p as [|c p IH]; cbn [take_while]; [constructor|].
  destruct (f c) eqn:Hc; [|constructor].
  destruct (take_while f p) as [d r]. cbn [fst] in *. constructor; assumption.
Qed.

Lemma digit_val_xdigit c : isxdigit c = true -> 0 <= digit_val c.
Proof.
  unfold isxdigit, digit_val, isdigit.
  change (code "0") with 48. change (code "9") with 57.
  change (code "a") with 97. change (code "f") with 102.
  change (code "A") with 65. change (code "F") with 70.
  intros H. destruct ((48 <=? code c) && (code c <=? 57)) eqn:Hd; [lia|].
  destruct ((97 <=? code c) && (code c <=? 102)) eqn:Ha; lia.
Qed.

Lemma number_of_nonneg base ds :
  0 <= base -> Forall (fun c => 0 <= digit_val c) ds -> 0 <= number_of base ds.
Proof.
  intros Hb. induction ds as [|d ds IH] using rev_ind; intros Hds; [reflexivity|].
  apply Forall_app in Hds. destruct Hds as [Hds Hd].
  inversion Hd as [|? ? Hd1 _]; subst. specialize (IH Hds).
  rewrite number_of_app. change (number_of base [d]) with (base * 0 + digit_val d).
  assert (0 <= base ^ Z.of_nat (length [d])) by (apply Z.pow_nonneg; exact Hb). nia.
Qed.

Lemma mantissa_nonneg base isdig p m k p1 :
  0 <= base -> (forall c, isdig c = true -> 0 <= digit_val c) ->
  mantissa base isdig p = Some (m, k, p1) -> 0 <= m.
Proof.
  intros Hb Hdig. unfold mantissa.
  pose proof (take_while_Forall isdig p) as Hip.
  destruct (take_while isdig p) as [ip q]. cbn [fst] in Hip.
  assert (Hfp : Forall (fun c => isdig c = true)
                  (fst (if Ascii.eqb (peek q) "."
                        then take_while isdig (advance 1 q) else ([], q)))).
  { destruct (Ascii.eqb (peek q) "."); [apply take_while_Forall|constructor]. }
  destruct (if Ascii.eqb (peek q) "." then take_while isdig (advance 1 q) else ([], q))
    as [fp q2]. cbn [fst] in Hfp.
  assert (Hall : Forall (fun c => 0 <= digit_val c) (ip ++ fp)).
  { apply Forall_app. split; (eapply Forall_impl; [eassumption|exact Hdig]). }
  destruct (ip ++ fp) as [|c l] eqn:E; [discriminate|].
  intros H. injection H as <- _ _. apply number_of_nonneg; assumption.
Qed.

Lemma scaled_valid neg m base e :
  0 <= m -> 0 < base -> valid_binary 53 1024 (fst (scaled neg m base e)) = true.
Proof.
  intros Hm Hb. unfold scaled. cbn [fst]. apply round_ratio_valid.
  - apply Z.mul_nonneg_nonneg; [exact Hm|]. apply Z.pow_nonneg. lia.
  - apply Z.pow_pos_nonneg; lia.
Qed.

Lemma strtod_magnitude_valid neg p nptr :
  valid_binary 53 1024 (fst (fst (strtod_magnitude neg p nptr))) = true.
Proof.
  unfold strtod_magnitude.
  assert (Hdec : valid_binary 53 1024 (fst (fst (strtod_decimal neg p nptr))) = true).
  { unfold strtod_decimal.
    destruct (mantissa 10 isdigit p) as [[[m k] p1]|] eqn:Em; [|reflexivity].
    apply mantissa_nonneg in Em;
      [|lia|intros c Hc; apply (digit_val_digit c Hc)].
    destruct (exponent_part "e" "E" p1) as [e p2].
    pose proof (scaled_valid neg m 10 (e - k) Em ltac:(lia)) as Hv.
    destruct (scaled neg m 10 (e - k)) as [x err]. exact Hv. }
  destruct (_ && _); [|exact Hdec].
  unfold strtod_hex.
  destruct (mantissa 16 isxdigit (advance 2 p)) as [[[m k] p1]|] eqn:Em; [|exact Hdec].
  apply mantissa_nonneg in Em; [|lia|exact digit_val_xdigit].
  destruct (exponent_part "p" "P" p1) as [e p2].
  pose proof (scaled_valid neg m 2 (e - 4 * k) Em ltac:(lia)) as Hv.
  destruct (scaled neg m 2 (e - 4 * k)) as [x err]. exact Hv.
Qed.

Lemma strtod_valid nptr : valid_binary 53 1024 (fst (fst (strtod nptr))) = true.
Proof.
  unfold strtod. destruct (Ascii.eqb (peek nptr) "-"); [apply strtod_magnitude_valid|].
  destruct (Ascii.eqb (peek nptr) "+"); apply strtod_magnitude_valid.
Qed.

(** ** What the grammar check of [parse_number] accepts *)

Lemma take_while_isdigit p :
  exists d r,
    take_while isdigit p = (d, r) /\ p = d ++ r /\ digits d
    /\ isdigit (peek r) = false.
Proof.
  induction p as [|c p (d & r & E & Hp & Hd & Hr)].
  - exists [], []. repeat split. constructor.
  - cbn [take_while]. destruct (isdigit c) eqn:Hc.
    + rewrite E. exists (c :: d), r. split; [reflexivity|].
      split; [cbn [app]; f_equal; exact Hp|]. split; [constructor; assumption|exact Hr].
    + exists [], (c :: p). repeat split; [constructor|exact Hc].
Qed.

(** The cursor that [scan_number] returns follows a number of the grammar,
    and nothing at the cursor continues the number. *)
Lemma scan_number_sound json j :
  scan_number json = Some j ->
  exists (neg : bool) i f x,
    json = (if neg then ["-"] else []) ++ i ++ f ++ x ++ j
    /\ int_part i /\ frac_part f /\ exp_part x
    /\ isdigit (peek j) = false
    /\ (x = [] -> peek j <> "e" /\ peek j <> "E")
    /\ (f = [] -> x = [] -> peek j <> ".").
Proof.
  unfold scan_number. intros H.
  (* the sign *)
  assert (Hsign : exists neg : bool,
             json = (if neg then ["-"] else []) ++ scan_sign json).
  { unfold scan_sign. destruct json as [|c json]; [exists false; reflexivity|].
    cbn [peek]. destruct (Ascii.eqb_spec c "-") as [->|_];
      [exists true|exists false]; reflexivity. }
  destruct Hsign as [neg Hsign]. remember (scan_sign json) as j0 eqn:E0. clear E0.
  (* the integer part *)
  destruct (scan_int j0) as [j1|] eqn:E1; [|discriminate H].
  assert (Hint : exists i, j0 = i ++ j1 /\ int_part i /\ isdigit (peek j1) = false).
  { unfold scan_int in E1. destruct j0 as [|c j0]; [discriminate E1|].
    cbn [peek] in E1. destruct (Ascii.eqb_spec c "0") as [->|Hc0].
    - change (advance 1 ("0" :: j0)) with j0 in E1.
      destruct (isdigit (peek j0)) eqn:Hd; [discriminate E1|].
      injection E1 as <-. exists ["0"]. repeat split; [left; reflexivity|exact Hd].
    - destruct (isdigit c) eqn:Hc; [|discriminate E1].
      injection E1 as <-. unfold skip_digits.
      destruct (take_while_isdigit (c :: j0)) as (d & r & E & Hp & Hd & Hr).
      rewrite E. cbn [snd]. exists d. split; [exact Hp|]. split; [|exact Hr].
      destruct d as [|c' d].
      + cbn [take_while] in E. rewrite Hc in E.
        destruct (take_while isdigit j0); discriminate E.
      + cbn [app] in Hp. injection Hp as <- _.
        apply Forall_cons in Hd. destruct Hd as [Hd1 Hd].
        right. exists c, d. repeat split; assumption. }
  destruct Hint as (i & -> & Hi & Hd1).
  (* the fraction *)
  destruct (scan_frac j1) as [j2|] eqn:E2; [|discriminate H].
  assert (Hfrac : exists f, j1 = f ++ j2 /\ frac_part f /\ isdigit (peek j2) = false
                            /\ (f = [] -> peek j2 <> ".")).
  { unfold scan_frac in E2. destruct (Ascii.eqb_spec (peek j1) ".") as [Hp|Hp].
    - destruct j1 as [|c j1]; [discriminate Hp|]. cbn [peek] in Hp. subst c.
      change (advance 1 ("." :: j1)) with j1 in E2.
      destruct (isdigit (peek j1)) eqn:Hd; [|discriminate E2].
      injection E2 as <-. unfold skip_digits.
      destruct (take_while_isdigit j1) as (d & r & E & Hj & Hds & Hr).
      rewrite E. cbn [snd]. exists ("." :: d).
      split; [cbn [app]; f_equal; exact Hj|]. split; [|split; [exact Hr|discriminate]].
      destruct d as [|c d].
      + cbn [app] in Hj. subst r. rewrite Hd in Hr. discriminate Hr.
      + right. exists c, d. split; [reflexivity|exact Hds].
    - injection E2 as <-. exists []. split; [reflexivity|].
      split; [left; reflexivity|]. split; [exact Hd1|intros _; exact Hp]. }
  destruct Hfrac as (f & -> & Hf & Hd2 & Hp2).
  (* the exponent *)
  assert (Hexp : exists x, j2 = x ++ j /\ exp_part x /\ isdigit (peek j) = false
                           /\ (x = [] -> j = j2 /\ peek j <> "e" /\ peek j <> "E")).
  { unfold scan_exp in H.
    destruct (Ascii.eqb (peek j2) "e" || Ascii.eqb (peek j2) "E") eqn:He.
    - destruct j2 as [|c j2]; [discriminate He|]. cbn [peek] in He.
      change (advance 1 (c :: j2)) with j2 in H.
      assert (Hsg : exists sg, j2 = sg ++ (if Ascii.eqb (peek j2) "+"
                                              || Ascii.eqb (peek j2) "-"
                                           then advance 1 j2 else j2)
                               /\ (sg = [] \/ sg = ["+"] \/ sg = ["-"])).
      { destruct j2 as [|s j2]; [exists []; split; [reflexivity|left; reflexivity]|].
        cbn [peek]. destruct (Ascii.eqb_spec s "+") as [->|_].
        - exists ["+"]. split; [reflexivity|right; left; reflexivity].
        - destruct (Ascii.eqb_spec s "-") as [->|_].
          + exists ["-"]. split; [reflexivity|right; right; reflexivity].
          + exists []. split; [reflexivity|left; reflexivity]. }
      destruct Hsg as (sg & Hj2 & Hsg).
      remember (if Ascii.eqb (peek j2) "+" || Ascii.eqb (peek j2) "-"
                then advance 1 j2 else j2) as j3 eqn:E3. clear E3.
      destruct (isdigit (peek j3)) eqn:Hd; [|discriminate H].
      injection H as <-. unfold skip_digits.
      destruct (take_while_isdigit j3) as (d & r & E & Hj & Hds & Hr).
      rewrite E. cbn [snd]. destruct d as [|c' d].
      { cbn [app] in Hj. subst r. rewrite Hd in Hr. discriminate Hr. }
      exists (c :: sg ++ c' :: d). split.
      { rewrite Hj2, Hj. cbn [app]. rewrite <- app_assoc. reflexivity. }
      split; [|split; [exact Hr|discriminate]].
      right. exists c, sg, c', d. split; [reflexivity|]. split; [|split; assumption].
      destruct (Ascii.eqb_spec c "e"); [left; assumption|].
      destruct (Ascii.eqb_spec c "E"); [right; assumption|discriminate He].
    - injection H as <-. exists []. split; [reflexivity|]. split; [left; reflexivity|].
      split; [exact Hd2|]. intros _. split; [reflexivity|].
      apply orb_false_iff in He. destruct He as [He1 He2].
      split; intros Hc; rewrite Hc in *; discriminate. }
  destruct Hexp as (x & -> & Hx & Hd3 & Hx0).
  exists neg, i, f, x. split; [exact Hsign|]. repeat split; try assumption.
  - apply Hx0; assumption.
  - apply Hx0; assumption.
  - intros Hf0 Hx1. destruct (Hx0 Hx1) as (Hj & _). rewrite Hj. apply Hp2, Hf0.
Qed.

Lemma mantissa_scanned i f x j :
  int_part i -> frac_part f -> exp_part x ->
  isdigit (peek j) = false -> (f = [] -> x = [] -> peek j <> ".") ->
  mantissa 10 isdigit (i ++ f ++ x ++ j)
  = Some (number_of 10 (i ++ tl f), Z.of_nat (length (tl f)), x ++ j).
Proof.
  intros Hi Hf Hx Hd Hp. destruct (int_part_digits i Hi) as [Hdi Hne].
  assert (Hxd : isdigit (peek (x ++ j)) = false).
  { destruct Hx as [->|(e & sg & d & ds & -> & [->| ->] & _)];
      [exact Hd|reflexivity|reflexivity]. }
  unfold mantissa. destruct Hf as [->|(d & ds & -> & Hds)].
  - cbn [app tl length]. rewrite (take_while_digits i (x ++ j) Hdi Hxd).
    assert (Hxp : peek (x ++ j) <> ".").
    { destruct Hx as [->|(e & sg & d & ds & -> & [->| ->] & _)];
        [apply Hp; reflexivity|discriminate|discriminate]. }
    destruct (Ascii.eqb_spec (peek (x ++ j)) ".") as [E|_]; [contradiction|].
    rewrite app_nil_r. destruct i; [contradiction|reflexivity].
  - rewrite (take_while_digits i (("." :: d :: ds) ++ x ++ j) Hdi eq_refl).
    cbn [app peek tl]. rewrite Ascii.eqb_refl.
    change (advance 1 ("." :: d :: ds ++ x ++ j)) with ((d :: ds) ++ x ++ j).
    rewrite (take_while_digits (d :: ds) (x ++ j) Hds Hxd).
    destruct i; [contradiction|reflexivity].
Qed.

Lemma exponent_scanned x j :
  exp_part x -> isdigit (peek j) = false ->
  (x = [] -> peek j <> "e" /\ peek j <> "E") ->
  exponent_part "e" "E" (x ++ j) = (exp_value x, j).
Proof.
  intros [->|(e & sign & d & ds & -> & He & Hs & Hds)] Hd Hx0.
  - destruct (Hx0 eq_refl) as [He1 He2]. unfold exponent_part. cbn [app].
    destruct (Ascii.eqb_spec (peek j) "e"); [contradiction|].
    destruct (Ascii.eqb_spec (peek j) "E"); [contradiction|]. reflexivity.
  - inversion Hds as [|? ? Hd1 Hds']; subst.
    unfold exponent_part. cbn [app peek].
    replace (Ascii.eqb e "e" || Ascii.eqb e "E") with true
      by (destruct He as [->| ->]; reflexivity).
    change (advance 1 (e :: (sign ++ d :: ds) ++ j)) with ((sign ++ d :: ds) ++ j).
    pose proof (take_while_digits (d :: ds) j Hds Hd) as Ht. cbn [app] in Ht.
    destruct Hs as [->|[->| ->]]; cbn [app peek].
    + destruct (Ascii.eqb_spec d "-") as [->|Hm]; [discriminate Hd1|].
      destruct (Ascii.eqb_spec d "+") as [->|Hp]; [discriminate Hd1|].
      cbn [orb]. rewrite Ht. unfold exp_value.
      destruct d as [[] [] [] [] [] [] [] []]; try reflexivity;
        first [contradiction Hm; reflexivity | contradiction Hp; reflexivity].
    + cbn [Ascii.eqb]. simpl orb. cbv iota.
      change (advance 1 ("+" :: d :: ds ++ j)) with (d :: ds ++ j).
      rewrite Ht. reflexivity.
    + cbn [Ascii.eqb]. simpl orb. cbv iota.
      change (advance 1 ("-" :: d :: ds ++ j)) with (d :: ds ++ j).
      rewrite Ht. reflexivity.
Qed.

(** [strtod] stops where the grammar check stops, unless the text is a
    zero followed by the letter of a hexadecimal number; the grammar check
    has then stopped behind the zero. *)
Lemma strtod_scanned json j :
  scan_number json = Some j ->
  (exists v err, strtod json = (v, j, err))
  \/ (exists neg : bool,
         firstn (length json - length j) json = (if neg then ["-"] else []) ++ ["0"]).
Proof.
  intros H.
  destruct (scan_number_sound json j H)
    as (neg & i & f & x & -> & Hi & Hf & Hx & Hd & Hx0 & Hp).
  assert (Hmag : forall nptr,
             (exists v err, strtod_magnitude neg (i ++ f ++ x ++ j) nptr = (v, j, err))
             \/ (i = ["0"] /\ f = [] /\ x = [])).
  { intros nptr. unfold strtod_magnitude.
    destruct (Ascii.eqb (peek (i ++ f ++ x ++ j)) "0"
              && (Ascii.eqb (peek (advance 1 (i ++ f ++ x ++ j))) "x"
                  || Ascii.eqb (peek (advance 1 (i ++ f ++ x ++ j))) "X")) eqn:Hhex.
    - right. apply andb_true_iff in Hhex. destruct Hhex as [H0 Hxx].
      destruct Hi as [->|(d & ds & -> & Hd0 & Hnz & Hds)].
      + split; [reflexivity|].
        change (advance 1 (["0"] ++ f ++ x ++ j)) with (f ++ x ++ j) in Hxx.
        destruct Hf as [->|(d & ds & -> & _)]; [|discriminate Hxx].
        split; [reflexivity|].
        destruct Hx as [->|(e & sg & d & ds & -> & [->| ->] & _)];
          [reflexivity|discriminate Hxx|discriminate Hxx].
      + cbn [app peek] in H0. destruct (Ascii.eqb_spec d "0"); [contradiction|].
        discriminate H0.
    - left. unfold strtod_decimal.
      rewrite (mantissa_scanned i f x j Hi Hf Hx Hd Hp),
        (exponent_scanned x j Hx Hd Hx0).
      destruct (scaled neg _ 10 _) as [v err]. exists v, err. reflexivity. }
  assert (Hstr : strtod ((if neg then ["-"] else []) ++ i ++ f ++ x ++ j)
                 = strtod_magnitude neg (i ++ f ++ x ++ j)
                     ((if neg then ["-"] else []) ++ i ++ f ++ x ++ j)).
  { unfold strtod. destruct neg; cbn [app].
    - cbn [peek]. rewrite Ascii.eqb_refl. reflexivity.
    - pose proof (int_part_head i (f ++ x ++ j) Hi) as Hh.
      destruct (Ascii.eqb_spec (peek (i ++ f ++ x ++ j)) "-") as [E|_];
        [rewrite E in Hh; discriminate Hh|].
      destruct (Ascii.eqb_spec (peek (i ++ f ++ x ++ j)) "+") as [E|_];
        [rewrite E in Hh; discriminate Hh|].
      reflexivity. }
  rewrite Hstr.
  destruct (Hmag ((if neg then ["-"] else []) ++ i ++ f ++ x ++ j))
    as [Hok|(-> & -> & ->)]; [left; exact Hok|].
  right. exists neg. cbn [app].
  replace (length ((if neg then ["-"] else []) ++ "0" :: j) - length j)%nat
    with (length ((if neg then ["-"] else []) ++ ["0"]))
    by (rewrite !length_app; cbn [length]; lia).
  change ("0" :: j) with (["0"] ++ j). rewrite app_assoc.
  apply take_app_length.
Qed.

(** The numbers of the decoder are finite binary64 values. *)
Lemma parse_number_finite json h v json' h' :
  parse_number json h = (Some (v, json'), h') ->
  exists p x,
    v = V_NUMBER p x /\ isfinite x = true /\ valid_binary 53 1024 x = true.
Proof.
  unfold parse_number. intros H.
  destruct (scan_number json) as [j|] eqn:Escan; [|discriminate H].
  pose proof (strtod_valid json) as Hv1.
  destruct (strtod json) as [[num e] err] eqn:Estr. cbn [fst] in Hv1.
  destruct (err || negb (isfinite num)) eqn:Hcheck; [discriminate H|].
  apply orb_false_iff in Hcheck. destruct Hcheck as [_ Hfin].
  apply negb_false_iff in Hfin.
  destruct (negb (same_position e j)) eqn:Hpos.
  - (* the conversion and the grammar check stopped at different places *)
    destruct (strtod_scanned json j Escan) as [(v' & err' & E)|[neg Hspan]].
    { rewrite Estr in E. injection E as _ -> _.
      unfold same_position in Hpos. rewrite Nat.eqb_refl in Hpos. discriminate Hpos. }
    destruct (malloc _ h) as [[t|] h1]; [|discriminate H].
    rewrite Hspan in H.
    assert (Hzero : strtod ((if neg then ["-"] else []) ++ ["0"])
                    = (S754_zero neg, [], false)) by (destruct neg; reflexivity).
    rewrite Hzero in H. cbn [peek] in H. rewrite Ascii.eqb_refl in H. cbn [negb] in H.
    unfold create_value in H. destruct (calloc _ _ _) as [[p|] h2]; [|discriminate H].
    injection H as <- _ _. exists p, (S754_zero neg). repeat split.
  - unfold create_value in H. destruct (calloc _ _ h) as [[p|] h2]; [|discriminate H].
    injection H as <- _ _. exists p, num. repeat split; assumption.
Qed.

(** ** The encoder writes the text of the tree *)

Lemma json_induction (P : json -> Prop) :
  P J_NULL ->
  (forall b, P (J_BOOL b)) ->
  (forall x, P (J_NUMBER x)) ->
  (forall s, P (J_STRING s)) ->
  (forall elems, Forall P elems -> P (J_ARRAY elems)) ->
  (forall members, Forall (fun m => P (snd m)) members -> P (J_OBJECT members)) ->
  forall j, P j.
Proof.
  intros Hn Hb Hx Hs Ha Ho. fix IH 1.
  intros [|b|x|s|elems|members].
  - apply Hn.
  - apply Hb.
  - apply Hx.
  - apply Hs.
  - apply Ha. induction elems as [|e elems IHe]; constructor; [apply IH|exact IHe].
  - apply Ho. induction members as [|m members IHm]; constructor; [apply IH|exact IHm].
Qed.

Lemma number_token_bytes tok : number_token tok -> Forall number_byte tok.
Proof.
  intros (sign & i & f & x & -> & Hs & Hi & Hf & Hx).
  assert (Hdig : forall ds, digits ds -> Forall number_byte ds).
  { intros ds H. eapply Forall_impl; [exact H|]. intros c Hc. left. exact Hc. }
  assert (Hpoint : number_byte ".") by number_byte_known.
  assert (He : number_byte "e") by number_byte_known.
  assert (HE : number_byte "E") by number_byte_known.
  assert (Hplus : number_byte "+") by number_byte_known.
  assert (Hminus : number_byte "-") by number_byte_known.
  repeat apply Forall_app_2.
  - destruct Hs as [->| ->]; [constructor|].
    constructor; [exact Hminus|constructor].
  - apply Hdig. apply (int_part_digits i Hi).
  - destruct Hf as [->|(d & ds & -> & Hds)]; [constructor|].
    constructor; [exact Hpoint|apply Hdig; exact Hds].
  - destruct Hx as [->|(e & sign' & d & ds & -> & Hee & Hs' & Hds)]; [constructor|].
    constructor; [destruct Hee as [->| ->]; assumption|].
    apply Forall_app_2; [|apply Hdig; exact Hds].
    destruct Hs' as [->|[->| ->]]; [constructor| |];
      (constructor; [assumption|constructor]).
Qed.

Section Encoding_elements.

Variable ser : rjson_value -> strbuf -> heap -> Z * strbuf * heap.

Lemma serialize_elements_granted first elems sb h :
  granted h ->
  Forall (fun e => forall sb h, granted h ->
                     exists sb' h',
                       ser e sb h = (0, sb', h')
                       /\ written sb' = written sb ++ encode (shape e)
                       /\ granted h') elems ->
  exists sb' h',
    serialize_elements ser first elems sb h = (0, sb', h')
    /\ written sb' = written sb ++ separated first (map encode (map shape elems))
    /\ granted h'.
Proof.
  intros Hg Hall. revert first sb h Hg.
  induction Hall as [|e elems He _ IH]; intros first sb h Hg.
  - eexists _, _. split; [reflexivity|]. split; [|exact Hg].
    simpl. rewrite app_nil_r. reflexivity.
  - cbn [serialize_elements map separated].
    assert (Hsep : exists sb1 h1,
               (if first then (0, sb, h) else strbuf_append sb [","] 1 h) = (0, sb1, h1)
               /\ written sb1 = written sb ++ (if first then [] else [","])
               /\ granted h1).
    { destruct first.
      - eexists _, _. rewrite app_nil_r. repeat split. exact Hg.
      - destruct (strbuf_append_granted sb [","] 1 h Hg) as (sb1 & h1 & E & Hw & Hg1).
        eexists _, _. repeat split; eassumption. }
    destruct Hsep as (sb1 & h1 & -> & Hw1 & Hg1). simpl negb. cbv iota.
    destruct (He sb1 h1 Hg1) as (sb2 & h2 & -> & Hw2 & Hg2). simpl negb. cbv iota.
    destruct (IH false sb2 h2 Hg2) as (sb3 & h3 & -> & Hw3 & Hg3).
    eexists _, _. split; [reflexivity|]. split; [|exact Hg3].
    rewrite Hw3, Hw2, Hw1. rewrite <- !app_assoc. reflexivity.
Qed.

Lemma serialize_members_granted first members sb h :
  granted h ->
  Forall (fun m => forall sb h, granted h ->
                     exists sb' h',
                       ser (snd m) sb h = (0, sb', h')
                       /\ written sb' = written sb ++ encode (shape (snd m))
                       /\ granted h') members ->
  exists sb' h',
    serialize_members ser first members sb h = (0, sb', h')
    /\ written sb' = written sb
         ++ separated first
              (map (fun m => encode_string (fst m) ++ ":" :: encode (snd m))
                 (map (fun m => (snd (fst m), shape (snd m))) members))
    /\ granted h'.
Proof.
  intros Hg Hall. revert first sb h Hg.
  induction Hall as [|m members Hm _ IH]; intros first sb h Hg.
  - eexists _, _. split; [reflexivity|]. split; [|exact Hg].
    simpl. rewrite app_nil_r. reflexivity.
  - cbn [serialize_members map separated].
    assert (Hsep : exists sb1 h1,
               (if first then (0, sb, h) else strbuf_append sb [","] 1 h) = (0, sb1, h1)
               /\ written sb1 = written sb ++ (if first then [] else [","])
               /\ granted h1).
    { destruct first.
      - eexists _, _. rewrite app_nil_r. repeat split. exact Hg.
      - destruct (strbuf_append_granted sb [","] 1 h Hg) as (sb1 & h1 & E & Hw & Hg1).
        eexists _, _. repeat split; eassumption. }
    destruct Hsep as (sb1 & h1 & -> & Hw1 & Hg1). simpl negb. cbv iota.
    destruct (escape_string_granted (snd (fst m)) sb1 h1 Hg1)
      as (sb2 & h2 & -> & Hw2 & Hg2). simpl negb. cbv iota.
    destruct (strbuf_append_granted sb2 [":"] 1 h2 Hg2) as (sb3 & h3 & -> & Hw3 & Hg3).
    simpl negb. cbv iota.
    destruct (Hm sb3 h3 Hg3) as (sb4 & h4 & -> & Hw4 & Hg4). simpl negb. cbv iota.
    destruct (IH false sb4 h4 Hg4) as (sb5 & h5 & -> & Hw5 & Hg5).
    eexists _, _. split; [reflexivity|]. split; [|exact Hg5].
    rewrite Hw5, Hw4, Hw3, Hw2, Hw1. unfold encode_string. cbn [fst snd firstn Z.to_nat].
    simpl. rewrite <- !app_assoc. simpl. rewrite <- !app_assoc. reflexivity.
Qed.

End Encoding_elements.

Lemma fold_and_Forall {A} (Q : A -> Prop) (l : list A) :
  fold_right (fun e P => Q e /\ P) True l <-> Forall Q l.
Proof.
  induction l as [|x l IH]; simpl.
  - split; [constructor|tauto].
  - rewrite IH. split; [intros [H1 H2]; constructor; assumption|].
    intros H. inversion H; subst. split; assumption.
Qed.

Lemma fold_max_bound {A} (f : A -> Z) (l : list A) (x : A) :
  In x l -> f x <= fold_right (fun e n => Z.max (f e) n) 0 l.
Proof.
  induction l as [|y l IH]; simpl; [contradiction|].
  intros [->|H]; [lia|]. specialize (IH H). lia.
Qed.

Lemma height_pos j : 1 <= height j.
Proof.
  destruct j as [| | | |elems|members]; cbn [height]; try lia.
  - induction elems; simpl in *; lia.
  - induction members; simpl in *; lia.
Qed.

Lemma serialize_value_granted t :
  forall sb depth h,
    granted h -> well_formed (shape t) ->
    depth + height (shape t) <= RJSON_MAX_DEPTH ->
    exists sb' h',
      serialize_value t sb depth h = (0, sb', h')
      /\ written sb' = written sb ++ encode (shape t)
      /\ granted h'.
Proof.
  induction t as [p|p b|p x|p s|p elements elems IH|p keys values members IH]
    using rjson_value_induction; intros sb depth h Hg Hwf Hd;
    match type of Hd with
    | _ + height ?j <= _ =>
        assert (Hlt : (depth >=? RJSON_MAX_DEPTH) = false)
          by (pose proof (height_pos j); lia)
    end;
    cbn [serialize_value]; rewrite Hlt.
  - destruct (strbuf_append_granted sb (lit "null") 4 h Hg) as (sb' & h' & E & Hw & Hg').
    eexists _, _. split; [exact E|]. split; [exact Hw|exact Hg'].
  - cbn [shape encode]. destruct (b =? 0); cbn [negb].
    + destruct (strbuf_append_granted sb (lit "false") 5 h Hg)
        as (sb' & h' & E & Hw & Hg').
      eexists _, _. split; [exact E|]. split; [exact Hw|exact Hg'].
    + destruct (strbuf_append_granted sb (lit "true") 4 h Hg)
        as (sb' & h' & E & Hw & Hg').
      eexists _, _. split; [exact E|]. split; [exact Hw|exact Hg'].
  - cbn [shape well_formed encode] in *. destruct Hwf as [Hfin Hval].
    apply serialize_number_granted; assumption.
  - cbn [shape well_formed encode] in *. destruct Hwf as (s' & Hs & _).
    destruct s as [[a s'']|]; [|discriminate Hs]. cbn [option_map snd] in *.
    apply escape_string_granted. exact Hg.
  - cbn [shape well_formed height encode] in *.
    apply fold_and_Forall in Hwf.
    destruct (strbuf_append_granted sb ["["] 1 h Hg) as (sb1 & h1 & -> & Hw1 & Hg1).
    simpl negb. cbv iota.
    destruct (serialize_elements_granted
                (fun e sb h => serialize_value e sb (depth + 1) h) true elems sb1 h1 Hg1)
      as (sb2 & h2 & -> & Hw2 & Hg2).
    { rewrite Forall_forall in IH. rewrite Forall_forall in Hwf.
      apply Forall_forall.
      intros e He sb' h' Hg'. apply IH; [exact He|exact Hg'| |].
      - apply Hwf. apply list_elem_of_In. apply in_map. apply list_elem_of_In. exact He.
      - pose proof (fold_max_bound height (map shape elems) (shape e)) as Hb.
        specialize (Hb ltac:(apply in_map; apply list_elem_of_In; exact He)). lia. }
    simpl negb. cbv iota.
    destruct (strbuf_append_granted sb2 ["]"] 1 h2 Hg2) as (sb3 & h3 & -> & Hw3 & Hg3).
    eexists _, _. split; [reflexivity|]. split; [|exact Hg3].
    rewrite Hw3, Hw2, Hw1. simpl. rewrite <- !app_assoc. reflexivity.
  - cbn [shape well_formed height encode] in *.
    apply fold_and_Forall in Hwf.
    destruct (strbuf_append_granted sb ["{"] 1 h Hg) as (sb1 & h1 & -> & Hw1 & Hg1).
    simpl negb. cbv iota.
    destruct (serialize_members_granted
                (fun e sb h => serialize_value e sb (depth + 1) h) true members sb1 h1 Hg1)
      as (sb2 & h2 & -> & Hw2 & Hg2).
    { rewrite Forall_forall in IH. rewrite Forall_forall in Hwf.
      apply Forall_forall.
      intros m Hm sb' h' Hg'.
      assert (Hin : In (snd (fst m), shape (snd m))
                      (map (fun m => (snd (fst m), shape (snd m))) members))
        by (apply (in_map (fun m => (snd (fst m), shape (snd m)))),
              list_elem_of_In; exact Hm).
      apply IH; [exact Hm|exact Hg'| |].
      - apply list_elem_of_In in Hin. apply Hwf in Hin. apply Hin.
      - pose proof (fold_max_bound (fun m => height (snd m)) _ _ Hin) as Hb.
        cbn [snd] in Hb. lia. }
    simpl negb. cbv iota.
    destruct (strbuf_append_granted sb2 ["}"] 1 h2 Hg2) as (sb3 & h3 & -> & Hw3 & Hg3).
    eexists _, _. split; [reflexivity|]. split; [|exact Hg3].
    rewrite Hw3, Hw2, Hw1. simpl. rewrite <- !app_assoc. reflexivity.
Qed.

(** ** The decoder reads the text of a tree back *)

(** *** Strings *)

Lemma scan_escaped_byte c tail :
  scan_string (escaped_byte c ++ tail) = scan_string tail.
Proof. destruct c as [[] [] [] [] [] [] [] []]; reflexivity. Qed.

Lemma scan_escaped s rest :
  scan_string (escaped s ++ "034" :: rest) = Some ("034" :: rest).
Proof.
  induction s as [|c s IH]; [reflexivity|].
  unfold escaped in *. cbn [map concat]. rewrite <- app_assoc.
  rewrite scan_escaped_byte. exact IH.
Qed.

Lemma utf8_encode_ascii v : 0 <= v < 0x80 -> utf8_encode v = [byte_of v].
Proof. intros H. unfold utf8_encode. replace (v <? 0x80) with true by lia. reflexivity. Qed.

Lemma unescape_u00 fuel d a b tail v :
  hex_digits 4 ["0"; "0"; a; b] 0 = Some v -> 0 < v < 0x80 ->
  unescape_loop (S fuel) ("\" :: "u" :: "0" :: "0" :: a :: b :: tail) d
  = unescape_loop fuel tail (d ++ [byte_of v]).
Proof.
  intros Hv Hr. cbn [unescape_loop].
  replace (strlen ("u" :: "0" :: "0" :: a :: b :: tail) <? 5) with false
    by (unfold strlen; simpl length; lia).
  change ("0" :: "0" :: a :: b :: tail) with (["0"; "0"; a; b] ++ tail).
  rewrite (hex_digits_app 4 ["0"; "0"; a; b] tail 0 eq_refl), Hv.
  change (advance 4 (["0"; "0"; a; b] ++ tail)) with tail.
  unfold combine_surrogates.
  replace ((0xD800 <=? v) && (v <=? 0xDBFF)) with false by lia.
  replace (((0xD800 <=? v) && (v <=? 0xDFFF)) || (v =? 0)) with false by lia.
  rewrite utf8_encode_ascii by lia. reflexivity.
Qed.

Lemma unescape_escaped_byte fuel c tail d :
  c <> NUL ->
  unescape_loop (S fuel) (escaped_byte c ++ tail) d = unescape_loop fuel tail (d ++ [c]).
Proof.
  intros Hc.
  destruct c as [[] [] [] [] [] [] [] []];
    try reflexivity; try (contradiction Hc; reflexivity);
    (eapply eq_trans;
     [apply (unescape_u00 fuel d _ _ tail); [reflexivity|vm_compute; split; reflexivity]
     |reflexivity]).
Qed.

Lemma unescape_escaped s :
  no_nul s ->
  forall fuel d, (length s <= fuel)%nat ->
    unescape_loop fuel (escaped s) d = Some (d ++ s).
Proof.
  induction 1 as [|c s Hc _ IH]; intros fuel d Hfuel.
  - destruct fuel; simpl; rewrite app_nil_r; reflexivity.
  - destruct fuel as [|fuel]; [simpl in Hfuel; lia|].
    unfold escaped in *. cbn [map concat].
    rewrite (unescape_escaped_byte fuel c _ d Hc).
    rewrite IH by (simpl in Hfuel; lia). rewrite <- app_assoc. reflexivity.
Qed.

Lemma escaped_byte_nonempty c : (1 <= length (escaped_byte c))%nat.
Proof. destruct c as [[] [] [] [] [] [] [] []]; vm_compute; lia. Qed.

Lemma escaped_length s : (length s <= length (escaped s))%nat.
Proof.
  induction s as [|c s IH]; [simpl; lia|].
  unfold escaped in *. cbn [map concat]. rewrite length_app.
  pose proof (escaped_byte_nonempty c). simpl. lia.
Qed.

Lemma parse_string_encoded s rest h :
  no_nul s -> granted h ->
  exists p a h',
    parse_string (encode_string s ++ rest) h
    = (Some (V_STRING p (Some (a, s)), rest), h')
    /\ granted h'.
Proof.
  intros Hs Hg. unfold parse_string, encode_string.
  change (advance 1 (("034" :: escaped s ++ ["034"]) ++ rest))
    with ((escaped s ++ ["034"]) ++ rest).
  rewrite <- app_assoc. cbn [app]. rewrite scan_escaped. cbn [peek].
  rewrite Ascii.eqb_refl. cbn [negb].
  replace (length (escaped s ++ "034" :: rest) - length ("034" :: rest))%nat
    with (length (escaped s)) by (rewrite length_app; lia).
  rewrite firstn_app, Nat.sub_diag, firstn_all. cbn [firstn]. rewrite app_nil_r.
  unfold unescape_string.
  destruct (malloc_granted (strlen (escaped s) + 1) h Hg) as (out & h1 & -> & Hg1).
  rewrite (unescape_escaped s Hs (length (escaped s)) [] (escaped_length s)).
  cbn [app].
  destruct (create_value_granted RJSON_STRING h1 Hg1) as (p & h2 & -> & Hg2).
  cbn [zeroed]. eexists _, _, _. split; [reflexivity|exact Hg2].
Qed.

(** *** Containers *)

Lemma rjson_array_add_granted p elements elems e h :
  granted h ->
  exists q h',
    rjson_array_add (Some (V_ARRAY p elements elems)) (Some e) h
    = (0, Some (V_ARRAY p (Some q) (elems ++ [e])), h')
    /\ granted h'.
Proof.
  intros Hg. unfold rjson_array_add.
  edestruct (realloc_granted elements) as (q & h' & -> & Hg'); [exact Hg| |].
  - unfold sizeof_ptr. lia.
  - eexists _, _. split; [reflexivity|exact Hg'].
Qed.

Lemma rjson_object_add_granted p keys values members k v h :
  granted h ->
  exists nk q1 q2 h',
    rjson_object_add (Some (V_OBJECT p keys values members)) (Some k) (Some v) h
    = (0, Some (V_OBJECT p (Some q1) (Some q2) (members ++ [(nk, k, v)])), h')
    /\ granted h'.
Proof.
  intros Hg. unfold rjson_object_add.
  destruct (malloc_granted (strlen k + 1) h Hg) as (nk & h1 & -> & Hg1).
  edestruct (realloc_granted keys) as (q1 & h2 & -> & Hg2); [exact Hg1| |].
  { unfold sizeof_ptr. lia. }
  edestruct (realloc_granted values) as (q2 & h3 & -> & Hg3); [exact Hg2| |].
  { unfold sizeof_ptr. lia. }
  eexists _, _, _, _. split; [reflexivity|exact Hg3].
Qed.

Lemma separated_length first (items : list c_string) :
  (length items <= length (separated first items) + (if first then 1 else 0))%nat.
Proof.
  revert first. induction items as [|x items IH]; intros first; [simpl; lia|].
  cbn [separated]. rewrite !length_app. specialize (IH false).
  destruct first; simpl in *; lia.
Qed.

Lemma value_start_digit c :
  c = "-" \/ isdigit c = true -> value_start c = true.
Proof.
  intros H. destruct c as [[] [] [] [] [] [] [] []];
    try reflexivity; destruct H as [H|H]; discriminate H.
Qed.

Lemma encode_start j :
  well_formed j -> numbers_read_back j ->
  exists c tl, encode j = c :: tl /\ value_start c = true.
Proof.
  intros Hwf Hnum. destruct j as [|b|x|s|elems|members]; cbn [encode].
  - eexists _, _. split; reflexivity.
  - destruct (b =? 0); eexists _, _; split; reflexivity.
  - destruct Hnum as (_ & _ & Htok & _).
    pose proof (number_token_head _ Htok) as Hh.
    destruct (printf_g 17 "." x) as [|c tl]; [destruct Hh as [Hh|Hh]; discriminate Hh|].
    exists c, tl. split; [reflexivity|]. apply value_start_digit. exact Hh.
  - destruct Hwf as (s' & -> & _). eexists _, _. split; reflexivity.
  - eexists _, _. split; reflexivity.
  - eexists _, _. split; reflexivity.
Qed.

Lemma skip_whitespace_start c tl :
  value_start c = true -> skip_whitespace (c :: tl) = c :: tl.
Proof.
  unfold value_start. cbn [skip_whitespace]. intros H.
  destruct (Ascii.eqb c " " || Ascii.eqb c "009" || Ascii.eqb c "010"
            || Ascii.eqb c "013"); [discriminate H|reflexivity].
Qed.

Lemma skip_whitespace_cons c tl :
  Ascii.eqb c " " || Ascii.eqb c "009" || Ascii.eqb c "010" || Ascii.eqb c "013" = false ->
  skip_whitespace (c :: tl) = c :: tl.
Proof. intros H. cbn [skip_whitespace]. rewrite H. reflexivity. Qed.

Lemma skip_whitespace_string k tl :
  skip_whitespace (encode_string k ++ tl) = encode_string k ++ tl.
Proof. reflexivity. Qed.

Lemma peek_string k tl : peek (encode_string k ++ tl) = "034".
Proof. reflexivity. Qed.

Section Decoding_elements.

Variable rec : Z -> c_string -> heap -> parsed.
Variable depth : Z.

Lemma parse_array_loop_encoded elems :
  forall e,
    Forall (fun e => forall rest h,
                ends_number rest = true -> granted h ->
                exists t h',
                  rec (depth + 1) (encode e ++ rest) h = (Some (t, rest), h')
                  /\ shape t = e /\ granted h') (e :: elems) ->
    forall fuel p elements done rest h,
      (length elems < fuel)%nat -> granted h ->
      exists elements' ts h',
        parse_array_loop rec fuel depth (Some (V_ARRAY p elements done))
          (encode e ++ separated false (map encode elems) ++ "]" :: rest) h
        = (Some (V_ARRAY p elements' (done ++ ts), rest), h')
        /\ map shape ts = e :: elems /\ granted h'.
Proof.
  induction elems as [|e2 elems IH]; intros e Hall fuel p elements done rest h Hfuel Hg;
    (destruct fuel as [|fuel]; [simpl in Hfuel; lia|]);
    inversion Hall as [|? ? He Hall']; subst; cbn [parse_array_loop].
  - destruct (He ("]" :: rest) h eq_refl Hg) as (t & h1 & E & Hs & Hg1).
    cbn [map separated app]. rewrite E.
    destruct (rjson_array_add_granted p elements done t h1 Hg1) as (q & h2 & -> & Hg2).
    cbn [negb Z.eqb]. cbv iota.
    change (skip_whitespace ("]" :: rest)) with ("]" :: rest).
    cbn [peek]. change (Ascii.eqb "]" "]") with true. cbv iota.
    change (advance 1 ("]" :: rest)) with rest.
    eexists _, [t], _. split; [reflexivity|]. split; [|exact Hg2].
    simpl. rewrite Hs. reflexivity.
  - cbn [map separated]. rewrite <- !app_assoc. cbn [app].
    destruct (He ("," :: encode e2 ++ separated false (map encode elems) ++ "]" :: rest)
                h eq_refl Hg) as (t & h1 & E & Hs & Hg1).
    rewrite E.
    destruct (rjson_array_add_granted p elements done t h1 Hg1) as (q & h2 & -> & Hg2).
    cbn [negb Z.eqb]. cbv iota.
    change (skip_whitespace
              ("," :: encode e2 ++ separated false (map encode elems) ++ "]" :: rest))
      with ("," :: encode e2 ++ separated false (map encode elems) ++ "]" :: rest).
    cbn [peek]. change (Ascii.eqb "," "]") with false.
    change (Ascii.eqb "," ",") with true. cbn [negb]. cbv iota.
    change (advance 1
              ("," :: encode e2 ++ separated false (map encode elems) ++ "]" :: rest))
      with (encode e2 ++ separated false (map encode elems) ++ "]" :: rest).
    destruct (IH e2 Hall' fuel p (Some q) (done ++ [t]) rest h2
                ltac:(simpl in Hfuel; lia) Hg2) as (els' & ts & h3 & -> & Hts & Hg3).
    eexists _, (t :: ts), _. split; [rewrite <- app_assoc; reflexivity|].
    split; [|exact Hg3]. simpl. rewrite Hs, Hts. reflexivity.
Qed.

Lemma parse_object_loop_encoded members :
  forall m,
    Forall (fun m : c_string * json =>
              no_nul (fst m)
              /\ forall rest h,
                  ends_number rest = true -> granted h ->
                  exists t h',
                    rec (depth + 1) (encode (snd m) ++ rest) h = (Some (t, rest), h')
                    /\ shape t = snd m /\ granted h') (m :: members) ->
    forall fuel p keys values done rest h,
      (length members < fuel)%nat -> granted h ->
      exists keys' values' ms h',
        parse_object_loop rec fuel depth (Some (V_OBJECT p keys values done))
          (encode_string (fst m) ++ ":" :: encode (snd m)
             ++ separated false
                  (map (fun m => encode_string (fst m) ++ ":" :: encode (snd m)) members)
             ++ "}" :: rest) h
        = (Some (V_OBJECT p keys' values' (done ++ ms), rest), h')
        /\ map (fun m => (snd (fst m), shape (snd m))) ms = m :: members
        /\ granted h'.
Proof.
  induction members as [|m2 members IH];
    intros [k v] Hall fuel p keys values done rest h Hfuel Hg;
    (destruct fuel as [|fuel]; [simpl in Hfuel; lia|]);
    inversion Hall as [|? ? [Hk Hv] Hall']; subst; cbn [fst snd] in *;
    cbn [parse_object_loop map separated].
  - cbn [app].
    rewrite (skip_whitespace_string k). rewrite (peek_string k).
    rewrite Ascii.eqb_refl. cbn [negb].
    destruct (parse_string_encoded k (":" :: encode v ++ "}" :: rest) h Hk Hg)
      as (pk & a & h1 & -> & Hg1).
    rewrite (skip_whitespace_cons ":") by reflexivity. cbn [peek].
    rewrite Ascii.eqb_refl. cbn [negb].
    change (advance 1 (":" :: encode v ++ "}" :: rest)) with (encode v ++ "}" :: rest).
    destruct (Hv ("}" :: rest) h1 eq_refl Hg1) as (t & h2 & -> & Hs & Hg2).
    cbn [option_map snd fst].
    destruct (rjson_object_add_granted p keys values done k t h2 Hg2)
      as (nk & q1 & q2 & h3 & -> & Hg3).
    cbn [negb Z.eqb]. cbv iota.
    rewrite (skip_whitespace_cons "}") by reflexivity. cbn [peek].
    rewrite Ascii.eqb_refl.
    change (advance 1 ("}" :: rest)) with rest.
    eexists _, _, [(nk, k, t)], _. split; [reflexivity|].
    split; [simpl; rewrite Hs; reflexivity|].
    apply free_granted. apply free_granted. exact Hg3.
  - destruct m2 as [k2 v2]. cbn [fst snd app]. rewrite <- ?app_assoc. cbn [app].
    remember ("," :: encode_string k2 ++ ":" :: encode v2
                ++ separated false
                     (map (fun m => encode_string (fst m) ++ ":" :: encode (snd m))
                        members)
                ++ "}" :: rest) as tail eqn:Etail.
    rewrite (skip_whitespace_string k). rewrite (peek_string k).
    rewrite Ascii.eqb_refl. cbn [negb].
    destruct (parse_string_encoded k (":" :: encode v ++ tail) h Hk Hg)
      as (pk & a & h1 & -> & Hg1).
    rewrite (skip_whitespace_cons ":") by reflexivity. cbn [peek].
    rewrite Ascii.eqb_refl. cbn [negb].
    change (advance 1 (":" :: encode v ++ tail)) with (encode v ++ tail).
    destruct (Hv tail h1 ltac:(subst tail; reflexivity) Hg1)
      as (t & h2 & -> & Hs & Hg2).
    cbn [option_map snd fst].
    destruct (rjson_object_add_granted p keys values done k t h2 Hg2)
      as (nk & q1 & q2 & h3 & -> & Hg3).
    cbn [negb Z.eqb]. cbv iota. subst tail.
    rewrite (skip_whitespace_cons ",") by reflexivity. cbn [peek].
    change (Ascii.eqb "," "}") with false.
    rewrite Ascii.eqb_refl. cbn [negb].
    match goal with
    | |- context [advance 1 ("," :: ?x)] => change (advance 1 ("," :: x)) with x
    end.
    destruct (IH (k2, v2) Hall' fuel p (Some q1) (Some q2) (done ++ [(nk, k, t)]) rest
                (free (Some pk) (free (Some a) h3))
                ltac:(simpl in Hfuel; lia)
                ltac:(apply free_granted; apply free_granted; exact Hg3))
      as (ks' & vs' & ms & h4 & E & Hms & Hg4).
    cbn [fst snd] in E. rewrite E.
    eexists _, _, ((nk, k, t) :: ms), _.
    split; [rewrite <- app_assoc; reflexivity|].
    split; [|exact Hg4]. simpl. rewrite Hs, Hms. reflexivity.
Qed.

End Decoding_elements.

Section Decoding_containers.

Variable rec : Z -> c_string -> heap -> parsed.
Variable depth : Z.

Lemma parse_array_encoded elems rest h :
  depth < RJSON_MAX_DEPTH ->
  Forall well_formed elems -> Forall numbers_read_back elems ->
  Forall (fun e => forall rest h,
              ends_number rest = true -> granted h ->
              exists t h',
                rec (depth + 1) (encode e ++ rest) h = (Some (t, rest), h')
                /\ shape t = e /\ granted h') elems ->
  granted h ->
  exists t h',
    parse_array rec (encode (J_ARRAY elems) ++ rest) depth h = (Some (t, rest), h')
    /\ shape t = J_ARRAY elems /\ granted h'.
Proof.
  intros Hd Hwf Hnum Hall Hg. unfold parse_array.
  replace (depth >=? RJSON_MAX_DEPTH) with false by lia.
  unfold rjson_array_new.
  destruct (create_value_granted RJSON_ARRAY h Hg) as (p & h1 & -> & Hg1).
  cbn [zeroed encode app].
  change (advance 1 ("[" :: (separated true (map encode elems) ++ ["]"]) ++ rest))
    with ((separated true (map encode elems) ++ ["]"]) ++ rest).
  rewrite <- app_assoc. cbn [app].
  destruct elems as [|e elems].
  - cbn [map separated app]. rewrite (skip_whitespace_cons "]") by reflexivity.
    cbn [peek]. rewrite Ascii.eqb_refl.
    eexists _, _. split; [reflexivity|]. split; [reflexivity|exact Hg1].
  - cbn [map separated app]. rewrite <- app_assoc.
    inversion Hwf as [|? ? Hwe _]; subst. inversion Hnum as [|? ? Hne _]; subst.
    destruct (encode_start e Hwe Hne) as (c & tl & Ec & Hc).
    assert (Hskip : skip_whitespace
                      (encode e ++ separated false (map encode elems) ++ "]" :: rest)
                    = encode e ++ separated false (map encode elems) ++ "]" :: rest).
    { rewrite Ec. cbn [app]. apply skip_whitespace_start. exact Hc. }
    rewrite Hskip.
    assert (Hpeek : Ascii.eqb
                      (peek (encode e ++ separated false (map encode elems)
                               ++ "]" :: rest)) "]" = false).
    { rewrite Ec. cbn [app peek]. unfold value_start in Hc.
      destruct (Ascii.eqb c "]"); [|reflexivity].
      rewrite !orb_true_r in Hc. simpl in Hc. discriminate Hc. }
    rewrite Hpeek.
    destruct (parse_array_loop_encoded rec depth elems e Hall
                (S (length (encode e ++ separated false (map encode elems)
                              ++ "]" :: rest)))
                p None [] rest h1) as (els' & ts & h2 & -> & Hts & Hg2).
    + rewrite !length_app. pose proof (separated_length false (map encode elems)) as Hl.
      rewrite length_map in Hl. lia.
    + exact Hg1.
    + eexists _, _. split; [reflexivity|]. split; [|exact Hg2].
      cbn [shape app]. rewrite Hts. reflexivity.
Qed.

Lemma parse_object_encoded members rest h :
  depth < RJSON_MAX_DEPTH ->
  Forall (fun m : c_string * json =>
            no_nul (fst m)
            /\ forall rest h,
                ends_number rest = true -> granted h ->
                exists t h',
                  rec (depth + 1) (encode (snd m) ++ rest) h = (Some (t, rest), h')
                  /\ shape t = snd m /\ granted h') members ->
  granted h ->
  exists t h',
    parse_object rec (encode (J_OBJECT members) ++ rest) depth h = (Some (t, rest), h')
    /\ shape t = J_OBJECT members /\ granted h'.
Proof.
  intros Hd Hall Hg. unfold parse_object.
  replace (depth >=? RJSON_MAX_DEPTH) with false by lia.
  unfold rjson_object_new.
  destruct (create_value_granted RJSON_OBJECT h Hg) as (p & h1 & -> & Hg1).
  cbn [zeroed encode app].
  match goal with
  | |- context [advance 1 ("{" :: ?x)] => change (advance 1 ("{" :: x)) with x
  end.
  rewrite <- app_assoc. cbn [app].
  destruct members as [|[k v] members].
  - cbn [map separated app]. rewrite (skip_whitespace_cons "}") by reflexivity.
    cbn [peek]. rewrite Ascii.eqb_refl.
    eexists _, _. split; [reflexivity|]. split; [reflexivity|exact Hg1].
  - cbn [map separated app fst snd]. rewrite <- ?app_assoc. cbn [app].
    rewrite (skip_whitespace_string k). rewrite (peek_string k).
    change (Ascii.eqb "034" "}") with false.
    destruct (parse_object_loop_encoded rec depth members (k, v) Hall
                (S (length (encode_string k ++ ":" :: encode v
                              ++ separated false
                                   (map (fun m => encode_string (fst m)
                                                    ++ ":" :: encode (snd m)) members)
                              ++ "}" :: rest)))
                p None None [] rest h1) as (ks' & vs' & ms & h2 & E & Hms & Hg2).
    + rewrite length_app. cbn [length]. rewrite !length_app.
      pose proof (separated_length false
                    (map (fun m : c_string * json =>
                            encode_string (fst m) ++ ":" :: encode (snd m)) members))
        as Hl.
      rewrite length_map in Hl. lia.
    + exact Hg1.
    + cbn [fst snd] in E. rewrite E.
      eexists _, _. split; [reflexivity|]. split; [|exact Hg2].
      cbn [shape app]. rewrite Hms. reflexivity.
Qed.

End Decoding_containers.

Lemma parse_value_at_encoded j :
  forall levels depth rest h,
    well_formed j -> numbers_read_back j ->
    depth + height j <= RJSON_MAX_DEPTH ->
    (Z.to_nat (height j) <= levels)%nat ->
    ends_number rest = true -> granted h ->
    exists t h',
      parse_value_at levels depth (encode j ++ rest) h = (Some (t, rest), h')
      /\ shape t = j /\ granted h'.
Proof.
  induction j as [|b|x|s|elems IH|members IH] using json_induction;
    intros levels depth rest h Hwf Hnum Hd Hlev Hrest Hg;
    (destruct levels as [|levels];
     [match type of Hlev with
      | (Z.to_nat (height ?j) <= 0)%nat => pose proof (height_pos j); lia
      end|]);
    cbn [parse_value_at].
  - unfold parse_value_body, parse_literal. cbn.
    destruct (create_value_granted RJSON_NULL h Hg) as (p & h1 & -> & Hg1).
    eexists _, _. split; [reflexivity|]. split; [reflexivity|exact Hg1].
  - cbn [well_formed] in Hwf. unfold parse_value_body, parse_literal.
    destruct Hwf as [-> | ->]; cbn;
      destruct (create_value_granted RJSON_BOOL h Hg) as (p & h1 & -> & Hg1);
      eexists _, _; (split; [reflexivity|]); (split; [reflexivity|exact Hg1]).
  - cbn [well_formed numbers_read_back encode] in *.
    destruct Hnum as (Hfin & _ & Htok & Hback).
    assert (Hhead : peek (printf_g 17 "." x ++ rest) = "-"
                    \/ isdigit (peek (printf_g 17 "." x ++ rest)) = true).
    { pose proof (number_token_head _ Htok) as Hh.
      destruct (printf_g 17 "." x); [destruct Hh as [Hh|Hh]; discriminate Hh|exact Hh]. }
    rewrite (parse_value_body_number _ _ depth h Hhead).
    destruct (parse_number_token _ rest h Htok Hrest Hg) as (_ & _ & Hok).
    rewrite Hback in Hok. cbn [fst snd] in Hok. rewrite Hfin in Hok.
    destruct (Hok eq_refl) as (p & h1 & E & Hg1).
    eexists _, _. split; [exact E|]. split; [reflexivity|exact Hg1].
  - cbn [well_formed encode] in *. destruct Hwf as (s' & -> & Hs).
    unfold parse_value_body. rewrite skip_whitespace_string, peek_string. cbv iota.
    destruct (parse_string_encoded s' rest h Hs Hg) as (p & a & h1 & E & Hg1).
    eexists _, _. split; [exact E|]. split; [reflexivity|exact Hg1].
  - cbn [well_formed numbers_read_back height] in *.
    apply fold_and_Forall in Hwf. apply fold_and_Forall in Hnum.
    assert (Hbody : parse_value_body (parse_value_at levels)
                      (encode (J_ARRAY elems) ++ rest) depth h
                    = parse_array (parse_value_at levels)
                        (encode (J_ARRAY elems) ++ rest) depth h) by reflexivity.
    rewrite Hbody.
    pose proof (height_pos (J_ARRAY elems)) as Hpos. cbn [height] in Hpos.
    apply parse_array_encoded; try assumption; [lia|].
    rewrite Forall_forall in IH. rewrite Forall_forall in Hwf.
    rewrite Forall_forall in Hnum. apply Forall_forall.
    intros e He rest' h' Hrest' Hg'.
    pose proof (fold_max_bound height elems e
                  ltac:(apply list_elem_of_In; exact He)) as Hb.
    apply IH; try assumption; [apply Hwf; exact He|apply Hnum; exact He|lia|lia].
  - cbn [well_formed numbers_read_back height] in *.
    apply fold_and_Forall in Hwf. apply fold_and_Forall in Hnum.
    assert (Hbody : parse_value_body (parse_value_at levels)
                      (encode (J_OBJECT members) ++ rest) depth h
                    = parse_object (parse_value_at levels)
                        (encode (J_OBJECT members) ++ rest) depth h) by reflexivity.
    rewrite Hbody.
    pose proof (height_pos (J_OBJECT members)) as Hpos. cbn [height] in Hpos.
    apply parse_object_encoded; try assumption; [lia|].
    rewrite Forall_forall in IH. rewrite Forall_forall in Hwf.
    rewrite Forall_forall in Hnum. apply Forall_forall.
    intros m Hm.
    pose proof (fold_max_bound (fun m => height (snd m)) members m
                  ltac:(apply list_elem_of_In; exact Hm)) as Hb.
    cbn beta in Hb.
    split; [apply (Hwf m Hm)|].
    intros rest' h' Hrest' Hg'.
    apply IH; try assumption; [apply (Hwf m Hm)|apply (Hnum m Hm)|lia|lia].
Qed.

(** ** What the decoder builds is well formed *)

Lemma byte_of_nul z : byte_of z = NUL -> z mod 256 = 0.
Proof.
  unfold byte_of. intros H. apply (f_equal N_of_ascii) in H.
  rewrite N_ascii_embedding in H.
  - change (N_of_ascii NUL) with 0%N in H.
    pose proof (Z.mod_pos_bound z 256 ltac:(lia)). lia.
  - pose proof (Z.mod_pos_bound z 256 ltac:(lia)). lia.
Qed.

Lemma byte_of_lor_not_nul a y : Z.testbit a 7 = true -> byte_of (Z.lor a y) <> NUL.
Proof.
  intros Ha H. apply byte_of_nul in H.
  assert (Hbit : Z.testbit (Z.lor a y mod 2 ^ 8) 7 = true).
  { rewrite Z.mod_pow2_bits_low by lia. rewrite Z.lor_spec, Ha. reflexivity. }
  change (2 ^ 8) with 256 in Hbit. rewrite H in Hbit. discriminate Hbit.
Qed.

Lemma utf8_encode_no_nul cp : 0 < cp -> no_nul (utf8_encode cp).
Proof.
  intros Hcp. unfold utf8_encode, no_nul.
  destruct (cp <? 0x80) eqn:H1.
  { constructor; [|constructor]. intros H. apply byte_of_nul in H.
    rewrite Z.mod_small in H by lia. lia. }
  destruct (cp <? 0x800); [|destruct (cp <? 0x10000)];
    repeat (constructor; [apply byte_of_lor_not_nul; reflexivity|]); constructor.
Qed.

Lemma hex_value_bound c : -1 <= hex_value c < 16.
Proof.
  destruct c as [[] [] [] [] [] [] [] []]; vm_compute; (split; [discriminate|reflexivity]).
Qed.

Lemma hex_digits_nonneg n p cp r :
  0 <= cp -> hex_digits n p cp = Some r -> 0 <= r.
Proof.
  revert p cp. induction n as [|n IH]; intros p cp Hcp H; cbn [hex_digits] in H.
  - inversion H; subst. exact Hcp.
  - destruct (hex_value (peek p) <? 0) eqn:Hv; [discriminate|].
    eapply IH; [|exact H]. apply Z.lor_nonneg. split; [apply Z.shiftl_nonneg; exact Hcp|lia].
Qed.

Lemma combine_surrogates_result cp p :
  0 <= cp -> no_nul p ->
  0 <= fst (combine_surrogates cp p) /\ no_nul (snd (combine_surrogates cp p)).
Proof.
  intros Hcp Hp. unfold combine_surrogates.
  destruct ((0xD800 <=? cp) && (cp <=? 0xDBFF)) eqn:Hh; [|split; assumption].
  destruct (_ && _ && _); [|split; assumption].
  destruct (hex_digits 4 (advance 2 p) 0) as [low|]; [|split; assumption].
  destruct ((0xDC00 <=? low) && (low <=? 0xDFFF)) eqn:Hl; [|split; assumption].
  cbn [fst snd]. split.
  - assert (0 <= Z.shiftl (cp - 0xD800) 10) by (apply Z.shiftl_nonneg; lia). lia.
  - apply Forall_drop. exact Hp.
Qed.

Lemma unescape_loop_no_nul fuel :
  forall p d r,
    no_nul p -> no_nul d -> unescape_loop fuel p d = Some r -> no_nul r.
Proof.
  induction fuel as [|fuel IH]; intros p d r Hp Hd H.
  - destruct p as [|c p]; [inversion H; subst; exact Hd|].
    destruct c as [[] [] [] [] [] [] [] []]; discriminate H.
  - destruct p as [|c p]; [inversion H; subst; exact Hd|].
    inversion Hp as [|? ? Hc Hp']; subst.
    assert (Hraw : unescape_loop fuel p (d ++ [c]) = Some r -> no_nul r).
    { apply IH; [exact Hp'|]. apply Forall_app_2; [exact Hd|].
      constructor; [exact Hc|constructor]. }
    destruct (Ascii.eqb_spec c "\") as [->|Hnb].
    2: { destruct c as [[] [] [] [] [] [] [] []];
           try (apply Hraw; exact H). contradiction Hnb. reflexivity. }
    cbn [unescape_loop] in H. destruct p as [|c2 p']; [discriminate H|].
    inversion Hp' as [|? ? Hc2 Hp'']; subst.
    assert (Hsimple : forall b, b <> NUL ->
               unescape_loop fuel p' (d ++ [b]) = Some r -> no_nul r).
    { intros b Hb. apply IH; [exact Hp''|]. apply Forall_app_2; [exact Hd|].
      constructor; [exact Hb|constructor]. }
    assert (Hu : (if strlen ("u" :: p') <? 5 then None
                  else match hex_digits 4 p' 0 with
                       | Some cp =>
                           let (cp0, p'') := combine_surrogates cp (advance 4 p') in
                           if (0xD800 <=? cp0) && (cp0 <=? 0xDFFF) || (cp0 =? 0)
                           then None
                           else unescape_loop fuel p'' (d ++ utf8_encode cp0)
                       | None => None
                       end) = Some r -> no_nul r).
    { clear H. intros H. destruct (strlen ("u" :: p') <? 5); [discriminate H|].
      destruct (hex_digits 4 p' 0) as [cp|] eqn:Hhex; [|discriminate H].
      pose proof (hex_digits_nonneg 4 p' 0 cp ltac:(lia) Hhex) as Hcp.
      pose proof (combine_surrogates_result cp (advance 4 p') Hcp
                    ltac:(apply Forall_drop; exact Hp'')) as [Hcp0 Hp0].
      destruct (combine_surrogates cp (advance 4 p')) as [cp0 p0]. cbn [fst snd] in *.
      destruct ((0xD800 <=? cp0) && (cp0 <=? 0xDFFF) || (cp0 =? 0)) eqn:Hbad;
        [discriminate H|].
      eapply IH; [exact Hp0| |exact H].
      apply Forall_app_2; [exact Hd|]. apply utf8_encode_no_nul. lia. }
    destruct c2 as [[] [] [] [] [] [] [] []];
      try discriminate H;
      first [ apply Hu; exact H
            | (eapply Hsimple; [|exact H]); discriminate ].
Qed.

Lemma skip_whitespace_no_nul json : no_nul json -> no_nul (skip_whitespace json).
Proof.
  induction 1 as [|c json Hc Hj IH]; [constructor|].
  cbn [skip_whitespace]. destruct (_ || _); [exact IH|constructor; assumption].
Qed.

Lemma scan_string_no_nul json j' :
  no_nul json -> scan_string json = Some j' -> no_nul j'.
Proof.
  revert j'. induction json as [json IH] using (induction_ltof1 _ (@length ascii)).
  unfold ltof in IH. intros j' Hj H. destruct json as [|c json]; [inversion H; subst; constructor|].
  cbn [scan_string] in H. inversion Hj as [|? ? Hc Hj']; subst.
  destruct (Ascii.eqb c "034"); [inversion H; subst; exact Hj|].
  destruct (code c <? 32); [discriminate H|].
  destruct (Ascii.eqb c "\").
  - destruct json as [|c2 json]; [discriminate H|].
    inversion Hj' as [|? ? Hc2 Hj'']; subst.
    eapply IH; [|exact Hj''|exact H]. simpl. lia.
  - eapply IH; [|exact Hj'|exact H]. simpl. lia.
Qed.

Lemma parse_string_well_formed json h v json' h' :
  no_nul json -> parse_string json h = (Some (v, json'), h') ->
  well_formed (shape v) /\ no_nul json'.
Proof.
  intros Hj H. unfold parse_string in H.
  destruct (scan_string (advance 1 json)) as [j|] eqn:Escan; [|discriminate H].
  destruct (negb _); [discriminate H|].
  pose proof (scan_string_no_nul _ _ ltac:(apply Forall_drop; exact Hj) Escan) as Hj1.
  unfold unescape_string in H.
  destruct (malloc _ h) as [[out|] h1]; [|discriminate H].
  destruct (unescape_loop _ _ []) as [d|] eqn:Eun; [|discriminate H].
  apply unescape_loop_no_nul in Eun;
    [|apply Forall_take; apply Forall_drop; exact Hj|constructor].
  unfold create_value in H. destruct (calloc _ _ h1) as [[p|] h2]; inversion H; subst.
  split; [|exact (Forall_drop _ 1 j Hj1)].
  cbn [shape well_formed option_map snd]. exists d. split; [reflexivity|exact Eun].
Qed.

Lemma parse_string_form json h v json' h' :
  no_nul json -> parse_string json h = (Some (v, json'), h') ->
  exists p a d, v = V_STRING p (Some (a, d)) /\ no_nul d /\ no_nul json'.
Proof.
  intros Hj H. unfold parse_string in H.
  destruct (scan_string (advance 1 json)) as [j|] eqn:Escan; [|discriminate H].
  destruct (negb _); [discriminate H|].
  pose proof (scan_string_no_nul _ _ ltac:(apply Forall_drop; exact Hj) Escan) as Hj1.
  unfold unescape_string in H.
  destruct (malloc _ h) as [[out|] h1]; [|discriminate H].
  destruct (unescape_loop _ _ []) as [d|] eqn:Eun; [|discriminate H].
  apply unescape_loop_no_nul in Eun;
    [|apply Forall_take; apply Forall_drop; exact Hj|constructor].
  unfold create_value in H. destruct (calloc _ _ h1) as [[p|] h2]; inversion H; subst.
  exists p, out, d. split; [reflexivity|]. split; [exact Eun|].
  exact (Forall_drop _ 1 j Hj1).
Qed.

Lemma advance_no_nul n json : no_nul json -> no_nul (advance n json).
Proof. apply Forall_drop. Qed.

Lemma skip_digits_no_nul json : no_nul json -> no_nul (skip_digits json).
Proof.
  unfold skip_digits. induction 1 as [|c json Hc Hj IH]; [constructor|].
  cbn [take_while]. destruct (isdigit c).
  - destruct (take_while isdigit json) as [d r]. exact IH.
  - constructor; assumption.
Qed.

Lemma scan_number_no_nul json j' :
  no_nul json -> scan_number json = Some j' -> no_nul j'.
Proof.
  intros Hj H. unfold scan_number in H.
  assert (H0 : no_nul (scan_sign json)).
  { unfold scan_sign. destruct (Ascii.eqb _ _); [apply advance_no_nul|]; exact Hj. }
  destruct (scan_int (scan_sign json)) as [j1|] eqn:E1; [|discriminate H].
  assert (H1 : no_nul j1).
  { unfold scan_int in E1. destruct (Ascii.eqb _ "0").
    - destruct (isdigit _); [discriminate E1|]. injection E1 as <-.
      exact (advance_no_nul 1 _ H0).
    - destruct (isdigit _); [|discriminate E1]. injection E1 as <-.
      apply skip_digits_no_nul, H0. }
  destruct (scan_frac j1) as [j2|] eqn:E2; [|discriminate H].
  assert (H2 : no_nul j2).
  { unfold scan_frac in E2. destruct (Ascii.eqb _ ".").
    - destruct (negb _); [discriminate E2|]. injection E2 as <-.
      apply skip_digits_no_nul. exact (advance_no_nul 1 _ H1).
    - injection E2 as <-. exact H1. }
  unfold scan_exp in H. destruct (_ || _).
  - destruct (negb _); [discriminate H|]. injection H as <-.
    apply skip_digits_no_nul.
    destruct (_ || _); [apply (advance_no_nul 1)|]; exact (advance_no_nul 1 _ H2).
  - injection H as <-. exact H2.
Qed.

Lemma parse_number_well_formed json h v json' h' :
  no_nul json -> parse_number json h = (Some (v, json'), h') ->
  well_formed (shape v) /\ no_nul json'.
Proof.
  intros Hj H.
  assert (Hwf : well_formed (shape v)).
  { destruct (parse_number_finite _ _ _ _ _ H) as (p & x & -> & Hf & Hv).
    split; assumption. }
  unfold parse_number in H.
  destruct (scan_number json) as [j|] eqn:E; [|discriminate H].
  apply scan_number_no_nul in E; [|exact Hj].
  destruct (strtod json) as [[num e] err].
  destruct (err || negb (isfinite num)); [discriminate H|].
  match type of H with
  | (match ?c with _ => _ end) = _ => destruct c as [[n|] h1]
  end; [|discriminate H].
  unfold create_value in H. destruct (calloc _ _ h1) as [[p|] h2]; inversion H; subst.
  split; [exact Hwf|exact E].
Qed.

Lemma parse_literal_well_formed json h v json' h' :
  no_nul json -> parse_literal json h = (Some (v, json'), h') ->
  well_formed (shape v) /\ no_nul json'.
Proof.
  unfold parse_literal, create_value. intros Hj H.
  destruct (starts_with (lit "true") json).
  { destruct (calloc _ _ h) as [[p|] h1]; inversion H; subst.
    split; [right; reflexivity|exact (advance_no_nul 4 _ Hj)]. }
  destruct (starts_with (lit "false") json).
  { destruct (calloc _ _ h) as [[p|] h1]; inversion H; subst.
    split; [left; reflexivity|exact (advance_no_nul 5 _ Hj)]. }
  destruct (starts_with (lit "null") json); [|discriminate].
  destruct (calloc _ _ h) as [[p|] h1]; inversion H; subst.
  split; [exact I|exact (advance_no_nul 4 _ Hj)].
Qed.

Lemma well_formed_array_snoc p elements elements' elems e :
  well_formed (shape (V_ARRAY p elements elems)) -> well_formed (shape e) ->
  well_formed (shape (V_ARRAY p elements' (elems ++ [e]))).
Proof.
  cbn [shape well_formed]. rewrite !fold_and_Forall, map_app. intros Ha He.
  apply Forall_app. split; [exact Ha|]. constructor; [exact He|constructor].
Qed.

Lemma well_formed_members (members : list (c_string * json)) :
  fold_right (fun m P => (no_nul (fst m) /\ well_formed (snd m)) /\ P) True members
  <-> Forall (fun m => no_nul (fst m) /\ well_formed (snd m)) members.
Proof. apply (fold_and_Forall (fun m => no_nul (fst m) /\ well_formed (snd m))). Qed.

Lemma well_formed_object_snoc p keys values keys' values' members a k v :
  well_formed (shape (V_OBJECT p keys values members)) ->
  no_nul k -> well_formed (shape v) ->
  well_formed (shape (V_OBJECT p keys' values' (members ++ [(a, k, v)]))).
Proof.
  cbn [shape well_formed]. rewrite !well_formed_members, map_app. intros Ho Hk Hv.
  apply Forall_app. split; [exact Ho|].
  constructor; [split; assumption|constructor].
Qed.

Section Well_formed.

Variable rec : Z -> c_string -> heap -> parsed.

Hypothesis rec_well_formed :
  forall depth json h v json' h',
    no_nul json -> rec depth json h = (Some (v, json'), h') ->
    well_formed (shape v) /\ no_nul json'.

Lemma parse_array_loop_well_formed fuel depth arr json h v json' h' :
  (exists p elements elems,
      arr = Some (V_ARRAY p elements elems)
      /\ well_formed (shape (V_ARRAY p elements elems))) ->
  no_nul json ->
  parse_array_loop rec fuel depth arr json h = (Some (v, json'), h') ->
  well_formed (shape v) /\ no_nul json'.
Proof.
  revert arr json h.
  induction fuel as [|fuel IH]; intros arr json h Harr Hj H; [discriminate|].
  cbn [parse_array_loop] in H.
  destruct (rec (depth + 1) json h) as [[[element json1]|] h1] eqn:Erec;
    [|discriminate].
  apply rec_well_formed in Erec; [|exact Hj]. destruct Erec as [He Hj1].
  destruct (rjson_array_add arr (Some element) h1) as [[ret arr1] h2] eqn:Eadd.
  destruct (rjson_array_add_result _ _ _ _ _ _ Eadd)
    as [[-> ->]|(p & els & nels & es & e & -> & Ea & Ee & ->)]; [discriminate|].
  simpl negb in H. cbv iota in H. inversion Ee; subst e.
  destruct Harr as (p0 & els0 & es0 & Harr & Hn). rewrite Ea in Harr.
  inversion Harr; subst p0 els0 es0.
  pose proof (well_formed_array_snoc p els (Some nels) es element Hn He) as Hn'.
  pose proof (skip_whitespace_no_nul _ Hj1) as Hj2.
  destruct (Ascii.eqb (peek (skip_whitespace json1)) "]").
  { injection H as <- <- <-. split; [exact Hn'|exact (advance_no_nul 1 _ Hj2)]. }
  destruct (negb _); [discriminate|].
  eapply IH; [| |exact H].
  - eexists _, _, _. split; [reflexivity|exact Hn'].
  - exact (advance_no_nul 1 _ Hj2).
Qed.

Lemma parse_array_well_formed json depth h v json' h' :
  no_nul json ->
  parse_array rec json depth h = (Some (v, json'), h') ->
  well_formed (shape v) /\ no_nul json'.
Proof.
  intros Hj. unfold parse_array. destruct (depth >=? RJSON_MAX_DEPTH); [discriminate|].
  unfold rjson_array_new, create_value.
  destruct (calloc _ _ h) as [[p|] h1]; [|discriminate]. cbn [zeroed].
  pose proof (skip_whitespace_no_nul _ (advance_no_nul 1 _ Hj)) as Hj1.
  destruct (Ascii.eqb _ "]").
  - intros H. injection H as <- <- <-. split; [exact I|exact (advance_no_nul 1 _ Hj1)].
  - apply parse_array_loop_well_formed; [|exact Hj1].
    eexists _, _, _. split; [reflexivity|exact I].
Qed.

Lemma parse_object_loop_well_formed fuel depth obj json h v json' h' :
  (exists p keys values members,
      obj = Some (V_OBJECT p keys values members)
      /\ well_formed (shape (V_OBJECT p keys values members))) ->
  no_nul json ->
  parse_object_loop rec fuel depth obj json h = (Some (v, json'), h') ->
  well_formed (shape v) /\ no_nul json'.
Proof.
  revert obj json h.
  induction fuel as [|fuel IH]; intros obj json h Hobj Hj H; [discriminate|].
  cbn [parse_object_loop] in H.
  destruct (negb (Ascii.eqb (peek (skip_whitespace json)) "034")); [discriminate|].
  destruct (parse_string (skip_whitespace json) h) as [[[key_val json1]|] h1] eqn:Ekey;
    [|discriminate].
  apply parse_string_form in Ekey; [|apply skip_whitespace_no_nul, Hj].
  destruct Ekey as (pk & ak & dk & -> & Hdk & Hj1).
  pose proof (skip_whitespace_no_nul _ Hj1) as Hj1'.
  destruct (negb (Ascii.eqb (peek (skip_whitespace json1)) ":")); [discriminate|].
  destruct (rec (depth + 1) (advance 1 (skip_whitespace json1)) h1)
    as [[[val json2]|] h2] eqn:Erec; [|discriminate].
  apply rec_well_formed in Erec; [|exact (advance_no_nul 1 _ Hj1')].
  destruct Erec as [Hval Hj2].
  match type of H with
  | context [rjson_object_add obj ?k (Some val) h2] =>
      destruct (rjson_object_add obj k (Some val) h2) as [[ret obj1] h3] eqn:Eadd
  end.
  destruct (rjson_object_add_result _ _ _ _ _ _ _ Eadd)
    as [(-> & _)|(p & ks & vs & nks & nvs & nk & ms & k & w
                  & -> & Eo & Ek & Ew & ->)]; [discriminate|].
  simpl negb in H. cbv iota in H. inversion Ew; subst w.
  cbn [option_map snd] in Ek. inversion Ek; subst k.
  destruct Hobj as (p0 & ks0 & vs0 & ms0 & Hobj & Hn). rewrite Eo in Hobj.
  inversion Hobj; subst p0 ks0 vs0 ms0.
  pose proof (well_formed_object_snoc p ks vs (Some nks) (Some nvs) ms nk dk val
                Hn Hdk Hval) as Hn'.
  pose proof (skip_whitespace_no_nul _ Hj2) as Hj3.
  match type of H with
  | context [Ascii.eqb (peek ?j) "}"] => destruct (Ascii.eqb (peek j) "}")
  end.
  { injection H as <- <- <-. split; [exact Hn'|exact (advance_no_nul 1 _ Hj3)]. }
  destruct (negb _); [discriminate|].
  eapply IH; [| |exact H].
  - eexists _, _, _, _. split; [reflexivity|exact Hn'].
  - exact (advance_no_nul 1 _ Hj3).
Qed.

Lemma parse_object_well_formed json depth h v json' h' :
  no_nul json ->
  parse_object rec json depth h = (Some (v, json'), h') ->
  well_formed (shape v) /\ no_nul json'.
Proof.
  intros Hj. unfold parse_object. destruct (depth >=? RJSON_MAX_DEPTH); [discriminate|].
  unfold rjson_object_new, create_value.
  destruct (calloc _ _ h) as [[p|] h1]; [|discriminate]. cbn [zeroed].
  pose proof (skip_whitespace_no_nul _ (advance_no_nul 1 _ Hj)) as Hj1.
  destruct (Ascii.eqb _ "}").
  - intros H. injection H as <- <- <-. split; [exact I|exact (advance_no_nul 1 _ Hj1)].
  - apply parse_object_loop_well_formed; [|exact Hj1].
    eexists _, _, _, _. split; [reflexivity|exact I].
Qed.

Lemma parse_value_body_well_formed json depth h v json' h' :
  no_nul json ->
  parse_value_body rec json depth h = (Some (v, json'), h') ->
  well_formed (shape v) /\ no_nul json'.
Proof.
  intros Hj H. unfold parse_value_body in H.
  pose proof (skip_whitespace_no_nul _ Hj) as Hj1.
  pose proof (parse_string_well_formed _ h v json' h' Hj1) as Hstr.
  pose proof (parse_number_well_formed _ h v json' h' Hj1) as Hnum.
  pose proof (parse_literal_well_formed _ h v json' h' Hj1) as Hlit.
  pose proof (parse_array_well_formed _ depth h v json' h' Hj1) as Harr.
  pose proof (parse_object_well_formed _ depth h v json' h' Hj1) as Hobj.
  destruct (peek (skip_whitespace json)) as [[] [] [] [] [] [] [] []];
    cbv iota in H;
    try discriminate H;
    first [ apply Hstr in H; exact H | apply Hnum in H; exact H
          | apply Hlit in H; exact H | apply Harr in H; exact H
          | apply Hobj in H; exact H
          | (match type of H with
             | (if ?c then _ else _) = _ =>
                 destruct c; [apply Hnum in H; exact H|discriminate H]
             end) ].
Qed.

End Well_formed.

Lemma parse_value_at_well_formed levels depth json h v json' h' :
  no_nul json ->
  parse_value_at levels depth json h = (Some (v, json'), h') ->
  well_formed (shape v) /\ no_nul json'.
Proof.
  revert depth json h v json' h'.
  induction levels as [|levels IH]; intros depth json h v json' h' Hj H;
    [discriminate|].
  cbn [parse_value_at] in H.
  eapply parse_value_body_well_formed; [|exact Hj|exact H].
  intros. eapply IH; eassumption.
Qed.

(** ** The buffer of the encoder is never lost *)

Lemma strbuf_append_buffer sb data len h ret sb' h' :
  buffer sb <> None -> strbuf_append sb data len h = (ret, sb', h') ->
  buffer sb' <> None.
Proof.
  unfold strbuf_append. intros Hb H.
  destruct (_ >? _).
  - destruct (realloc _ _ h) as [[b|] h1]; injection H as <- <- <-;
      [discriminate|exact Hb].
  - injection H as <- <- <-. exact Hb.
Qed.

Lemma chunk_append_buffer chunk sb h ret sb' h' :
  buffer sb <> None ->
  match chunk with
  | [] => (0, sb, h)
  | _ => strbuf_append sb chunk (strlen chunk) h
  end = (ret, sb', h') ->
  buffer sb' <> None.
Proof.
  intros Hb H. destruct chunk.
  - injection H as <- <- <-. exact Hb.
  - eapply strbuf_append_buffer; eassumption.
Qed.

Lemma escape_loop_buffer p : forall chunk sb h ret sb' h',
  buffer sb <> None -> escape_loop p chunk sb h = (ret, sb', h') ->
  buffer sb' <> None.
Proof.
  induction p as [|c p IH]; intros chunk sb h ret sb' h' Hb H; cbn [escape_loop] in H.
  - destruct (match chunk with
              | [] => (0, sb, h)
              | _ :: _ => strbuf_append sb chunk (strlen chunk) h
              end) as [[r1 sb1] h1] eqn:E1.
    apply chunk_append_buffer in E1; [|exact Hb].
    destruct (negb _); [injection H as <- <- <-; exact E1|].
    destruct (strbuf_append sb1 _ 1 h1) as [[r2 sb2] h2] eqn:E2.
    injection H as <- <- <-. eapply strbuf_append_buffer; eassumption.
  - destruct (replacement c) as [[r len]|]; [|eapply IH; eassumption].
    destruct (match chunk with
              | [] => (0, sb, h)
              | _ :: _ => strbuf_append sb chunk (strlen chunk) h
              end) as [[r1 sb1] h1] eqn:E1.
    apply chunk_append_buffer in E1; [|exact Hb].
    destruct (negb _); [injection H as <- <- <-; exact E1|].
    destruct (strbuf_append sb1 r len h1) as [[r2 sb2] h2] eqn:E2.
    apply strbuf_append_buffer in E2; [|exact E1].
    destruct (negb _); [injection H as <- <- <-; exact E2|].
    eapply IH; eassumption.
Qed.

Lemma escape_string_buffer in_ sb h ret sb' h' :
  buffer sb <> None -> escape_string in_ sb h = (ret, sb', h') ->
  buffer sb' <> None.
Proof.
  unfold escape_string. intros Hb H.
  destruct (strbuf_append sb _ 1 h) as [[r1 sb1] h1] eqn:E1.
  apply strbuf_append_buffer in E1; [|exact Hb].
  eapply escape_loop_buffer; eassumption.
Qed.

Lemma serialize_number_buffer num sb h ret sb' h' :
  buffer sb <> None -> serialize_number num sb h = (ret, sb', h') ->
  buffer sb' <> None.
Proof.
  unfold serialize_number. intros Hb H.
  destruct (negb _); [injection H as <- <- <-; exact Hb|].
  destruct (snprintf_g17 64 num) as [len num_buf].
  destruct (_ || _); [injection H as <- <- <-; exact Hb|].
  eapply strbuf_append_buffer; eassumption.
Qed.

Section Buffer_elements.

Variable ser : rjson_value -> strbuf -> heap -> Z * strbuf * heap.

Lemma comma_buffer (first : bool) sb h ret sb' h' :
  buffer sb <> None ->
  (if first then (0, sb, h) else strbuf_append sb [","] 1 h) = (ret, sb', h') ->
  buffer sb' <> None.
Proof.
  intros Hb H. destruct first.
  - injection H as <- <- <-. exact Hb.
  - eapply strbuf_append_buffer; eassumption.
Qed.

Lemma serialize_elements_buffer elems : forall first sb h ret sb' h',
  Forall (fun e => forall sb h ret sb' h',
            buffer sb <> None -> ser e sb h = (ret, sb', h') ->
            buffer sb' <> None) elems ->
  buffer sb <> None ->
  serialize_elements ser first elems sb h = (ret, sb', h') ->
  buffer sb' <> None.
Proof.
  induction elems as [|e elems IH]; intros first sb h ret sb' h' Hser Hb H;
    cbn [serialize_elements] in H.
  - injection H as <- <- <-. exact Hb.
  - inversion Hser as [|? ? He Hrest]; subst.
    destruct (if first then (0, sb, h) else strbuf_append sb [","] 1 h)
      as [[r1 sb1] h1] eqn:E1.
    apply comma_buffer in E1; [|exact Hb].
    destruct (negb _); [injection H as <- <- <-; exact E1|].
    destruct (ser e sb1 h1) as [[r2 sb2] h2] eqn:E2.
    apply He in E2; [|exact E1].
    destruct (negb _); [injection H as <- <- <-; exact E2|].
    eapply IH; eassumption.
Qed.

Lemma serialize_members_buffer members : forall first sb h ret sb' h',
  Forall (fun m => forall sb h ret sb' h',
            buffer sb <> None -> ser (snd m) sb h = (ret, sb', h') ->
            buffer sb' <> None) members ->
  buffer sb <> None ->
  serialize_members ser first members sb h = (ret, sb', h') ->
  buffer sb' <> None.
Proof.
  induction members as [|m members IH]; intros first sb h ret sb' h' Hser Hb H;
    cbn [serialize_members] in H.
  - injection H as <- <- <-. exact Hb.
  - inversion Hser as [|? ? He Hrest]; subst.
    destruct (if first then (0, sb, h) else strbuf_append sb [","] 1 h)
      as [[r1 sb1] h1] eqn:E1.
    apply comma_buffer in E1; [|exact Hb].
    destruct (negb _); [injection H as <- <- <-; exact E1|].
    destruct (escape_string _ sb1 h1) as [[r2 sb2] h2] eqn:E2.
    apply escape_string_buffer in E2; [|exact E1].
    destruct (negb _); [injection H as <- <- <-; exact E2|].
    destruct (strbuf_append sb2 _ 1 h2) as [[r3 sb3] h3] eqn:E3.
    apply strbuf_append_buffer in E3; [|exact E2].
    destruct (negb _); [injection H as <- <- <-; exact E3|].
    destruct (ser (snd m) sb3 h3) as [[r4 sb4] h4] eqn:E4.
    apply He in E4; [|exact E3].
    destruct (negb _); [injection H as <- <- <-; exact E4|].
    eapply IH; eassumption.
Qed.

End Buffer_elements.

Lemma serialize_value_buffer t : forall sb depth h ret sb' h',
  buffer sb <> None -> serialize_value t sb depth h = (ret, sb', h') ->
  buffer sb' <> None.
Proof.
  induction t as [p|p b|p x|p s|p elements elems IH|p keys values members IH]
    using rjson_value_induction; intros sb depth h ret sb' h' Hb H;
    cbn [serialize_value] in H;
    (destruct (depth >=? RJSON_MAX_DEPTH); [injection H as <- <- <-; exact Hb|]).
  - eapply strbuf_append_buffer; eassumption.
  - destruct (negb _); eapply strbuf_append_buffer; eassumption.
  - eapply serialize_number_buffer; eassumption.
  - destruct s as [[a s]|]; [eapply escape_string_buffer; eassumption|].
    injection H as <- <- <-. exact Hb.
  - destruct (strbuf_append sb _ 1 h) as [[r1 sb1] h1] eqn:E1.
    apply strbuf_append_buffer in E1; [|exact Hb].
    destruct (negb _); [injection H as <- <- <-; exact E1|].
    destruct (serialize_elements _ true elems sb1 h1) as [[r2 sb2] h2] eqn:E2.
    apply serialize_elements_buffer in E2; [| |exact E1].
    2: { eapply Forall_impl; [exact IH|]. cbv beta.
         intros e He sb0 h0 ret0 sb0' h0' Hb0 H0. eapply He; eassumption. }
    destruct (negb _); [injection H as <- <- <-; exact E2|].
    eapply strbuf_append_buffer; eassumption.
  - destruct (strbuf_append sb _ 1 h) as [[r1 sb1] h1] eqn:E1.
    apply strbuf_append_buffer in E1; [|exact Hb].
    destruct (negb _); [injection H as <- <- <-; exact E1|].
    destruct (serialize_members _ true members sb1 h1) as [[r2 sb2] h2] eqn:E2.
    apply serialize_members_buffer in E2; [| |exact E1].
    2: { eapply Forall_impl; [exact IH|]. cbv beta.
         intros e He sb0 h0 ret0 sb0' h0' Hb0 H0. eapply He; eassumption. }
    destruct (negb _); [injection H as <- <- <-; exact E2|].
    eapply strbuf_append_buffer; eassumption.
Qed.

(** ** The bounds of the loops are never reached

    The loops of the C code are written here with a bound on the number of
    their turns. Every turn of a loop of the decoder reads at least one
    byte, and arrays and objects are refused before the nesting exceeds
    [RJSON_MAX_DEPTH]: the result does not depend on the bound once it is
    as large as the one the definitions use. *)

Lemma skip_whitespace_length json : (length (skip_whitespace json) <= length json)%nat.
Proof.
  induction json as [|c json IH]; cbn [skip_whitespace]; [lia|].
  destruct (_ || _); cbn [length]; lia.
Qed.

Lemma advance_length n json : (length (advance n json) <= length json)%nat.
Proof. unfold advance. rewrite length_skipn. lia. Qed.

Lemma scan_string_length json j :
  scan_string json = Some j -> (length j <= length json)%nat.
Proof.
  revert j. induction json as [json IH] using (induction_ltof1 _ (@length ascii)).
  unfold ltof in IH. intros j H. destruct json as [|c json]; [inversion H; subst; lia|].
  cbn [scan_string] in H.
  destruct (Ascii.eqb c "034"); [inversion H; subst; lia|].
  destruct (code c <? 32); [discriminate H|].
  destruct (Ascii.eqb c "\").
  - destruct json as [|c2 json]; [discriminate H|].
    apply IH in H; cbn [length] in *; lia.
  - apply IH in H; cbn [length] in *; lia.
Qed.

Lemma parse_string_progress json h v json' h' :
  parse_string json h = (Some (v, json'), h') -> (length json' < length json)%nat.
Proof.
  unfold parse_string. intros H.
  destruct (scan_string (advance 1 json)) as [j|] eqn:E; [|discriminate H].
  apply scan_string_length in E.
  destruct j as [|c j]; [discriminate H|].
  destruct (negb _); [discriminate H|].
  destruct (unescape_string _ h) as [[s|] h1]; [|discriminate H].
  destruct (create_value RJSON_STRING h1) as [[[]|] h2]; try discriminate H.
  injection H as _ <- _. change (advance 1 (c :: j)) with j.
  pose proof (advance_length 1 json). cbn [length] in E.
  destruct json as [|c0 json]; cbn [length] in *; [lia|].
  change (advance 1 (c0 :: json)) with json in E. lia.
Qed.

Lemma parse_number_progress json h v json' h' :
  parse_number json h = (Some (v, json'), h') -> (length json' < length json)%nat.
Proof.
  unfold parse_number. intros H.
  destruct (scan_number json) as [j|] eqn:E; [|discriminate H].
  destruct (scan_number_sound json j E) as (neg & i & f & x & Hj & Hi & _).
  destruct (int_part_digits i Hi) as [_ Hne].
  assert (Hlen : (length j < length json)%nat).
  { rewrite Hj, !length_app. destruct i; [contradiction|]. cbn [length]. lia. }
  destruct (strtod json) as [[num e] err].
  destruct (err || negb (isfinite num)); [discriminate H|].
  match type of H with
  | (match ?c with _ => _ end) = _ => destruct c as [[n|] h1]
  end; [|discriminate H].
  unfold create_value in H. destruct (calloc _ _ h1) as [[p|] h2]; [|discriminate H].
  cbn [zeroed] in H. injection H as _ <- _. exact Hlen.
Qed.

Lemma starts_with_length w json :
  starts_with w json = true -> (length w <= length json)%nat.
Proof.
  revert json. induction w as [|a w IH]; intros json H; [cbn [length]; lia|].
  destruct json as [|b json]; [discriminate H|]. cbn [starts_with] in H.
  apply andb_true_iff in H. destruct H as [_ H]. apply IH in H. cbn [length]. lia.
Qed.

Lemma parse_literal_progress json h v json' h' :
  parse_literal json h = (Some (v, json'), h') -> (length json' < length json)%nat.
Proof.
  unfold parse_literal, create_value. intros H.
  destruct (starts_with (lit "true") json) eqn:Et.
  { apply starts_with_length in Et. cbn [length lit list_ascii_of_string] in Et.
    destruct (calloc _ _ h) as [[p|] h1]; [|discriminate H].
    cbn [zeroed] in H. injection H as _ <- _.
    change (length (advance 4 json) < length json)%nat.
    unfold advance. rewrite length_skipn. lia. }
  destruct (starts_with (lit "false") json) eqn:Ef.
  { apply starts_with_length in Ef. cbn [length lit list_ascii_of_string] in Ef.
    destruct (calloc _ _ h) as [[p|] h1]; [|discriminate H].
    cbn [zeroed] in H. injection H as _ <- _.
    change (length (advance 5 json) < length json)%nat.
    unfold advance. rewrite length_skipn. lia. }
  destruct (starts_with (lit "null") json) eqn:En; [|discriminate H].
  apply starts_with_length in En. cbn [length lit list_ascii_of_string] in En.
  destruct (calloc _ _ h) as [[p|] h1]; [|discriminate H].
  injection H as _ <- _.
    change (length (advance 4 json) < length json)%nat. unfold advance. rewrite length_skipn. lia.
Qed.

Section Progress.

Variable rec : Z -> c_string -> heap -> parsed.

Hypothesis rec_progress :
  forall depth json h v json' h',
    rec depth json h = (Some (v, json'), h') -> (length json' < length json)%nat.

Lemma after_separator json (c : byte) :
  Ascii.eqb (peek (skip_whitespace json)) c = true -> c <> NUL ->
  (length (advance 1 (skip_whitespace json)) < length json)%nat.
Proof.
  intros Hc Hn. pose proof (skip_whitespace_length json) as Hs.
  destruct (skip_whitespace json) as [|b j].
  - apply Ascii.eqb_eq in Hc. cbn [peek] in Hc. congruence.
  - change (advance 1 (b :: j)) with j. cbn [length] in Hs. lia.
Qed.

Lemma parse_array_loop_progress fuel : forall depth arr json h v json' h',
  parse_array_loop rec fuel depth arr json h = (Some (v, json'), h') ->
  (length json' < length json)%nat.
Proof.
  induction fuel as [|fuel IH]; intros depth arr json h v json' h' H; [discriminate H|].
  cbn [parse_array_loop] in H.
  destruct (rec (depth + 1) json h) as [[[element json1]|] h1] eqn:Erec;
    [|discriminate H].
  apply rec_progress in Erec.
  destruct (rjson_array_add arr (Some element) h1) as [[ret arr1] h2].
  destruct (negb (ret =? 0)); [discriminate H|].
  destruct (Ascii.eqb (peek (skip_whitespace json1)) "]") eqn:Eclose.
  { pose proof (after_separator json1 "]" Eclose ltac:(discriminate)).
    destruct arr1; [|discriminate H].
    assert (Hj : json' = advance 1 (skip_whitespace json1)) by congruence.
    rewrite Hj. lia. }
  destruct (negb (Ascii.eqb (peek (skip_whitespace json1)) ",")) eqn:Ecomma;
    [discriminate H|].
  apply negb_false_iff in Ecomma.
  pose proof (after_separator json1 "," Ecomma ltac:(discriminate)).
  apply IH in H. lia.
Qed.

Lemma parse_array_loop_fuel fuel1 : forall fuel2 depth arr json h,
  (length json < fuel1)%nat -> (length json < fuel2)%nat ->
  parse_array_loop rec fuel1 depth arr json h
  = parse_array_loop rec fuel2 depth arr json h.
Proof.
  induction fuel1 as [|fuel1 IH]; intros fuel2 depth arr json h H1 H2; [lia|].
  destruct fuel2 as [|fuel2]; [lia|]. cbn [parse_array_loop].
  destruct (rec (depth + 1) json h) as [[[element json1]|] h1] eqn:Erec;
    [|reflexivity].
  apply rec_progress in Erec.
  destruct (rjson_array_add arr (Some element) h1) as [[ret arr1] h2].
  destruct (negb (ret =? 0)); [reflexivity|].
  destruct (Ascii.eqb (peek (skip_whitespace json1)) "]"); [reflexivity|].
  destruct (negb (Ascii.eqb (peek (skip_whitespace json1)) ",")) eqn:Ecomma;
    [reflexivity|].
  apply negb_false_iff in Ecomma.
  pose proof (after_separator json1 "," Ecomma ltac:(discriminate)).
  apply IH; lia.
Qed.

Lemma parse_array_progress json depth h v json' h' :
  json <> [] ->
  parse_array rec json depth h = (Some (v, json'), h') ->
  (length json' < length json)%nat.
Proof.
  intros Hne. destruct json as [|c0 json]; [contradiction|].
  unfold parse_array. destruct (depth >=? RJSON_MAX_DEPTH); [discriminate|].
  change (advance 1 (c0 :: json)) with json.
  destruct (rjson_array_new h) as [[node|] h1]; [|discriminate].
  pose proof (skip_whitespace_length json) as Hs.
  destruct (Ascii.eqb (peek (skip_whitespace json)) "]") eqn:Eclose.
  - pose proof (after_separator json "]" Eclose ltac:(discriminate)) as Hsep.
    intros H.
    assert (Hj : json' = advance 1 (skip_whitespace json)) by congruence.
    rewrite Hj. cbn [length]. lia.
  - intros H. apply parse_array_loop_progress in H. cbn [length]. lia.
Qed.

(** One turn of the loop of [parse_object] up to the value: the cursor
    behind the colon is shorter than the cursor of the turn. *)
Lemma parse_object_loop_progress fuel : forall depth obj json h v json' h',
  parse_object_loop rec fuel depth obj json h = (Some (v, json'), h') ->
  (length json' < length json)%nat.
Proof.
  induction fuel as [|fuel IH]; intros depth obj json h v json' h' H; [discriminate H|].
  cbn [parse_object_loop] in H.
  pose proof (skip_whitespace_length json) as Hs0.
  destruct (negb (Ascii.eqb (peek (skip_whitespace json)) "034")); [discriminate H|].
  destruct (parse_string (skip_whitespace json) h) as [[[key_val json1]|] h1] eqn:Ekey;
    [|discriminate H].
  apply parse_string_progress in Ekey.
  destruct (negb (Ascii.eqb (peek (skip_whitespace json1)) ":")) eqn:Ecolon;
    [discriminate H|].
  apply negb_false_iff in Ecolon.
  pose proof (after_separator json1 ":" Ecolon ltac:(discriminate)) as Hc.
  destruct (rec (depth + 1) (advance 1 (skip_whitespace json1)) h1)
    as [[[val json2]|] h2] eqn:Erec; [|discriminate H].
  apply rec_progress in Erec.
  match type of H with
  | context [rjson_object_add obj ?k (Some val) h2] =>
      destruct (rjson_object_add obj k (Some val) h2) as [[ret obj1] h3]
  end.
  destruct (negb (ret =? 0)); [discriminate H|].
  match type of H with
  | context [Ascii.eqb (peek (skip_whitespace json2)) "}"] =>
      destruct (Ascii.eqb (peek (skip_whitespace json2)) "}") eqn:Eclose
  end.
  { pose proof (after_separator json2 "}" Eclose ltac:(discriminate)).
    destruct obj1; [|discriminate H].
    assert (Hj : json' = advance 1 (skip_whitespace json2)) by congruence.
    rewrite Hj. lia. }
  destruct (negb (Ascii.eqb (peek (skip_whitespace json2)) ",")) eqn:Ecomma;
    [discriminate H|].
  apply negb_false_iff in Ecomma.
  pose proof (after_separator json2 "," Ecomma ltac:(discriminate)).
  apply IH in H. lia.
Qed.

Lemma parse_object_loop_fuel fuel1 : forall fuel2 depth obj json h,
  (length json < fuel1)%nat -> (length json < fuel2)%nat ->
  parse_object_loop rec fuel1 depth obj json h
  = parse_object_loop rec fuel2 depth obj json h.
Proof.
  induction fuel1 as [|fuel1 IH]; intros fuel2 depth obj json h H1 H2; [lia|].
  destruct fuel2 as [|fuel2]; [lia|]. cbn [parse_object_loop].
  pose proof (skip_whitespace_length json) as Hs0.
  destruct (negb (Ascii.eqb (peek (skip_whitespace json)) "034")); [reflexivity|].
  destruct (parse_string (skip_whitespace json) h) as [[[key_val json1]|] h1] eqn:Ekey;
    [|reflexivity].
  apply parse_string_progress in Ekey.
  destruct (negb (Ascii.eqb (peek (skip_whitespace json1)) ":")) eqn:Ecolon;
    [reflexivity|].
  apply negb_false_iff in Ecolon.
  pose proof (after_separator json1 ":" Ecolon ltac:(discriminate)) as Hc.
  destruct (rec (depth + 1) (advance 1 (skip_whitespace json1)) h1)
    as [[[val json2]|] h2] eqn:Erec; [|reflexivity].
  apply rec_progress in Erec.
  match goal with
  | |- context [rjson_object_add obj ?k (Some val) h2] =>
      destruct (rjson_object_add obj k (Some val) h2) as [[ret obj1] h3]
  end.
  destruct (negb (ret =? 0)); [reflexivity|].
  match goal with
  | |- context [Ascii.eqb (peek (skip_whitespace json2)) "}"] =>
      destruct (Ascii.eqb (peek (skip_whitespace json2)) "}")
  end; [reflexivity|].
  destruct (negb (Ascii.eqb (peek (skip_whitespace json2)) ",")) eqn:Ecomma;
    [reflexivity|].
  apply negb_false_iff in Ecomma.
  pose proof (after_separator json2 "," Ecomma ltac:(discriminate)).
  apply IH; lia.
Qed.

Lemma parse_object_progress json depth h v json' h' :
  json <> [] ->
  parse_object rec json depth h = (Some (v, json'), h') ->
  (length json' < length json)%nat.
Proof.
  intros Hne. destruct json as [|c0 json]; [contradiction|].
  unfold parse_object. destruct (depth >=? RJSON_MAX_DEPTH); [discriminate|].
  change (advance 1 (c0 :: json)) with json.
  destruct (rjson_object_new h) as [[node|] h1]; [|discriminate].
  pose proof (skip_whitespace_length json) as Hs.
  destruct (Ascii.eqb (peek (skip_whitespace json)) "}") eqn:Eclose.
  - pose proof (after_separator json "}" Eclose ltac:(discriminate)) as Hsep.
    intros H.
    assert (Hj : json' = advance 1 (skip_whitespace json)) by congruence.
    rewrite Hj. cbn [length]. lia.
  - intros H. apply parse_object_loop_progress in H. cbn [length]. lia.
Qed.

End Progress.

Section Progress_value.

Variable rec : Z -> c_string -> heap -> parsed.

Hypothesis rec_progress :
  forall depth json h v json' h',
    rec depth json h = (Some (v, json'), h') -> (length json' < length json)%nat.

Lemma parse_value_body_progress json depth h v json' h' :
  parse_value_body rec json depth h = (Some (v, json'), h') ->
  (length json' < length json)%nat.
Proof.
  unfold parse_value_body. intros H.
  pose proof (skip_whitespace_length json) as Hs.
  assert (Hne : peek (skip_whitespace json) <> NUL -> skip_whitespace json <> [])
    by (intros Hp E; rewrite E in Hp; apply Hp; reflexivity).
  pose proof (parse_string_progress (skip_whitespace json) h v json' h') as Hstr.
  pose proof (parse_number_progress (skip_whitespace json) h v json' h') as Hnum.
  pose proof (parse_literal_progress (skip_whitespace json) h v json' h') as Hlit.
  pose proof (parse_array_progress rec rec_progress (skip_whitespace json) depth h
                v json' h') as Harr.
  pose proof (parse_object_progress rec rec_progress (skip_whitespace json) depth h
                v json' h') as Hobj.
  destruct (peek (skip_whitespace json)) as [[] [] [] [] [] [] [] []];
    cbv iota in H;
    try discriminate H;
    first [ apply Hstr in H; lia | apply Hnum in H; lia | apply Hlit in H; lia
          | apply Harr in H; [lia|apply Hne; discriminate]
          | apply Hobj in H; [lia|apply Hne; discriminate]
          | (match type of H with
             | (if ?c then _ else _) = _ =>
                 destruct c; [apply Hnum in H; lia|discriminate H]
             end) ].
Qed.

End Progress_value.

Lemma parse_value_at_progress levels : forall depth json h v json' h',
  parse_value_at levels depth json h = (Some (v, json'), h') ->
  (length json' < length json)%nat.
Proof.
  induction levels as [|levels IH]; intros depth json h v json' h' H; [discriminate H|].
  cbn [parse_value_at] in H. eapply parse_value_body_progress; [|exact H].
  exact IH.
Qed.

(** The values that an array or an object holds are parsed by the same
    function at the next depth, whatever will be done at other depths. *)
Section Same_values.

Variables rec1 rec2 : Z -> c_string -> heap -> parsed.
Variable depth : Z.

Hypothesis same : forall json h, rec1 (depth + 1) json h = rec2 (depth + 1) json h.

Lemma parse_array_loop_same fuel : forall arr json h,
  parse_array_loop rec1 fuel depth arr json h
  = parse_array_loop rec2 fuel depth arr json h.
Proof.
  induction fuel as [|fuel IH]; intros arr json h; [reflexivity|].
  cbn [parse_array_loop]. rewrite same.
  destruct (rec2 (depth + 1) json h) as [[[element json1]|] h1]; [|reflexivity].
  destruct (rjson_array_add arr (Some element) h1) as [[ret arr1] h2].
  rewrite IH. reflexivity.
Qed.

Lemma parse_object_loop_same fuel : forall obj json h,
  parse_object_loop rec1 fuel depth obj json h
  = parse_object_loop rec2 fuel depth obj json h.
Proof.
  induction fuel as [|fuel IH]; intros obj json h; [reflexivity|].
  cbn [parse_object_loop].
  destruct (negb (Ascii.eqb (peek (skip_whitespace json)) "034")); [reflexivity|].
  destruct (parse_string (skip_whitespace json) h) as [[[key_val json1]|] h1];
    [|reflexivity].
  destruct (negb (Ascii.eqb (peek (skip_whitespace json1)) ":")); [reflexivity|].
  rewrite same.
  destruct (rec2 (depth + 1) (advance 1 (skip_whitespace json1)) h1)
    as [[[val json2]|] h2]; [|reflexivity].
  match goal with
  | |- context [rjson_object_add obj ?k (Some val) h2] =>
      destruct (rjson_object_add obj k (Some val) h2) as [[ret obj1] h3]
  end.
  rewrite IH. reflexivity.
Qed.

End Same_values.

Lemma parse_value_body_same rec1 rec2 json depth h :
  (depth < RJSON_MAX_DEPTH ->
   forall json h, rec1 (depth + 1) json h = rec2 (depth + 1) json h) ->
  parse_value_body rec1 json depth h = parse_value_body rec2 json depth h.
Proof.
  intros Hsame. unfold parse_value_body.
  assert (Harr : forall j, parse_array rec1 j depth h = parse_array rec2 j depth h).
  { intros j. unfold parse_array.
    destruct (Z.geb_spec depth RJSON_MAX_DEPTH) as [Hge|Hlt]; [reflexivity|].
    destruct (rjson_array_new h) as [[arr|] h1]; [|reflexivity].
    rewrite (parse_array_loop_same rec1 rec2 depth (Hsame Hlt)). reflexivity. }
  assert (Hobj : forall j, parse_object rec1 j depth h = parse_object rec2 j depth h).
  { intros j. unfold parse_object.
    destruct (Z.geb_spec depth RJSON_MAX_DEPTH) as [Hge|Hlt]; [reflexivity|].
    destruct (rjson_object_new h) as [[obj|] h1]; [|reflexivity].
    rewrite (parse_object_loop_same rec1 rec2 depth (Hsame Hlt)). reflexivity. }
  rewrite Harr, Hobj. reflexivity.
Qed.

Lemma parse_value_at_levels levels1 : forall levels2 depth json h,
  depth <= RJSON_MAX_DEPTH ->
  (Z.to_nat (RJSON_MAX_DEPTH + 1 - depth) <= levels1)%nat ->
  (Z.to_nat (RJSON_MAX_DEPTH + 1 - depth) <= levels2)%nat ->
  parse_value_at levels1 depth json h = parse_value_at levels2 depth json h.
Proof.
  induction levels1 as [|levels1 IH]; intros levels2 depth json h Hd H1 H2; [lia|].
  destruct levels2 as [|levels2]; [lia|]. cbn [parse_value_at].
  apply parse_value_body_same. intros Hlt json0 h0. apply IH; lia.
Qed.

Lemma unescape_loop_fuel fuel1 : forall fuel2 p d,
  (length p <= fuel1)%nat -> (length p <= fuel2)%nat ->
  unescape_loop fuel1 p d = unescape_loop fuel2 p d.
Proof.
  induction fuel1 as [|fuel1 IH]; intros fuel2 p d H1 H2.
  - destruct p; [|cbn [length] in H1; lia]. destruct fuel2; reflexivity.
  - destruct fuel2 as [|fuel2];
      [destruct p; [reflexivity|cbn [length] in H2; lia]|].
    destruct p as [|c p]; [reflexivity|].
    assert (Hplain : forall c', unescape_loop fuel1 p (d ++ [c'])
                                = unescape_loop fuel2 p (d ++ [c']))
      by (intros c'; apply IH; cbn [length] in *; lia).
    destruct (Ascii.eqb_spec c "\") as [->|Hc].
    + cbn [unescape_loop]. destruct p as [|e p']; [reflexivity|].
      assert (Hesc : forall x, unescape_loop fuel1 p' (d ++ x)
                               = unescape_loop fuel2 p' (d ++ x))
        by (intros x; apply IH; cbn [length] in *; lia).
      assert (Hu : forall cp,
                 (let (cp, p'') := combine_surrogates cp (advance 4 p') in
                  if ((0xD800 <=? cp) && (cp <=? 0xDFFF)) || (cp =? 0) then None
                  else unescape_loop fuel1 p'' (d ++ utf8_encode cp))
                 = (let (cp, p'') := combine_surrogates cp (advance 4 p') in
                    if ((0xD800 <=? cp) && (cp <=? 0xDFFF)) || (cp =? 0) then None
                    else unescape_loop fuel2 p'' (d ++ utf8_encode cp))).
      { intros cp.
        assert (Hlen : (length (snd (combine_surrogates cp (advance 4 p')))
                        <= length p')%nat).
        { unfold combine_surrogates.
          pose proof (advance_length 4 p'). pose proof (advance_length 6 (advance 4 p')).
          repeat match goal with
                 | |- context [if ?b then _ else _] => destruct b
                 | |- context [match ?o with Some _ => _ | None => _ end] => destruct o
                 end; cbn [snd]; lia. }
        destruct (combine_surrogates cp (advance 4 p')) as [cp' p''].
        cbn [snd] in Hlen. destruct (_ || _); [reflexivity|].
        apply IH; cbn [length] in *; lia. }
      destruct e as [[] [] [] [] [] [] [] []]; try reflexivity;
        first [ apply Hesc
              | destruct (strlen ("u" :: p') <? 5); [reflexivity|];
                destruct (hex_digits 4 p' 0); [apply Hu|reflexivity] ].
    + assert (Hstep : forall fuel,
                 unescape_loop (S fuel) (c :: p) d = unescape_loop fuel p (d ++ [c])).
      { intros fuel. destruct c as [[] [] [] [] [] [] [] []]; try reflexivity.
        contradiction Hc. reflexivity. }
      rewrite !Hstep. apply Hplain.
Qed.

(** The bounds that the definitions use are as good as any larger one. *)
Lemma parse_value_levels levels depth json h :
  depth <= RJSON_MAX_DEPTH ->
  (Z.to_nat (RJSON_MAX_DEPTH + 1 - depth) <= levels)%nat ->
  parse_value_at levels depth json h = parse_value json depth h.
Proof.
  intros Hd Hl. unfold parse_value. apply parse_value_at_levels; [exact Hd|exact Hl|lia].
Qed.

Lemma parse_array_loop_turns levels fuel depth arr json h :
  (length json < fuel)%nat ->
  parse_array_loop (parse_value_at levels) fuel depth arr json h
  = parse_array_loop (parse_value_at levels) (S (length json)) depth arr json h.
Proof.
  intros Hf. apply parse_array_loop_fuel; [|exact Hf|lia].
  intros d j h0 v j' h'. apply parse_value_at_progress.
Qed.

Lemma parse_object_loop_turns levels fuel depth obj json h :
  (length json < fuel)%nat ->
  parse_object_loop (parse_value_at levels) fuel depth obj json h
  = parse_object_loop (parse_value_at levels) (S (length json)) depth obj json h.
Proof.
  intros Hf. apply parse_object_loop_fuel; [|exact Hf|lia].
  intros d j h0 v j' h'. apply parse_value_at_progress.
Qed.

Lemma unescape_loop_turns fuel span :
  (length span <= fuel)%nat ->
  unescape_loop fuel span [] = unescape_loop (length span) span [].
Proof. intros Hf. apply unescape_loop_fuel; [exact Hf|lia]. Qed.

(** ** The round trip *)

Lemma c_str_no_nul s : no_nul (c_str s).
Proof.
  induction s as [|c s IH]; [constructor|]. cbn [c_str].
  destruct (Ascii.eqb_spec c NUL); constructor; assumption.
Qed.

Lemma escaped_byte_no_nul c : c <> NUL -> no_nul (escaped_byte c).
Proof.
  intros Hc. destruct c as [[] [] [] [] [] [] [] []];
    try (exfalso; apply Hc; reflexivity);
    vm_compute; repeat constructor; discriminate.
Qed.

Lemma escaped_no_nul s : no_nul s -> no_nul (escaped s).
Proof.
  unfold escaped. induction 1 as [|c s Hc _ IH]; [constructor|].
  cbn [map concat]. apply Forall_app. split; [|exact IH].
  apply escaped_byte_no_nul, Hc.
Qed.

Lemma encode_string_no_nul s : no_nul s -> no_nul (encode_string s).
Proof.
  intros Hs. unfold encode_string. constructor; [discriminate|].
  apply Forall_app. split; [apply escaped_no_nul, Hs|].
  constructor; [discriminate|constructor].
Qed.

Lemma separated_no_nul first items :
  Forall no_nul items -> no_nul (separated first items).
Proof.
  intros H. revert first. induction H as [|x items Hx _ IH]; intros first;
    [constructor|].
  cbn [separated]. apply Forall_app. split.
  - destruct first; [constructor|]. constructor; [discriminate|constructor].
  - apply Forall_app. split; [exact Hx|apply IH].
Qed.

Lemma encode_no_nul j :
  well_formed j -> numbers_read_back j -> no_nul (encode j).
Proof.
  induction j as [|b|x|s|elems IH|members IH] using json_induction;
    intros Hwf Hnum; cbn [encode].
  - repeat constructor; discriminate.
  - destruct (b =? 0); repeat constructor; discriminate.
  - destruct Hnum as (_ & _ & Htok & _). apply number_token_not_nul, Htok.
  - destruct Hwf as (s' & -> & Hs). apply encode_string_no_nul, Hs.
  - cbn [well_formed numbers_read_back] in Hwf, Hnum.
    rewrite fold_and_Forall in Hwf. rewrite fold_and_Forall in Hnum.
    constructor; [discriminate|]. apply Forall_app. split.
    + apply separated_no_nul. apply Forall_map.
      apply Forall_forall. intros e He.
      rewrite Forall_forall in IH. rewrite Forall_forall in Hwf.
      rewrite Forall_forall in Hnum.
      apply IH; [exact He|apply Hwf, He|apply Hnum, He].
    + constructor; [discriminate|constructor].
  - cbn [well_formed numbers_read_back] in Hwf, Hnum.
    rewrite well_formed_members in Hwf.
    rewrite (fold_and_Forall (fun m => numbers_read_back (snd m))) in Hnum.
    constructor; [discriminate|]. apply Forall_app. split.
    + apply separated_no_nul. apply Forall_map.
      apply Forall_forall. intros m Hm.
      rewrite Forall_forall in IH. rewrite Forall_forall in Hwf.
      rewrite Forall_forall in Hnum.
      destruct (Hwf m Hm) as [Hk Hv].
      apply Forall_app. split; [apply encode_string_no_nul, Hk|].
      constructor; [discriminate|].
      apply IH; [exact Hm|exact Hv|apply Hnum, Hm].
    + constructor; [discriminate|constructor].
Qed.

Lemma starts_with_BOM_encode j :
  well_formed j -> numbers_read_back j -> starts_with BOM (encode j) = false.
Proof.
  intros Hwf Hnum. destruct (encode_start j Hwf Hnum) as (c & tl & -> & Hc).
  unfold BOM. cbn [starts_with].
  destruct (Ascii.eqb_spec "239" c) as [<-|_]; [discriminate Hc|reflexivity].
Qed.

Lemma rjson_parse_encoded j h :
  granted h -> well_formed j -> numbers_read_back j ->
  height j <= RJSON_MAX_DEPTH ->
  exists t h',
    rjson_parse (Some (encode j)) h = (Some t, h') /\ shape t = j /\ granted h'.
Proof.
  intros Hg Hwf Hnum Hh. unfold rjson_parse.
  rewrite (c_str_id _ (encode_no_nul j Hwf Hnum)).
  rewrite (starts_with_BOM_encode j Hwf Hnum). unfold parse_value.
  destruct (parse_value_at_encoded j (Z.to_nat (RJSON_MAX_DEPTH + 1 - 0)) 0 [] h
              Hwf Hnum ltac:(lia) ltac:(lia) eq_refl Hg) as (t & h' & E & Hs & Hg').
  rewrite app_nil_r in E. rewrite E. cbn [skip_whitespace peek].
  exists t, h'. repeat split; assumption.
Qed.

Lemma rjson_parse_well_formed d h t h' :
  rjson_parse (Some d) h = (Some t, h') -> well_formed (shape t).
Proof.
  unfold rjson_parse, parse_value. intros H.
  match type of H with
  | context [parse_value_at ?n 0 ?j h] =>
      destruct (parse_value_at n 0 j h) as [[[r pos]|] h1] eqn:E;
      [|discriminate H];
      assert (Hj : no_nul j)
  end.
  { destruct (starts_with BOM (c_str d));
      [exact (advance_no_nul 3 _ (c_str_no_nul d))|apply c_str_no_nul]. }
  apply parse_value_at_well_formed in E; [|exact Hj].
  destruct (negb _); [discriminate H|]. injection H as <- <-. apply E.
Qed.

Lemma rjson_serialize_granted t o len h :
  granted h -> well_formed (shape t) -> height (shape t) <= RJSON_MAX_DEPTH ->
  exists b h',
    rjson_serialize (Some t) (Some o) len h
    = (0, Some (Some (b, encode (shape t))),
       option_map (fun _ => strlen (encode (shape t))) len, h')
    /\ granted h'.
Proof.
  intros Hg Hwf Hh. unfold rjson_serialize, strbuf_init.
  destruct (malloc_granted 1024 h Hg) as (b & h1 & -> & Hg1).
  destruct (serialize_value_granted t (Strbuf (Some b) [] 1024) 0 h1 Hg1 Hwf
              ltac:(lia)) as (sb & h2 & E & Hw & Hg2).
  assert (Hb : buffer sb <> None)
    by (eapply serialize_value_buffer; [|exact E]; discriminate).
  rewrite E. simpl negb. cbv iota.
  destruct sb as [[b'|] w c]; [|contradiction]. cbn [written app] in Hw. subst w.
  exists b', h2. split; [reflexivity|exact Hg2].
Qed.

(** ** Trees that are too deep for the encoder *)

Lemma fold_max_attained {A} (f : A -> Z) (l : list A) :
  0 < fold_right (fun e n => Z.max (f e) n) 0 l ->
  exists x, In x l /\ f x = fold_right (fun e n => Z.max (f e) n) 0 l.
Proof.
  induction l as [|y l IH]; cbn [fold_right]; [lia|]. intros H.
  destruct (Z.max_spec (f y) (fold_right (fun e n => Z.max (f e) n) 0 l))
    as [[Hlt ->]|[Hle ->]].
  - destruct (IH ltac:(lia)) as (x & Hin & Hx). exists x. split; [right; exact Hin|exact Hx].
  - exists y. split; [left; reflexivity|reflexivity].
Qed.

Lemma serialize_value_too_deep v :
  forall sb depth h,
    RJSON_MAX_DEPTH < depth + height (shape v) ->
    fst (fst (serialize_value v sb depth h)) = -1.
Proof.
  induction v as [p|p b|p x|p s|p elements elems IH|p keys values members IH]
    using rjson_value_induction; intros sb depth h Hd;
    cbn [serialize_value];
    (destruct (depth >=? RJSON_MAX_DEPTH) eqn:Hguard; [reflexivity|]);
    cbn [shape height] in Hd; try lia.
  - destruct (strbuf_append sb ["["] 1 h) as [[ret sb1] h1].
    destruct (ret =? 0); [|reflexivity]. simpl negb. cbv iota.
    match goal with
    | |- context [serialize_elements ?f true elems sb1 h1] =>
        pose proof (serialize_elements_fails f true elems sb1 h1) as Hf;
        destruct (serialize_elements f true elems sb1 h1) as [[ret2 sb2] h2]
    end.
    simpl in Hf. rewrite Hf; [reflexivity|].
    destruct (fold_max_attained height (map shape elems)) as (j & Hin & Hj); [lia|].
    apply in_map_iff in Hin. destruct Hin as (e & <- & Hin).
    apply Exists_exists. exists e. split; [apply list_elem_of_In; exact Hin|].
    rewrite Forall_forall in IH. intros sb' h'.
    apply (IH e); [apply list_elem_of_In; exact Hin|lia].
  - destruct (strbuf_append sb ["{"] 1 h) as [[ret sb1] h1].
    destruct (ret =? 0); [|reflexivity]. simpl negb. cbv iota.
    match goal with
    | |- context [serialize_members ?f true members sb1 h1] =>
        pose proof (serialize_members_fails f true members sb1 h1) as Hf;
        destruct (serialize_members f true members sb1 h1) as [[ret2 sb2] h2]
    end.
    simpl in Hf. rewrite Hf; [reflexivity|].
    destruct (fold_max_attained (fun m : c_string * json => height (snd m))
                (map (fun m => (snd (fst m), shape (snd m))) members))
      as (j & Hin & Hj); [lia|].
    apply in_map_iff in Hin. destruct Hin as (m & <- & Hin).
    apply Exists_exists. exists m. split; [apply list_elem_of_In; exact Hin|].
    rewrite Forall_forall in IH. intros sb' h'.
    apply (IH m); [apply list_elem_of_In; exact Hin|]. cbn [snd] in Hj. lia.
Qed.

Lemma rjson_serialize_too_deep value out_string out_length h :
  RJSON_MAX_DEPTH < height (shape value) ->
  exists h',
    rjson_serialize (Some value) out_string out_length h
    = (-1, out_string, out_length, h').
Proof.
  intros Hv. unfold rjson_serialize.
  destruct out_string as [cell|]; [|eexists; reflexivity].
  destruct (strbuf_init 1024 h) as [[ret [sb|]] h1]; [|eexists; reflexivity].
  pose proof (serialize_value_too_deep value sb 0 h1 ltac:(lia)) as Hf.
  destruct (serialize_value value sb 0 h1) as [[ret2 sb2] h2].
  simpl in Hf. subst ret2. simpl. eexists; reflexivity.
Qed.

Lemma numbers_normal_read_back j : numbers_normal j -> numbers_read_back j.
Proof.
  induction j as [|b|x|s|elems IH|members IH] using json_induction;
    cbn [numbers_normal numbers_read_back]; try (intros; exact I).
  - apply normal_reads_back.
  - rewrite !fold_and_Forall. intros H.
    rewrite Forall_forall in IH. rewrite Forall_forall in H.
    apply Forall_forall. intros e He. apply IH; [exact He|apply H, He].
  - rewrite (fold_and_Forall (fun m => numbers_normal (snd m))),
      (fold_and_Forall (fun m => numbers_read_back (snd m))). intros H.
    rewrite Forall_forall in IH. rewrite Forall_forall in H.
    apply Forall_forall. intros m Hm. apply IH; [exact Hm|apply H, Hm].
Qed.

(** ** C1: the round trip *)

(** C1 as stated fails: a number inside 512 arrays is accepted by
    [rjson_parse], and [rjson_serialize] refuses the tree: the encoder
    counts the number as one more level. *)
Lemma C1_number_at_depth_512_is_not_encoded :
  exists t h h',
    rjson_parse (Some (nested_arrays 512 (lit "1"))) (heap_init []) = (Some t, h)
    /\ rjson_serialize (Some t) (Some None) None h = (-1, Some None, None, h').
Proof.
  eexists _, _, _. split; [vm_compute; reflexivity|]. vm_compute. reflexivity.
Qed.

(** A subnormal number is not read back either: [2^-1074] written out
    exactly is accepted, the encoder writes it with 17 digits, and the
    conversion of these digits is not exact, so that [strtod] reports a
    range error and [rjson_parse] fails on the text of the encoder. *)
Lemma subnormal_is_not_read_back :
  exists p h b h',
    rjson_parse (Some tiny_text) (heap_init [])
    = (Some (V_NUMBER p (S754_finite false 1 (-1074))), h)
    /\ rjson_serialize (Some (V_NUMBER p (S754_finite false 1 (-1074))))
         (Some None) None h
       = (0, Some (Some (b, lit "4.9406564584124654e-324")), None, h')
    /\ strtod (lit "4.9406564584124654e-324")
       = (S754_finite false 1 (-1074), [], true)
    /\ fst (rjson_parse (Some (lit "4.9406564584124654e-324")) h') = None.
Proof.
  eexists _, _, _, _. split; [vm_compute; reflexivity|].
  split; [vm_compute; reflexivity|]. split; vm_compute; reflexivity.
Qed.

Lemma finite_not_subnormal x :
  isfinite x = true -> valid_binary 53 1024 x = true -> subnormal x = false ->
  normal x.
Proof.
  destruct x as [s|s| |s m e]; cbn [isfinite subnormal normal];
    try discriminate; [trivial|].
  intros _ Hv Hs. destruct (valid_binary64_bounds s m e Hv) as [Hm He].
  apply Z.ltb_ge in Hs. repeat split; lia.
Qed.

Lemma existsb_none {A} (f : A -> bool) (l : list A) :
  existsb f l = false -> Forall (fun x => f x = false) l.
Proof.
  induction l as [|x l IH]; cbn [existsb]; [constructor|].
  intros H. apply orb_false_iff in H. destruct H as [Hx Hl].
  constructor; [exact Hx|apply IH, Hl].
Qed.

Lemma no_subnormal_normal j :
  well_formed j -> has_subnormal j = false -> numbers_normal j.
Proof.
  induction j as [|b|x|s|elems IH|members IH] using json_induction;
    cbn [well_formed has_subnormal numbers_normal]; try (intros; exact I).
  - intros [Hf Hv] Hs. apply finite_not_subnormal; assumption.
  - rewrite !fold_and_Forall. intros Hwf Hs. apply existsb_none in Hs.
    rewrite Forall_forall in IH. rewrite Forall_forall in Hwf.
    rewrite Forall_forall in Hs. apply Forall_forall.
    intros e He. apply IH; [exact He|apply Hwf, He|apply Hs, He].
  - rewrite well_formed_members, (fold_and_Forall (fun m => numbers_normal (snd m))).
    intros Hwf Hs. apply existsb_none in Hs.
    rewrite Forall_forall in IH. rewrite Forall_forall in Hwf.
    rewrite Forall_forall in Hs. apply Forall_forall.
    intros m Hm. apply IH; [exact Hm|apply (Hwf m Hm)|apply Hs, Hm].
Qed.

(** C1, amended: let [rjson_parse] accept the input [d] and return the
    tree [t]. When a value of [t] lies more than 511 arrays and objects
    deep, [rjson_serialize] fails on [t]. Otherwise, when no allocation is
    refused, [rjson_serialize] returns 0 with the text [encode (shape t)];
    and when moreover no number of [t] is subnormal, [rjson_parse] accepts
    that text and the tree it returns denotes what [t] denotes: the same
    variants, the same bytes in strings and keys, the same binary64
    values, the same order of elements and members. *)
Theorem C1_round_trip_within_depth d h t h1 :
  rjson_parse (Some d) h = (Some t, h1) ->
  (RJSON_MAX_DEPTH < height (shape t) ->
   forall out_string out_length h2,
   exists h3,
     rjson_serialize (Some t) out_string out_length h2
     = (-1, out_string, out_length, h3))
  /\ (height (shape t) <= RJSON_MAX_DEPTH ->
      forall cell out_length h2,
        granted h2 ->
        exists b h3,
          rjson_serialize (Some t) (Some cell) out_length h2
          = (0, Some (Some (b, encode (shape t))),
             option_map (fun _ => strlen (encode (shape t))) out_length, h3)
          /\ granted h3
          /\ (has_subnormal (shape t) = false ->
              forall h4,
                granted h4 ->
                exists t' h5,
                  rjson_parse (Some (encode (shape t))) h4 = (Some t', h5)
                  /\ shape t' = shape t)).
Proof.
  intros Hparse. pose proof (rjson_parse_well_formed d h t h1 Hparse) as Hwf.
  split.
  - intros Hdeep out_string out_length h2.
    apply rjson_serialize_too_deep. exact Hdeep.
  - intros Hh cell out_length h2 Hg2.
    destruct (rjson_serialize_granted t cell out_length h2 Hg2 Hwf Hh)
      as (b & h3 & E & Hg3).
    exists b, h3. split; [exact E|]. split; [exact Hg3|].
    intros Hsub h4 Hg4.
    pose proof (numbers_normal_read_back (shape t)
                  (no_subnormal_normal (shape t) Hwf Hsub)) as Hnum.
    destruct (rjson_parse_encoded (shape t) h4 Hg4 Hwf Hnum Hh) as (t' & h5 & E' & Hs & _).
    exists t', h5. split; [exact E'|exact Hs].
Qed.

Lemma C1_round_trip_within_depth_witness :
  exists t h1,
    rjson_parse (Some (quoted "{'k':[1,-2.5,'a\nb',true,null]}")) (heap_init [])
    = (Some t, h1)
    /\ height (shape t) <= RJSON_MAX_DEPTH
    /\ has_subnormal (shape t) = false
    /\ granted h1
    /\ exists b h3,
         rjson_serialize (Some t) (Some None) (Some 0) h1
         = (0, Some (Some (b, encode (shape t))),
            option_map (fun _ => strlen (encode (shape t))) (Some 0), h3)
         /\ granted h3
         /\ exists t' h5,
              rjson_parse (Some (encode (shape t))) h3 = (Some t', h5)
              /\ shape t' = shape t.
Proof.
  eexists _, _. split; [vm_compute; reflexivity|].
  split; [vm_compute; discriminate|]. split; [vm_compute; reflexivity|].
  split; [constructor|].
  match goal with
  | |- exists b h3, rjson_serialize (Some ?t) _ _ ?h1 = _ /\ _ =>
      destruct (proj2 (C1_round_trip_within_depth
                         (quoted "{'k':[1,-2.5,'a\nb',true,null]}") (heap_init [])
                         t h1 ltac:(vm_compute; reflexivity))
                  ltac:(vm_compute; discriminate) None (Some 0) h1
                  ltac:(constructor))
        as (b & h3 & E & Hg3 & Hback)
  end.
  exists b, h3. split; [exact E|]. split; [exact Hg3|].
  apply Hback; [vm_compute; reflexivity|exact Hg3].
Defined.

(** ** Ownership: what [rjson_free] releases *)

Lemma free_live a h :
  a ∈ live h ->
  live (free (Some a) h) = live h ∖ {[ a ]}
  /\ faults (free (Some a) h) = faults h
  /\ brk (free (Some a) h) = brk h
  /\ fate (free (Some a) h) = fate h.
Proof.
  intros Ha. unfold free. rewrite bool_decide_eq_true_2 by exact Ha.
  repeat split.
Qed.

Lemma released_nil h : released h h [].
Proof. repeat split. simpl. set_solver. Qed.

Lemma released_app h h1 h2 bs1 bs2 :
  released h h1 bs1 -> released h1 h2 bs2 -> released h h2 (bs1 ++ bs2).
Proof.
  intros (L1 & F1 & B1 & T1) (L2 & F2 & B2 & T2). repeat split; try congruence.
  rewrite L2, L1, list_to_set_app_L. set_solver.
Qed.

Lemma released_free a h :
  a ∈ live h -> released h (free (Some a) h) [a].
Proof.
  intros Ha. destruct (free_live a h Ha) as (L & F & B & T).
  repeat split; try assumption. rewrite L. simpl. set_solver.
Qed.

Lemma released_free_option (o : option addr) h :
  (forall a, o = Some a -> a ∈ live h) ->
  released h (free o h) (option_list o).
Proof.
  intros H. destruct o as [a|]; simpl.
  - apply released_free, H. reflexivity.
  - apply released_nil.
Qed.

Lemma released_perm h h' bs bs' :
  bs ≡ₚ bs' -> released h h' bs -> released h h' bs'.
Proof.
  intros P (L & F & B & T). repeat split; try assumption.
  rewrite L. f_equal. apply set_eq. intros x.
  rewrite !elem_of_list_to_set. rewrite P. reflexivity.
Qed.

Lemma released_live h h' bs a :
  released h h' bs -> a ∈ live h -> a ∉ bs -> a ∈ live h'.
Proof.
  intros (L & _) Ha Hn. rewrite L. apply elem_of_difference. split; [exact Ha|].
  rewrite elem_of_list_to_set. exact Hn.
Qed.

Lemma released_then h h1 h2 bs1 bs2 :
  released h h1 bs1 ->
  (forall a, a ∈ bs2 -> a ∈ live h) ->
  (forall a, a ∈ bs1 -> a ∉ bs2) ->
  ((forall a, a ∈ bs2 -> a ∈ live h1) -> released h1 h2 bs2) ->
  released h h2 (bs1 ++ bs2).
Proof.
  intros R1 Hl Hd R2. eapply released_app; [exact R1|]. apply R2.
  intros a Ha. eapply released_live; [exact R1|apply Hl, Ha|].
  intros Hin. exact (Hd a Hin Ha).
Qed.

Lemma released_fold {A} (f : A -> heap -> heap) (bl : A -> list addr) (l : list A) :
  Forall (fun x => forall h, NoDup (bl x) -> (forall a, a ∈ bl x -> a ∈ live h) ->
                            released h (f x h) (bl x)) l ->
  forall h,
    NoDup (flat_map bl l) -> (forall a, a ∈ flat_map bl l -> a ∈ live h) ->
    released h (fold_left (fun h x => f x h) l h) (flat_map bl l).
Proof.
  induction 1 as [|x l Hx Hl IH]; intros h Hnd Hlive; simpl.
  - apply released_nil.
  - simpl in Hnd, Hlive. apply NoDup_app in Hnd as (H1 & H2 & H3).
    eapply released_then.
    + apply Hx; [exact H1|]. intros a Ha. apply Hlive. set_solver.
    + intros a Ha. apply Hlive. set_solver.
    + exact H2.
    + intros Hl1. apply IH; assumption.
Qed.

Lemma free_value_released v :
  forall h,
    NoDup (blocks v) -> (forall a, a ∈ blocks v -> a ∈ live h) ->
    released h (free_value v h) (blocks v).
Proof.
  induction v as [p|p b|p x|p s|p elements elems IH|p keys values members IH]
    using rjson_value_induction; intros h Hnd Hlive.
  - apply released_free, Hlive. simpl. set_solver.
  - apply released_free, Hlive. simpl. set_solver.
  - apply released_free, Hlive. simpl. set_solver.
  - cbn [free_value blocks] in *.
    apply (released_perm _ _ (option_list (option_map fst s) ++ [p])).
    { symmetry. apply Permutation_cons_append. }
    apply NoDup_cons in Hnd as [Hp Hs].
    eapply released_then.
    + apply released_free_option. intros a Ha. apply Hlive.
      rewrite Ha. simpl. set_solver.
    + intros a Ha. apply Hlive. set_solver.
    + intros a Ha Hin. apply Hp. set_solver.
    + intros Hl. apply released_free, Hl. set_solver.
  - cbn [free_value blocks] in *.
    apply (released_perm _ _ (flat_map blocks elems ++ option_list elements ++ [p])).
    { solve_Permutation. }
    apply NoDup_cons in Hnd as [Hp Hnd].
    apply NoDup_app in Hnd as (He & Hdis & Hel).
    eapply released_then.
    + apply (released_fold free_value blocks); [exact IH|exact Hel|].
      intros a Ha. apply Hlive. set_solver.
    + intros a Ha. apply Hlive. set_solver.
    + intros a Ha Hin. apply elem_of_app in Hin as [Hin|Hin].
      * exact (Hdis a Hin Ha).
      * apply Hp. set_solver.
    + intros Hl. eapply released_then.
      * apply released_free_option. intros a ->. apply Hl. simpl. set_solver.
      * intros a Ha. apply Hl. set_solver.
      * intros a Ha Hin. apply Hp. set_solver.
      * intros Hl2. apply released_free, Hl2. set_solver.
  - cbn [free_value blocks] in *.
    apply (released_perm _ _
             (flat_map (fun m => fst (fst m) :: blocks (snd m)) members
                ++ option_list keys ++ option_list values ++ [p])).
    { solve_Permutation. }
    apply NoDup_cons in Hnd as [Hp Hnd].
    apply NoDup_app in Hnd as (Hk & Hdk & Hnd).
    apply NoDup_app in Hnd as (Hv & Hdv & Hm).
    eapply released_then.
    + apply (released_fold (fun m h => free_value (snd m) (free (Some (fst (fst m))) h))
               (fun m => fst (fst m) :: blocks (snd m))); [|exact Hm|].
      * eapply Forall_impl; [exact IH|]. intros m IHm h0 Hnd0 Hl0. cbn beta in *.
        apply NoDup_cons in Hnd0 as [Hk0 Hnd0].
        apply (released_then h0 (free (Some (fst (fst m))) h0) _ [fst (fst m)]).
        -- apply released_free, Hl0. set_solver.
        -- intros a Ha. apply Hl0. set_solver.
        -- intros a Ha Hin. apply Hk0. set_solver.
        -- intros Hl1. apply IHm; assumption.
      * intros a Ha. apply Hlive. set_solver.
    + intros a Ha. apply Hlive. set_solver.
    + intros a Ha Hin. apply elem_of_app in Hin as [Hin|Hin].
      * apply (Hdk a Hin). set_solver.
      * apply elem_of_app in Hin as [Hin|Hin].
        -- exact (Hdv a Hin Ha).
        -- apply Hp. set_solver.
    + intros Hl. eapply released_then.
      * apply released_free_option. intros a ->. apply Hl. simpl. set_solver.
      * intros a Ha. apply Hl. set_solver.
      * intros a Ha Hin. apply elem_of_app in Hin as [Hin|Hin].
        -- apply (Hdk a Ha). set_solver.
        -- apply Hp. set_solver.
      * intros Hl2. eapply released_then.
        -- apply released_free_option. intros a ->. apply Hl2. simpl. set_solver.
        -- intros a Ha. apply Hl2. set_solver.
        -- intros a Ha Hin. apply Hp. set_solver.
        -- intros Hl3. apply released_free, Hl3. set_solver.
Qed.

(** ** Ownership: what the decoder allocates *)

Lemma allocated_refl h : heap_wf h -> allocated h h [].
Proof.
  intros W. repeat split; try assumption.
  - constructor.
  - intros a Ha. inversion Ha.
  - simpl. set_solver.
  - lia.
Qed.

Lemma allocated_below h h' bs a :
  allocated h h' bs -> a ∈ bs -> (a < brk h')%positive.
Proof.
  intros (_ & _ & L & _ & _ & W) Ha. apply W. rewrite L. set_solver.
Qed.

Lemma allocated_fresh h h' bs a :
  heap_wf h -> allocated h h' bs -> a ∈ bs -> a ∉ live h.
Proof.
  intros W (_ & B & _) Ha Hl. specialize (W a Hl). specialize (B a Ha). lia.
Qed.

Lemma allocated_trans h h1 h2 bs1 bs2 :
  allocated h h1 bs1 -> allocated h1 h2 bs2 -> allocated h h2 (bs1 ++ bs2).
Proof.
  intros A1 A2.
  pose proof (fun a => allocated_below _ _ _ a A1) as Hb.
  destruct A1 as (N1 & B1 & L1 & F1 & K1 & W1).
  destruct A2 as (N2 & B2 & L2 & F2 & K2 & W2).
  repeat split; try assumption.
  - apply NoDup_app. repeat split; try assumption.
    intros a Ha1 Ha2. specialize (Hb a Ha1). specialize (B2 a Ha2). lia.
  - intros a Ha. apply elem_of_app in Ha as [Ha|Ha].
    + apply B1, Ha.
    + specialize (B2 a Ha). lia.
  - rewrite L2, L1, list_to_set_app_L. set_solver.
  - congruence.
  - lia.
Qed.

Lemma allocated_perm h h' bs bs' :
  bs ≡ₚ bs' -> allocated h h' bs -> allocated h h' bs'.
Proof.
  intros P (N & B & L & F & K & W). repeat split; try assumption.
  - rewrite <- P. exact N.
  - intros a Ha. apply B. rewrite P. exact Ha.
  - rewrite L. f_equal. apply set_eq. intros x.
    rewrite !elem_of_list_to_set. rewrite P. reflexivity.
Qed.

Lemma allocated_released h h1 h2 bs bs' :
  heap_wf h ->
  allocated h h1 (bs ++ bs') -> released h1 h2 bs' -> allocated h h2 bs.
Proof.
  intros W0 A (L2 & F2 & B2 & T2).
  pose proof (fun a => allocated_fresh _ _ _ a W0 A) as Hf.
  destruct A as (N & B & L & F & K & W).
  apply NoDup_app in N as (N1 & Nd & N2).
  repeat split.
  - exact N1.
  - intros a Ha. apply B. set_solver.
  - rewrite L2, L, list_to_set_app_L. apply set_eq. intros x.
    rewrite elem_of_difference, !elem_of_union, !elem_of_list_to_set.
    split.
    + intros [[Hx|[Hx|Hx]] Hn]; [left; exact Hx|right; exact Hx|contradiction].
    + intros [Hx|Hx]; (split; [tauto|]); intros Hx'.
      * apply (Hf x); [set_solver|exact Hx].
      * exact (Nd x Hx Hx').
  - congruence.
  - rewrite B2. exact K.
  - intros a Ha. rewrite B2. apply W. rewrite L2 in Ha. set_solver.
Qed.

Lemma released_granted h h' bs : released h h' bs -> granted h -> granted h'.
Proof. intros (_ & _ & _ & T) G. unfold granted. rewrite T. exact G. Qed.

Lemma malloc_allocated size h :
  heap_wf h -> granted h ->
  exists a h', malloc size h = (Some a, h') /\ granted h' /\ allocated h h' [a].
Proof.
  intros W G. unfold malloc.
  destruct (next_outcome_granted h G) as [Ho Hg].
  assert (Hsame : live (snd (next_outcome h)) = live h
                  /\ brk (snd (next_outcome h)) = brk h
                  /\ faults (snd (next_outcome h)) = faults h).
  { unfold next_outcome. destruct (fate h); repeat split. }
  destruct (next_outcome h) as [o h1]. simpl in Ho, Hg, Hsame.
  destruct Hsame as (L & B & F).
  assert (A : allocated h (snd (fresh size h1)) [fst (fresh size h1)]).
  { unfold fresh. simpl. repeat split; simpl.
    - apply NoDup_singleton.
    - intros a Ha. apply list_elem_of_singleton in Ha. subst. lia.
    - rewrite L, B. set_solver.
    - exact F.
    - lia.
    - intros a Ha. apply elem_of_union in Ha as [Ha|Ha].
      + apply elem_of_singleton in Ha. subst. cbn [brk]. lia.
      + rewrite L in Ha. specialize (W a Ha). cbn [brk]. lia. }
  destruct o; [contradiction| |]; eexists _, _;
    (split; [reflexivity|split; [exact Hg|exact A]]).
Qed.

Lemma create_value_allocated type h :
  heap_wf h -> granted h ->
  exists p h',
    create_value type h = (Some (zeroed type p), h')
    /\ granted h' /\ allocated h h' [p].
Proof.
  intros W G. unfold create_value, calloc.
  destruct (malloc_allocated (1 * sizeof_rjson_value) h W G) as (a & h' & -> & Hg & A).
  eexists _, _. split; [reflexivity|]. split; assumption.
Qed.

Lemma allocated_wf h h' bs : allocated h h' bs -> heap_wf h'.
Proof. intros (_ & _ & _ & _ & _ & W). exact W. Qed.

Lemma allocated_live h h' bs a : allocated h h' bs -> a ∈ bs -> a ∈ live h'.
Proof. intros (_ & _ & L & _) Ha. rewrite L. set_solver. Qed.

Lemma allocated_free h0 h a bs bs' :
  heap_wf h0 -> granted h -> bs' ≡ₚ bs ++ [a] -> allocated h0 h bs' ->
  granted (free (Some a) h) /\ allocated h0 (free (Some a) h) bs.
Proof.
  intros W G P A. apply (allocated_perm _ _ _ _ P) in A.
  split; [apply free_granted, G|].
  eapply allocated_released; [exact W|exact A|].
  apply released_free. eapply allocated_live; [exact A|]. set_solver.
Qed.

Lemma allocated_free_value h0 h v bs bs' :
  heap_wf h0 -> granted h -> bs' ≡ₚ bs ++ blocks v -> allocated h0 h bs' ->
  granted (free_value v h) /\ allocated h0 (free_value v h) bs.
Proof.
  intros W G P A. apply (allocated_perm _ _ _ _ P) in A.
  assert (R : released h (free_value v h) (blocks v)).
  { apply free_value_released.
    - destruct A as (N & _). apply NoDup_app in N as (_ & _ & N). exact N.
    - intros a Ha. eapply allocated_live; [exact A|]. set_solver. }
  split; [eapply released_granted; [exact R|exact G]|].
  eapply allocated_released; [exact W|exact A|exact R].
Qed.

Lemma next_outcome_same h :
  live (snd (next_outcome h)) = live h
  /\ brk (snd (next_outcome h)) = brk h
  /\ faults (snd (next_outcome h)) = faults h.
Proof. unfold next_outcome. destruct (fate h); repeat split. Qed.

Lemma realloc_allocated h0 h o size bs bs' :
  heap_wf h0 -> granted h -> size <> 0 ->
  bs' ≡ₚ option_list o ++ bs -> allocated h0 h bs' ->
  exists q h',
    realloc o size h = (Some q, h') /\ granted h' /\ allocated h0 h' (q :: bs).
Proof.
  intros W G Hs P A. apply (allocated_perm _ _ _ _ P) in A.
  destruct o as [a|]; cbn [realloc option_list] in *.
  - replace (size =? 0) with false by lia.
    destruct (next_outcome_granted h G) as [Ho Hg].
    destruct (next_outcome_same h) as (L & B & F).
    destruct (next_outcome h) as [o h1]. simpl in Ho, Hg, L, B, F.
    assert (A1 : allocated h0 h1 ([a] ++ bs)).
    { destruct A as (N & Bd & La & Fa & Ka & Wa). repeat split; try assumption.
      - rewrite L. exact La.
      - rewrite F. exact Fa.
      - rewrite B. exact Ka.
      - intros x Hx. rewrite B. apply Wa. rewrite <- L. exact Hx. }
    destruct o; [contradiction| |].
    + exists a, (resized a size h1). rewrite bool_decide_eq_true_2
        by (eapply allocated_live; [exact A1|set_solver]).
      split; [reflexivity|]. split; [exact Hg|exact A1].
    + assert (A2 : allocated h1 (snd (fresh size h1)) [fst (fresh size h1)]).
      { pose proof (allocated_wf _ _ _ A1) as W1.
        unfold fresh. simpl. repeat split; simpl.
        - apply NoDup_singleton.
        - intros x Hx. apply list_elem_of_singleton in Hx. subst. lia.
        - set_solver.
        - lia.
        - intros x Hx. cbn [brk]. apply elem_of_union in Hx as [Hx|Hx].
          + apply elem_of_singleton in Hx. subst. lia.
          + specialize (W1 x Hx). lia. }
      pose proof (allocated_trans _ _ _ _ _ A1 A2) as A3.
      destruct (fresh size h1) as [q h2] eqn:Efresh. cbn [fst snd] in *.
      exists q, (free (Some a) h2). split; [reflexivity|].
      apply (allocated_free h0 h2 a (q :: bs) (([a] ++ bs) ++ [q]) W);
        [|solve_Permutation|exact A3].
      unfold fresh in Efresh. inversion Efresh; subst. exact Hg.
  - destruct (malloc_allocated size h (allocated_wf _ _ _ A) G) as (q & h' & E & G' & A').
    exists q, h'. split; [exact E|]. split; [exact G'|].
    eapply allocated_perm; [|eapply allocated_trans; [exact A|exact A']].
    solve_Permutation.
Qed.

Lemma rjson_array_add_allocated h0 h p elements elems e bs :
  heap_wf h0 -> granted h ->
  bs ≡ₚ blocks (V_ARRAY p elements elems) ++ blocks e -> allocated h0 h bs ->
  exists q h',
    rjson_array_add (Some (V_ARRAY p elements elems)) (Some e) h
    = (0, Some (V_ARRAY p (Some q) (elems ++ [e])), h')
    /\ granted h'
    /\ allocated h0 h' (blocks (V_ARRAY p (Some q) (elems ++ [e]))).
Proof.
  intros W G P A. unfold rjson_array_add.
  edestruct (realloc_allocated h0 h elements
               ((Z.of_nat (length elems) + 1) * sizeof_ptr)
               (p :: flat_map blocks elems ++ blocks e) bs W G)
    as (q & h' & -> & G' & A').
  - unfold sizeof_ptr. lia.
  - rewrite P. cbn [blocks]. solve_Permutation.
  - exact A.
  - exists q, h'. split; [reflexivity|]. split; [exact G'|].
    eapply allocated_perm; [|exact A']. cbn [blocks option_list].
    rewrite flat_map_app. simpl. rewrite app_nil_r. solve_Permutation.
Qed.

Lemma rjson_object_add_allocated h0 h p keys values members k v bs fr :
  heap_wf h0 -> granted h ->
  bs ≡ₚ blocks (V_OBJECT p keys values members) ++ blocks v ++ fr ->
  allocated h0 h bs ->
  exists nk q1 q2 h',
    rjson_object_add (Some (V_OBJECT p keys values members)) (Some k) (Some v) h
    = (0, Some (V_OBJECT p (Some q1) (Some q2) (members ++ [(nk, k, v)])), h')
    /\ granted h'
    /\ allocated h0 h'
         (blocks (V_OBJECT p (Some q1) (Some q2) (members ++ [(nk, k, v)])) ++ fr).
Proof.
  intros W G P A. unfold rjson_object_add.
  destruct (malloc_allocated (strlen k + 1) h (allocated_wf _ _ _ A) G)
    as (nk & h1 & -> & G1 & A1).
  pose proof (allocated_trans _ _ _ _ _ A A1) as A1'.
  set (rest := flat_map (fun m : addr * c_string * rjson_value =>
                           fst (fst m) :: blocks (snd m)) members).
  edestruct (realloc_allocated h0 h1 keys
               ((Z.of_nat (length members) + 1) * sizeof_ptr)
               (p :: option_list values ++ rest ++ blocks v ++ [nk] ++ fr)
               (bs ++ [nk]) W G1)
    as (q1 & h2 & -> & G2 & A2); [unfold sizeof_ptr; lia| |exact A1'|].
  { rewrite P. cbn [blocks]. fold rest. solve_Permutation. }
  edestruct (realloc_allocated h0 h2 values
               ((Z.of_nat (length members) + 1) * sizeof_ptr)
               (p :: q1 :: rest ++ blocks v ++ [nk] ++ fr)
               (q1 :: p :: option_list values ++ rest ++ blocks v ++ [nk] ++ fr) W G2)
    as (q2 & h3 & -> & G3 & A3); [unfold sizeof_ptr; lia| |exact A2|].
  { solve_Permutation. }
  exists nk, q1, q2, h3. split; [reflexivity|]. split; [exact G3|].
  eapply allocated_perm; [|exact A3]. cbn [blocks option_list].
  rewrite flat_map_app. fold rest. simpl. rewrite app_nil_r. solve_Permutation.
Qed.

Lemma keeps_none h h' :
  granted h' -> allocated h h' [] -> keeps h (None, h').
Proof. intros G A. split; [exact G|exact A]. Qed.

Lemma keeps_same h : heap_wf h -> granted h -> keeps h (None, h).
Proof. intros W G. apply keeps_none; [exact G|apply allocated_refl, W]. Qed.

Lemma zeroed_blocks type p : blocks (zeroed type p) = [p].
Proof. destruct type; reflexivity. Qed.

(** [parse_string] returns a string with its text in a block of its own. *)
Lemma parse_string_keeps json h :
  heap_wf h -> granted h ->
  keeps h (parse_string json h)
  /\ forall v json', fst (parse_string json h) = Some (v, json') ->
       exists p a d, v = V_STRING p (Some (a, d)).
Proof.
  intros W G. unfold parse_string.
  destruct (scan_string (advance 1 json)) as [j|];
    [|split; [apply keeps_same; assumption|discriminate]].
  destruct (negb _); [split; [apply keeps_same; assumption|discriminate]|].
  unfold unescape_string.
  destruct (malloc_allocated
              (strlen (firstn (length (advance 1 json) - length j) (advance 1 json)) + 1)
              h W G) as (out & h1 & -> & G1 & A1).
  destruct (unescape_loop _ _ []) as [d|].
  - destruct (create_value_allocated RJSON_STRING h1 (allocated_wf _ _ _ A1) G1)
      as (p & h2 & -> & G2 & A2).
    cbn [zeroed fst snd]. split.
    + split; [exact G2|]. cbn [fst snd blocks option_map option_list].
      eapply allocated_perm; [|exact (allocated_trans _ _ _ _ _ A1 A2)].
      solve_Permutation.
    + intros v json' E. inversion E; subst. eauto.
  - split; [|discriminate].
    destruct (allocated_free h h1 out [] [out] W G1 ltac:(reflexivity) A1) as [G2 A2].
    split; assumption.
Qed.

Lemma parse_number_keeps json h :
  heap_wf h -> granted h -> keeps h (parse_number json h).
Proof.
  intros W G. unfold parse_number.
  destruct (scan_number json) as [j|]; [|apply keeps_same; assumption].
  destruct (strtod json) as [[num end_] erange].
  destruct (erange || negb (isfinite num)); [apply keeps_same; assumption|].
  destruct (negb (same_position end_ j)).
  - destruct (malloc_allocated (Z.of_nat (length json - length j) + 1) h W G)
      as (t & h1 & -> & G1 & A1).
    destruct (strtod (firstn (length json - length j) json)) as [[num' end'] er'].
    destruct (allocated_free h h1 t [] [t] W G1 ltac:(reflexivity) A1) as [G2 A2].
    destruct (negb (Ascii.eqb (peek end') NUL)); [split; assumption|].
    destruct (create_value_allocated RJSON_NUMBER _ (allocated_wf _ _ _ A2) G2)
      as (p & h3 & -> & G3 & A3).
    cbn [zeroed]. split; [exact G3|]. cbn [fst snd blocks].
    exact (allocated_trans _ _ _ _ _ A2 A3).
  - destruct (create_value_allocated RJSON_NUMBER h W G) as (p & h3 & -> & G3 & A3).
    cbn [zeroed]. split; [exact G3|exact A3].
Qed.

Lemma parse_literal_keeps json h :
  heap_wf h -> granted h -> keeps h (parse_literal json h).
Proof.
  intros W G. unfold parse_literal.
  destruct (starts_with (lit "true") json).
  { destruct (create_value_allocated RJSON_BOOL h W G) as (p & h3 & -> & G3 & A3).
    cbn [zeroed]. split; [exact G3|exact A3]. }
  destruct (starts_with (lit "false") json).
  { destruct (create_value_allocated RJSON_BOOL h W G) as (p & h3 & -> & G3 & A3).
    cbn [zeroed]. split; [exact G3|exact A3]. }
  destruct (starts_with (lit "null") json); [|apply keeps_same; assumption].
  destruct (create_value_allocated RJSON_NULL h W G) as (p & h3 & -> & G3 & A3).
  cbn [zeroed]. split; [exact G3|exact A3].
Qed.

Section Keeps.

Variable rec : Z -> c_string -> heap -> parsed.

Hypothesis rec_progress :
  forall depth json h v json' h',
    rec depth json h = (Some (v, json'), h') -> (length json' < length json)%nat.

Hypothesis rec_keeps :
  forall depth json h, heap_wf h -> granted h -> keeps h (rec depth json h).

Lemma keeps_released h0 h v :
  heap_wf h0 -> granted h -> allocated h0 h (blocks v) ->
  keeps h0 (None, free_value v h).
Proof.
  intros W G A.
  destruct (allocated_free_value h0 h v [] (blocks v) W G ltac:(reflexivity) A).
  split; assumption.
Qed.

Lemma parse_array_loop_keeps fuel : forall depth p elements elems json h0 h,
  (length json < fuel)%nat -> heap_wf h0 -> granted h ->
  allocated h0 h (blocks (V_ARRAY p elements elems)) ->
  keeps h0 (parse_array_loop rec fuel depth (Some (V_ARRAY p elements elems)) json h).
Proof.
  induction fuel as [|fuel IH]; intros depth p elements elems json h0 h Hf W G A;
    [lia|].
  cbn [parse_array_loop].
  pose proof (rec_keeps (depth + 1) json h (allocated_wf _ _ _ A) G) as [G1 A1].
  destruct (rec (depth + 1) json h) as [[[element json1]|] h1] eqn:Erec;
    cbn [fst snd] in G1, A1.
  - apply rec_progress in Erec.
    destruct (rjson_array_add_allocated h0 h1 p elements elems element _ W G1
                ltac:(reflexivity) (allocated_trans _ _ _ _ _ A A1))
      as (q & h2 & -> & G2 & A2).
    change (negb (0 =? 0)) with false. cbv iota.
    destruct (Ascii.eqb (peek (skip_whitespace json1)) "]").
    { split; [exact G2|exact A2]. }
    destruct (negb (Ascii.eqb (peek (skip_whitespace json1)) ",")) eqn:Ecomma.
    { apply keeps_released; assumption. }
    apply negb_false_iff in Ecomma.
    pose proof (after_separator json1 "," Ecomma ltac:(discriminate)).
    apply IH; [lia|assumption..].
  - apply keeps_released; [exact W|exact G1|].
    eapply allocated_perm; [|exact (allocated_trans _ _ _ _ _ A A1)].
    rewrite app_nil_r. reflexivity.
Qed.

Lemma parse_array_keeps json depth h :
  heap_wf h -> granted h -> keeps h (parse_array rec json depth h).
Proof.
  intros W G. unfold parse_array.
  destruct (depth >=? RJSON_MAX_DEPTH); [apply keeps_same; assumption|].
  unfold rjson_array_new.
  destruct (create_value_allocated RJSON_ARRAY h W G) as (p & h1 & -> & G1 & A1).
  cbn [zeroed].
  destruct (Ascii.eqb (peek (skip_whitespace (advance 1 json))) "]").
  { split; [exact G1|exact A1]. }
  apply parse_array_loop_keeps; [lia|assumption..].
Qed.

Lemma parse_object_loop_keeps fuel : forall depth p keys values members json h0 h,
  (length json < fuel)%nat -> heap_wf h0 -> granted h ->
  allocated h0 h (blocks (V_OBJECT p keys values members)) ->
  keeps h0 (parse_object_loop rec fuel depth
              (Some (V_OBJECT p keys values members)) json h).
Proof.
  induction fuel as [|fuel IH];
    intros depth p keys values members json h0 h Hf W G A; [lia|].
  cbn [parse_object_loop].
  pose proof (skip_whitespace_length json) as Hs0.
  destruct (negb (Ascii.eqb (peek (skip_whitespace json)) "034")).
  { apply keeps_released; assumption. }
  destruct (parse_string_keeps (skip_whitespace json) h (allocated_wf _ _ _ A) G)
    as [[G1 A1] Hform].
  destruct (parse_string (skip_whitespace json) h) as [[[key_val json1]|] h1] eqn:Ekey;
    cbn [fst snd] in G1, A1.
  2:{ apply keeps_released; [exact W|exact G1|].
      eapply allocated_perm; [|exact (allocated_trans _ _ _ _ _ A A1)].
      rewrite app_nil_r. reflexivity. }
  destruct (Hform key_val json1 eq_refl) as (pk & ak & key & ->).
  apply parse_string_progress in Ekey.
  pose proof (allocated_trans _ _ _ _ _ A A1) as A1'.
  assert (Hfail1 : forall h2 bs,
             granted h2 ->
             bs ≡ₚ blocks (V_OBJECT p keys values members)
                    ++ blocks (V_STRING pk (Some (ak, key))) ->
             allocated h0 h2 bs ->
             keeps h0 (None, rjson_free (Some (V_OBJECT p keys values members))
                               (rjson_free (Some (V_STRING pk (Some (ak, key)))) h2))).
  { intros h2 bs G2 P2 A2. unfold rjson_free.
    destruct (allocated_free_value h0 h2 (V_STRING pk (Some (ak, key)))
                (blocks (V_OBJECT p keys values members)) bs W G2 P2 A2) as [G3 A3].
    apply keeps_released; assumption. }
  destruct (negb (Ascii.eqb (peek (skip_whitespace json1)) ":")) eqn:Ecolon.
  { eapply Hfail1; [exact G1| |exact A1']. reflexivity. }
  apply negb_false_iff in Ecolon.
  pose proof (after_separator json1 ":" Ecolon ltac:(discriminate)) as Hc.
  pose proof (rec_keeps (depth + 1) (advance 1 (skip_whitespace json1)) h1
                (allocated_wf _ _ _ A1) G1) as [G2 A2].
  destruct (rec (depth + 1) (advance 1 (skip_whitespace json1)) h1)
    as [[[val json2]|] h2] eqn:Erec; cbn [fst snd] in G2, A2.
  2:{ eapply Hfail1; [exact G2| |exact (allocated_trans _ _ _ _ _ A1' A2)].
      rewrite app_nil_r. reflexivity. }
  apply rec_progress in Erec.
  cbn [option_map snd].
  assert (A2' : allocated h0 h2
                  (blocks (V_OBJECT p keys values members) ++ blocks val ++ [pk; ak])).
  { eapply allocated_perm; [|exact (allocated_trans _ _ _ _ _ A1' A2)].
    cbn [blocks option_map option_list fst]. solve_Permutation. }
  destruct (rjson_object_add_allocated h0 h2 p keys values members key val
              _ [pk; ak] W G2 (reflexivity _) A2')
    as (nk & q1 & q2 & h3 & -> & G3 & A3).
  change (negb (0 =? 0)) with false. cbv iota. cbn [option_map fst].
  set (obj' := V_OBJECT p (Some q1) (Some q2) (members ++ [(nk, key, val)])) in *.
  edestruct (allocated_free h0 h3 ak (blocks obj' ++ [pk])) as [G4 A4];
    [exact W|exact G3| |exact A3|]; [solve_Permutation|].
  edestruct (allocated_free h0 (free (Some ak) h3) pk (blocks obj')) as [G5 A5];
    [exact W|exact G4| |exact A4|]; [reflexivity|].
  match goal with
  | |- context [Ascii.eqb (peek (skip_whitespace json2)) "}"] =>
      destruct (Ascii.eqb (peek (skip_whitespace json2)) "}")
  end.
  { split; [exact G5|exact A5]. }
  destruct (negb (Ascii.eqb (peek (skip_whitespace json2)) ",")) eqn:Ecomma.
  { apply keeps_released; assumption. }
  apply negb_false_iff in Ecomma.
  pose proof (after_separator json2 "," Ecomma ltac:(discriminate)).
  apply IH; [lia|assumption..].
Qed.

Lemma parse_object_keeps json depth h :
  heap_wf h -> granted h -> keeps h (parse_object rec json depth h).
Proof.
  intros W G. unfold parse_object.
  destruct (depth >=? RJSON_MAX_DEPTH); [apply keeps_same; assumption|].
  unfold rjson_object_new.
  destruct (create_value_allocated RJSON_OBJECT h W G) as (p & h1 & -> & G1 & A1).
  cbn [zeroed].
  destruct (Ascii.eqb (peek (skip_whitespace (advance 1 json))) "}").
  { split; [exact G1|exact A1]. }
  apply parse_object_loop_keeps; [lia|assumption..].
Qed.

Lemma parse_value_body_keeps json depth h :
  heap_wf h -> granted h -> keeps h (parse_value_body rec json depth h).
Proof.
  intros W G. unfold parse_value_body.
  pose proof (proj1 (parse_string_keeps (skip_whitespace json) h W G)) as Hstr.
  pose proof (parse_number_keeps (skip_whitespace json) h W G) as Hnum.
  pose proof (parse_literal_keeps (skip_whitespace json) h W G) as Hlit.
  pose proof (parse_array_keeps (skip_whitespace json) depth h W G) as Harr.
  pose proof (parse_object_keeps (skip_whitespace json) depth h W G) as Hobj.
  pose proof (keeps_same h W G) as Hnone.
  destruct (peek (skip_whitespace json)) as [[] [] [] [] [] [] [] []];
    cbv iota; try assumption;
    match goal with
    | |- keeps _ (if ?c then _ else _) => destruct c; assumption
    end.
Qed.

End Keeps.

Lemma parse_value_at_keeps levels : forall depth json h,
  heap_wf h -> granted h -> keeps h (parse_value_at levels depth json h).
Proof.
  induction levels as [|levels IH]; intros depth json h W G.
  - apply keeps_same; assumption.
  - cbn [parse_value_at]. apply parse_value_body_keeps; try assumption.
    intros d j h1 v j' h1'. apply parse_value_at_progress.
Qed.

(** ** Ownership under any allocator *)

Lemma fresh_allocated size h :
  heap_wf h -> allocated h (snd (fresh size h)) [fst (fresh size h)].
Proof.
  intros W. unfold fresh. simpl. repeat split; simpl.
  - apply NoDup_singleton.
  - intros x Hx. apply list_elem_of_singleton in Hx. subst. lia.
  - set_solver.
  - lia.
  - intros x Hx. cbn [brk]. apply elem_of_union in Hx as [Hx|Hx].
    + apply elem_of_singleton in Hx. subst. lia.
    + specialize (W x Hx). lia.
Qed.

Lemma next_outcome_allocated h0 h bs :
  allocated h0 h bs -> allocated h0 (snd (next_outcome h)) bs.
Proof.
  intros (N & Bd & La & Fa & Ka & Wa).
  destruct (next_outcome_same h) as (L & B & F).
  repeat split; try assumption.
  - rewrite L. exact La.
  - rewrite F. exact Fa.
  - rewrite B. exact Ka.
  - intros x Hx. rewrite B. apply Wa. rewrite <- L. exact Hx.
Qed.

Lemma malloc_any size h :
  heap_wf h ->
  allocated h (snd (malloc size h)) (option_list (fst (malloc size h))).
Proof.
  intros W. unfold malloc.
  pose proof (next_outcome_allocated h h [] (allocated_refl h W)) as A.
  destruct (next_outcome h) as [o h1]. cbn [snd] in A.
  pose proof (allocated_trans _ _ _ _ _ A (fresh_allocated size h1 (allocated_wf _ _ _ A)))
    as A'.
  destruct o; [exact A| |]; destruct (fresh size h1); exact A'.
Qed.

Lemma free_any h0 h a bs bs' :
  heap_wf h0 -> bs' ≡ₚ bs ++ [a] -> allocated h0 h bs' ->
  allocated h0 (free (Some a) h) bs.
Proof.
  intros W P A. apply (allocated_perm _ _ _ _ P) in A.
  eapply allocated_released; [exact W|exact A|].
  apply released_free. eapply allocated_live; [exact A|]. set_solver.
Qed.

Lemma realloc_any h0 h o size bs bs' :
  heap_wf h0 -> size <> 0 ->
  bs' ≡ₚ option_list o ++ bs -> allocated h0 h bs' ->
  allocated h0 (snd (realloc o size h))
    match fst (realloc o size h) with
    | Some q => q :: bs
    | None => option_list o ++ bs
    end.
Proof.
  intros W Hs P A. apply (allocated_perm _ _ _ _ P) in A.
  destruct o as [a|]; cbn [realloc option_list] in *.
  - replace (size =? 0) with false by lia.
    pose proof (next_outcome_allocated _ _ _ A) as A1.
    destruct (next_outcome h) as [o h1]. cbn [snd] in A1.
    destruct o; cbn [fst snd].
    + exact A1.
    + rewrite bool_decide_eq_true_2
        by (eapply allocated_live; [exact A1|set_solver]).
      exact A1.
    + pose proof (allocated_trans _ _ _ _ _ A1
                    (fresh_allocated size h1 (allocated_wf _ _ _ A1))) as A3.
      destruct (fresh size h1) as [q h2]. cbn [fst snd] in *.
      apply (free_any h0 h2 a (q :: bs) (([a] ++ bs) ++ [q]) W);
        [solve_Permutation|exact A3].
  - pose proof (malloc_any size h (allocated_wf _ _ _ A)) as A'.
    pose proof (allocated_trans _ _ _ _ _ A A') as A2.
    destruct (malloc size h) as [[q|] h']; cbn [fst snd option_list] in *.
    + eapply allocated_perm; [|exact A2]. solve_Permutation.
    + rewrite app_nil_r in A2. exact A2.
Qed.

Lemma free_value_any h0 h v bs bs' :
  heap_wf h0 -> bs' ≡ₚ bs ++ blocks v -> allocated h0 h bs' ->
  allocated h0 (free_value v h) bs.
Proof.
  intros W P A. apply (allocated_perm _ _ _ _ P) in A.
  eapply allocated_released; [exact W|exact A|].
  apply free_value_released.
  - destruct A as (N & _). apply NoDup_app in N as (_ & _ & N). exact N.
  - intros a Ha. eapply allocated_live; [exact A|]. set_solver.
Qed.

Lemma allocated_nil_live h h' : allocated h h' [] -> live h' = live h.
Proof. intros (_ & _ & L & _). rewrite L. simpl. set_solver. Qed.

Lemma allocated_faults h h' bs : allocated h h' bs -> faults h' = faults h.
Proof. intros (_ & _ & _ & F & _). exact F. Qed.

Lemma rjson_parse_keeps d h :
  heap_wf h -> granted h ->
  granted (snd (rjson_parse d h))
  /\ allocated h (snd (rjson_parse d h))
       match fst (rjson_parse d h) with
       | Some t => blocks t
       | None => []
       end.
Proof.
  intros W G. unfold rjson_parse. destruct d as [bytes|].
  2:{ split; [exact G|apply allocated_refl, W]. }
  unfold parse_value.
  match goal with
  | |- context [parse_value_at ?l ?d ?j h] =>
      pose proof (parse_value_at_keeps l d j h W G) as [G1 A1];
      destruct (parse_value_at l d j h) as [[[result pos]|] h1]
  end; cbn [fst snd] in *.
  - destruct (negb (Ascii.eqb (peek (skip_whitespace pos)) NUL)); cbn [fst snd].
    + unfold rjson_free.
      destruct (allocated_free_value h h1 result [] (blocks result) W G1
                  (reflexivity _) A1).
      split; assumption.
    + split; assumption.
  - split; assumption.
Qed.

(** X1. [rjson_free] on a tree whose blocks are distinct and live releases
    exactly these blocks, each of them once: no other block is touched and
    no invalid release is made. [rjson_free(NULL)] does nothing. *)
Theorem rjson_free_releases_the_tree :
  (forall v h,
      NoDup (blocks v) -> (forall a, a ∈ blocks v -> a ∈ live h) ->
      live (rjson_free (Some v) h) = live h ∖ list_to_set (blocks v)
      /\ faults (rjson_free (Some v) h) = faults h)
  /\ (forall h, rjson_free None h = h).
Proof.
  split; [|reflexivity]. intros v h N L.
  destruct (free_value_released v h N L) as (Hl & Hf & _). split; assumption.
Qed.

Lemma rjson_free_releases_the_tree_witness :
  live (rjson_free (Some sample_tree) sample_heap)
  = live sample_heap ∖ list_to_set (blocks sample_tree)
  /\ faults (rjson_free (Some sample_tree) sample_heap) = faults sample_heap.
Proof.
  apply (proj1 rjson_free_releases_the_tree).
  - vm_compute. repeat (constructor; [set_solver|]). constructor.
  - intros a Ha. vm_compute in Ha. vm_compute. set_solver.
Defined.

(** X2. When no allocation is refused, the tree that [rjson_parse] returns
    holds blocks that are distinct, new and live, and they are all that the
    call leaves allocated; [rjson_free] on the tree then brings the heap
    back to the blocks that were live before the call, without an invalid
    release. *)
Theorem rjson_parse_owns_its_tree d h t h' :
  heap_wf h -> granted h -> rjson_parse d h = (Some t, h') ->
  NoDup (blocks t)
  /\ (forall a, a ∈ blocks t -> a ∉ live h)
  /\ live h' = live h ∪ list_to_set (blocks t)
  /\ faults h' = faults h
  /\ live (rjson_free (Some t) h') = live h
  /\ faults (rjson_free (Some t) h') = faults h.
Proof.
  intros W G E. destruct (rjson_parse_keeps d h W G) as [G1 A1].
  rewrite E in G1, A1. cbn [fst snd] in G1, A1.
  pose proof (fun a => allocated_fresh _ _ _ a W A1) as Hfresh.
  pose proof (free_value_any h h' t [] (blocks t) W (reflexivity _) A1) as A2.
  destruct A1 as (N & B & L & F & K & W1).
  repeat split; try assumption.
  - exact (allocated_nil_live _ _ A2).
  - exact (allocated_faults _ _ _ A2).
Qed.

Lemma rjson_parse_owns_its_tree_witness :
  exists t h',
    rjson_parse (Some (quoted "{'k':[1,'a'],'k':null}")) (heap_init []) = (Some t, h')
    /\ live h' = live (heap_init []) ∪ list_to_set (blocks t)
    /\ live (rjson_free (Some t) h') = live (heap_init []).
Proof.
  eexists _, _. split; [vm_compute; reflexivity|].
  match goal with
  | |- live ?h' = _ ∪ list_to_set (blocks ?t) /\ _ =>
      destruct (rjson_parse_owns_its_tree
                  (Some (quoted "{'k':[1,'a'],'k':null}")) (heap_init []) t h')
        as (_ & _ & L & _ & L' & _)
  end.
  - intros a Ha. vm_compute in Ha. set_solver.
  - constructor.
  - vm_compute. reflexivity.
  - split; assumption.
Defined.

(** X3. When no allocation is refused and [rjson_parse] rejects its input,
    every block it allocated on the way has been released, once: the live
    blocks are those from before the call and no invalid release is
    logged. *)
Theorem rjson_parse_rejected_leaves_nothing d h h' :
  heap_wf h -> granted h -> rjson_parse d h = (None, h') ->
  live h' = live h /\ faults h' = faults h.
Proof.
  intros W G E. destruct (rjson_parse_keeps d h W G) as [G1 A1].
  rewrite E in A1. cbn [fst snd] in A1.
  split; [exact (allocated_nil_live _ _ A1)|exact (allocated_faults _ _ _ A1)].
Qed.

Lemma rjson_parse_rejected_leaves_nothing_witness :
  exists h',
    rjson_parse (Some (quoted "{'k':[1,'a'],'k':nul}")) (heap_init []) = (None, h')
    /\ live h' = live (heap_init []) /\ faults h' = faults (heap_init []).
Proof.
  eexists. split; [vm_compute; reflexivity|].
  apply (rjson_parse_rejected_leaves_nothing
           (Some (quoted "{'k':[1,'a'],'k':nul}")) (heap_init [])).
  - intros a Ha. vm_compute in Ha. set_solver.
  - constructor.
  - vm_compute. reflexivity.
Defined.

(** X4. Each constructor either returns NULL and leaves the live blocks as
    they were, or returns a node that holds exactly the blocks it allocated
    and the payload it was given: [rjson_bool_new] stores 0 or 1,
    [rjson_string_new] stores a copy of the text in a block of its own, and
    releases the node again when the copy cannot be allocated. *)
Theorem constructors_build_owned_nodes h :
  heap_wf h ->
  built h (rjson_null_new h) J_NULL
  /\ (forall bool_val,
         built h (rjson_bool_new bool_val h) (J_BOOL (if bool_val =? 0 then 0 else 1)))
  /\ (forall num_val, built h (rjson_number_new num_val h) (J_NUMBER num_val))
  /\ (forall str_val,
         built h (rjson_string_new str_val h) (J_STRING (Some str_val)))
  /\ built h (rjson_array_new h) (J_ARRAY [])
  /\ built h (rjson_object_new h) (J_OBJECT []).
Proof.
  intros W.
  assert (Hcreate : forall type,
             match fst (create_value type h) with
             | None => allocated h (snd (create_value type h)) []
             | Some v => exists p, v = zeroed type p
                                   /\ allocated h (snd (create_value type h)) [p]
             end).
  { intros type. unfold create_value, calloc.
    pose proof (malloc_any (1 * sizeof_rjson_value) h W) as A.
    destruct (malloc (1 * sizeof_rjson_value) h) as [[p|] h1]; cbn [fst snd] in *.
    - exists p. split; [reflexivity|exact A].
    - exact A. }
  assert (Hnone : forall h', allocated h h' [] ->
                             live h' = live h /\ faults h' = faults h).
  { intros h' A. split; [exact (allocated_nil_live _ _ A)|exact (allocated_faults _ _ _ A)]. }
  unfold built, rjson_null_new, rjson_bool_new, rjson_number_new, rjson_string_new,
    rjson_array_new, rjson_object_new.
  repeat split.
  - specialize (Hcreate RJSON_NULL).
    destruct (create_value RJSON_NULL h) as [[v|] h1]; cbn [fst snd] in *.
    + destruct Hcreate as (p & -> & A). split; [reflexivity|exact A].
    + apply Hnone, Hcreate.
  - intros bool_val. specialize (Hcreate RJSON_BOOL).
    destruct (create_value RJSON_BOOL h) as [[v|] h1]; cbn [fst snd] in *.
    + destruct Hcreate as (p & -> & A). split; [reflexivity|exact A].
    + apply Hnone, Hcreate.
  - intros num_val. specialize (Hcreate RJSON_NUMBER).
    destruct (create_value RJSON_NUMBER h) as [[v|] h1]; cbn [fst snd] in *.
    + destruct Hcreate as (p & -> & A). split; [reflexivity|exact A].
    + apply Hnone, Hcreate.
  - intros str_val. specialize (Hcreate RJSON_STRING).
    destruct (create_value RJSON_STRING h) as [[v|] h1]; cbn [fst snd] in *.
    + destruct Hcreate as (p & -> & A). cbn [zeroed].
      pose proof (malloc_any (strlen str_val + 1) h1 (allocated_wf _ _ _ A)) as A'.
      pose proof (allocated_trans _ _ _ _ _ A A') as A2.
      destruct (malloc (strlen str_val + 1) h1) as [[s|] h2];
        cbn [fst snd option_list] in *.
      * split; [reflexivity|exact A2].
      * apply Hnone. exact (free_any h h2 p [] _ W (reflexivity _) A2).
    + apply Hnone, Hcreate.
  - specialize (Hcreate RJSON_ARRAY).
    destruct (create_value RJSON_ARRAY h) as [[v|] h1]; cbn [fst snd] in *.
    + destruct Hcreate as (p & -> & A). split; [reflexivity|exact A].
    + apply Hnone, Hcreate.
  - specialize (Hcreate RJSON_OBJECT).
    destruct (create_value RJSON_OBJECT h) as [[v|] h1]; cbn [fst snd] in *.
    + destruct Hcreate as (p & -> & A). split; [reflexivity|exact A].
    + apply Hnone, Hcreate.
Qed.

Lemma constructors_build_owned_nodes_witness :
  built (heap_init [Stay; Fail]) (rjson_string_new (lit "abc") (heap_init [Stay; Fail]))
    (J_STRING (Some (lit "abc"))).
Proof.
  apply (constructors_build_owned_nodes (heap_init [Stay; Fail])).
  intros a Ha. vm_compute in Ha. set_solver.
Defined.

(** X5. [rjson_array_add] on an array and an element that hold distinct
    live blocks, whatever the allocator does: it fails and leaves the array,
    the element and the live blocks as they were, or it succeeds and the
    array holds the earlier elements followed by the new one, and all the
    blocks of both (the block of pointers possibly moved). *)
Theorem rjson_array_add_takes_the_element h0 h p elements elems e ret array' h' :
  heap_wf h0 ->
  allocated h0 h (blocks (V_ARRAY p elements elems) ++ blocks e) ->
  rjson_array_add (Some (V_ARRAY p elements elems)) (Some e) h = (ret, array', h') ->
  (ret = -1 /\ array' = Some (V_ARRAY p elements elems)
   /\ allocated h0 h' (blocks (V_ARRAY p elements elems) ++ blocks e))
  \/ (exists q,
         ret = 0 /\ array' = Some (V_ARRAY p (Some q) (elems ++ [e]))
         /\ allocated h0 h' (blocks (V_ARRAY p (Some q) (elems ++ [e])))).
Proof.
  intros W A. unfold rjson_array_add.
  assert (Hsize : (Z.of_nat (length elems) + 1) * sizeof_ptr <> 0)
    by (unfold sizeof_ptr; lia).
  assert (P : blocks (V_ARRAY p elements elems) ++ blocks e
              ≡ₚ option_list elements ++ p :: flat_map blocks elems ++ blocks e)
    by (cbn [blocks]; solve_Permutation).
  pose proof (realloc_any h0 h elements ((Z.of_nat (length elems) + 1) * sizeof_ptr)
                (p :: flat_map blocks elems ++ blocks e) _ W Hsize P A) as A'.
  destruct (realloc elements _ h) as [[q|] h1]; cbn [fst snd] in A';
    intros E; inversion E; subst.
  - right. exists q. split; [reflexivity|]. split; [reflexivity|].
    eapply allocated_perm; [|exact A']. cbn [blocks option_list].
    rewrite flat_map_app. simpl. rewrite app_nil_r. solve_Permutation.
  - left. split; [reflexivity|]. split; [reflexivity|].
    eapply allocated_perm; [|exact A']. cbn [blocks]. solve_Permutation.
Qed.

Lemma rjson_array_add_takes_the_element_witness :
  exists q,
    rjson_array_add (Some sample_tree) (Some (V_NULL 6%positive)) sample_heap
    = (0, Some (V_ARRAY 1%positive (Some q)
                  [V_STRING 3%positive (Some (4%positive, lit "a")); V_NULL 5%positive;
                   V_NULL 6%positive]),
       snd (rjson_array_add (Some sample_tree) (Some (V_NULL 6%positive)) sample_heap))
    /\ allocated (heap_init [])
         (snd (rjson_array_add (Some sample_tree) (Some (V_NULL 6%positive)) sample_heap))
         [1; q; 3; 4; 5; 6]%positive.
Proof.
  destruct (rjson_array_add_takes_the_element (heap_init []) sample_heap
              1%positive (Some 2%positive)
              [V_STRING 3%positive (Some (4%positive, lit "a")); V_NULL 5%positive]
              (V_NULL 6%positive) 0
              (Some (V_ARRAY 1%positive (Some 2%positive)
                       [V_STRING 3%positive (Some (4%positive, lit "a"));
                        V_NULL 5%positive; V_NULL 6%positive]))
              (snd (rjson_array_add (Some sample_tree) (Some (V_NULL 6%positive))
                      sample_heap)))
    as [(Hret & _)|(q & _ & Harr & A)].
  - intros a Ha. vm_compute in Ha. set_solver.
  - repeat split.
    + vm_compute. repeat (constructor; [set_solver|]). constructor.
    + intros a Ha. vm_compute. destruct a; discriminate.
    + vm_compute. discriminate.
    + intros a Ha. unfold sample_heap in Ha. cbn [live] in Ha.
      apply elem_of_list_to_set in Ha.
      repeat (apply elem_of_cons in Ha as [->|Ha]; [reflexivity|]).
      inversion Ha.
  - vm_compute. reflexivity.
  - discriminate Hret.
  - exists q. split; [|exact A]. inversion Harr; subst. vm_compute. reflexivity.
Defined.

Lemma malloc_refused size h f :
  fate h = Fail :: f -> fst (malloc size h) = None.
Proof. intros E. unfold malloc, next_outcome. rewrite E. reflexivity. Qed.

Lemma malloc_answer size h o f :
  fate h = o :: f -> o <> Fail ->
  exists a, fst (malloc size h) = Some a /\ fate (snd (malloc size h)) = f.
Proof.
  intros E Ho. unfold malloc, next_outcome. rewrite E.
  destruct o; [contradiction| |]; eexists; split; reflexivity.
Qed.

Lemma realloc_refused o size h f :
  fate h = Fail :: f -> size <> 0 -> fst (realloc o size h) = None.
Proof.
  intros E Hs. destruct o as [a|]; cbn [realloc].
  - replace (size =? 0) with false by lia. unfold next_outcome. rewrite E. reflexivity.
  - apply (malloc_refused size h f E).
Qed.

(** X6. [rjson_object_add] on an object and a value that hold distinct live
    blocks. When it succeeds the object holds the earlier members followed
    by the new one, whose key is a copy of the caller's text in a new block,
    and all the blocks of the object and of the value. When the allocator
    refuses the copy of the key, or the growth of [keys], the call fails and
    the object and the live blocks are as they were. *)
Theorem rjson_object_add_copies_the_key h0 h p keys values members k v :
  heap_wf h0 ->
  allocated h0 h (blocks (V_OBJECT p keys values members) ++ blocks v) ->
  (forall object' h',
      rjson_object_add (Some (V_OBJECT p keys values members)) (Some k) (Some v) h
      = (0, object', h') ->
      exists nk q1 q2,
        object' = Some (V_OBJECT p (Some q1) (Some q2) (members ++ [(nk, k, v)]))
        /\ allocated h0 h'
             (blocks (V_OBJECT p (Some q1) (Some q2) (members ++ [(nk, k, v)]))))
  /\ (forall o f,
         fate h = Fail :: f \/ (fate h = o :: Fail :: f /\ o <> Fail) ->
         exists h',
           rjson_object_add (Some (V_OBJECT p keys values members)) (Some k) (Some v) h
           = (-1, Some (V_OBJECT p keys values members), h')
           /\ allocated h0 h' (blocks (V_OBJECT p keys values members) ++ blocks v)).
Proof.
  intros W A.
  assert (Hsize : (Z.of_nat (length members) + 1) * sizeof_ptr <> 0)
    by (unfold sizeof_ptr; lia).
  set (rest := flat_map (fun m : addr * c_string * rjson_value =>
                           fst (fst m) :: blocks (snd m)) members).
  pose proof (malloc_any (strlen k + 1) h (allocated_wf _ _ _ A)) as A1.
  pose proof (allocated_trans _ _ _ _ _ A A1) as A1'. clear A1.
  split.
  - intros object' h'. unfold rjson_object_add.
    destruct (malloc (strlen k + 1) h) as [[nk|] h1]; [|discriminate].
    cbn [fst snd option_list] in A1'.
    assert (P1 : (blocks (V_OBJECT p keys values members) ++ blocks v) ++ [nk]
                 ≡ₚ option_list keys
                    ++ p :: option_list values ++ rest ++ blocks v ++ [nk])
      by (cbn [blocks]; fold rest; solve_Permutation).
    pose proof (realloc_any h0 h1 keys _ _ _ W Hsize P1 A1') as A2.
    destruct (realloc keys _ h1) as [[q1|] h2]; [|discriminate].
    cbn [fst snd] in A2.
    assert (P2 : q1 :: p :: option_list values ++ rest ++ blocks v ++ [nk]
                 ≡ₚ option_list values ++ p :: q1 :: rest ++ blocks v ++ [nk])
      by solve_Permutation.
    pose proof (realloc_any h0 h2 values _ _ _ W Hsize P2 A2) as A3.
    destruct (realloc values _ h2) as [[q2|] h3].
    2:{ destruct (realloc (Some q1) _ h3). discriminate. }
    cbn [fst snd] in A3. intros E. inversion E; subst.
    exists nk, q1, q2. split; [reflexivity|].
    eapply allocated_perm; [|exact A3]. cbn [blocks option_list].
    rewrite flat_map_app. fold rest. simpl. rewrite app_nil_r. solve_Permutation.
  - intros o f Hfate. unfold rjson_object_add.
    destruct Hfate as [Hf|[Hf Ho]].
    + pose proof (malloc_refused (strlen k + 1) h f Hf) as Hm.
      destruct (malloc (strlen k + 1) h) as [[nk|] h1]; [discriminate Hm|].
      cbn [fst snd option_list] in A1'. rewrite app_nil_r in A1'.
      exists h1. split; [reflexivity|exact A1'].
    + destruct (malloc_answer (strlen k + 1) h o (Fail :: f) Hf Ho) as (nk & Hm & Hf1).
      destruct (malloc (strlen k + 1) h) as [[nk'|] h1]; [|discriminate Hm].
      cbn [fst snd option_list] in *.
      assert (P1 : (blocks (V_OBJECT p keys values members) ++ blocks v) ++ [nk']
                   ≡ₚ option_list keys
                      ++ p :: option_list values ++ rest ++ blocks v ++ [nk'])
        by (cbn [blocks]; fold rest; solve_Permutation).
      pose proof (realloc_any h0 h1 keys _ _ _ W Hsize P1 A1') as A2.
      pose proof (realloc_refused keys _ h1 f Hf1 Hsize) as Hr.
      destruct (realloc keys _ h1) as [[q1|] h2]; [discriminate Hr|].
      cbn [fst snd] in A2. eexists. split; [reflexivity|].
      apply (free_any h0 h2 nk' _ _ W (symmetry P1) A2).
Qed.

Ltac heap_wf_known :=
  let a := fresh "a" in
  let Ha := fresh "Ha" in
  intros a Ha; cbn [live] in Ha;
  first [ apply elem_of_list_to_set in Ha;
          repeat (apply elem_of_cons in Ha as [->|Ha]; [reflexivity|]);
          inversion Ha
        | vm_compute in Ha; set_solver ].

Ltac allocated_known :=
  repeat split;
  [ vm_compute; repeat (constructor; [set_solver|]); constructor
  | let a := fresh "a" in let Ha := fresh "Ha" in
    intros a Ha; vm_compute; destruct a; discriminate
  | vm_compute; discriminate
  | heap_wf_known ].

Lemma rjson_object_add_copies_the_key_witness :
  exists nk q1 q2 h',
    rjson_object_add (Some (V_OBJECT 7%positive None None [])) (Some (lit "k"))
      (Some sample_tree)
      (Heap (list_to_set [1; 2; 3; 4; 5; 7]%positive) 8%positive [Stay; Move] []
         (<[ 7%positive := 32 ]> sample_sizes))
    = (0, Some (V_OBJECT 7%positive (Some q1) (Some q2) [(nk, lit "k", sample_tree)]), h')
    /\ allocated (heap_init []) h'
         (blocks (V_OBJECT 7%positive (Some q1) (Some q2) [(nk, lit "k", sample_tree)])).
Proof.
  eexists _, _, _, _. split; [vm_compute; reflexivity|].
  edestruct (proj1 (rjson_object_add_copies_the_key (heap_init [])
                      (Heap (list_to_set [1; 2; 3; 4; 5; 7]%positive) 8%positive
                         [Stay; Move] [] (<[ 7%positive := 32 ]> sample_sizes))
                      7%positive None None [] (lit "k") sample_tree
                      ltac:(heap_wf_known) ltac:(unfold sample_tree; allocated_known)))
    as (nk & q1 & q2 & E & A); [vm_compute; reflexivity|].
  inversion E; subst. exact A.
Defined.

(** ** What every step of the encoder keeps

    The encoder changes its buffer and the heap through [strbuf_append]
    only: what [strbuf_append] keeps, whatever it returns, the whole encoder
    keeps. *)

Section Appends.

Variable Inv : strbuf -> heap -> Prop.

Hypothesis append_inv :
  forall sb data len h ret sb' h',
    Inv sb h -> strbuf_append sb data len h = (ret, sb', h') -> Inv sb' h'.

Lemma chunk_append_inv chunk sb h ret sb' h' :
  Inv sb h ->
  match chunk with
  | [] => (0, sb, h)
  | _ => strbuf_append sb chunk (strlen chunk) h
  end = (ret, sb', h') ->
  Inv sb' h'.
Proof.
  intros Hb H. destruct chunk.
  - injection H as <- <- <-. exact Hb.
  - eapply append_inv; eassumption.
Qed.

Lemma escape_loop_inv p : forall chunk sb h ret sb' h',
  Inv sb h -> escape_loop p chunk sb h = (ret, sb', h') -> Inv sb' h'.
Proof.
  induction p as [|c p IH]; intros chunk sb h ret sb' h' Hb H; cbn [escape_loop] in H.
  - destruct (match chunk with
              | [] => (0, sb, h)
              | _ :: _ => strbuf_append sb chunk (strlen chunk) h
              end) as [[r1 sb1] h1] eqn:E1.
    apply chunk_append_inv in E1; [|exact Hb].
    destruct (negb _); [injection H as <- <- <-; exact E1|].
    destruct (strbuf_append sb1 _ 1 h1) as [[r2 sb2] h2] eqn:E2.
    injection H as <- <- <-. eapply append_inv; eassumption.
  - destruct (replacement c) as [[r len]|]; [|eapply IH; eassumption].
    destruct (match chunk with
              | [] => (0, sb, h)
              | _ :: _ => strbuf_append sb chunk (strlen chunk) h
              end) as [[r1 sb1] h1] eqn:E1.
    apply chunk_append_inv in E1; [|exact Hb].
    destruct (negb _); [injection H as <- <- <-; exact E1|].
    destruct (strbuf_append sb1 r len h1) as [[r2 sb2] h2] eqn:E2.
    apply append_inv in E2; [|exact E1].
    destruct (negb _); [injection H as <- <- <-; exact E2|].
    eapply IH; eassumption.
Qed.

Lemma escape_string_inv in_ sb h ret sb' h' :
  Inv sb h -> escape_string in_ sb h = (ret, sb', h') -> Inv sb' h'.
Proof.
  unfold escape_string. intros Hb H.
  destruct (strbuf_append sb _ 1 h) as [[r1 sb1] h1] eqn:E1.
  apply append_inv in E1; [|exact Hb].
  eapply escape_loop_inv; eassumption.
Qed.

Lemma serialize_number_inv num sb h ret sb' h' :
  Inv sb h -> serialize_number num sb h = (ret, sb', h') -> Inv sb' h'.
Proof.
  unfold serialize_number. intros Hb H.
  destruct (negb _); [injection H as <- <- <-; exact Hb|].
  destruct (snprintf_g17 64 num) as [len num_buf].
  destruct (_ || _); [injection H as <- <- <-; exact Hb|].
  eapply append_inv; eassumption.
Qed.

Section Inv_elements.

Variable ser : rjson_value -> strbuf -> heap -> Z * strbuf * heap.

Lemma comma_inv (first : bool) sb h ret sb' h' :
  Inv sb h ->
  (if first then (0, sb, h) else strbuf_append sb [","] 1 h) = (ret, sb', h') ->
  Inv sb' h'.
Proof.
  intros Hb H. destruct first.
  - injection H as <- <- <-. exact Hb.
  - eapply append_inv; eassumption.
Qed.

Lemma serialize_elements_inv elems : forall first sb h ret sb' h',
  Forall (fun e => forall sb h ret sb' h',
            Inv sb h -> ser e sb h = (ret, sb', h') -> Inv sb' h') elems ->
  Inv sb h ->
  serialize_elements ser first elems sb h = (ret, sb', h') ->
  Inv sb' h'.
Proof.
  induction elems as [|e elems IH]; intros first sb h ret sb' h' Hser Hb H;
    cbn [serialize_elements] in H.
  - injection H as <- <- <-. exact Hb.
  - inversion Hser as [|? ? He Hrest]; subst.
    destruct (if first then (0, sb, h) else strbuf_append sb [","] 1 h)
      as [[r1 sb1] h1] eqn:E1.
    apply comma_inv in E1; [|exact Hb].
    destruct (negb _); [injection H as <- <- <-; exact E1|].
    destruct (ser e sb1 h1) as [[r2 sb2] h2] eqn:E2.
    apply He in E2; [|exact E1].
    destruct (negb _); [injection H as <- <- <-; exact E2|].
    eapply IH; eassumption.
Qed.

Lemma serialize_members_inv members : forall first sb h ret sb' h',
  Forall (fun m => forall sb h ret sb' h',
            Inv sb h -> ser (snd m) sb h = (ret, sb', h') -> Inv sb' h') members ->
  Inv sb h ->
  serialize_members ser first members sb h = (ret, sb', h') ->
  Inv sb' h'.
Proof.
  induction members as [|m members IH]; intros first sb h ret sb' h' Hser Hb H;
    cbn [serialize_members] in H.
  - injection H as <- <- <-. exact Hb.
  - inversion Hser as [|? ? He Hrest]; subst.
    destruct (if first then (0, sb, h) else strbuf_append sb [","] 1 h)
      as [[r1 sb1] h1] eqn:E1.
    apply comma_inv in E1; [|exact Hb].
    destruct (negb _); [injection H as <- <- <-; exact E1|].
    destruct (escape_string _ sb1 h1) as [[r2 sb2] h2] eqn:E2.
    apply escape_string_inv in E2; [|exact E1].
    destruct (negb _); [injection H as <- <- <-; exact E2|].
    destruct (strbuf_append sb2 _ 1 h2) as [[r3 sb3] h3] eqn:E3.
    apply append_inv in E3; [|exact E2].
    destruct (negb _); [injection H as <- <- <-; exact E3|].
    destruct (ser (snd m) sb3 h3) as [[r4 sb4] h4] eqn:E4.
    apply He in E4; [|exact E3].
    destruct (negb _); [injection H as <- <- <-; exact E4|].
    eapply IH; eassumption.
Qed.

End Inv_elements.

Lemma serialize_value_inv t : forall sb depth h ret sb' h',
  Inv sb h -> serialize_value t sb depth h = (ret, sb', h') -> Inv sb' h'.
Proof.
  induction t as [p|p b|p x|p s|p elements elems IH|p keys values members IH]
    using rjson_value_induction; intros sb depth h ret sb' h' Hb H;
    cbn [serialize_value] in H;
    (destruct (depth >=? RJSON_MAX_DEPTH); [injection H as <- <- <-; exact Hb|]).
  - eapply append_inv; eassumption.
  - destruct (negb _); eapply append_inv; eassumption.
  - eapply serialize_number_inv; eassumption.
  - destruct s as [[a s]|]; [eapply escape_string_inv; eassumption|].
    injection H as <- <- <-. exact Hb.
  - destruct (strbuf_append sb _ 1 h) as [[r1 sb1] h1] eqn:E1.
    apply append_inv in E1; [|exact Hb].
    destruct (negb _); [injection H as <- <- <-; exact E1|].
    destruct (serialize_elements _ true elems sb1 h1) as [[r2 sb2] h2] eqn:E2.
    apply serialize_elements_inv in E2; [| |exact E1].
    2: { eapply Forall_impl; [exact IH|]. cbv beta.
         intros e He sb0 h0 ret0 sb0' h0' Hb0 H0. eapply He; eassumption. }
    destruct (negb _); [injection H as <- <- <-; exact E2|].
    eapply append_inv; eassumption.
  - destruct (strbuf_append sb _ 1 h) as [[r1 sb1] h1] eqn:E1.
    apply append_inv in E1; [|exact Hb].
    destruct (negb _); [injection H as <- <- <-; exact E1|].
    destruct (serialize_members _ true members sb1 h1) as [[r2 sb2] h2] eqn:E2.
    apply serialize_members_inv in E2; [| |exact E1].
    2: { eapply Forall_impl; [exact IH|]. cbv beta.
         intros e He sb0 h0 ret0 sb0' h0' Hb0 H0. eapply He; eassumption. }
    destruct (negb _); [injection H as <- <- <-; exact E2|].
    eapply append_inv; eassumption.
Qed.

End Appends.

Lemma strbuf_append_holds h0 sb data len h ret sb' h' :
  heap_wf h0 -> holds_buffer h0 sb h ->
  strbuf_append sb data len h = (ret, sb', h') -> holds_buffer h0 sb' h'.
Proof.
  intros W (b & Hb & A). unfold strbuf_append.
  destruct (_ >? _).
  - match goal with
    | |- context [realloc (buffer sb) ?c h] =>
        assert (Hc : c <> 0)
          by (apply grow_capacity_nonzero; destruct (capacity sb =? 0) eqn:E; lia);
        pose proof (realloc_any h0 h (buffer sb) c [] [b] W Hc
                      ltac:(rewrite Hb; reflexivity) A) as A';
        destruct (realloc (buffer sb) c h) as [[q|] h1]
    end; cbn [fst snd] in A'; intros E; injection E as <- <- <-.
    + exists q. split; [reflexivity|exact A'].
    + exists b. split; [exact Hb|]. rewrite Hb in A'. exact A'.
  - intros E; injection E as <- <- <-. exists b. split; [exact Hb|exact A].
Qed.

(** X7. [rjson_serialize], whatever the tree and whatever the allocator
    does: when it fails, every block it allocated is released again, the
    live blocks are those from before the call and the caller's variables
    are untouched; when it succeeds, the text it hands over lies in the one
    new live block. No release is ever invalid. *)
Theorem rjson_serialize_keeps_the_heap value cell out_length h ret out len' h' :
  heap_wf h ->
  rjson_serialize (Some value) (Some cell) out_length h = (ret, out, len', h') ->
  faults h' = faults h
  /\ ((ret = -1 /\ out = Some cell /\ len' = out_length /\ live h' = live h)
      \/ (exists b s,
             ret = 0 /\ out = Some (Some (b, s))
             /\ len' = option_map (fun _ => strlen s) out_length
             /\ (b ∉ live h) /\ live h' = live h ∪ {[ b ]})).
Proof.
  intros W. unfold rjson_serialize, strbuf_init.
  pose proof (malloc_any 1024 h W) as A.
  destruct (malloc 1024 h) as [[b|] h1]; cbn [fst snd option_list] in A.
  2:{ intros E; injection E as <- <- <- <-.
      split; [exact (allocated_faults _ _ _ A)|]. left.
      repeat split. exact (allocated_nil_live _ _ A). }
  destruct (serialize_value value (Strbuf (Some b) [] 1024) 0 h1)
    as [[r sb] h2] eqn:E.
  apply (serialize_value_inv (holds_buffer h) (fun sb data len h1 ret sb' h' =>
           strbuf_append_holds h sb data len h1 ret sb' h' W)) in E.
  2:{ exists b. split; [reflexivity|exact A]. }
  destruct E as (b' & Hb' & A').
  destruct (negb (r =? 0)) eqn:Er; intros E; injection E as <- <- <- <-.
  - unfold strbuf_free. rewrite Hb'.
    pose proof (free_any h h2 b' [] [b'] W (reflexivity _) A') as A2.
    split; [exact (allocated_faults _ _ _ A2)|]. left.
    repeat split. exact (allocated_nil_live _ _ A2).
  - split; [exact (allocated_faults _ _ _ A')|]. right.
    exists b', (written sb). rewrite Hb'. repeat split.
    + exact (allocated_fresh _ _ _ b' W A' ltac:(set_solver)).
    + destruct A' as (_ & _ & L & _). rewrite L. simpl. set_solver.
Qed.

Lemma rjson_serialize_keeps_the_heap_witness :
  exists h',
    rjson_serialize (Some sample_tree) (Some None) None
      (Heap (list_to_set [1; 2; 3; 4; 5]%positive) 6%positive [Move; Fail] []
         sample_sizes)
    = (0, Some (Some (6%positive, quoted "['a',null]")), None, h')
    /\ live h' = list_to_set [1; 2; 3; 4; 5]%positive ∪ {[ 6%positive ]}.
Proof.
  eexists. split; [vm_compute; reflexivity|].
  edestruct (rjson_serialize_keeps_the_heap sample_tree None None
               (Heap (list_to_set [1; 2; 3; 4; 5]%positive) 6%positive [Move; Fail] []
         sample_sizes))
    as [_ [(Hret & _)|(b & s & _ & Hout & _ & _ & L)]];
    [heap_wf_known|vm_compute; reflexivity|discriminate Hret|].
  inversion Hout; subst. exact L.
Defined.

(** ** The buffer holds what is written *)

Lemma grow_capacity_from fuel : forall c need, 0 < c -> c <= grow_capacity fuel c need.
Proof.
  induction fuel as [|fuel IH]; intros c need Hc; cbn [grow_capacity]; [lia|].
  destruct (c <? need); [|lia]. specialize (IH (c * 2) need). lia.
Qed.

(** X8. [strbuf_append] of [len] bytes that [data] holds, on a buffer
    whose text lies in its block. When it returns 0 the bytes are appended
    and the buffer has a block, the old one or a new one, that is live and
    has [capacity] bytes, no fewer than the text and its terminator: what
    [memcpy] and the store of the terminator write lies inside the block.
    The capacity never shrinks. When it returns -1 the buffer and its block
    are as they were. It returns nothing else. *)
Theorem strbuf_append_fits sb data len h ret sb' h' :
  heap_wf h -> holds_text sb h -> 0 <= len <= strlen data ->
  strbuf_append sb data len h = (ret, sb', h') ->
  heap_wf h'
  /\ ((ret = -1 /\ sb' = sb /\ holds_text sb h')
      \/ (ret = 0
          /\ written sb' = written sb ++ firstn (Z.to_nat len) data
          /\ sb_length sb' = sb_length sb + len
          /\ capacity sb <= capacity sb'
          /\ exists b,
               buffer sb' = Some b /\ b ∈ live h'
               /\ sizes h' !! b = Some (capacity sb')
               /\ sb_length sb' + 1 <= capacity sb')).
Proof.
  intros W Hinv Hlen. unfold strbuf_append.
  assert (Hl : forall b c,
             sb_length (Strbuf b (written sb ++ firstn (Z.to_nat len) data) c)
             = sb_length sb + len).
  { intros b c. unfold sb_length, strlen in *. cbn [written].
    rewrite length_app, length_firstn. lia. }
  assert (Hcap : 0 <= capacity sb).
  { unfold holds_text in Hinv. destruct (buffer sb) as [b|].
    - destruct Hinv as (_ & _ & Hfit). unfold sb_length, strlen in Hfit. lia.
    - destruct Hinv as [-> _]. lia. }
  destruct (Z.gtb_spec (sb_length sb + len + 1) (capacity sb)) as [Hgt|Hle].
  - set (c0 := if capacity sb =? 0 then 64 else capacity sb * 2).
    assert (H0 : 0 < c0) by (unfold c0; destruct (capacity sb =? 0) eqn:E; lia).
    pose proof (grow_capacity_enough c0 (sb_length sb + len + 1) H0) as Hen.
    pose proof (grow_capacity_from (Z.to_nat (sb_length sb + len + 1)) c0
                  (sb_length sb + len + 1) H0) as Hfrom.
    set (c1 := grow_capacity (Z.to_nat (sb_length sb + len + 1)) c0
                 (sb_length sb + len + 1)) in *.
    assert (Hc1 : capacity sb <= c1)
      by (unfold c0 in Hfrom; destruct (capacity sb =? 0) eqn:E; lia).
    assert (Hgrown : forall b h1,
               heap_wf h1 -> b ∈ live h1 -> sizes h1 !! b = Some c1 ->
               heap_wf h1
               /\ ((0 = -1
                    /\ Strbuf (Some b) (written sb ++ firstn (Z.to_nat len) data) c1 = sb
                    /\ holds_text sb h1)
                   \/ (0 = 0
                       /\ written (Strbuf (Some b)
                                     (written sb ++ firstn (Z.to_nat len) data) c1)
                          = written sb ++ firstn (Z.to_nat len) data
                       /\ sb_length (Strbuf (Some b)
                                       (written sb ++ firstn (Z.to_nat len) data) c1)
                          = sb_length sb + len
                       /\ capacity sb
                          <= capacity (Strbuf (Some b)
                                         (written sb ++ firstn (Z.to_nat len) data) c1)
                       /\ exists b0,
                            buffer (Strbuf (Some b)
                                      (written sb ++ firstn (Z.to_nat len) data) c1)
                            = Some b0
                            /\ b0 ∈ live h1
                            /\ sizes h1 !! b0
                               = Some (capacity
                                         (Strbuf (Some b)
                                            (written sb ++ firstn (Z.to_nat len) data)
                                            c1))
                            /\ sb_length (Strbuf (Some b)
                                            (written sb ++ firstn (Z.to_nat len) data)
                                            c1) + 1
                               <= capacity (Strbuf (Some b)
                                              (written sb ++ firstn (Z.to_nat len) data)
                                              c1)))).
    { intros b h1 W1 Hb Hs. split; [exact W1|]. right.
      split; [reflexivity|]. split; [reflexivity|]. split; [apply Hl|].
      cbn [capacity buffer]. split; [exact Hc1|]. exists b.
      split; [reflexivity|]. split; [exact Hb|]. split; [exact Hs|].
      rewrite Hl. lia. }
    assert (Hsame : live (snd (next_outcome h)) = live h
                    /\ brk (snd (next_outcome h)) = brk h
                    /\ sizes (snd (next_outcome h)) = sizes h).
    { unfold next_outcome. destruct (fate h); repeat split. }
    assert (Hfresh : forall h1,
               live h1 = live h -> brk h1 = brk h ->
               heap_wf (snd (fresh c1 h1))
               /\ fst (fresh c1 h1) ∈ live (snd (fresh c1 h1))
               /\ sizes (snd (fresh c1 h1)) !! fst (fresh c1 h1) = Some c1).
    { intros h1 L B. unfold fresh. cbn [fst snd live brk sizes].
      split; [|split; [set_solver|apply lookup_insert_eq]].
      intros a Ha. cbn [live brk] in *. apply elem_of_union in Ha as [Ha|Ha].
      - apply elem_of_singleton in Ha. subst. lia.
      - rewrite L in Ha. specialize (W a Ha). lia. }
    unfold realloc, malloc, holds_text in *.
    replace (c1 =? 0) with false by lia.
    destruct (next_outcome h) as [o h1]. cbn [snd] in Hsame.
    destruct Hsame as (L & B & S).
    assert (W1 : heap_wf h1).
    { intros a Ha. rewrite B. apply W. rewrite <- L. exact Ha. }
    destruct (buffer sb) as [b|] eqn:Eb.
    + destruct Hinv as (Hb & Hs & Hfit). destruct o.
      * intros E; injection E as <- <- <-. split; [exact W1|]. left.
        split; [reflexivity|]. split; [reflexivity|].
        rewrite L, S. repeat split; assumption.
      * rewrite bool_decide_eq_true_2 by (rewrite L; exact Hb).
        intros E; injection E as <- <- <-.
        apply Hgrown; [exact W1|cbn [resized live]; rewrite L; exact Hb|].
        cbn [resized sizes]. apply lookup_insert_eq.
      * destruct (Hfresh h1 L B) as (Wf & Hq & Hsq).
        destruct (fresh c1 h1) as [q h2] eqn:Ef. cbn [fst snd] in *.
        assert (Hqb : q <> b).
        { assert (Eq : q = brk h) by (unfold fresh in Ef; injection Ef as <- _; exact B).
          intros E. pose proof (W b Hb) as Hlt. rewrite <- E, Eq in Hlt.
          exact (Pos.lt_irrefl _ Hlt). }
        assert (Hb2 : b ∈ live h2).
        { unfold fresh in Ef. injection Ef as _ <-. cbn [live]. rewrite L. set_solver. }
        intros E; injection E as <- <- <-.
        unfold free. rewrite bool_decide_eq_true_2 by exact Hb2.
        apply Hgrown.
        -- intros a Ha. cbn [live brk] in *. apply Wf. set_solver.
        -- cbn [live]. set_solver.
        -- cbn [sizes]. rewrite lookup_delete_ne by congruence. exact Hsq.
    + destruct Hinv as [Hc0 Hw]. destruct o.
      * intros E; injection E as <- <- <-. split; [exact W1|]. left.
        split; [reflexivity|]. split; [reflexivity|].
        split; assumption.
      * destruct (Hfresh h1 L B) as (Wf & Hq & Hsq).
        destruct (fresh c1 h1) as [q h2]. cbn [fst snd] in *.
        intros E; injection E as <- <- <-. apply Hgrown; assumption.
      * destruct (Hfresh h1 L B) as (Wf & Hq & Hsq).
        destruct (fresh c1 h1) as [q h2]. cbn [fst snd] in *.
        intros E; injection E as <- <- <-. apply Hgrown; assumption.
  - intros E; injection E as <- <- <-. split; [exact W|]. right.
    split; [reflexivity|]. split; [reflexivity|]. rewrite Hl.
    split; [reflexivity|]. cbn [capacity buffer]. split; [lia|].
    unfold holds_text in Hinv. destruct (buffer sb) as [b|].
    + destruct Hinv as (Hb & Hs & Hfit). exists b.
      split; [reflexivity|]. split; [exact Hb|]. split; [exact Hs|]. lia.
    + destruct Hinv as [Hc0 Hw]. unfold sb_length, strlen in Hle.
      rewrite Hc0, Hw in Hle. cbn [length] in Hle. lia.
Qed.

Lemma strbuf_append_fits_witness :
  exists b h',
    strbuf_append (Strbuf (Some 1%positive) (lit "ab") 3) (lit "cdef") 3
      (Heap {[ 1%positive ]} 2%positive [Move] [] {[ 1%positive := 3 ]})
    = (0, Strbuf (Some b) (lit "abcde") 6, h')
    /\ b ∈ live h' /\ sizes h' !! b = Some 6.
Proof.
  destruct (strbuf_append_fits (Strbuf (Some 1%positive) (lit "ab") 3) (lit "cdef") 3
              (Heap {[ 1%positive ]} 2%positive [Move] [] {[ 1%positive := 3 ]})
              0 (Strbuf (Some 2%positive) (lit "abcde") 6)
              (snd (strbuf_append (Strbuf (Some 1%positive) (lit "ab") 3) (lit "cdef") 3
                      (Heap {[ 1%positive ]} 2%positive [Move] []
                         {[ 1%positive := 3 ]}))))
    as [_ [(Hret & _)|(_ & _ & _ & _ & b & Hb & Hl & Hs & _)]].
  - intros a Ha. cbn [live] in Ha. apply elem_of_singleton in Ha. subst. reflexivity.
  - cbn [holds_text buffer]. split; [set_solver|]. split; [reflexivity|].
    vm_compute. discriminate.
  - vm_compute. split; discriminate.
  - vm_compute. reflexivity.
  - discriminate Hret.
  - cbn [buffer capacity] in Hb, Hs. exists b, (snd (strbuf_append
        (Strbuf (Some 1%positive) (lit "ab") 3) (lit "cdef") 3
        (Heap {[ 1%positive ]} 2%positive [Move] [] {[ 1%positive := 3 ]}))).
    split; [|split; [exact Hl|exact Hs]].
    injection Hb as <-. vm_compute. reflexivity.
Defined.

(** ** A growth that is refused at a quotation mark *)

Lemma strbuf_append_room sb data len h :
  sb_length sb + len + 1 <= capacity sb ->
  strbuf_append sb data len h
  = (0, Strbuf (buffer sb) (written sb ++ firstn (Z.to_nat len) data) (capacity sb), h).
Proof.
  intros H. unfold strbuf_append.
  destruct (Z.gtb_spec (sb_length sb + len + 1) (capacity sb)); [lia|reflexivity].
Qed.

Lemma strbuf_append_refused sb data len h f :
  capacity sb < sb_length sb + len + 1 -> fate h = Fail :: f ->
  strbuf_append sb data len h = (-1, sb, answered h).
Proof.
  intros H Hf. unfold strbuf_append, answered.
  destruct (Z.gtb_spec (sb_length sb + len + 1) (capacity sb)); [|lia].
  match goal with
  | |- context [realloc (buffer sb) ?c h] =>
      assert (Hc : c <> 0)
        by (apply grow_capacity_nonzero; destruct (capacity sb =? 0) eqn:E; lia);
      generalize dependent c
  end.
  intros c Hc. unfold realloc, malloc, next_outcome. rewrite Hf.
  destruct (buffer sb); [|reflexivity].
  replace (c =? 0) with false by lia. reflexivity.
Qed.

Lemma strlen_app (a b : c_string) : strlen (a ++ b) = strlen a + strlen b.
Proof. unfold strlen. rewrite length_app. lia. Qed.

Lemma escape_loop_room p : forall chunk sb h,
  sb_length sb + strlen chunk + strlen (escaped p) + 1 <= capacity sb ->
  escape_loop p chunk sb h
  = (0,
     snd (fst (strbuf_append
                 (Strbuf (buffer sb) (written sb ++ chunk ++ escaped p) (capacity sb))
                 ["034"] 1 h)),
     snd (strbuf_append
            (Strbuf (buffer sb) (written sb ++ chunk ++ escaped p) (capacity sb))
            ["034"] 1 h)).
Proof.
  induction p as [|c p IH]; intros chunk sb h Hfit; cbn [escape_loop].
  - change (escaped []) with (@nil ascii) in *. rewrite app_nil_r.
    change (strlen []) with 0 in Hfit.
    assert (E : match chunk with
                | [] => (0, sb, h)
                | _ :: _ => strbuf_append sb chunk (strlen chunk) h
                end = (0, Strbuf (buffer sb) (written sb ++ chunk) (capacity sb), h)).
    { destruct chunk as [|c0 chunk].
      - rewrite app_nil_r. destruct sb; reflexivity.
      - rewrite strbuf_append_room by lia. rewrite firstn_strlen. reflexivity. }
    rewrite E. change (negb (0 =? 0)) with false. cbv iota.
    destruct (strbuf_append _ ["034"] 1 h) as [[r sb'] h']. reflexivity.
  - change (escaped (c :: p)) with (escaped_byte c ++ escaped p) in *.
    rewrite strlen_app in Hfit.
    pose proof (replacement_escaped c) as Hr.
    destruct (replacement c) as [[r len]|].
    + destruct Hr as [Hr ->]. rewrite Hr in *.
      assert (E : match chunk with
                  | [] => (0, sb, h)
                  | _ :: _ => strbuf_append sb chunk (strlen chunk) h
                  end = (0, Strbuf (buffer sb) (written sb ++ chunk) (capacity sb), h)).
      { assert (0 <= strlen (escaped p)) by (unfold strlen; lia).
        assert (0 <= strlen r) by (unfold strlen; lia).
        destruct chunk as [|c0 chunk].
        - rewrite app_nil_r. destruct sb; reflexivity.
        - rewrite strbuf_append_room by lia. rewrite firstn_strlen. reflexivity. }
      rewrite E. change (negb (0 =? 0)) with false. cbv iota.
      rewrite strbuf_append_room.
      2:{ unfold sb_length in *. cbn [written capacity].
          rewrite strlen_app. unfold strlen in *. lia. }
      change (negb (0 =? 0)) with false. cbv iota.
      rewrite firstn_strlen. cbn [written capacity buffer].
      rewrite IH.
      2:{ unfold sb_length in *. cbn [written capacity].
          rewrite !strlen_app. change (strlen []) with 0. unfold strlen in *. lia. }
      cbn [written capacity buffer app]. rewrite <- !app_assoc. reflexivity.
    + rewrite Hr in *. rewrite IH.
      2:{ rewrite strlen_app. change (strlen [c]) with 1 in *. lia. }
      rewrite <- !app_assoc. reflexivity.
Qed.

(** X9. [escape_string] does not look at what [strbuf_append] returns for
    the two quotation marks. For a string whose escaped text has 1022
    bytes the closing mark is the first byte that does not fit the buffer
    of 1024 bytes; when the allocator refuses to grow it there,
    [rjson_serialize] returns 0 all the same and hands over a text without
    the closing mark. *)
Theorem rjson_serialize_drops_the_closing_quote p a s cell out_length h o f :
  strlen (escaped s) = 1022 -> fate h = o :: Fail :: f -> o <> Fail ->
  exists h',
    rjson_serialize (Some (V_STRING p (Some (a, s)))) (Some cell) out_length h
    = (0, Some (Some (brk h, "034" :: escaped s)),
       option_map (fun _ => 1023) out_length, h').
Proof.
  intros Hlen Hf Ho. unfold rjson_serialize, strbuf_init.
  assert (Hm : exists h1, malloc 1024 h = (Some (brk h), h1) /\ fate h1 = Fail :: f).
  { unfold malloc, next_outcome. rewrite Hf.
    destruct o; [contradiction| |]; eexists; split; reflexivity. }
  destruct Hm as (h1 & -> & Hf1).
  cbn [serialize_value]. change (0 >=? RJSON_MAX_DEPTH) with false. cbv iota.
  unfold escape_string.
  rewrite strbuf_append_room by (vm_compute; discriminate).
  rewrite escape_loop_room.
  2:{ unfold sb_length. cbn [written capacity app firstn]. rewrite Hlen.
      vm_compute. discriminate. }
  cbn [written capacity buffer app].
  change (firstn (Z.to_nat 1) ["034"]) with ["034"]. cbn [app].
  rewrite (strbuf_append_refused _ ["034"] 1 h1 f).
  2:{ unfold sb_length. cbn [written capacity]. unfold strlen in *.
      cbn [length]. lia. }
  2:{ exact Hf1. }
  cbn [fst snd]. change (negb (0 =? 0)) with false. cbv iota.
  cbn [buffer written option_map]. exists (answered h1). f_equal. f_equal.
  destruct out_length; [|reflexivity]. cbn [option_map]. f_equal.
  unfold sb_length, strlen in *. cbn [written length]. lia.
Qed.

Lemma rjson_serialize_drops_the_closing_quote_witness :
  exists h',
    rjson_serialize (Some (V_STRING 1%positive (Some (2%positive, repeat "a" 1022))))
      (Some None) (Some 0)
      (Heap (list_to_set [1; 2]%positive) 3%positive [Stay; Fail] []
         (list_to_map [(1%positive, 32); (2%positive, 1023)]))
    = (0, Some (Some (3%positive, "034" :: repeat "a" 1022)), Some 1023, h').
Proof.
  destruct (rjson_serialize_drops_the_closing_quote 1%positive 2%positive
              (repeat "a" 1022) None (Some 0)
              (Heap (list_to_set [1; 2]%positive) 3%positive [Stay; Fail] []
         (list_to_map [(1%positive, 32); (2%positive, 1023)]))
              Stay [])
    as (h' & E); [vm_compute; reflexivity|reflexivity|discriminate|].
  exists h'. etransitivity; [exact E|]. vm_compute. reflexivity.
Defined.

(** ** When the encoder succeeds *)

Lemma canonical_well_formed t :
  canonical (shape t) -> has_nonfinite t = false -> well_formed (shape t).
Proof.
  induction t as [p|p b|p x|p s|p elements elems IH|p keys values members IH]
    using rjson_value_induction;
    cbn [shape canonical has_nonfinite well_formed]; try (intros; assumption).
  - intros Hv Hf. apply negb_false_iff in Hf. split; assumption.
  - rewrite !fold_and_Forall, !Forall_map. intros Hc Hn. apply existsb_none in Hn.
    rewrite Forall_forall in IH, Hc, Hn |- *.
    intros e He. apply IH; [exact He|apply Hc, He|apply Hn, He].
  - rewrite (fold_and_Forall (fun m => no_nul (fst m) /\ canonical (snd m))),
      (fold_and_Forall (fun m => no_nul (fst m) /\ well_formed (snd m))), !Forall_map.
    intros Hc Hn. apply existsb_none in Hn.
    rewrite Forall_forall in IH, Hc, Hn |- *.
    intros m Hm. cbn [fst snd]. destruct (Hc m Hm) as [Hk Hcm]. cbn [fst snd] in *.
    split; [exact Hk|]. apply IH; [exact Hm|exact Hcm|apply Hn, Hm].
Qed.

(** X10. When no allocation is refused, [rjson_serialize] on a tree of
    flags 0 or 1, binary64 numbers and present strings succeeds exactly
    when no value lies deeper than [RJSON_MAX_DEPTH] and no number is an
    infinity or a NaN. It then hands over the text of the tree and its
    length; otherwise it returns -1 and leaves the caller's variables
    untouched. *)
Theorem rjson_serialize_succeeds_exactly t cell out_length h :
  granted h -> canonical (shape t) ->
  (height (shape t) <= RJSON_MAX_DEPTH -> has_nonfinite t = false ->
   exists b h',
     rjson_serialize (Some t) (Some cell) out_length h
     = (0, Some (Some (b, encode (shape t))),
        option_map (fun _ => strlen (encode (shape t))) out_length, h'))
  /\ (RJSON_MAX_DEPTH < height (shape t) \/ has_nonfinite t = true ->
      exists h',
        rjson_serialize (Some t) (Some cell) out_length h
        = (-1, Some cell, out_length, h')).
Proof.
  intros G Hc. split.
  - intros Hh Hn.
    destruct (rjson_serialize_granted t cell out_length h G
                (canonical_well_formed t Hc Hn) Hh) as (b & h' & E & _).
    exists b, h'. exact E.
  - intros [Hh|Hn].
    + apply rjson_serialize_too_deep, Hh.
    + apply rjson_serialize_nonfinite, Hn.
Qed.

Lemma rjson_serialize_succeeds_exactly_witness :
  (exists b h',
      rjson_serialize (Some sample_tree) (Some None) (Some 0) (heap_init [])
      = (0, Some (Some (b, encode (shape sample_tree))),
         option_map (fun _ => strlen (encode (shape sample_tree))) (Some 0), h'))
  /\ (exists h',
         rjson_serialize (Some (V_ARRAY 1%positive None
                                  [V_NUMBER 2%positive (S754_infinity false)]))
           (Some None) (Some 0) (heap_init [])
         = (-1, Some None, Some 0, h')).
Proof.
  split.
  - apply (rjson_serialize_succeeds_exactly sample_tree None (Some 0) (heap_init []));
      [constructor| | |reflexivity].
    + vm_compute. repeat split; try constructor. eexists. split; [reflexivity|].
      repeat constructor; discriminate.
    + vm_compute. discriminate.
  - apply (rjson_serialize_succeeds_exactly
             (V_ARRAY 1%positive None [V_NUMBER 2%positive (S754_infinity false)])
             None (Some 0) (heap_init [])); [constructor| |right; reflexivity].
    vm_compute. repeat split.
Defined.

(** ** The bytes of the text *)

Lemma number_byte_printable c : number_byte c -> 0x20 <= code c.
Proof.
  intros [H|H].
  - unfold isdigit in H. apply andb_true_iff in H as [H _].
    apply Z.leb_le in H. change (code "0") with 48 in H. lia.
  - simpl in H. destruct H as [<-|[<-|[<-|[<-|[<-|[]]]]]]; vm_compute; discriminate.
Qed.

Lemma escaped_byte_printable c : Forall (fun b => 0x20 <= code b) (escaped_byte c).
Proof.
  assert (H : forallb (fun b => 0x20 <=? code b) (escaped_byte c) = true).
  { destruct c as [[] [] [] [] [] [] [] []]; vm_compute; reflexivity. }
  apply Forall_forall. intros b Hb. apply list_elem_of_In in Hb.
  rewrite forallb_forall in H. apply Z.leb_le, H, Hb.
Qed.

Lemma escaped_printable s : Forall (fun b => 0x20 <= code b) (escaped s).
Proof.
  induction s as [|c s IH]; [constructor|].
  change (escaped (c :: s)) with (escaped_byte c ++ escaped s).
  apply Forall_app. split; [apply escaped_byte_printable|exact IH].
Qed.

Lemma encode_string_printable s : Forall (fun b => 0x20 <= code b) (encode_string s).
Proof.
  unfold encode_string. constructor; [vm_compute; discriminate|].
  apply Forall_app. split; [apply escaped_printable|].
  constructor; [vm_compute; discriminate|constructor].
Qed.

Lemma separated_printable first items :
  Forall (Forall (fun b => 0x20 <= code b)) items ->
  Forall (fun b => 0x20 <= code b) (separated first items).
Proof.
  revert first. induction items as [|x items IH]; intros first H; cbn [separated];
    [constructor|].
  inversion H; subst. apply Forall_app. split.
  - destruct first; repeat constructor. vm_compute. discriminate.
  - apply Forall_app. split; [assumption|apply IH; assumption].
Qed.

Lemma encode_printable j :
  well_formed j -> Forall (fun b => 0x20 <= code b) (encode j).
Proof.
  induction j as [|b|x|s|elems IH|members IH] using json_induction;
    cbn [well_formed encode].
  - intros _. vm_compute. repeat (constructor; [discriminate|]). constructor.
  - intros _. destruct (b =? 0); vm_compute;
      repeat (constructor; [discriminate|]); constructor.
  - intros [Hf Hv]. destruct (printf_g_17_text x Hf Hv) as [_ Hb].
    eapply Forall_impl; [exact Hb|]. apply number_byte_printable.
  - intros (s' & -> & _). apply encode_string_printable.
  - rewrite fold_and_Forall. intros Hwf.
    constructor; [vm_compute; discriminate|]. apply Forall_app. split.
    + apply separated_printable. apply Forall_map.
      rewrite Forall_forall in IH, Hwf |- *. intros e He. apply IH; [exact He|].
      apply Hwf, He.
    + constructor; [vm_compute; discriminate|constructor].
  - rewrite well_formed_members. intros Hwf.
    constructor; [vm_compute; discriminate|]. apply Forall_app. split.
    + apply separated_printable. apply Forall_map.
      rewrite Forall_forall in IH, Hwf |- *. intros m Hm. cbn beta.
      apply Forall_app. split; [apply encode_string_printable|].
      constructor; [vm_compute; discriminate|]. apply IH; [exact Hm|].
      apply (Hwf m Hm).
    + constructor; [vm_compute; discriminate|constructor].
Qed.

(** X11. When no allocation is refused, the text that [rjson_serialize]
    hands over for a tree of flags 0 or 1, binary64 numbers and present
    strings holds no byte below 0x20: no control byte, no line break and
    no NUL before the terminator, whatever bytes the strings of the tree
    hold. *)
Theorem rjson_serialize_writes_no_control_byte t cell out_length h b s len' h' :
  granted h -> canonical (shape t) ->
  rjson_serialize (Some t) (Some cell) out_length h = (0, Some (Some (b, s)), len', h') ->
  Forall (fun c => 0x20 <= code c) s.
Proof.
  intros G Hc E.
  destruct (Z_le_gt_dec (height (shape t)) RJSON_MAX_DEPTH) as [Hh|Hh].
  2:{ destruct (rjson_serialize_too_deep t (Some cell) out_length h ltac:(lia))
        as (h1 & E1). rewrite E1 in E. discriminate E. }
  destruct (has_nonfinite t) eqn:Hn.
  { destruct (rjson_serialize_nonfinite t (Some cell) out_length h Hn) as (h1 & E1).
    rewrite E1 in E. discriminate E. }
  pose proof (canonical_well_formed t Hc Hn) as Hwf.
  destruct (rjson_serialize_granted t cell out_length h G Hwf Hh) as (b1 & h1 & E1 & _).
  rewrite E1 in E. inversion E; subst. apply encode_printable, Hwf.
Qed.

Lemma rjson_serialize_writes_no_control_byte_witness :
  Forall (fun c => 0x20 <= code c)
    (quoted "'Line\nBreak\tTab'").
Proof.
  apply (rjson_serialize_writes_no_control_byte
           (V_STRING 1%positive (Some (2%positive, line_break_tab))) None None
           (heap_init []) 1%positive (quoted "'Line\nBreak\tTab'") None
           (snd (rjson_serialize
                   (Some (V_STRING 1%positive (Some (2%positive, line_break_tab))))
                   (Some None) None (heap_init [])))).
  - constructor.
  - eexists. split; [reflexivity|]. vm_compute. repeat constructor; discriminate.
  - vm_compute. reflexivity.
Defined.

(** ** From a tree to its text and back *)

(** X12. The round trip from any tree, not only from a decoded one: a tree
    of flags 0 or 1, finite binary64 numbers none of which is subnormal, and
    present strings without NUL, at most [RJSON_MAX_DEPTH] values high, is
    written by [rjson_serialize] as a text that [rjson_parse] accepts, and
    the tree decoded from it denotes the same value. *)
Theorem rjson_serialize_then_parse t cell out_length h :
  granted h -> well_formed (shape t) -> has_subnormal (shape t) = false ->
  height (shape t) <= RJSON_MAX_DEPTH ->
  exists b s h1,
    rjson_serialize (Some t) (Some cell) out_length h
    = (0, Some (Some (b, s)), option_map (fun _ => strlen s) out_length, h1)
    /\ exists t' h2,
         rjson_parse (Some s) h1 = (Some t', h2) /\ shape t' = shape t.
Proof.
  intros G Hwf Hs Hh.
  destruct (rjson_serialize_granted t cell out_length h G Hwf Hh) as (b & h1 & E & G1).
  exists b, (encode (shape t)), h1. split; [exact E|].
  destruct (rjson_parse_encoded (shape t) h1 G1 Hwf
              (numbers_normal_read_back _ (no_subnormal_normal _ Hwf Hs)) Hh)
    as (t' & h2 & E2 & Hshape & _).
  exists t', h2. split; assumption.
Qed.

Lemma rjson_serialize_then_parse_witness :
  exists b s h1,
    rjson_serialize (Some sample_tree) (Some None) (Some 0) (heap_init [])
    = (0, Some (Some (b, s)), option_map (fun _ => strlen s) (Some 0), h1)
    /\ exists t' h2,
         rjson_parse (Some s) h1 = (Some t', h2) /\ shape t' = shape sample_tree.
Proof.
  apply (rjson_serialize_then_parse sample_tree None (Some 0) (heap_init [])).
  - constructor.
  - vm_compute. repeat split; try constructor. eexists. split; [reflexivity|].
    repeat constructor; discriminate.
  - reflexivity.
  - vm_compute. discriminate.
Defined.

(** X13. Two such trees that [rjson_serialize] writes as the same text
    denote the same value: the variants, the bytes of the strings and keys,
    the numbers and the order of the elements and members can be told from
    the text. *)
Theorem rjson_serialize_injective t1 t2 cell1 cell2 len1 len2 h1 h2 b1 b2 s l1 l2 h1' h2' :
  granted h1 -> granted h2 ->
  well_formed (shape t1) -> well_formed (shape t2) ->
  has_subnormal (shape t1) = false -> has_subnormal (shape t2) = false ->
  rjson_serialize (Some t1) (Some cell1) len1 h1 = (0, Some (Some (b1, s)), l1, h1') ->
  rjson_serialize (Some t2) (Some cell2) len2 h2 = (0, Some (Some (b2, s)), l2, h2') ->
  shape t1 = shape t2.
Proof.
  intros G1 G2 W1 W2 S1 S2 E1 E2.
  assert (Hh : forall t cell len h b l h',
             rjson_serialize (Some t) (Some cell) len h = (0, Some (Some (b, s)), l, h') ->
             height (shape t) <= RJSON_MAX_DEPTH).
  { intros t cell len h b l h' E.
    destruct (Z_le_gt_dec (height (shape t)) RJSON_MAX_DEPTH) as [Hh|Hh]; [exact Hh|].
    destruct (rjson_serialize_too_deep t (Some cell) len h ltac:(lia)) as (h0 & E0).
    rewrite E0 in E. discriminate E. }
  pose proof (Hh _ _ _ _ _ _ _ E1) as Hh1. pose proof (Hh _ _ _ _ _ _ _ E2) as Hh2.
  destruct (rjson_serialize_granted t1 cell1 len1 h1 G1 W1 Hh1) as (? & ? & E1' & _).
  destruct (rjson_serialize_granted t2 cell2 len2 h2 G2 W2 Hh2) as (? & ? & E2' & _).
  rewrite E1' in E1. rewrite E2' in E2.
  assert (Hs1 : encode (shape t1) = s) by congruence.
  assert (Hs2 : encode (shape t2) = s) by congruence.
  destruct (rjson_parse_encoded (shape t1) (heap_init []) ltac:(constructor) W1
              (numbers_normal_read_back _ (no_subnormal_normal _ W1 S1)) Hh1)
    as (ta & ha & Ea & Hshape_a & _).
  destruct (rjson_parse_encoded (shape t2) (heap_init []) ltac:(constructor) W2
              (numbers_normal_read_back _ (no_subnormal_normal _ W2 S2)) Hh2)
    as (tb & hb & Eb & Hshape_b & _).
  rewrite Hs1 in Ea. rewrite Hs2 in Eb. rewrite Ea in Eb.
  inversion Eb; subst. congruence.
Qed.

Lemma rjson_serialize_injective_witness :
  shape (V_BOOL 1%positive 1) = shape (V_BOOL 7%positive 1).
Proof.
  apply (rjson_serialize_injective (V_BOOL 1%positive 1) (V_BOOL 7%positive 1)
           None None None None (heap_init []) (heap_init [Move]) 1%positive 1%positive
           (lit "true") None None
           (snd (rjson_serialize (Some (V_BOOL 1%positive 1)) (Some None) None
                   (heap_init [])))
           (snd (rjson_serialize (Some (V_BOOL 7%positive 1)) (Some None) None
                   (heap_init [Move]))));
    try (vm_compute; reflexivity); try (vm_compute; tauto);
    repeat constructor; discriminate.
Defined.

(** ** Input that holds no value *)

Lemma parse_value_body_closed rec json depth h :
  opens_value (peek (skip_whitespace json)) = false ->
  parse_value_body rec json depth h = (None, h).
Proof.
  unfold parse_value_body, opens_value. intros H.
  destruct (peek (skip_whitespace json)) as [[] [] [] [] [] [] [] []];
    try discriminate H; reflexivity.
Qed.

Lemma parse_literal_other json h :
  starts_with (lit "true") json = false ->
  starts_with (lit "false") json = false ->
  starts_with (lit "null") json = false ->
  parse_literal json h = (None, h).
Proof. intros H1 H2 H3. unfold parse_literal. rewrite H1, H2, H3. reflexivity. Qed.

Lemma parse_value_body_literal rec json depth h :
  In (peek (skip_whitespace json)) ["t"; "f"; "n"] ->
  parse_value_body rec json depth h = parse_literal (skip_whitespace json) h.
Proof.
  unfold parse_value_body. intros H. simpl in H.
  destruct H as [<-|[<-|[<-|[]]]]; reflexivity.
Qed.

(** X14. [rjson_parse] returns NULL without a call of the allocator for a
    NULL argument, and for a text whose first byte behind an optional byte
    order mark and white space cannot start a value: the empty text, white
    space only, a closing bracket, a comma, a sign [+], a point, a second
    byte order mark, a vertical tab or a form feed. It does so as well for
    a text that starts there with [t], [f] or [n] but not with [true],
    [false] or [null]. *)
Theorem rjson_parse_without_a_value :
  (forall h, rjson_parse None h = (None, h))
  /\ (forall bytes h,
         opens_value (peek (skip_whitespace (behind_BOM bytes))) = false ->
         rjson_parse (Some bytes) h = (None, h))
  /\ (forall bytes h,
         In (peek (skip_whitespace (behind_BOM bytes))) ["t"; "f"; "n"] ->
         starts_with (lit "true") (skip_whitespace (behind_BOM bytes)) = false ->
         starts_with (lit "false") (skip_whitespace (behind_BOM bytes)) = false ->
         starts_with (lit "null") (skip_whitespace (behind_BOM bytes)) = false ->
         rjson_parse (Some bytes) h = (None, h)).
Proof.
  split; [reflexivity|]. split.
  - intros bytes h H. unfold rjson_parse. fold (behind_BOM bytes).
    unfold parse_value. change (Z.to_nat (RJSON_MAX_DEPTH + 1 - 0)) with 513%nat.
    cbn [parse_value_at]. rewrite parse_value_body_closed by exact H. reflexivity.
  - intros bytes h H H1 H2 H3. unfold rjson_parse. fold (behind_BOM bytes).
    unfold parse_value. change (Z.to_nat (RJSON_MAX_DEPTH + 1 - 0)) with 513%nat.
    cbn [parse_value_at]. rewrite parse_value_body_literal by exact H.
    rewrite parse_literal_other by assumption. reflexivity.
Qed.

Lemma rjson_parse_without_a_value_witness :
  rjson_parse (Some (BOM ++ lit "  ] ")) (heap_init [Fail]) = (None, heap_init [Fail])
  /\ rjson_parse (Some (lit " nul")) (heap_init [Fail]) = (None, heap_init [Fail]).
Proof.
  split.
  - apply (proj1 (proj2 rjson_parse_without_a_value)). reflexivity.
  - apply (proj2 (proj2 rjson_parse_without_a_value)); [simpl; tauto|reflexivity..].
Defined.

(** ** The byte order mark and leading white space *)

Lemma c_str_app s rest : no_nul s -> c_str (s ++ rest) = s ++ c_str rest.
Proof.
  induction 1 as [|c s Hc _ IH]; [reflexivity|]. cbn [app c_str].
  destruct (Ascii.eqb_spec c NUL); [contradiction|]. rewrite IH. reflexivity.
Qed.

Lemma skip_whitespace_spaces ws rest :
  Forall (fun c => is_space c = true) ws ->
  skip_whitespace (ws ++ rest) = skip_whitespace rest.
Proof.
  induction 1 as [|c ws Hc _ IH]; [reflexivity|]. cbn [app skip_whitespace].
  unfold is_space in Hc. rewrite Hc. exact IH.
Qed.

Lemma spaces_no_nul ws : Forall (fun c => is_space c = true) ws -> no_nul ws.
Proof.
  intros H. eapply Forall_impl; [exact H|]. intros c Hc ->. discriminate Hc.
Qed.

Lemma spaces_no_BOM ws rest :
  Forall (fun c => is_space c = true) ws -> ws <> [] ->
  starts_with BOM (ws ++ rest) = false.
Proof.
  intros H Hne. destruct H as [|c ws Hc _]; [contradiction|].
  unfold BOM. cbn [app starts_with].
  destruct (Ascii.eqb_spec "239" c) as [<-|_]; [discriminate Hc|reflexivity].
Qed.

Lemma parse_value_spaces ws json depth h :
  Forall (fun c => is_space c = true) ws ->
  parse_value (ws ++ json) depth h = parse_value json depth h.
Proof.
  intros H. unfold parse_value.
  destruct (Z.to_nat (RJSON_MAX_DEPTH + 1 - depth)) as [|levels]; [reflexivity|].
  cbn [parse_value_at]. unfold parse_value_body.
  rewrite skip_whitespace_spaces by exact H. reflexivity.
Qed.

(** X15. What [rjson_parse] skips in front of the value. One byte order
    mark at the very start is passed over, and so is any white space
    (space, tab, line feed, carriage return) in front of the value: the
    result is that of the text without them. A byte order mark behind
    white space is not passed over, and the text is rejected. *)
Theorem rjson_parse_skips_the_front bytes ws h :
  starts_with BOM (c_str bytes) = false ->
  Forall (fun c => is_space c = true) ws ->
  rjson_parse (Some (BOM ++ ws ++ bytes)) h = rjson_parse (Some bytes) h
  /\ rjson_parse (Some (ws ++ bytes)) h = rjson_parse (Some bytes) h
  /\ (ws <> [] -> rjson_parse (Some (ws ++ BOM ++ bytes)) h = (None, h)).
Proof.
  intros Hb Hws. pose proof (spaces_no_nul ws Hws) as Hn.
  assert (HB : no_nul BOM) by (repeat constructor; discriminate).
  assert (Hfront : forall rest,
             rjson_parse (Some (ws ++ rest)) h
             = match parse_value
                       (if starts_with BOM (ws ++ c_str rest)
                        then advance 3 (ws ++ c_str rest) else ws ++ c_str rest) 0 h
               with
               | (None, h) => (None, h)
               | (Some (result, current_pos), h) =>
                   if negb (Ascii.eqb (peek (skip_whitespace current_pos)) NUL)
                   then (None, rjson_free (Some result) h) else (Some result, h)
               end).
  { intros rest. unfold rjson_parse. rewrite c_str_app by exact Hn. reflexivity. }
  assert (Hsecond : rjson_parse (Some (ws ++ bytes)) h = rjson_parse (Some bytes) h).
  { rewrite Hfront. destruct ws as [|c ws].
    - reflexivity.
    - rewrite spaces_no_BOM by (assumption || discriminate).
      rewrite parse_value_spaces by exact Hws.
      unfold rjson_parse. rewrite Hb. reflexivity. }
  split; [|split].
  - rewrite <- Hsecond. unfold rjson_parse at 1.
    rewrite c_str_app by exact HB. rewrite c_str_app by exact Hn.
    change (starts_with BOM (BOM ++ ws ++ c_str bytes)) with true. cbv iota.
    change (advance 3 (BOM ++ ws ++ c_str bytes)) with (ws ++ c_str bytes).
    unfold rjson_parse. rewrite c_str_app by exact Hn.
    destruct ws as [|c ws].
    + cbn [app]. rewrite Hb. reflexivity.
    + rewrite spaces_no_BOM by (assumption || discriminate). reflexivity.
  - exact Hsecond.
  - intros Hne. unfold rjson_parse. rewrite c_str_app by exact Hn.
    rewrite c_str_app by exact HB.
    rewrite spaces_no_BOM by assumption.
    unfold parse_value. change (Z.to_nat (RJSON_MAX_DEPTH + 1 - 0)) with 513%nat.
    cbn [parse_value_at]. rewrite parse_value_body_closed; [reflexivity|].
    rewrite skip_whitespace_spaces by exact Hws. reflexivity.
Qed.

Lemma rjson_parse_skips_the_front_witness :
  rjson_parse (Some (BOM ++ lit "  " ++ lit "[1]")) (heap_init [])
  = rjson_parse (Some (lit "[1]")) (heap_init [])
  /\ rjson_parse (Some (lit "  " ++ BOM ++ lit "[1]")) (heap_init [])
     = (None, heap_init []).
Proof.
  destruct (rjson_parse_skips_the_front (lit "[1]") (lit "  ") (heap_init []))
    as (H1 & _ & H3); [reflexivity|repeat constructor|].
  split; [exact H1|apply H3; discriminate].
Defined.

(** ** Numbers that the grammar check refuses *)

Lemma rjson_parse_number_refused bytes h :
  peek (c_str bytes) = "-" \/ isdigit (peek (c_str bytes)) = true ->
  scan_number (c_str bytes) = None ->
  rjson_parse (Some bytes) h = (None, h).
Proof.
  intros Hhead Hscan. unfold rjson_parse.
  rewrite (starts_with_BOM_number _ Hhead).
  unfold parse_value. change (Z.to_nat (RJSON_MAX_DEPTH + 1 - 0)) with (S 512).
  cbn [parse_value_at].
  rewrite (parse_value_body_number _ _ 0 h Hhead).
  unfold parse_number. rewrite Hscan. reflexivity.
Qed.

Lemma sign_no_nul sign : sign = [] \/ sign = ["-"] -> no_nul sign.
Proof. intros [->| ->]; repeat constructor. discriminate. Qed.

Lemma int_part_no_nul i : int_part i -> no_nul i.
Proof. intros Hi. apply digits_not_nul. apply (int_part_digits i Hi). Qed.

Lemma frac_part_no_nul f : frac_part f -> no_nul f.
Proof.
  intros [->|(d & ds & -> & Hds)]; [constructor|].
  constructor; [discriminate|apply digits_not_nul; exact Hds].
Qed.

Lemma scan_sign_sign sign rest :
  sign = [] \/ sign = ["-"] -> isdigit (peek rest) = true ->
  scan_sign (sign ++ rest) = rest.
Proof.
  intros [->| ->] Hd; [|reflexivity]. unfold scan_sign. cbn [app].
  destruct (Ascii.eqb_spec (peek rest) "-") as [E|_]; [|reflexivity].
  rewrite E in Hd. discriminate Hd.
Qed.

Lemma signed_head sign rest :
  sign = [] \/ sign = ["-"] -> isdigit (peek rest) = true ->
  peek (sign ++ rest) = "-" \/ isdigit (peek (sign ++ rest)) = true.
Proof. intros [->| ->] Hd; [right; exact Hd|left; reflexivity]. Qed.

(** X16. The numbers that the grammar check of [parse_number] refuses,
    whatever follows: an integer part with a leading zero ([01], [-007]);
    a minus sign without a digit behind it; a point without a digit behind
    it ([1.], [0.e3]); an exponent letter without a digit behind it and its
    optional sign ([1e], [2.5E+]). [rjson_parse] returns NULL for them
    before any allocation. *)
Theorem rjson_parse_refuses_malformed_numbers :
  (forall sign d rest h,
      sign = [] \/ sign = ["-"] -> isdigit d = true ->
      rjson_parse (Some (sign ++ "0" :: d :: rest)) h = (None, h))
  /\ (forall rest h,
         isdigit (peek (c_str rest)) = false ->
         rjson_parse (Some ("-" :: rest)) h = (None, h))
  /\ (forall sign i rest h,
         sign = [] \/ sign = ["-"] -> int_part i ->
         isdigit (peek (c_str rest)) = false ->
         rjson_parse (Some (sign ++ i ++ "." :: rest)) h = (None, h))
  /\ (forall sign i f e sg rest h,
         sign = [] \/ sign = ["-"] -> int_part i -> frac_part f ->
         e = "e" \/ e = "E" ->
         sg = ["+"] \/ sg = ["-"]
         \/ (sg = [] /\ peek (c_str rest) <> "+" /\ peek (c_str rest) <> "-") ->
         isdigit (peek (c_str rest)) = false ->
         rjson_parse (Some (sign ++ i ++ f ++ e :: sg ++ rest)) h = (None, h)).
Proof.
  split; [|split; [|split]].
  - intros sign d rest h Hs Hd. apply rjson_parse_number_refused.
    + rewrite c_str_app by (apply sign_no_nul, Hs). cbn [c_str].
      apply signed_head; [exact Hs|reflexivity].
    + rewrite c_str_app by (apply sign_no_nul, Hs). cbn [c_str].
      change (Ascii.eqb "0" NUL) with false. cbv iota.
      destruct (Ascii.eqb_spec d NUL) as [->|_]; [discriminate Hd|].
      unfold scan_number. rewrite scan_sign_sign by (exact Hs || reflexivity).
      unfold scan_int. cbn [peek]. change (Ascii.eqb "0" "0") with true. cbv iota.
      change (advance 1 ("0" :: d :: c_str rest)) with (d :: c_str rest).
      cbn [peek]. rewrite Hd. reflexivity.
  - intros rest h Hd. apply rjson_parse_number_refused.
    + left. reflexivity.
    + cbn [c_str]. change (Ascii.eqb "-" NUL) with false. cbv iota.
      unfold scan_number, scan_sign. cbn [peek].
      change (Ascii.eqb "-" "-") with true. cbv iota.
      change (advance 1 ("-" :: c_str rest)) with (c_str rest).
      unfold scan_int. rewrite Hd.
      destruct (Ascii.eqb_spec (peek (c_str rest)) "0") as [E|_]; [|reflexivity].
      rewrite E in Hd. discriminate Hd.
  - intros sign i rest h Hs Hi Hd.
    assert (Htext : c_str (sign ++ i ++ "." :: rest) = sign ++ i ++ "." :: c_str rest).
    { rewrite c_str_app by (apply sign_no_nul, Hs).
      rewrite c_str_app by (apply int_part_no_nul, Hi). reflexivity. }
    apply rjson_parse_number_refused; rewrite Htext.
    + apply signed_head; [exact Hs|apply int_part_head, Hi].
    + unfold scan_number.
      rewrite scan_sign_sign by (exact Hs || apply int_part_head, Hi).
      rewrite scan_int_token by (exact Hi || reflexivity).
      unfold scan_frac. cbn [peek]. change (Ascii.eqb "." ".") with true. cbv iota.
      change (advance 1 ("." :: c_str rest)) with (c_str rest).
      rewrite Hd. reflexivity.
  - intros sign i f e sg rest h Hs Hi Hf He Hsg Hd.
    assert (Hsgn : no_nul sg).
    { destruct Hsg as [->|[->|[-> _]]]; repeat constructor; discriminate. }
    assert (Htext : c_str (sign ++ i ++ f ++ e :: sg ++ rest)
                    = sign ++ i ++ f ++ e :: sg ++ c_str rest).
    { rewrite c_str_app by (apply sign_no_nul, Hs).
      rewrite c_str_app by (apply int_part_no_nul, Hi).
      rewrite c_str_app by (apply frac_part_no_nul, Hf).
      cbn [c_str]. destruct He as [->| ->];
        (change (Ascii.eqb _ NUL) with false; cbv iota;
         rewrite c_str_app by exact Hsgn; reflexivity). }
    assert (Htail : tail_byte (peek (f ++ e :: sg ++ c_str rest))).
    { destruct Hf as [->|(d & ds & -> & _)].
      - cbn [app peek]. destruct He as [->| ->]; repeat split; discriminate.
      - cbn [app peek]. repeat split; discriminate. }
    assert (He' : isdigit (peek (e :: sg ++ c_str rest)) = false
                  /\ peek (e :: sg ++ c_str rest) <> ".").
    { cbn [peek]. destruct He as [->| ->]; split; (reflexivity || discriminate). }
    apply rjson_parse_number_refused; rewrite Htext.
    + apply signed_head; [exact Hs|apply int_part_head, Hi].
    + unfold scan_number.
      rewrite scan_sign_sign by (exact Hs || apply int_part_head, Hi).
      rewrite scan_int_token by (exact Hi || apply (proj1 Htail)).
      rewrite scan_frac_token by (exact Hf || apply He').
      unfold scan_exp. cbn [peek].
      replace (Ascii.eqb e "e" || Ascii.eqb e "E") with true
        by (destruct He as [->| ->]; reflexivity).
      change (advance 1 (e :: sg ++ c_str rest)) with (sg ++ c_str rest).
      destruct Hsg as [->|[->|(-> & Hp & Hm)]]; cbn [app peek].
      * change (advance 1 ("+" :: c_str rest)) with (c_str rest).
        cbn. rewrite Hd. reflexivity.
      * change (advance 1 ("-" :: c_str rest)) with (c_str rest).
        cbn. rewrite Hd. reflexivity.
      * destruct (Ascii.eqb_spec (peek (c_str rest)) "+"); [contradiction|].
        destruct (Ascii.eqb_spec (peek (c_str rest)) "-"); [contradiction|].
        cbn. rewrite Hd. reflexivity.
Qed.

Lemma rjson_parse_refuses_malformed_numbers_witness :
  rjson_parse (Some (["-"] ++ "0" :: "0" :: lit "7")) (heap_init []) = (None, heap_init [])
  /\ rjson_parse (Some ("-" :: lit "a")) (heap_init []) = (None, heap_init [])
  /\ rjson_parse (Some ([] ++ lit "12" ++ "." :: lit "e3")) (heap_init [])
     = (None, heap_init [])
  /\ rjson_parse (Some ([] ++ lit "2" ++ lit ".5" ++ "E" :: ["+"] ++ lit " "))
       (heap_init [])
     = (None, heap_init []).
Proof.
  split; [|split; [|split]].
  - apply (proj1 rjson_parse_refuses_malformed_numbers); [right|]; reflexivity.
  - apply (proj1 (proj2 rjson_parse_refuses_malformed_numbers)). reflexivity.
  - apply (proj1 (proj2 (proj2 rjson_parse_refuses_malformed_numbers)));
      [left; reflexivity| |reflexivity].
    right. exists "1", (lit "2"). repeat split; try discriminate.
    repeat constructor.
  - apply (proj2 (proj2 (proj2 rjson_parse_refuses_malformed_numbers)));
      [left; reflexivity| | |right; reflexivity|left; reflexivity|reflexivity].
    + right. exists "2", []. repeat split; try discriminate. constructor.
    + right. exists "5", []. split; [reflexivity|]. repeat constructor.
Defined.

(** ** Strings that are refused *)

Lemma scan_string_plain pre rest :
  Forall (fun c => plain c = true) pre -> scan_string (pre ++ rest) = scan_string rest.
Proof.
  induction 1 as [|c pre Hc _ IH]; [reflexivity|]. cbn [app scan_string].
  unfold plain in Hc. apply andb_true_iff in Hc as [Hc Hb].
  apply andb_true_iff in Hc as [Hc Hq].
  apply negb_true_iff in Hq. apply negb_true_iff in Hb. rewrite Hq, Hb.
  replace (code c <? 32) with false by lia. exact IH.
Qed.

Lemma unescape_loop_plain pre : forall fuel rest d,
  Forall (fun c => plain c = true) pre ->
  unescape_loop (length pre + fuel) (pre ++ rest) d = unescape_loop fuel rest (d ++ pre).
Proof.
  induction pre as [|c pre IH]; intros fuel rest d H.
  - rewrite app_nil_r. reflexivity.
  - inversion H as [|? ? Hc Hpre]; subst. cbn [app length Nat.add].
    assert (Hb : c <> "\").
    { intros ->. discriminate Hc. }
    transitivity (unescape_loop (length pre + fuel) (pre ++ rest) (d ++ [c])).
    + destruct c as [[] [] [] [] [] [] [] []]; try reflexivity.
      contradiction Hb. reflexivity.
    + rewrite IH by exact Hpre. rewrite <- app_assoc. reflexivity.
Qed.

Lemma scan_string_stops json j :
  scan_string json = Some j -> j = [] \/ peek j = "034".
Proof.
  revert j. induction json as [json IH] using (induction_ltof1 _ (@length ascii)).
  unfold ltof in IH. intros j H. destruct json as [|c json]; [inversion H; left; reflexivity|].
  cbn [scan_string] in H.
  destruct (Ascii.eqb_spec c "034") as [->|_]; [inversion H; right; reflexivity|].
  destruct (code c <? 32); [discriminate H|].
  destruct (Ascii.eqb c "\").
  - destruct json as [|c2 json]; [discriminate H|].
    apply IH in H; [exact H|cbn [length]; lia].
  - apply IH in H; [exact H|cbn [length]; lia].
Qed.

Lemma scan_string_suffix json j :
  scan_string json = Some j -> exists taken, json = taken ++ j.
Proof.
  revert j. induction json as [json IH] using (induction_ltof1 _ (@length ascii)).
  unfold ltof in IH. intros j H.
  destruct json as [|c json]; [inversion H; exists []; reflexivity|].
  cbn [scan_string] in H.
  destruct (Ascii.eqb c "034"); [inversion H; exists []; reflexivity|].
  destruct (code c <? 32); [discriminate H|].
  destruct (Ascii.eqb c "\").
  - destruct json as [|c2 json]; [discriminate H|].
    apply IH in H; [|cbn [length]; lia]. destruct H as (taken & ->).
    exists (c :: c2 :: taken). reflexivity.
  - apply IH in H; [|cbn [length]; lia]. destruct H as (taken & ->).
    exists (c :: taken). reflexivity.
Qed.

Lemma parse_string_unterminated body h :
  "034" ∉ body -> parse_string ("034" :: body) h = (None, h).
Proof.
  intros Hq. unfold parse_string. change (advance 1 ("034" :: body)) with body.
  destruct (scan_string body) as [j|] eqn:E; [|reflexivity].
  destruct (scan_string_stops _ _ E) as [->|Hp]; [reflexivity|].
  destruct (scan_string_suffix _ _ E) as (taken & ->).
  destruct j as [|c j]; [discriminate Hp|]. cbn [peek] in Hp. subst c.
  contradiction Hq. apply elem_of_app. right. left.
Qed.

(** The text between the quotation marks, when it starts with plain bytes
    and a unit [e] that the scan passes over and the decoder refuses. *)
Lemma parse_string_bad_unit pre e rest h :
  Forall (fun c => plain c = true) pre -> e <> [] ->
  scan_string (e ++ rest) = scan_string rest ->
  (forall k fuel d, unescape_loop (S fuel) (e ++ firstn k rest) d = None) ->
  fst (parse_string ("034" :: pre ++ e ++ rest) h) = None.
Proof.
  intros Hpre Hne Hscan Hbad. unfold parse_string.
  change (advance 1 ("034" :: pre ++ e ++ rest)) with (pre ++ e ++ rest).
  rewrite scan_string_plain by exact Hpre. rewrite Hscan.
  destruct (scan_string rest) as [j|] eqn:E; [|reflexivity].
  destruct (negb _); [reflexivity|].
  destruct (scan_string_suffix _ _ E) as (taken & ->).
  replace (length (pre ++ e ++ taken ++ j) - length j)%nat
    with (length (pre ++ e ++ taken)) by (rewrite !length_app; lia).
  replace (pre ++ e ++ taken ++ j) with ((pre ++ e ++ taken) ++ j)
    by (rewrite <- !app_assoc; reflexivity).
  rewrite firstn_app, Nat.sub_diag, firstn_all. cbn [firstn]. rewrite app_nil_r.
  unfold unescape_string.
  destruct (malloc _ h) as [[out|] h1]; [|reflexivity].
  replace (length (pre ++ e ++ taken))
    with (length pre + S (length e + length taken - 1))%nat
    by (rewrite !length_app; destruct e; [contradiction|cbn [length]; lia]).
  rewrite unescape_loop_plain by exact Hpre.
  replace taken with (firstn (length taken) (taken ++ j))
    by (rewrite firstn_app, Nat.sub_diag, firstn_all; cbn [firstn];
        apply app_nil_r).
  rewrite Hbad. reflexivity.
Qed.

Lemma hex_digits_prefix n : forall k p cp v,
  hex_digits n (firstn k p) cp = Some v -> hex_digits n p cp = Some v.
Proof.
  induction n as [|n IH]; intros k p cp v H; cbn [hex_digits] in *; [exact H|].
  destruct k as [|k]; [discriminate H|].
  destruct p as [|c p]; [discriminate H|].
  cbn [firstn peek] in *.
  destruct (hex_value c <? 0); [discriminate H|].
  change (advance 1 (c :: firstn k p)) with (firstn k p) in H.
  change (advance 1 (c :: p)) with p. eapply IH. exact H.
Qed.

(** X17. Strings that [parse_string] refuses. A text without a closing
    quotation mark and a text with a raw control byte are refused before
    any allocation. Behind plain bytes, a backslash followed by a byte
    other than one of the nine escape letters, the escape [\u] that is not
    followed by four hexadecimal digits, and the escape [\u0000] are
    refused, whatever follows. *)
Theorem parse_string_refuses :
  (forall body h, "034" ∉ body -> parse_string ("034" :: body) h = (None, h))
  /\ (forall pre c rest h,
         Forall (fun c => plain c = true) pre -> code c < 0x20 ->
         parse_string ("034" :: pre ++ c :: rest) h = (None, h))
  /\ (forall pre c rest h,
         Forall (fun c => plain c = true) pre -> ~ In c escape_letters ->
         fst (parse_string ("034" :: pre ++ "\" :: c :: rest) h) = None)
  /\ (forall pre rest h,
         Forall (fun c => plain c = true) pre -> hex_digits 4 rest 0 = None ->
         fst (parse_string ("034" :: pre ++ "\" :: "u" :: rest) h) = None)
  /\ (forall pre rest h,
         Forall (fun c => plain c = true) pre ->
         fst (parse_string ("034" :: pre ++ lit "\u0000" ++ rest) h) = None).
Proof.
  split; [exact parse_string_unterminated|]. split; [|split; [|split]].
  - intros pre c rest h Hpre Hc. unfold parse_string.
    change (advance 1 ("034" :: pre ++ c :: rest)) with (pre ++ c :: rest).
    rewrite scan_string_plain by exact Hpre. cbn [scan_string].
    destruct (Ascii.eqb_spec c "034") as [->|_]; [vm_compute in Hc; discriminate Hc|].
    replace (code c <? 32) with true by lia. reflexivity.
  - intros pre c rest h Hpre Hc.
    apply (parse_string_bad_unit pre ["\"; c] rest h Hpre); [discriminate| |].
    + cbn [app scan_string].
      destruct (Ascii.eqb_spec "\" "034") as [E|_]; [discriminate E|reflexivity].
    + intros k fuel d. cbn [app unescape_loop].
      unfold escape_letters in Hc. simpl in Hc.
      destruct c as [[] [] [] [] [] [] [] []]; try reflexivity;
        exfalso; apply Hc; tauto.
  - intros pre rest h Hpre Hhex.
    apply (parse_string_bad_unit pre ["\"; "u"] rest h Hpre); [discriminate|reflexivity|].
    intros k fuel d. cbn [app unescape_loop].
    destruct (strlen ("u" :: firstn k rest) <? 5); [reflexivity|].
    destruct (hex_digits 4 (firstn k rest) 0) as [cp|] eqn:E; [|reflexivity].
    apply hex_digits_prefix in E. rewrite E in Hhex. discriminate Hhex.
  - intros pre rest h Hpre.
    apply (parse_string_bad_unit pre (lit "\u0000") rest h Hpre);
      [discriminate|reflexivity|].
    intros k fuel d. cbn [lit list_ascii_of_string app unescape_loop].
    destruct (strlen _ <? 5); reflexivity.
Qed.

Lemma parse_string_refuses_witness :
  parse_string ("034" :: lit "ab" ++ "010" :: lit "c'") (heap_init []) = (None, heap_init [])
  /\ fst (parse_string ("034" :: lit "ab" ++ "\" :: "x" :: quoted "41'") (heap_init []))
     = None
  /\ fst (parse_string ("034" :: lit "ab" ++ "\" :: "u" :: quoted "12'") (heap_init []))
     = None.
Proof.
  split; [|split].
  - apply (proj1 (proj2 parse_string_refuses)); [repeat constructor|reflexivity].
  - apply (proj1 (proj2 (proj2 parse_string_refuses))); [repeat constructor|].
    unfold escape_letters. simpl. intros H.
    repeat (destruct H as [H|H]; [discriminate H|]). exact H.
  - apply (proj1 (proj2 (proj2 (proj2 parse_string_refuses))));
      [repeat constructor|reflexivity].
Defined.

(** ** The block of a decoded string is large enough *)

Lemma utf8_encode_length cp : (length (utf8_encode cp) <= 4)%nat.
Proof.
  unfold utf8_encode.
  destruct (cp <? 128); [simpl; lia|]. destruct (cp <? 2048); [simpl; lia|].
  destruct (cp <? 65536); simpl; lia.
Qed.

Lemma combine_surrogates_length cp p :
  (length (snd (combine_surrogates cp p)) <= length p)%nat.
Proof.
  unfold combine_surrogates.
  destruct (_ && _); [|cbn [snd]; lia]. destruct (_ && _ && _); [|cbn [snd]; lia].
  destruct (hex_digits 4 (advance 2 p) 0) as [low|]; [|cbn [snd]; lia].
  destruct (_ && _); cbn [snd]; [|lia]. apply advance_length.
Qed.

Lemma unescape_loop_bound fuel : forall p d r,
  unescape_loop fuel p d = Some r -> (length r <= length d + length p)%nat.
Proof.
  induction fuel as [|fuel IH]; intros p d r H.
  - destruct p as [|c p]; [inversion H; subst; simpl; lia|].
    cbn [unescape_loop] in H.
    destruct c as [[] [] [] [] [] [] [] []]; discriminate H.
  - destruct p as [|c p]; [inversion H; subst; simpl; lia|].
    assert (Hplain : unescape_loop fuel p (d ++ [c]) = Some r ->
                     (length r <= length d + length (c :: p))%nat).
    { intros E. apply IH in E. rewrite length_app in E. cbn [length] in *. lia. }
    assert (Hesc : forall b c' p', p = c' :: p' ->
                     unescape_loop fuel p' (d ++ [b]) = Some r ->
                     (length r <= length d + length (c :: p))%nat).
    { intros b c' p' -> E. apply IH in E. rewrite length_app in E.
      cbn [length] in *. lia. }
    destruct (Ascii.eqb_spec c "\") as [->|Hc].
    2:{ apply Hplain. destruct c as [[] [] [] [] [] [] [] []]; try exact H.
        contradiction Hc. reflexivity. }
    cbn [unescape_loop] in H. destruct p as [|c' p']; [discriminate H|].
    destruct (Ascii.eqb_spec c' "u") as [->|Hu].
    + destruct (strlen ("u" :: p') <? 5) eqn:Elen; [discriminate H|].
      destruct (hex_digits 4 p' 0) as [cp|]; [|discriminate H].
      pose proof (combine_surrogates_length cp (advance 4 p')) as Hl.
      destruct (combine_surrogates cp (advance 4 p')) as [cp' p''].
      cbn [snd] in Hl.
      destruct (_ || _); [discriminate H|].
      apply IH in H. rewrite length_app in H.
      pose proof (utf8_encode_length cp').
      assert (length (advance 4 p') = length p' - 4)%nat
        by (unfold advance; apply length_skipn).
      unfold strlen in Elen. cbn [length] in *. lia.
    + destruct c' as [[] [] [] [] [] [] [] []]; try discriminate H;
        try (eapply Hesc; [reflexivity|exact H]).
      contradiction Hu. reflexivity.
Qed.

(** X18. [unescape_string] allocates one byte more than the length of the
    span it decodes. Whenever it succeeds, the block it returns is live and
    has that size, and the decoded text is no longer than the span: the
    text and its terminator lie inside the block. *)
Theorem unescape_string_fits_its_block span h out d h' :
  unescape_string span h = (Some (out, d), h') ->
  out ∈ live h'
  /\ sizes h' !! out = Some (strlen span + 1)
  /\ strlen d + 1 <= strlen span + 1.
Proof.
  unfold unescape_string, malloc. intros H.
  assert (Hfresh : forall h1,
             fst (fresh (strlen span + 1) h1) ∈ live (snd (fresh (strlen span + 1) h1))
             /\ sizes (snd (fresh (strlen span + 1) h1)) !! fst (fresh (strlen span + 1) h1)
                = Some (strlen span + 1)).
  { intros h1. unfold fresh. cbn [fst snd live sizes].
    split; [set_solver|apply lookup_insert_eq]. }
  destruct (next_outcome h) as [o h1].
  destruct (unescape_loop (length span) span []) as [r|] eqn:E.
  2:{ destruct o; [discriminate H| |];
        destruct (fresh (strlen span + 1) h1); discriminate H. }
  apply unescape_loop_bound in E.
  assert (Hlen : strlen r + 1 <= strlen span + 1)
    by (unfold strlen; cbn [length] in E; lia).
  specialize (Hfresh h1).
  destruct o; [discriminate H| |];
    destruct (fresh (strlen span + 1) h1) as [q h2]; cbn [fst snd] in Hfresh;
    inversion H; subst; (split; [apply Hfresh|split; [apply Hfresh|exact Hlen]]).
Qed.

Lemma unescape_string_fits_its_block_witness :
  1%positive ∈ live (snd (unescape_string (lit "a\u00e9\ud83d\ude00") (heap_init [])))
  /\ sizes (snd (unescape_string (lit "a\u00e9\ud83d\ude00") (heap_init []))) !! 1%positive
     = Some (strlen (lit "a\u00e9\ud83d\ude00") + 1)
  /\ strlen ["a"; "195"; "169"; "240"; "159"; "152"; "128"] + 1
     <= strlen (lit "a\u00e9\ud83d\ude00") + 1.
Proof.
  apply (unescape_string_fits_its_block (lit "a\u00e9\ud83d\ude00") (heap_init [])
           1%positive ["a"; "195"; "169"; "240"; "159"; "152"; "128"]
           (snd (unescape_string (lit "a\u00e9\ud83d\ude00") (heap_init [])))).
  vm_compute. reflexivity.
Defined.

(** ** What a decoded tree holds *)

(** X19. Every tree that [rjson_parse] returns, whatever the input and the
    allocator: its flags are 0 or 1; its numbers are finite binary64
    values, never an infinity or a NaN; its strings and the keys of its
    objects are present and hold no NUL byte, so that [strlen] gives their
    whole length. *)
Theorem rjson_parse_builds_well_formed_trees d h t h' :
  rjson_parse d h = (Some t, h') -> well_formed (shape t).
Proof.
  destruct d as [bytes|]; [|discriminate]. apply rjson_parse_well_formed.
Qed.

Lemma rjson_parse_builds_well_formed_trees_witness :
  exists t h',
    rjson_parse (Some (quoted "{'k':[true,'A']}")) (heap_init []) = (Some t, h')
    /\ well_formed (shape t).
Proof.
  eexists _, _. split; [vm_compute; reflexivity|].
  match goal with
  | |- well_formed (shape ?t) =>
      apply (rjson_parse_builds_well_formed_trees
               (Some (quoted "{'k':[true,'A']}")) (heap_init []) t
               (snd (rjson_parse (Some (quoted "{'k':[true,'A']}")) (heap_init []))))
  end.
  vm_compute. reflexivity.
Defined.

(** ** Integers *)

Lemma round_ratio_integer neg n :
  0 < n < 2 ^ 53 ->
  round_ratio neg n 1
  = S754_finite neg (Z.to_pos (n * 2 ^ (52 - Z.log2 n))) (Z.log2 n - 52).
Proof.
  intros Hn.
  assert (HL : 0 <= Z.log2 n < 53).
  { split; [apply Z.log2_nonneg|]. apply Z.log2_lt_pow2; lia. }
  destruct (Z.log2_spec n ltac:(lia)) as [Hlo Hhi].
  remember (Z.log2 n) as L eqn:EL.
  assert (Hp : 0 < 2 ^ (52 - L)) by (apply Z.pow_pos_nonneg; lia).
  assert (Hm : 2 ^ 52 <= n * 2 ^ (52 - L) < 2 ^ 53).
  { replace (2 ^ 52) with (2 ^ L * 2 ^ (52 - L))
      by (rewrite <- Z.pow_add_r by lia; f_equal; lia).
    replace (2 ^ 53) with (2 ^ Z.succ L * 2 ^ (52 - L))
      by (rewrite <- Z.pow_add_r by lia; f_equal; lia).
    split; [apply Z.mul_le_mono_nonneg_r; lia|apply Z.mul_lt_mono_pos_r; lia]. }
  apply round_ratio_normal.
  - rewrite Z2Pos.id by lia. exact Hm.
  - lia.
  - lia.
  - lia.
  - rewrite Z2Pos.id by lia.
    replace (n * 2 ^ 1074 - n * 2 ^ (52 - L) * 2 ^ (L - 52 + 1074) * 1) with 0.
    + simpl Z.abs. rewrite Z.mul_0_r.
      assert (0 < 2 ^ (L - 52 + 1074)) by (apply Z.pow_pos_nonneg; lia). nia.
    + assert (E : 2 ^ (52 - L) * 2 ^ (L - 52 + 1074) = 2 ^ 1074)
        by (rewrite <- Z.pow_add_r by lia; f_equal; lia).
      rewrite Z.mul_1_r, <- Z.mul_assoc, E. lia.
Qed.

Lemma scaled_integer neg n :
  0 <= n < 2 ^ 53 ->
  snd (scaled neg n 10 0) = false
  /\ is_exact (fst (scaled neg n 10 0)) n 1 = true
  /\ sign_bit (fst (scaled neg n 10 0)) = neg
  /\ isfinite (fst (scaled neg n 10 0)) = true.
Proof.
  intros Hn. unfold scaled. change (Z.max 0 0) with 0. change (Z.max 0 (- 0)) with 0.
  change (10 ^ 0) with 1. rewrite Z.mul_1_r. cbn [fst snd].
  destruct (Z.eq_dec n 0) as [->|Hne].
  - repeat split.
  - rewrite round_ratio_integer by lia.
    assert (HL : 0 <= Z.log2 n < 53).
    { split; [apply Z.log2_nonneg|]. apply Z.log2_lt_pow2; lia. }
    destruct (Z.log2_spec n ltac:(lia)) as [Hlo Hhi].
    remember (Z.log2 n) as L eqn:EL.
    assert (Hp : 0 < 2 ^ (52 - L)) by (apply Z.pow_pos_nonneg; lia).
    assert (Hm : 2 ^ 52 <= n * 2 ^ (52 - L)).
    { replace (2 ^ 52) with (2 ^ L * 2 ^ (52 - L))
        by (rewrite <- Z.pow_add_r by lia; f_equal; lia).
      apply Z.mul_le_mono_nonneg_r; lia. }
    assert (Hex : is_exact (S754_finite neg (Z.to_pos (n * 2 ^ (52 - L))) (L - 52)) n 1
                  = true).
    { cbn [is_exact]. rewrite Z2Pos.id by lia.
      replace (Z.max 0 (- (L - 52))) with (52 - L) by lia.
      replace (Z.max 0 (L - 52)) with 0 by lia. change (2 ^ 0) with 1.
      apply Z.eqb_eq. lia. }
    split; [|split; [exact Hex|split; reflexivity]].
    unfold range_error. cbn [isfinite negb orb].
    rewrite (is_tiny_below n 1 ltac:(lia)).
    replace (n * 2 ^ 1076 <? (2 ^ 54 - 1) * 1) with false; [reflexivity|].
    symmetry. apply Z.ltb_ge.
    assert (2 ^ 54 <= 2 ^ 1076) by (apply Z.pow_le_mono_r; lia).
    assert (0 < 2 ^ 54) by (apply Z.pow_pos_nonneg; lia). nia.
Qed.

(** X20. Integers are read exactly: a text of decimal digits without a
    leading zero, with or without a minus sign, whose value is below 2^53
    is decoded, when no allocation is refused, as the Number that has
    exactly this value and the sign of the text; [-0] is the negative
    zero. *)
Theorem rjson_parse_reads_integers_exactly (neg : bool) i h :
  int_part i -> number_of 10 i < 2 ^ 53 -> granted h ->
  exists p x h',
    rjson_parse (Some ((if neg then ["-"] else []) ++ i)) h = (Some (V_NUMBER p x), h')
    /\ is_exact x (number_of 10 i) 1 = true
    /\ sign_bit x = neg
    /\ isfinite x = true.
Proof.
  intros Hi Hn Hg.
  assert (Htok : number_token ((if neg then ["-"] else []) ++ i)).
  { exists (if neg then ["-"] else []), i, [], [].
    rewrite !app_nil_r. split; [reflexivity|].
    split; [destruct neg; [right|left]; reflexivity|].
    split; [exact Hi|]. split; left; reflexivity. }
  pose proof (strtod_value neg i [] [] Hi ltac:(left; reflexivity)
                ltac:(left; reflexivity)) as Hv.
  rewrite !app_nil_r in Hv. cbn [tl length exp_value] in Hv.
  change (0 - Z.of_nat 0) with 0 in Hv.
  destruct (int_part_digits i Hi) as [Hds _].
  pose proof (number_of_bound i Hds) as [Hn0 _].
  destruct (scaled_integer neg (number_of 10 i) ltac:(lia)) as (He & Hx & Hs & Hf).
  destruct (parse_number_token _ [] h Htok eq_refl Hg) as (_ & _ & Hok).
  rewrite app_nil_r in Hok.
  rewrite (rjson_parse_number_token _ h Htok).
  rewrite Hv in Hok. cbn [fst snd] in Hok.
  destruct Hok as (p & h' & -> & _); [rewrite He, Hf; reflexivity|].
  exists p, (fst (scaled neg (number_of 10 i) 10 0)), h'.
  split; [reflexivity|]. repeat split; assumption.
Qed.

Lemma rjson_parse_reads_integers_exactly_witness :
  exists p x h',
    rjson_parse (Some ((if true then ["-"] else []) ++ lit "9007199254740991"))
      (heap_init [])
    = (Some (V_NUMBER p x), h')
    /\ is_exact x (number_of 10 (lit "9007199254740991")) 1 = true
    /\ sign_bit x = true
    /\ isfinite x = true.
Proof.
  apply (rjson_parse_reads_integers_exactly true (lit "9007199254740991") (heap_init [])).
  - right. exists "9", (lit "007199254740991"). split; [reflexivity|].
    split; [reflexivity|]. split; [discriminate|]. repeat constructor.
  - vm_compute. reflexivity.
  - constructor.
Defined.

(** ** Printing *)

Lemma indented_app pad a b : indented pad (a ++ b) = indented pad a ++ indented pad b.
Proof.
  induction a as [|c a IH]; [reflexivity|]. cbn [app indented].
  destruct (Ascii.eqb c "010"); cbn [app]; rewrite IH, <- ?app_assoc; reflexivity.
Qed.

Lemma indented_one_line pad s : "010" ∉ s -> indented pad s = s.
Proof.
  induction s as [|c s IH]; intros H; [reflexivity|]. cbn [indented].
  destruct (Ascii.eqb_spec c "010") as [->|_].
  - contradiction H. left.
  - rewrite IH; [reflexivity|]. intros Hin. apply H. right. exact Hin.
Qed.

Lemma print_indent_add a b :
  0 <= a -> 0 <= b -> print_indent (a + b) = print_indent a ++ print_indent b.
Proof.
  intros Ha Hb. unfold print_indent. rewrite Z2Nat.inj_add by lia.
  rewrite repeat_app, concat_app. reflexivity.
Qed.

Lemma print_indent_one_line n : "010" ∉ print_indent n.
Proof.
  unfold print_indent. induction (Z.to_nat n) as [|k IH]; cbn [repeat concat].
  - apply not_elem_of_nil.
  - intros H. apply elem_of_app in H as [H|H]; [|exact (IH H)].
    simpl in H. apply elem_of_cons in H as [H|H]; [discriminate H|].
    apply elem_of_cons in H as [H|H]; [discriminate H|]. inversion H.
Qed.

Lemma print_indent_comm a b :
  print_indent a ++ print_indent b = print_indent b ++ print_indent a.
Proof.
  unfold print_indent. rewrite <- !concat_app, <- !repeat_app.
  rewrite Nat.add_comm. reflexivity.
Qed.

Lemma format_g_bytes (Q : byte -> Prop) P num den :
  (forall c, isdigit c = true -> Q c) -> Q "." -> Q "e" -> Q "-" -> Q "+" ->
  Forall Q (format_g P "." num den).
Proof.
  intros Hd Hp He Hm Hpl. unfold format_g.
  destruct (sig_digits P num den) as [n x].
  assert (Hds : Forall Q (digits_of (Z.to_nat P) n []))
    by (apply digits_of_bytes; [exact Hd|constructor]).
  destruct (_ || _).
  - apply Forall_app. split.
    + apply with_fraction_bytes; [exact Hp|apply Forall_take, Hds|apply Forall_drop, Hds].
    + constructor; [exact He|].
      constructor; [destruct (x <? 0); assumption|apply decimal_bytes, Hd].
  - destruct (x <? 0).
    + apply with_fraction_bytes; [exact Hp|repeat constructor; apply Hd; reflexivity|].
      apply Forall_app. split; [|exact Hds].
      apply Forall_forall. intros c Hc. apply list_elem_of_In, repeat_spec in Hc.
      subst. apply Hd. reflexivity.
    + apply with_fraction_bytes; [exact Hp|apply Forall_take, Hds|apply Forall_drop, Hds].
Qed.

Lemma printf_g_one_line P x : "010" ∉ printf_g P "." x.
Proof.
  assert (H : Forall (fun c => c <> "010") (printf_g P "." x)).
  { destruct x as [s|s| |s m e]; cbn [printf_g].
    - destruct s; repeat constructor; discriminate.
    - destruct s; repeat constructor; discriminate.
    - repeat constructor; discriminate.
    - apply Forall_app. split; [destruct s; repeat constructor; discriminate|].
      apply format_g_bytes; try discriminate.
      intros c Hc ->. discriminate Hc. }
  intros Hin. rewrite Forall_forall in H. exact (H _ Hin eq_refl).
Qed.

Lemma elements_induction (Q : list rjson_value -> Prop) :
  Q [] -> (forall e l, Q l -> Q (e :: l)) -> forall l, Q l.
Proof. intros H0 HS l. induction l; [exact H0|apply HS; assumption]. Qed.

(** X21. [rjson_print] lays a tree out with two spaces for each level: for
    a tree whose strings and keys hold no line feed, the text printed at
    the level [indent + k] is the text printed at the level [indent] with
    [k] times two spaces written behind every line feed ([0 <= indent],
    [0 <= k]). Strings and keys are written as they are, without escapes,
    which is why a line feed inside one breaks the layout. *)
Theorem rjson_print_indents_by_level v :
  forall indent k,
    0 <= indent -> 0 <= k -> one_line_strings v ->
    rjson_print (Some v) (indent + k)
    = indented (print_indent k) (rjson_print (Some v) indent).
Proof.
  unfold rjson_print, rjson_print_internal.
  induction v as [p|p b|p x|p s|p elements elems IH|p keys values members IH]
    using rjson_value_induction; intros indent k Hi Hk Hone; cbn [print_value].
  - reflexivity.
  - destruct (negb (b =? 0)); reflexivity.
  - symmetry. apply indented_one_line, printf_g_one_line.
  - destruct Hone as (a & s' & -> & Hs). cbn [option_map snd printf_s].
    symmetry. apply indented_one_line.
    intros Hin. apply elem_of_cons in Hin as [Hin|Hin]; [discriminate Hin|].
    apply elem_of_app in Hin as [Hin|Hin]; [exact (Hs Hin)|].
    apply elem_of_cons in Hin as [Hin|Hin]; [discriminate Hin|inversion Hin].
  - cbn [one_line_strings] in Hone. rewrite fold_and_Forall in Hone.
    cbn [indented]. change (Ascii.eqb "[" "010") with false.
    change (Ascii.eqb "010" "010") with true. cbv iota.
    f_equal. f_equal. rewrite !indented_app.
    rewrite (indented_one_line _ (print_indent indent))
      by apply print_indent_one_line.
    change (indented (print_indent k) ["]"]) with ["]"].
    rewrite (Z.add_comm indent k), (print_indent_add k indent) by lia.
    rewrite <- (Z.add_comm indent k).
    assert (Hl : forall tail,
               print_elements (fun e => print_value e (indent + k + 1)) (indent + k) elems
                 ++ print_indent k ++ tail
               = print_indent k
                   ++ indented (print_indent k)
                        (print_elements (fun e => print_value e (indent + 1)) indent elems)
                   ++ tail).
    { induction elems as [|e elems IHl]; intros tail; cbn [print_elements].
      - reflexivity.
      - inversion IH as [|? ? IHe IHrest]; subst.
        inversion Hone as [|? ? Hone_e Hone_rest]; subst.
        rewrite !indented_app.
        rewrite (indented_one_line _ (print_indent (indent + 1)))
          by apply print_indent_one_line.
        replace (indent + k + 1) with (indent + 1 + k) by lia.
        rewrite (IHe (indent + 1) k ltac:(lia) Hk Hone_e).
        replace (indent + 1 + k) with (k + (indent + 1)) at 1 by lia.
        rewrite (print_indent_add k (indent + 1)) by lia.
        replace (indent + 1 + k) with (indent + k + 1) by lia.
        rewrite <- !app_assoc. f_equal. f_equal. f_equal.
        replace (indented (print_indent k)
                   match elems with [] => [] | _ :: _ => [","] end)
          with (match elems with [] => [] | _ :: _ => [","] end)
          by (destruct elems; reflexivity).
        f_equal.
        change (indented (print_indent k) ["010"]) with ("010" :: print_indent k ++ []).
        rewrite app_nil_r. cbn [app]. f_equal.
        specialize (IHl IHrest Hone_rest tail).
        rewrite IHl. reflexivity. }
    rewrite <- !app_assoc. rewrite Hl. reflexivity.
  - cbn [one_line_strings] in Hone.
    rewrite (fold_and_Forall
               (fun m => ("010" ∉ snd (fst m)) /\ one_line_strings (snd m))) in Hone.
    cbn [indented]. change (Ascii.eqb "{" "010") with false.
    change (Ascii.eqb "010" "010") with true. cbv iota.
    f_equal. f_equal. rewrite !indented_app.
    rewrite (indented_one_line _ (print_indent indent))
      by apply print_indent_one_line.
    change (indented (print_indent k) ["}"]) with ["}"].
    rewrite (Z.add_comm indent k), (print_indent_add k indent) by lia.
    rewrite <- (Z.add_comm indent k).
    assert (Hl : forall tail,
               print_members (fun e => print_value e (indent + k + 1)) (indent + k) members
                 ++ print_indent k ++ tail
               = print_indent k
                   ++ indented (print_indent k)
                        (print_members (fun e => print_value e (indent + 1)) indent members)
                   ++ tail).
    { induction members as [|m members IHl]; intros tail; cbn [print_members].
      - reflexivity.
      - inversion IH as [|? ? IHe IHrest]; subst.
        inversion Hone as [|? ? [Hkey Hone_e] Hone_rest]; subst.
        rewrite !indented_app.
        rewrite (indented_one_line _ (print_indent (indent + 1)))
          by apply print_indent_one_line.
        rewrite (indented_one_line _ ("034" :: _ ++ "034" :: lit ": ")).
        2:{ cbn [printf_s]. intros Hin.
            apply elem_of_cons in Hin as [Hin|Hin]; [discriminate Hin|].
            apply elem_of_app in Hin as [Hin|Hin]; [exact (Hkey Hin)|].
            repeat (apply elem_of_cons in Hin as [Hin|Hin]; [discriminate Hin|]).
            inversion Hin. }
        replace (indent + k + 1) with (indent + 1 + k) by lia.
        rewrite (IHe (indent + 1) k ltac:(lia) Hk Hone_e).
        replace (indent + 1 + k) with (k + (indent + 1)) at 1 by lia.
        rewrite (print_indent_add k (indent + 1)) by lia.
        replace (indent + 1 + k) with (indent + k + 1) by lia.
        rewrite <- !app_assoc. f_equal. f_equal. f_equal. f_equal.
        replace (indented (print_indent k)
                   match members with [] => [] | _ :: _ => [","] end)
          with (match members with [] => [] | _ :: _ => [","] end)
          by (destruct members; reflexivity).
        f_equal.
        change (indented (print_indent k) ["010"]) with ("010" :: print_indent k ++ []).
        rewrite app_nil_r. cbn [app]. f_equal.
        specialize (IHl IHrest Hone_rest tail).
        rewrite IHl. reflexivity. }
    rewrite <- !app_assoc. rewrite Hl. reflexivity.
Qed.

Lemma rjson_print_indents_by_level_witness :
  rjson_print
    (Some (V_OBJECT 1%positive None None
             [(2%positive, lit "k",
               V_ARRAY 3%positive None
                 [V_NUMBER 4%positive (S754_finite false 3 (-1));
                  V_STRING 5%positive (Some (6%positive, lit "a"))])]))
    (0 + 2)
  = indented (print_indent 2)
      (lit "{" ++ ["010"] ++ lit "  " ++ quoted "'k': [" ++ ["010"]
         ++ lit "    1.5," ++ ["010"] ++ lit "    " ++ quoted "'a'" ++ ["010"]
         ++ lit "  ]" ++ ["010"] ++ lit "}").
Proof.
  apply (rjson_print_indents_by_level
           (V_OBJECT 1%positive None None
              [(2%positive, lit "k",
                V_ARRAY 3%positive None
                  [V_NUMBER 4%positive (S754_finite false 3 (-1));
                   V_STRING 5%positive (Some (6%positive, lit "a"))])]) 0 2);
    [lia|lia|].
  cbn [one_line_strings fold_right fst snd].
  repeat split; try (vm_compute; set_solver).
  eexists _, _. split; [reflexivity|]. vm_compute. set_solver.
Defined.

(** ** Members added and looked up *)

Lemma get_value_loop_app members m key :
  get_value_loop (members ++ [m]) key
  = match get_value_loop members key with
    | Some old => Some old
    | None => if streq (key_of m) key then Some (snd m) else None
    end.
Proof.
  induction members as [|[[a k] v] members IH]; cbn [app get_value_loop].
  - destruct m as [[a k] v]. reflexivity.
  - destruct (streq k key); [reflexivity|exact IH].
Qed.

(** X22. A member added by [rjson_object_add] is found by
    [rjson_object_get_value] under its key only if the object held no
    member with this key before: the lookup returns the first match, so the
    value of a key that is added a second time is kept in the object but is
    never returned. The lookup of every other key is unchanged. *)
Theorem rjson_object_add_then_get object k v h object' h' :
  rjson_object_add object (Some k) (Some v) h = (0, object', h') ->
  forall key,
    rjson_object_get_value object' (Some key)
    = match rjson_object_get_value object (Some key) with
      | Some old => Some old
      | None => if streq k key then Some v else None
      end.
Proof.
  intros E key. apply rjson_object_add_result in E.
  destruct E as [(Hret & _)|(p & keys & values & nk & nv & a & members & k' & v'
                              & _ & -> & Hk & Hv & ->)]; [discriminate Hret|].
  inversion Hk; subst. inversion Hv; subst.
  cbn [rjson_object_get_value]. apply get_value_loop_app.
Qed.

Lemma rjson_object_add_then_get_witness :
  rjson_object_get_value
    (snd (fst (rjson_object_add
                 (Some (V_OBJECT 1%positive None None
                          [(2%positive, lit "a", V_BOOL 3%positive 1)]))
                 (Some (lit "a")) (Some (V_BOOL 4%positive 0)) (heap_init []))))
    (Some (lit "a"))
  = Some (V_BOOL 3%positive 1).
Proof.
  apply (rjson_object_add_then_get
           (Some (V_OBJECT 1%positive None None
                    [(2%positive, lit "a", V_BOOL 3%positive 1)]))
           (lit "a") (V_BOOL 4%positive 0) (heap_init []) _
           (snd (rjson_object_add
                   (Some (V_OBJECT 1%positive None None
                            [(2%positive, lit "a", V_BOOL 3%positive 1)]))
                   (Some (lit "a")) (Some (V_BOOL 4%positive 0)) (heap_init [])))).
  vm_compute. reflexivity.
Defined.

(** ** The documents that are one scalar *)

Lemma skip_whitespace_split json :
  exists ws, json = ws ++ skip_whitespace json /\ Forall (fun c => is_space c = true) ws.
Proof.
  induction json as [|c json (ws & E & Hws)]; [exists []; split; [reflexivity|constructor]|].
  cbn [skip_whitespace]. fold (is_space c).
  destruct (is_space c) eqn:Hc.
  - exists (c :: ws). split; [cbn [app]; f_equal; exact E|constructor; assumption].
  - exists []. split; [reflexivity|constructor].
Qed.

Lemma skip_whitespace_end json :
  no_nul json -> Ascii.eqb (peek (skip_whitespace json)) NUL = true ->
  Forall (fun c => is_space c = true) json.
Proof.
  intros Hn He. destruct (skip_whitespace_split json) as (ws & E & Hws).
  pose proof (skip_whitespace_no_nul json Hn) as Hs.
  destruct (skip_whitespace json) as [|c j].
  - rewrite app_nil_r in E. rewrite E. exact Hws.
  - cbn [peek] in He. apply Ascii.eqb_eq in He. inversion Hs; subst. contradiction.
Qed.

Lemma behind_BOM_no_nul bytes : no_nul (behind_BOM bytes).
Proof.
  unfold behind_BOM. destruct (starts_with BOM (c_str bytes)).
  - apply advance_no_nul, c_str_no_nul.
  - apply c_str_no_nul.
Qed.

Section Kinds.

Variable rec : Z -> c_string -> heap -> parsed.

Lemma parse_array_loop_kind fuel : forall depth arr json h v json' h',
  option_map type_of arr = Some RJSON_ARRAY ->
  parse_array_loop rec fuel depth arr json h = (Some (v, json'), h') ->
  type_of v = RJSON_ARRAY.
Proof.
  induction fuel as [|fuel IH]; intros depth arr json h v json' h' Ha H;
    [discriminate H|].
  cbn [parse_array_loop] in H.
  destruct (rec (depth + 1) json h) as [[[element json1]|] h1]; [|discriminate H].
  destruct (rjson_array_add arr (Some element) h1) as [[ret arr1] h2] eqn:Eadd.
  assert (Ha1 : option_map type_of arr1 = Some RJSON_ARRAY).
  { apply rjson_array_add_result in Eadd.
    destruct Eadd as [(_ & ->)|(p & el & q & elems & e & _ & _ & _ & ->)];
      [exact Ha|reflexivity]. }
  destruct (negb (ret =? 0)); [discriminate H|].
  destruct (Ascii.eqb (peek (skip_whitespace json1)) "]").
  { destruct arr1 as [a|]; [|discriminate H]. inversion H; subst.
    cbn [option_map] in Ha1. congruence. }
  destruct (negb _); [discriminate H|]. eapply IH; eassumption.
Qed.

Lemma parse_array_kind json depth h v json' h' :
  parse_array rec json depth h = (Some (v, json'), h') -> type_of v = RJSON_ARRAY.
Proof.
  unfold parse_array. destruct (depth >=? RJSON_MAX_DEPTH); [discriminate|].
  unfold rjson_array_new, create_value.
  destruct (calloc 1 sizeof_rjson_value h) as [[p|] h1]; [|discriminate].
  cbn [zeroed]. destruct (Ascii.eqb _ "]").
  - intros H. inversion H; subst. reflexivity.
  - apply parse_array_loop_kind. reflexivity.
Qed.

Lemma parse_object_loop_kind fuel : forall depth obj json h v json' h',
  option_map type_of obj = Some RJSON_OBJECT ->
  parse_object_loop rec fuel depth obj json h = (Some (v, json'), h') ->
  type_of v = RJSON_OBJECT.
Proof.
  induction fuel as [|fuel IH]; intros depth obj json h v json' h' Ha H;
    [discriminate H|].
  cbn [parse_object_loop] in H.
  destruct (negb _); [discriminate H|].
  destruct (parse_string (skip_whitespace json) h) as [[[key_val json1]|] h1];
    [|discriminate H].
  destruct (negb _); [discriminate H|].
  destruct (rec (depth + 1) (advance 1 (skip_whitespace json1)) h1)
    as [[[val json2]|] h2]; [|discriminate H].
  match type of H with
  | context [rjson_object_add obj ?k (Some val) h2] =>
      destruct (rjson_object_add obj k (Some val) h2) as [[ret obj1] h3] eqn:Eadd
  end.
  assert (Ha1 : option_map type_of obj1 = Some RJSON_OBJECT).
  { apply rjson_object_add_result in Eadd.
    destruct Eadd as [(_ & _ & E)|(p & ks & vs & nk & nv & a & ms & k' & v' & _ & _ & _ & _ & ->)];
      [congruence|reflexivity]. }
  destruct (negb (ret =? 0)); [discriminate H|].
  match type of H with
  | context [Ascii.eqb (peek (skip_whitespace json2)) "}"] =>
      destruct (Ascii.eqb (peek (skip_whitespace json2)) "}")
  end.
  { destruct obj1 as [a|]; [|discriminate H]. inversion H; subst.
    cbn [option_map] in Ha1. congruence. }
  destruct (negb _); [discriminate H|]. eapply IH; eassumption.
Qed.

Lemma parse_object_kind json depth h v json' h' :
  parse_object rec json depth h = (Some (v, json'), h') -> type_of v = RJSON_OBJECT.
Proof.
  unfold parse_object. destruct (depth >=? RJSON_MAX_DEPTH); [discriminate|].
  unfold rjson_object_new, create_value.
  destruct (calloc 1 sizeof_rjson_value h) as [[p|] h1]; [|discriminate].
  cbn [zeroed]. destruct (Ascii.eqb _ "}").
  - intros H. inversion H; subst. reflexivity.
  - apply parse_object_loop_kind. reflexivity.
Qed.

End Kinds.

Lemma parse_string_kind json h v json' h' :
  parse_string json h = (Some (v, json'), h') -> type_of v = RJSON_STRING.
Proof.
  unfold parse_string. destruct (scan_string _) as [j|]; [|discriminate].
  destruct (negb _); [discriminate|].
  destruct (unescape_string _ h) as [[s|] h1]; [|discriminate].
  unfold create_value. destruct (calloc _ _ h1) as [[p|] h2]; [|discriminate].
  intros H. inversion H; subst. reflexivity.
Qed.

Lemma parse_number_kind json h v json' h' :
  parse_number json h = (Some (v, json'), h') -> type_of v = RJSON_NUMBER.
Proof.
  intros H. destruct (parse_number_finite _ _ _ _ _ H) as (p & x & -> & _).
  reflexivity.
Qed.

Lemma parse_literal_result json h v json' h' :
  parse_literal json h = (Some (v, json'), h') ->
  exists p,
    (v = V_BOOL p 1 /\ json = lit "true" ++ json')
    \/ (v = V_BOOL p 0 /\ json = lit "false" ++ json')
    \/ (v = V_NULL p /\ json = lit "null" ++ json').
Proof.
  assert (Hsw : forall w j, starts_with w j = true ->
                            j = w ++ advance (length w) j).
  { induction w as [|a w IH]; intros j Hj; [reflexivity|].
    destruct j as [|b j]; [discriminate Hj|]. cbn [starts_with] in Hj.
    apply andb_true_iff in Hj as [Hab Hj]. apply Ascii.eqb_eq in Hab. subst b.
    cbn [app length]. change (advance (S (length w)) (a :: j)) with (advance (length w) j).
    f_equal. apply IH, Hj. }
  unfold parse_literal, create_value. intros H.
  destruct (starts_with (lit "true") json) eqn:E1.
  { destruct (calloc _ _ h) as [[p|] h1]; [|discriminate H]. inversion H; subst.
    exists p. left. split; [reflexivity|exact (Hsw _ _ E1)]. }
  destruct (starts_with (lit "false") json) eqn:E2.
  { destruct (calloc _ _ h) as [[p|] h1]; [|discriminate H]. inversion H; subst.
    exists p. right. left. split; [reflexivity|exact (Hsw _ _ E2)]. }
  destruct (starts_with (lit "null") json) eqn:E3; [|discriminate H].
  destruct (calloc _ _ h) as [[p|] h1]; [|discriminate H]. inversion H; subst.
  exists p. right. right. split; [reflexivity|exact (Hsw _ _ E3)].
Qed.

(** The parser that [parse_value] calls, by the variant of the result. *)
Lemma parse_value_body_cases rec json depth h v json' h' :
  parse_value_body rec json depth h = (Some (v, json'), h') ->
  match type_of v with
  | RJSON_NUMBER => parse_number (skip_whitespace json) h = (Some (v, json'), h')
  | RJSON_NULL | RJSON_BOOL => parse_literal (skip_whitespace json) h = (Some (v, json'), h')
  | _ => True
  end.
Proof.
  unfold parse_value_body. intros H.
  pose proof (parse_string_kind (skip_whitespace json) h v json' h') as Hstr.
  pose proof (parse_number_kind (skip_whitespace json) h v json' h') as Hnum.
  pose proof (parse_array_kind rec (skip_whitespace json) depth h v json' h') as Harr.
  pose proof (parse_object_kind rec (skip_whitespace json) depth h v json' h') as Hobj.
  assert (Hlit : parse_literal (skip_whitespace json) h = (Some (v, json'), h') ->
                 match type_of v with
                 | RJSON_NUMBER =>
                     parse_number (skip_whitespace json) h = (Some (v, json'), h')
                 | RJSON_NULL | RJSON_BOOL =>
                     parse_literal (skip_whitespace json) h = (Some (v, json'), h')
                 | _ => True
                 end).
  { intros E. destruct (parse_literal_result _ _ _ _ _ E) as (p & [[-> _]|[[-> _]|[-> _]]]);
      exact E. }
  destruct (peek (skip_whitespace json)) as [[] [] [] [] [] [] [] []];
    cbv iota in H; try discriminate H;
    first [ rewrite (Hstr H); exact I | rewrite (Harr H); exact I
          | rewrite (Hobj H); exact I | exact (Hlit H)
          | (match type of H with
             | (if ?c then _ else _) = _ =>
                 destruct c; [rewrite (Hnum H); exact H|discriminate H]
             end) ].
Qed.

(** X23. The documents that [rjson_parse] accepts as one number or one
    literal. If the result is a Number, the text behind the byte order
    mark is a number of the grammar [-? int frac? exp?] between white
    space, the value is the one [strtod] gives for this token, without a
    range error, and it is finite: no hexadecimal number, no [inf] or
    [nan], no leading [+] and no leading zero is ever accepted. If the
    result is a Bool or a Null, the text is [true], [false] or [null]
    between white space, and the flag is 1 for [true] and 0 for [false]. *)
Theorem rjson_parse_scalar_documents bytes h v h' :
  rjson_parse (Some bytes) h = (Some v, h') ->
  match v with
  | V_NUMBER _ x =>
      exists ws1 tok ws2,
        behind_BOM bytes = ws1 ++ tok ++ ws2
        /\ Forall (fun c => is_space c = true) ws1
        /\ Forall (fun c => is_space c = true) ws2
        /\ number_token tok /\ strtod tok = (x, [], false) /\ isfinite x = true
  | V_BOOL _ b =>
      exists ws1 ws2,
        behind_BOM bytes = ws1 ++ (if b =? 0 then lit "false" else lit "true") ++ ws2
        /\ Forall (fun c => is_space c = true) ws1
        /\ Forall (fun c => is_space c = true) ws2
        /\ (b = 0 \/ b = 1)
  | V_NULL _ =>
      exists ws1 ws2,
        behind_BOM bytes = ws1 ++ lit "null" ++ ws2
        /\ Forall (fun c => is_space c = true) ws1
        /\ Forall (fun c => is_space c = true) ws2
  | _ => True
  end.
Proof.
  unfold rjson_parse. fold (behind_BOM bytes).
  pose proof (behind_BOM_no_nul bytes) as Hn.
  remember (behind_BOM bytes) as text eqn:Etext. clear Etext.
  unfold parse_value. change (Z.to_nat (RJSON_MAX_DEPTH + 1 - 0)) with 513%nat.
  cbn [parse_value_at].
  destruct (parse_value_body _ text 0 h) as [[[result pos]|] h1] eqn:E; [|discriminate].
  destruct (negb (Ascii.eqb (peek (skip_whitespace pos)) NUL)) eqn:Eend; [discriminate|].
  apply negb_false_iff in Eend.
  intros H. inversion H; subst. clear H.
  apply parse_value_body_cases in E.
  destruct (skip_whitespace_split text) as (ws1 & Etext & Hws1).
  pose proof (skip_whitespace_no_nul text Hn) as Hn1.
  remember (skip_whitespace text) as json eqn:Ejson. clear Ejson.
  destruct v as [p|p b|p x|p s|p el elems|p ks vs ms]; cbn [type_of] in E; try exact I.
  - destruct (parse_literal_result _ _ _ _ _ E) as (q & [[Hv _]|[[Hv _]|[Hv Ej]]]);
      try discriminate Hv.
    exists ws1, pos. rewrite Etext, Ej. split; [reflexivity|]. split; [exact Hws1|].
    apply skip_whitespace_end; [|exact Eend].
    rewrite Ej in Hn1. apply Forall_app in Hn1. apply Hn1.
  - destruct (parse_literal_result _ _ _ _ _ E) as (q & [[Hv Ej]|[[Hv Ej]|[Hv _]]]);
      try discriminate Hv; injection Hv as _ ->;
      (exists ws1, pos; rewrite Etext, Ej; split; [reflexivity|]; split; [exact Hws1|];
       split; [|tauto];
       apply skip_whitespace_end; [|exact Eend];
       rewrite Ej in Hn1; apply Forall_app in Hn1; apply Hn1).
  - pose proof (parse_number_finite _ _ _ _ _ E) as (q & y & Hv & Hfin & _).
    inversion Hv; subst y. clear Hv.
    unfold parse_number in E.
    destruct (scan_number json) as [j|] eqn:Escan; [|discriminate E].
    destruct (scan_number_sound json j Escan)
      as (neg & i & f & e & Ej & Hi & Hf & He & Hd & He0 & Hp).
    assert (Htok : number_token ((if neg then ["-"] else []) ++ i ++ f ++ e)).
    { exists (if neg then ["-"] else []), i, f, e. split; [reflexivity|].
      split; [destruct neg; [right|left]; reflexivity|]. repeat split; assumption. }
    assert (Hpos : j = pos).
    { destruct (strtod json) as [[num end_] erange].
      destruct (erange || negb (isfinite num)); [discriminate E|].
      destruct (negb (same_position end_ j)).
      - destruct (malloc _ h) as [[t|] h2]; [|discriminate E].
        destruct (strtod (firstn _ json)) as [[num' end'] er'].
        destruct (negb _); [discriminate E|].
        unfold create_value in E. destruct (calloc _ _ _) as [[q'|] h3]; [|discriminate E].
        inversion E; reflexivity.
      - unfold create_value in E. destruct (calloc _ _ _) as [[q'|] h3]; [|discriminate E].
        inversion E; reflexivity. }
    subst j.
    assert (Hws2 : Forall (fun c => is_space c = true) pos).
    { apply skip_whitespace_end; [|exact Eend].
      rewrite Ej in Hn1. repeat (apply Forall_app in Hn1 as [_ Hn1]). exact Hn1. }
    assert (Hend : ends_number pos = true).
    { destruct Hws2 as [|c pos Hc _]; [reflexivity|].
      unfold ends_number. cbn [peek]. unfold is_space in Hc.
      destruct c as [[] [] [] [] [] [] [] []]; try discriminate Hc; reflexivity. }
    destruct (parse_number_token _ pos (heap_init []) Htok Hend ltac:(constructor))
      as (Hstr & _ & _).
    assert (Ejson : json = ((if neg then ["-"] else []) ++ i ++ f ++ e) ++ pos)
      by (rewrite Ej, <- !app_assoc; reflexivity).
    rewrite Ejson in E. rewrite Hstr in E.
    destruct (snd (strtod _) || negb (isfinite (fst (fst (strtod _))))) eqn:Hchk;
      [discriminate E|].
    apply orb_false_iff in Hchk as [Herr _].
    unfold same_position in E. rewrite Nat.eqb_refl in E. cbn [negb] in E.
    unfold create_value in E. destruct (calloc _ _ _) as [[q'|] h3]; [|discriminate E].
    cbn [zeroed] in E.
    assert (Hx : fst (fst (strtod ((if neg then ["-"] else []) ++ i ++ f ++ e))) = x)
      by congruence.
    exists ws1, ((if neg then ["-"] else []) ++ i ++ f ++ e), pos.
    split; [rewrite Etext, Ejson, <- !app_assoc; reflexivity|].
    split; [exact Hws1|]. split; [exact Hws2|]. split; [exact Htok|].
    split; [|exact Hfin].
    destruct (strtod_token _ Htok) as (num & err & Hall).
    pose proof (Hall [] eq_refl) as H1. pose proof (Hall pos Hend) as H2.
    rewrite app_nil_r in H1. rewrite H1 in *. cbn [fst snd] in *.
    rewrite Hstr in H2. congruence.
Qed.

Lemma rjson_parse_scalar_documents_witness :
  exists x ws1 tok ws2,
    behind_BOM (BOM ++ lit " -12.5e3  ") = ws1 ++ tok ++ ws2
    /\ Forall (fun c => is_space c = true) ws1
    /\ Forall (fun c => is_space c = true) ws2
    /\ number_token tok /\ strtod tok = (x, [], false) /\ isfinite x = true.
Proof.
  eexists.
  apply (rjson_parse_scalar_documents (BOM ++ lit " -12.5e3  ") (heap_init [])
           (V_NUMBER 1%positive _)
           (snd (rjson_parse (Some (BOM ++ lit " -12.5e3  ")) (heap_init [])))).
  vm_compute. reflexivity.
Defined.

(** ** The escapes [\uXXXX] and UTF-8 *)

(** X24. The bytes that [unescape_string] writes for a code point are its
    UTF-8 encoding: for every code point below 110000 the shifts, masks
    and casts of the C code give the bytes of the table of RFC 3629, each
    of them a value below 256, and two code points with the same bytes are
    the same code point. *)
Theorem utf8_encode_is_utf8 :
  (forall cp, 0 <= cp < 0x110000 -> map code (utf8_encode cp) = utf8_bytes cp)
  /\ (forall cp1 cp2,
         0 <= cp1 < 0x110000 -> 0 <= cp2 < 0x110000 ->
         utf8_encode cp1 = utf8_encode cp2 -> cp1 = cp2).
Proof.
  pose proof utf8_encode_table as Hbytes.
  split; [exact Hbytes|].
  set (dec := fun bs : list Z =>
                match bs with
                | [a] => a
                | [a; b] => (a - 192) * 64 + (b - 128)
                | [a; b; c] => ((a - 224) * 64 + (b - 128)) * 64 + (c - 128)
                | [a; b; c; d] =>
                    (((a - 240) * 64 + (b - 128)) * 64 + (c - 128)) * 64 + (d - 128)
                | _ => 0
                end).
  assert (Hdec : forall cp, dec (utf8_bytes cp) = cp).
  { intros cp. unfold utf8_bytes.
    pose proof (Z.div_mod cp 64 ltac:(lia)) as E1.
    pose proof (Z.div_mod (cp / 64) 64 ltac:(lia)) as E2.
    pose proof (Z.div_mod (cp / 64 / 64) 64 ltac:(lia)) as E3.
    assert (D1 : cp / 4096 = cp / 64 / 64) by (rewrite Z.div_div by lia; reflexivity).
    assert (D2 : cp / 262144 = cp / 64 / 64 / 64)
      by (rewrite !Z.div_div by lia; reflexivity).
    rewrite D1, D2.
    generalize dependent (cp / 64 / 64 / 64). intros q3.
    generalize dependent (cp / 64 / 64 mod 64). intros r2.
    generalize dependent (cp / 64 / 64). intros q2.
    generalize dependent (cp / 64 mod 64). intros r1.
    generalize dependent (cp / 64). intros q1.
    generalize dependent (cp mod 64). intros r0.
    intros. destruct (cp <? 128); [reflexivity|].
    destruct (cp <? 2048); [cbn [dec]; lia|].
    destruct (cp <? 65536); cbn [dec]; lia. }
  intros cp1 cp2 H1 H2 E. apply (f_equal (map code)) in E.
  rewrite !Hbytes in E by assumption.
  rewrite <- (Hdec cp1), <- (Hdec cp2), E. reflexivity.
Qed.

Lemma utf8_encode_is_utf8_witness :
  map code (utf8_encode 0x20AC) = utf8_bytes 0x20AC
  /\ map code (utf8_encode 0x1F600) = [0xF0; 0x9F; 0x98; 0x80].
Proof.
  split.
  - apply (proj1 utf8_encode_is_utf8). lia.
  - rewrite (proj1 utf8_encode_is_utf8) by lia. reflexivity.
Defined.

Lemma isxdigit_plain c : isxdigit c = true -> plain c = true.
Proof. destruct c as [[] [] [] [] [] [] [] []]; intros H; try discriminate H; reflexivity. Qed.

Lemma unescape_loop_u fuel p' d :
  unescape_loop (S fuel) ("\" :: "u" :: p') d
  = if strlen ("u" :: p') <? 5 then None
    else
      match hex_digits 4 p' 0 with
      | None => None
      | Some cp =>
          let (cp, p'') := combine_surrogates cp (advance 4 p') in
          if ((0xD800 <=? cp) && (cp <=? 0xDFFF)) || (cp =? 0) then None
          else unescape_loop fuel p'' (d ++ utf8_encode cp)
      end.
Proof. reflexivity. Qed.

(** X25. An escape [\uXXXX] outside the surrogate range: behind and before
    plain bytes, [parse_string] decodes the four hexadecimal digits, upper
    or lower case, as the code point they denote in base 16 and writes its
    UTF-8 bytes (one, two or three of them) in place of the six bytes of
    the escape. *)
Theorem parse_string_decodes_escaped_code_points pre a b c d post rest h :
  granted h ->
  Forall (fun c => plain c = true) pre -> Forall (fun c => plain c = true) post ->
  Forall (fun c => isxdigit c = true) [a; b; c; d] ->
  number_of 16 [a; b; c; d] <> 0 ->
  ~ (0xD800 <= number_of 16 [a; b; c; d] <= 0xDFFF) ->
  exists p q h',
    parse_string ("034" :: pre ++ "\" :: "u" :: a :: b :: c :: d :: post ++ "034" :: rest) h
    = (Some (V_STRING p (Some (q, pre ++ utf8_encode (number_of 16 [a; b; c; d]) ++ post)),
             rest), h').
Proof.
  intros Hg Hpre Hpost Hx Hnz Hns.
  set (cp := number_of 16 [a; b; c; d]) in *.
  assert (Hxp : Forall (fun c => plain c = true) [a; b; c; d]).
  { eapply Forall_impl; [exact Hx|]. apply isxdigit_plain. }
  unfold parse_string.
  change (advance 1 ("034" :: ?x)) with x.
  set (body := pre ++ "\" :: "u" :: a :: b :: c :: d :: post).
  replace (pre ++ "\" :: "u" :: a :: b :: c :: d :: post ++ "034" :: rest)
    with (body ++ "034" :: rest)
    by (unfold body; rewrite <- app_assoc; reflexivity).
  assert (Hscan : scan_string (body ++ "034" :: rest) = Some ("034" :: rest)).
  { unfold body. rewrite <- app_assoc. rewrite scan_string_plain by exact Hpre.
    cbn [app].
    change (scan_string ("\" :: "u" :: a :: b :: c :: d :: post ++ "034" :: rest))
      with (scan_string ([a; b; c; d] ++ post ++ "034" :: rest)).
    rewrite (scan_string_plain [a; b; c; d] (post ++ "034" :: rest) Hxp).
    rewrite (scan_string_plain post ("034" :: rest) Hpost). reflexivity. }
  rewrite Hscan. cbn [peek]. change (negb (Ascii.eqb "034" "034")) with false. cbv iota.
  replace (length (body ++ "034" :: rest) - length ("034" :: rest))%nat
    with (length body) by (rewrite length_app; lia).
  rewrite firstn_app, Nat.sub_diag, firstn_all. cbn [firstn]. rewrite app_nil_r.
  unfold unescape_string.
  destruct (malloc_granted (strlen body + 1) h Hg) as (out & h1 & -> & Hg1).
  assert (Hun : unescape_loop (length body) body []
                = Some (pre ++ utf8_encode cp ++ post)).
  { unfold body. rewrite length_app. cbn [length].
    rewrite unescape_loop_plain by exact Hpre. cbn [app]. rewrite unescape_loop_u.
    replace (strlen ("u" :: a :: b :: c :: d :: post) <? 5) with false
      by (unfold strlen; cbn [length]; lia).
    change (a :: b :: c :: d :: post) with ([a; b; c; d] ++ post).
    rewrite (hex_digits_value [a; b; c; d] post 0 Hx ltac:(lia)
               : hex_digits 4 ([a; b; c; d] ++ post) 0 = _).
    change (0 * 16 ^ Z.of_nat (length [a; b; c; d]) + number_of 16 [a; b; c; d]) with cp.
    change (advance 4 ([a; b; c; d] ++ post)) with post.
    unfold combine_surrogates.
    replace ((55296 <=? cp) && (cp <=? 56319)) with false by lia.
    replace (((55296 <=? cp) && (cp <=? 57343)) || (cp =? 0)) with false by lia.
    replace (S (S (S (S (S (length post)))))) with (length post + 5)%nat by lia.
    pose proof (unescape_loop_plain post 5 [] (pre ++ utf8_encode cp) Hpost) as Hp.
    rewrite app_nil_r in Hp. rewrite Hp.
    cbn [unescape_loop]. rewrite <- app_assoc. reflexivity. }
  rewrite Hun.
  destruct (create_value_granted RJSON_STRING h1 Hg1) as (p & h2 & -> & Hg2).
  cbn [zeroed]. eexists _, _, _. reflexivity.
Qed.

Lemma parse_string_decodes_escaped_code_points_witness :
  exists p q h',
    parse_string
      ("034" :: lit "1 " ++ "\" :: "u" :: "2" :: "0" :: "A" :: "c" :: lit "." ++ "034" :: lit ",")
      (heap_init [])
    = (Some (V_STRING p (Some (q, lit "1 " ++ ["226"; "130"; "172"] ++ lit ".")), lit ","),
       h').
Proof.
  apply (parse_string_decodes_escaped_code_points
           (lit "1 ") "2" "0" "A" "c" (lit ".") (lit ",") (heap_init []));
    try (repeat constructor); try (vm_compute; discriminate).
  vm_compute. intros [H _]. apply H. reflexivity.
Defined.

(** ** White space behind the value *)

Lemma scan_string_spaces ws :
  Forall (fun c => is_space c = true) ws ->
  scan_string ws = None \/ scan_string ws = Some [].
Proof.
  induction 1 as [|c ws Hc _ IH]; [right; reflexivity|].
  cbn [scan_string]. unfold is_space in Hc.
  destruct c as [[] [] [] [] [] [] [] []]; try discriminate Hc;
    first [left; reflexivity | exact IH].
Qed.


Section Tail.

Variable ws : c_string.

Hypothesis spaces : Forall (fun c => is_space c = true) ws.

Lemma peek_tail (t : byte -> bool) j :
  (forall c, is_space c = true -> t c = false) -> t NUL = false ->
  t (peek (j ++ ws)) = t (peek j).
Proof.
  intros Hs Hn. destruct j as [|c j]; [|reflexivity]. cbn [app peek].
  destruct spaces as [|c ws' Hc _]; [reflexivity|]. cbn [peek]. rewrite Hn. apply Hs, Hc.
Qed.

Lemma eqb_peek_tail c0 j :
  is_space c0 = false -> c0 <> NUL ->
  Ascii.eqb (peek (j ++ ws)) c0 = Ascii.eqb (peek j) c0.
Proof.
  intros H0 Hn. apply (peek_tail (fun c => Ascii.eqb c c0)).
  - intros c Hc. destruct (Ascii.eqb_spec c c0) as [->|_]; [congruence|reflexivity].
  - destruct (Ascii.eqb_spec NUL c0) as [E|_]; [congruence|reflexivity].
Qed.

Lemma isdigit_peek_tail j : isdigit (peek (j ++ ws)) = isdigit (peek j).
Proof.
  apply (peek_tail isdigit); [|reflexivity].
  intros c Hc. unfold is_space in Hc.
  destruct c as [[] [] [] [] [] [] [] []]; try discriminate Hc; reflexivity.
Qed.

Lemma advance_tail n j :
  (n <= length j)%nat -> advance n (j ++ ws) = advance n j ++ ws.
Proof.
  intros H. unfold advance. rewrite skipn_app.
  replace (n - length j)%nat with 0%nat by lia. reflexivity.
Qed.

Lemma peek_nonempty (t : byte -> bool) j :
  t NUL = false -> t (peek j) = true -> (1 <= length j)%nat.
Proof.
  intros Hn H. destruct j; [cbn [peek] in H; congruence|cbn [length]; lia].
Qed.

Lemma eqb_nonempty j c0 :
  c0 <> NUL -> Ascii.eqb (peek j) c0 = true -> (1 <= length j)%nat.
Proof.
  intros Hn H. destruct j; [|cbn [length]; lia].
  apply Ascii.eqb_eq in H. cbn [peek] in H. congruence.
Qed.

Lemma take_while_tail (f : byte -> bool) p :
  (forall c, is_space c = true -> f c = false) ->
  take_while f (p ++ ws) = (fst (take_while f p), snd (take_while f p) ++ ws).
Proof.
  intros Hf. induction p as [|c p IH]; cbn [app take_while].
  - destruct spaces as [|c ws' Hc _]; [reflexivity|].
    cbn [take_while]. rewrite (Hf c Hc). reflexivity.
  - destruct (f c); [|reflexivity]. rewrite IH.
    destruct (take_while f p). reflexivity.
Qed.

Lemma isdigit_space c : is_space c = true -> isdigit c = false.
Proof.
  unfold is_space. intros Hc.
  destruct c as [[] [] [] [] [] [] [] []]; try discriminate Hc; reflexivity.
Qed.

Lemma isxdigit_space c : is_space c = true -> isxdigit c = false.
Proof.
  unfold is_space. intros Hc.
  destruct c as [[] [] [] [] [] [] [] []]; try discriminate Hc; reflexivity.
Qed.

Lemma skip_digits_tail j : skip_digits (j ++ ws) = skip_digits j ++ ws.
Proof. unfold skip_digits. rewrite (take_while_tail isdigit j isdigit_space). reflexivity. Qed.

Lemma skip_whitespace_tail j :
  (skip_whitespace j = [] /\ skip_whitespace (j ++ ws) = [])
  \/ (skip_whitespace j <> [] /\ skip_whitespace (j ++ ws) = skip_whitespace j ++ ws).
Proof.
  induction j as [|c j IH]; cbn [app skip_whitespace].
  - left. split; [reflexivity|]. rewrite <- (app_nil_r ws).
    rewrite (skip_whitespace_spaces ws [] spaces). reflexivity.
  - fold (is_space c). destruct (is_space c); [exact IH|].
    right. split; [discriminate|reflexivity].
Qed.

(** *** The grammar check of numbers *)

Lemma scan_sign_tail j : scan_sign (j ++ ws) = scan_sign j ++ ws.
Proof.
  unfold scan_sign. rewrite (eqb_peek_tail "-" j eq_refl ltac:(discriminate)).
  destruct (Ascii.eqb (peek j) "-") eqn:E; [|reflexivity].
  apply advance_tail. apply (eqb_nonempty j "-"); [discriminate|exact E].
Qed.

Lemma scan_int_tail j :
  scan_int (j ++ ws) = option_map (fun r => r ++ ws) (scan_int j).
Proof.
  unfold scan_int. rewrite (eqb_peek_tail "0" j eq_refl ltac:(discriminate)).
  rewrite isdigit_peek_tail.
  destruct (Ascii.eqb (peek j) "0") eqn:E.
  - rewrite advance_tail by (apply (eqb_nonempty j "0"); [discriminate|exact E]).
    rewrite isdigit_peek_tail. destruct (isdigit (peek (advance 1 j))); reflexivity.
  - destruct (isdigit (peek j)); [|reflexivity]. cbn [option_map].
    rewrite skip_digits_tail. reflexivity.
Qed.

Lemma scan_frac_tail j :
  scan_frac (j ++ ws) = option_map (fun r => r ++ ws) (scan_frac j).
Proof.
  unfold scan_frac. rewrite (eqb_peek_tail "." j eq_refl ltac:(discriminate)).
  destruct (Ascii.eqb (peek j) ".") eqn:E; [|reflexivity].
  rewrite advance_tail by (apply (eqb_nonempty j "."); [discriminate|exact E]).
  rewrite isdigit_peek_tail. destruct (negb (isdigit (peek (advance 1 j)))); [reflexivity|].
  cbn [option_map]. rewrite skip_digits_tail. reflexivity.
Qed.

Lemma scan_exp_tail j :
  scan_exp (j ++ ws) = option_map (fun r => r ++ ws) (scan_exp j).
Proof.
  unfold scan_exp.
  rewrite (eqb_peek_tail "e" j eq_refl ltac:(discriminate)).
  rewrite (eqb_peek_tail "E" j eq_refl ltac:(discriminate)).
  destruct (Ascii.eqb (peek j) "e" || Ascii.eqb (peek j) "E") eqn:E; [|reflexivity].
  assert (H1 : (1 <= length j)%nat).
  { destruct j; [discriminate E|cbn [length]; lia]. }
  rewrite advance_tail by exact H1.
  rewrite (eqb_peek_tail "+" (advance 1 j) eq_refl ltac:(discriminate)).
  rewrite (eqb_peek_tail "-" (advance 1 j) eq_refl ltac:(discriminate)).
  destruct (Ascii.eqb (peek (advance 1 j)) "+" || Ascii.eqb (peek (advance 1 j)) "-") eqn:E2.
  - assert (H2 : (1 <= length (advance 1 j))%nat).
    { destruct (advance 1 j); [discriminate E2|cbn [length]; lia]. }
    rewrite advance_tail by exact H2. rewrite isdigit_peek_tail.
    destruct (negb _); [reflexivity|]. cbn [option_map].
    rewrite skip_digits_tail. reflexivity.
  - rewrite isdigit_peek_tail. destruct (negb _); [reflexivity|]. cbn [option_map].
    rewrite skip_digits_tail. reflexivity.
Qed.

Lemma scan_number_tail j :
  scan_number (j ++ ws) = option_map (fun r => r ++ ws) (scan_number j).
Proof.
  unfold scan_number. rewrite scan_sign_tail, scan_int_tail.
  destruct (scan_int (scan_sign j)) as [j1|]; [|reflexivity]. cbn [option_map].
  rewrite scan_frac_tail. destruct (scan_frac j1) as [j2|]; [|reflexivity].
  cbn [option_map]. apply scan_exp_tail.
Qed.

(** *** [strtod] *)

Lemma exponent_part_tail l1 l2 p :
  is_space l1 = false -> l1 <> NUL -> is_space l2 = false -> l2 <> NUL ->
  exponent_part l1 l2 (p ++ ws)
  = (fst (exponent_part l1 l2 p), snd (exponent_part l1 l2 p) ++ ws).
Proof.
  intros H1 N1 H2 N2. unfold exponent_part.
  rewrite (eqb_peek_tail l1 p H1 N1), (eqb_peek_tail l2 p H2 N2).
  destruct (Ascii.eqb (peek p) l1 || Ascii.eqb (peek p) l2) eqn:E; [|reflexivity].
  assert (Hp : (1 <= length p)%nat).
  { destruct p; [|cbn [length]; lia]. cbn [peek] in E.
    apply orb_true_iff in E as [E|E]; apply Ascii.eqb_eq in E; congruence. }
  rewrite advance_tail by exact Hp.
  rewrite (eqb_peek_tail "-" (advance 1 p) eq_refl ltac:(discriminate)).
  rewrite (eqb_peek_tail "+" (advance 1 p) eq_refl ltac:(discriminate)).
  set (neg := Ascii.eqb (peek (advance 1 p)) "-").
  destruct (neg || Ascii.eqb (peek (advance 1 p)) "+") eqn:E2.
  - assert (H2' : (1 <= length (advance 1 p))%nat).
    { destruct (advance 1 p); [discriminate E2|cbn [length]; lia]. }
    rewrite advance_tail by exact H2'.
    rewrite (take_while_tail isdigit _ isdigit_space).
    destruct (take_while isdigit (advance 1 (advance 1 p))) as [ds p3].
    cbn [fst snd]. destruct ds; reflexivity.
  - rewrite (take_while_tail isdigit _ isdigit_space).
    destruct (take_while isdigit (advance 1 p)) as [ds p3].
    cbn [fst snd]. destruct ds; reflexivity.
Qed.

Lemma mantissa_tail base (isdig : byte -> bool) p :
  (forall c, is_space c = true -> isdig c = false) ->
  mantissa base isdig (p ++ ws)
  = option_map (fun r => (fst r, snd r ++ ws)) (mantissa base isdig p).
Proof.
  intros Hd. unfold mantissa. rewrite (take_while_tail isdig p Hd).
  destruct (take_while isdig p) as [ip p1]. cbn [fst snd].
  rewrite (eqb_peek_tail "." p1 eq_refl ltac:(discriminate)).
  destruct (Ascii.eqb (peek p1) ".") eqn:E.
  - rewrite advance_tail by (apply (eqb_nonempty p1 "."); [discriminate|exact E]).
    rewrite (take_while_tail isdig _ Hd).
    destruct (take_while isdig (advance 1 p1)) as [fp p2]. cbn [fst snd].
    destruct (ip ++ fp); reflexivity.
  - rewrite app_nil_r. destruct ip; reflexivity.
Qed.

Lemma strtod_decimal_tail neg p nptr :
  strtod_decimal neg (p ++ ws) (nptr ++ ws)
  = (fst (fst (strtod_decimal neg p nptr)),
     snd (fst (strtod_decimal neg p nptr)) ++ ws,
     snd (strtod_decimal neg p nptr)).
Proof.
  unfold strtod_decimal. rewrite (mantissa_tail 10 isdigit p isdigit_space).
  destruct (mantissa 10 isdigit p) as [[[m k] p1]|]; [|reflexivity].
  cbn [option_map fst snd].
  rewrite (exponent_part_tail "e" "E" p1 eq_refl ltac:(discriminate) eq_refl
             ltac:(discriminate)).
  destruct (exponent_part "e" "E" p1) as [e p2]. cbn [fst snd].
  destruct (scaled neg m 10 (e - k)). reflexivity.
Qed.

Lemma strtod_hex_tail neg p :
  strtod_hex neg (p ++ ws)
  = option_map (fun r => (fst (fst r), snd (fst r) ++ ws, snd r)) (strtod_hex neg p).
Proof.
  unfold strtod_hex. rewrite (mantissa_tail 16 isxdigit p isxdigit_space).
  destruct (mantissa 16 isxdigit p) as [[[m k] p1]|]; [|reflexivity].
  cbn [option_map fst snd].
  rewrite (exponent_part_tail "p" "P" p1 eq_refl ltac:(discriminate) eq_refl
             ltac:(discriminate)).
  destruct (exponent_part "p" "P" p1) as [e p2]. cbn [fst snd].
  destruct (scaled neg m 2 (e - 4 * k)). reflexivity.
Qed.

Lemma strtod_magnitude_tail neg p nptr :
  strtod_magnitude neg (p ++ ws) (nptr ++ ws)
  = (fst (fst (strtod_magnitude neg p nptr)),
     snd (fst (strtod_magnitude neg p nptr)) ++ ws,
     snd (strtod_magnitude neg p nptr)).
Proof.
  unfold strtod_magnitude.
  rewrite (eqb_peek_tail "0" p eq_refl ltac:(discriminate)).
  destruct (Ascii.eqb (peek p) "0") eqn:E0; cbn [andb].
  2:{ apply strtod_decimal_tail. }
  assert (H1 : (1 <= length p)%nat)
    by (apply (eqb_nonempty p "0"); [discriminate|exact E0]).
  rewrite advance_tail by exact H1.
  rewrite (eqb_peek_tail "x" (advance 1 p) eq_refl ltac:(discriminate)).
  rewrite (eqb_peek_tail "X" (advance 1 p) eq_refl ltac:(discriminate)).
  destruct (Ascii.eqb (peek (advance 1 p)) "x" || Ascii.eqb (peek (advance 1 p)) "X") eqn:Ex.
  2:{ apply strtod_decimal_tail. }
  assert (H2 : (2 <= length p)%nat).
  { destruct p as [|c0 [|c1 p]]; cbn [length]; try lia.
    - discriminate E0.
    - discriminate Ex. }
  rewrite advance_tail by exact H2. rewrite strtod_hex_tail.
  destruct (strtod_hex neg (advance 2 p)) as [[[x e] er]|]; [reflexivity|].
  apply strtod_decimal_tail.
Qed.

Lemma strtod_tail nptr :
  strtod (nptr ++ ws)
  = (fst (fst (strtod nptr)), snd (fst (strtod nptr)) ++ ws, snd (strtod nptr)).
Proof.
  unfold strtod.
  rewrite (eqb_peek_tail "-" nptr eq_refl ltac:(discriminate)).
  rewrite (eqb_peek_tail "+" nptr eq_refl ltac:(discriminate)).
  destruct (Ascii.eqb (peek nptr) "-") eqn:Em.
  { rewrite advance_tail by (apply (eqb_nonempty nptr "-"); [discriminate|exact Em]).
    apply strtod_magnitude_tail. }
  destruct (Ascii.eqb (peek nptr) "+") eqn:Ep.
  { rewrite advance_tail by (apply (eqb_nonempty nptr "+"); [discriminate|exact Ep]).
    apply strtod_magnitude_tail. }
  apply strtod_magnitude_tail.
Qed.


(** *** Strings *)

Lemma scan_string_tail n : forall start, (length start <= n)%nat ->
  match scan_string start with
  | Some (c :: j) => scan_string (start ++ ws) = Some ((c :: j) ++ ws)
  | _ => scan_string (start ++ ws) = None \/ scan_string (start ++ ws) = Some []
  end.
Proof.
  induction n as [|n IH]; intros start Hn.
  { destruct start; [|cbn [length] in Hn; lia]. cbn [scan_string app].
    apply scan_string_spaces, spaces. }
  destruct start as [|c start].
  { cbn [scan_string app]. apply scan_string_spaces, spaces. }
  cbn [length] in Hn. cbn [app scan_string].
  destruct (Ascii.eqb c "034"); [reflexivity|].
  destruct (code c <? 32); [left; reflexivity|].
  destruct (Ascii.eqb c "\").
  - destruct start as [|c2 start].
    + cbn [app]. destruct spaces as [|b ws' _ Hws']; [left; reflexivity|].
      apply scan_string_spaces, Hws'.
    + cbn [app]. apply IH. cbn [length] in Hn. lia.
  - apply IH. lia.
Qed.

Lemma parse_string_tail json h :
  parse_string (json ++ ws) h = followed_by ws (parse_string json h).
Proof.
  unfold parse_string.
  assert (Hfail : forall start, Forall (fun c => is_space c = true) start ->
            match scan_string start with
            | None => (None, h)
            | Some j =>
                if negb (Ascii.eqb (peek j) "034") then (None, h)
                else
                  match unescape_string
                          (firstn (length start - length j) start) h with
                  | (None, h) => (None, h)
                  | (Some str_content, h) =>
                      match create_value RJSON_STRING h with
                      | (Some (V_STRING p _), h) =>
                          (Some (V_STRING p (Some str_content), advance 1 j), h)
                      | (_, h) => (None, free (Some (fst str_content)) h)
                      end
                  end
            end = ((None, h) : parsed)).
  { intros start Hs. destruct (scan_string_spaces start Hs) as [-> | ->]; reflexivity. }
  destruct json as [|c0 start].
  { cbn [app]. change (advance 1 []) with (@nil byte). cbn [scan_string peek].
    change (negb (Ascii.eqb NUL "034")) with true. cbv iota. cbn [followed_by].
    apply Hfail. destruct spaces as [|b ws' _ Hws']; [constructor|exact Hws']. }
  change (advance 1 ((c0 :: start) ++ ws)) with (start ++ ws).
  change (advance 1 (c0 :: start)) with start.
  pose proof (scan_string_tail (length start) start (le_n _)) as Hscan.
  pose proof (scan_string_length start) as Hlen.
  destruct (scan_string start) as [[|c j]|].
  - cbn [peek]. change (negb (Ascii.eqb NUL "034")) with true. cbv iota.
    cbn [followed_by]. destruct Hscan as [-> | ->]; reflexivity.
  - rewrite Hscan. specialize (Hlen _ eq_refl).
    change (peek ((c :: j) ++ ws)) with (peek (c :: j)).
    destruct (negb (Ascii.eqb (peek (c :: j)) "034")); [reflexivity|].
    rewrite !length_app.
    replace (length start + length ws - (length (c :: j) + length ws))%nat
      with (length start - length (c :: j))%nat by lia.
    rewrite firstn_app.
    replace (length start - length (c :: j) - length start)%nat with 0%nat by lia.
    cbn [firstn]. rewrite app_nil_r.
    destruct (unescape_string _ h) as [[s|] h1]; [|reflexivity].
    change (advance 1 ((c :: j) ++ ws)) with (advance 1 (c :: j) ++ ws).
    destruct (create_value RJSON_STRING h1) as [[[]|] h2]; reflexivity.
  - cbn [followed_by]. destruct Hscan as [-> | ->]; reflexivity.
Qed.

(** *** Numbers and literals *)

Lemma same_position_tail p q : same_position (p ++ ws) (q ++ ws) = same_position p q.
Proof.
  unfold same_position. rewrite !length_app.
  destruct (Nat.eqb_spec (length p) (length q)) as [E|E].
  - apply Nat.eqb_eq. lia.
  - apply Nat.eqb_neq. lia.
Qed.

Lemma parse_number_tail json h :
  parse_number (json ++ ws) h = followed_by ws (parse_number json h).
Proof.
  unfold parse_number. rewrite scan_number_tail.
  destruct (scan_number json) as [j|]; [|reflexivity]. cbn [option_map].
  rewrite strtod_tail. destruct (strtod json) as [[num end_] erange]. cbn [fst snd].
  destruct (erange || negb (isfinite num)); [reflexivity|].
  rewrite same_position_tail, !length_app.
  replace (length json + length ws - (length j + length ws))%nat
    with (length json - length j)%nat by lia.
  rewrite firstn_app.
  replace (length json - length j - length json)%nat with 0%nat by lia.
  cbn [firstn]. rewrite app_nil_r.
  set (checked := if negb (same_position end_ j) then _ else _).
  destruct checked as [[x|] h1]; [|reflexivity].
  destruct (create_value RJSON_NUMBER h1) as [[[]|] h2]; reflexivity.
Qed.

Lemma starts_with_tail w : forall p,
  Forall (fun c => is_space c = false) w ->
  starts_with w (p ++ ws) = starts_with w p.
Proof.
  induction w as [|a w IH]; intros p Hw; [reflexivity|].
  inversion Hw as [|a' w' Ha Hw']; subst.
  destruct p as [|b p]; cbn [app starts_with].
  - destruct spaces as [|b ws' Hb _]; [reflexivity|]. cbn [starts_with].
    destruct (Ascii.eqb_spec a b) as [->|_]; [congruence|reflexivity].
  - rewrite (IH p Hw'). reflexivity.
Qed.

Lemma parse_literal_tail json h :
  parse_literal (json ++ ws) h = followed_by ws (parse_literal json h).
Proof.
  unfold parse_literal.
  rewrite !starts_with_tail by (repeat constructor).
  destruct (starts_with (lit "true") json) eqn:Et.
  { apply starts_with_length in Et. cbn [length lit list_ascii_of_string] in Et.
    rewrite advance_tail by lia.
    destruct (create_value RJSON_BOOL h) as [[[]|] h1]; reflexivity. }
  destruct (starts_with (lit "false") json) eqn:Ef.
  { apply starts_with_length in Ef. cbn [length lit list_ascii_of_string] in Ef.
    rewrite advance_tail by lia.
    destruct (create_value RJSON_BOOL h) as [[[]|] h1]; reflexivity. }
  destruct (starts_with (lit "null") json) eqn:En; [|reflexivity].
  apply starts_with_length in En. cbn [length lit list_ascii_of_string] in En.
  rewrite advance_tail by lia.
  destruct (create_value RJSON_NULL h) as [[v|] h1]; reflexivity.
Qed.

(** *** Arrays and objects *)

Section Tail_containers.

Variable rec : Z -> c_string -> heap -> parsed.

Hypothesis rec_progress :
  forall depth json h v json' h',
    rec depth json h = (Some (v, json'), h') -> (length json' < length json)%nat.

Hypothesis rec_tail :
  forall depth json h, rec depth (json ++ ws) h = followed_by ws (rec depth json h).

Lemma separator_tail json (c : byte) :
  is_space c = false -> c <> NUL ->
  Ascii.eqb (peek (skip_whitespace (json ++ ws))) c
  = Ascii.eqb (peek (skip_whitespace json)) c.
Proof.
  intros Hc Hn. destruct (skip_whitespace_tail json) as [[E1 E2]|[E1 E2]];
    rewrite E2; [rewrite E1; reflexivity|].
  destruct (skip_whitespace json); [contradiction E1; reflexivity|reflexivity].
Qed.

Lemma after_separator_tail json (c : byte) :
  c <> NUL -> Ascii.eqb (peek (skip_whitespace json)) c = true ->
  advance 1 (skip_whitespace (json ++ ws)) = advance 1 (skip_whitespace json) ++ ws.
Proof.
  intros Hn Hc. destruct (skip_whitespace_tail json) as [[E1 E2]|[E1 E2]].
  - rewrite E1 in Hc. apply Ascii.eqb_eq in Hc. cbn [peek] in Hc. congruence.
  - rewrite E2. destruct (skip_whitespace json); [contradiction E1; reflexivity|].
    reflexivity.
Qed.

Lemma parse_array_loop_tail fuel : forall depth arr json h,
  parse_array_loop rec fuel depth arr (json ++ ws) h
  = followed_by ws (parse_array_loop rec fuel depth arr json h).
Proof.
  induction fuel as [|fuel IH]; intros depth arr json h; [reflexivity|].
  cbn [parse_array_loop]. rewrite rec_tail.
  destruct (rec (depth + 1) json h) as [[[element json1]|] h1]; [|reflexivity].
  cbn [followed_by].
  destruct (rjson_array_add arr (Some element) h1) as [[ret arr1] h2].
  destruct (negb (ret =? 0)); [reflexivity|].
  rewrite (separator_tail json1 "]" eq_refl ltac:(discriminate)).
  rewrite (separator_tail json1 "," eq_refl ltac:(discriminate)).
  destruct (Ascii.eqb (peek (skip_whitespace json1)) "]") eqn:Eclose.
  { rewrite (after_separator_tail json1 "]" ltac:(discriminate) Eclose).
    destruct arr1; reflexivity. }
  destruct (negb (Ascii.eqb (peek (skip_whitespace json1)) ",")) eqn:Ecomma;
    [reflexivity|].
  apply negb_false_iff in Ecomma.
  rewrite (after_separator_tail json1 "," ltac:(discriminate) Ecomma).
  apply IH.
Qed.

Lemma parse_array_loop_end fuel depth arr h :
  parse_array_loop rec fuel depth arr [] h
  = followed_by ws (parse_array_loop rec fuel depth arr [] h).
Proof.
  destruct (parse_array_loop rec fuel depth arr [] h) as [[[v j]|] h1] eqn:E;
    [|reflexivity].
  apply (parse_array_loop_progress rec rec_progress) in E. cbn [length] in E. lia.
Qed.

Lemma parse_array_tail json depth h :
  json <> [] ->
  parse_array rec (json ++ ws) depth h = followed_by ws (parse_array rec json depth h).
Proof.
  intros Hne. unfold parse_array.
  destruct (depth >=? RJSON_MAX_DEPTH); [reflexivity|].
  rewrite advance_tail by (destruct json; [contradiction Hne; reflexivity|cbn [length]; lia]).
  destruct (rjson_array_new h) as [[arr|] h1]; [|reflexivity].
  rewrite (separator_tail (advance 1 json) "]" eq_refl ltac:(discriminate)).
  destruct (Ascii.eqb (peek (skip_whitespace (advance 1 json))) "]") eqn:Eclose.
  { rewrite (after_separator_tail _ "]" ltac:(discriminate) Eclose). reflexivity. }
  destruct (skip_whitespace_tail (advance 1 json)) as [[E1 E2]|[E1 E2]]; rewrite E2.
  - rewrite E1. apply parse_array_loop_end.
  - rewrite parse_array_loop_tail. f_equal.
    apply (parse_array_loop_fuel rec rec_progress); rewrite ?length_app; lia.
Qed.

Lemma parse_object_loop_tail fuel : forall depth obj json h,
  parse_object_loop rec fuel depth obj (json ++ ws) h
  = followed_by ws (parse_object_loop rec fuel depth obj json h).
Proof.
  induction fuel as [|fuel IH]; intros depth obj json h; [reflexivity|].
  cbn [parse_object_loop].
  rewrite (separator_tail json "034" eq_refl ltac:(discriminate)).
  destruct (negb (Ascii.eqb (peek (skip_whitespace json)) "034")) eqn:Equote;
    [reflexivity|].
  apply negb_false_iff in Equote.
  assert (Es : skip_whitespace (json ++ ws) = skip_whitespace json ++ ws).
  { destruct (skip_whitespace_tail json) as [[E1 E2]|[E1 E2]]; [|exact E2].
    rewrite E1 in Equote. discriminate Equote. }
  rewrite Es, parse_string_tail.
  destruct (parse_string (skip_whitespace json) h) as [[[key_val json1]|] h1];
    [|reflexivity].
  cbn [followed_by].
  rewrite (separator_tail json1 ":" eq_refl ltac:(discriminate)).
  destruct (negb (Ascii.eqb (peek (skip_whitespace json1)) ":")) eqn:Ecolon;
    [reflexivity|].
  apply negb_false_iff in Ecolon.
  rewrite (after_separator_tail json1 ":" ltac:(discriminate) Ecolon), rec_tail.
  destruct (rec (depth + 1) (advance 1 (skip_whitespace json1)) h1)
    as [[[val json2]|] h2]; [|reflexivity].
  cbn [followed_by].
  destruct (rjson_object_add obj _ (Some val) h2) as [[ret obj1] h3].
  destruct (negb (ret =? 0)); [reflexivity|].
  rewrite (separator_tail json2 "}" eq_refl ltac:(discriminate)).
  rewrite (separator_tail json2 "," eq_refl ltac:(discriminate)).
  destruct (Ascii.eqb (peek (skip_whitespace json2)) "}") eqn:Eclose.
  { rewrite (after_separator_tail json2 "}" ltac:(discriminate) Eclose).
    destruct obj1; reflexivity. }
  destruct (negb (Ascii.eqb (peek (skip_whitespace json2)) ",")) eqn:Ecomma;
    [reflexivity|].
  apply negb_false_iff in Ecomma.
  rewrite (after_separator_tail json2 "," ltac:(discriminate) Ecomma).
  apply IH.
Qed.

Lemma parse_object_loop_end fuel depth obj h :
  parse_object_loop rec fuel depth obj [] h
  = followed_by ws (parse_object_loop rec fuel depth obj [] h).
Proof.
  destruct (parse_object_loop rec fuel depth obj [] h) as [[[v j]|] h1] eqn:E;
    [|reflexivity].
  apply (parse_object_loop_progress rec rec_progress) in E. cbn [length] in E. lia.
Qed.

Lemma parse_object_tail json depth h :
  json <> [] ->
  parse_object rec (json ++ ws) depth h = followed_by ws (parse_object rec json depth h).
Proof.
  intros Hne. unfold parse_object.
  destruct (depth >=? RJSON_MAX_DEPTH); [reflexivity|].
  rewrite advance_tail by (destruct json; [contradiction Hne; reflexivity|cbn [length]; lia]).
  destruct (rjson_object_new h) as [[obj|] h1]; [|reflexivity].
  rewrite (separator_tail (advance 1 json) "}" eq_refl ltac:(discriminate)).
  destruct (Ascii.eqb (peek (skip_whitespace (advance 1 json))) "}") eqn:Eclose.
  { rewrite (after_separator_tail _ "}" ltac:(discriminate) Eclose). reflexivity. }
  destruct (skip_whitespace_tail (advance 1 json)) as [[E1 E2]|[E1 E2]]; rewrite E2.
  - rewrite E1. apply parse_object_loop_end.
  - rewrite parse_object_loop_tail. f_equal.
    apply (parse_object_loop_fuel rec rec_progress); rewrite ?length_app; lia.
Qed.

Lemma parse_value_body_tail json depth h :
  parse_value_body rec (json ++ ws) depth h
  = followed_by ws (parse_value_body rec json depth h).
Proof.
  unfold parse_value_body.
  destruct (skip_whitespace_tail json) as [[E1 E2]|[E1 E2]]; rewrite E2.
  { rewrite E1. reflexivity. }
  destruct (skip_whitespace json) as [|c j]; [contradiction E1; reflexivity|].
  change (peek ((c :: j) ++ ws)) with c. change (peek (c :: j)) with c.
  pose proof (parse_string_tail (c :: j) h) as Hstr.
  pose proof (parse_number_tail (c :: j) h) as Hnum.
  pose proof (parse_literal_tail (c :: j) h) as Hlit.
  pose proof (parse_array_tail (c :: j) depth h ltac:(discriminate)) as Harr.
  pose proof (parse_object_tail (c :: j) depth h ltac:(discriminate)) as Hobj.
  destruct c as [[] [] [] [] [] [] [] []]; cbv iota;
    first [ exact Hstr | exact Hlit | exact Harr | exact Hobj
          | (match goal with
             | |- (if ?b then _ else _) = _ => destruct b; [exact Hnum|reflexivity]
             end) ].
Qed.

End Tail_containers.

Lemma parse_value_at_tail levels : forall depth json h,
  parse_value_at levels depth (json ++ ws) h
  = followed_by ws (parse_value_at levels depth json h).
Proof.
  induction levels as [|levels IH]; intros depth json h; [reflexivity|].
  cbn [parse_value_at]. apply parse_value_body_tail; [|exact IH].
  intros d j h0 v j' h'. apply parse_value_at_progress.
Qed.

Lemma c_str_tail d : c_str (d ++ ws) = c_str d \/ c_str (d ++ ws) = c_str d ++ ws.
Proof.
  induction d as [|c d IH]; cbn [app c_str].
  - right. pose proof (c_str_app ws [] (spaces_no_nul ws spaces)) as E.
    cbn [c_str] in E. rewrite !app_nil_r in E. exact E.
  - destruct (Ascii.eqb c NUL); [left; reflexivity|].
    destruct IH as [-> | ->]; [left|right]; reflexivity.
Qed.

End Tail.

(** X26. White space behind the document changes nothing: with blanks,
    tabs, line feeds and carriage returns appended to the text,
    [rjson_parse] gives the same tree, or refuses as before, and leaves the
    same heap. *)
Theorem rjson_parse_ignores_white_space_behind bytes ws h :
  Forall (fun c => is_space c = true) ws ->
  rjson_parse (Some (bytes ++ ws)) h = rjson_parse (Some bytes) h.
Proof.
  intros Hws. unfold rjson_parse.
  destruct (c_str_tail ws Hws bytes) as [-> | ->]; [reflexivity|].
  rewrite (starts_with_tail ws Hws BOM) by (repeat constructor).
  set (json := if starts_with BOM (c_str bytes) then advance 3 (c_str bytes)
               else c_str bytes).
  assert (E : (if starts_with BOM (c_str bytes) then advance 3 (c_str bytes ++ ws)
               else c_str bytes ++ ws) = json ++ ws).
  { subst json. destruct (starts_with BOM (c_str bytes)) eqn:Eb; [|reflexivity].
    apply starts_with_length in Eb. cbn [length BOM] in Eb.
    apply advance_tail. lia. }
  rewrite E. unfold parse_value. rewrite (parse_value_at_tail ws Hws).
  destruct (parse_value_at _ 0 json h) as [[[result pos]|] h1]; [|reflexivity].
  cbn [followed_by].
  destruct (skip_whitespace_tail ws Hws pos) as [[E1 E2]|[E1 E2]]; rewrite E2.
  - rewrite E1. reflexivity.
  - destruct (skip_whitespace pos); [contradiction E1; reflexivity|reflexivity].
Qed.

Lemma rjson_parse_ignores_white_space_behind_witness :
  Forall (fun c => is_space c = true) [" "; "010"]%char
  /\ rjson_parse (Some (quoted "{'a': [1, true]}" ++ [" "; "010"]%char)) sample_heap
     = rjson_parse (Some (quoted "{'a': [1, true]}")) sample_heap.
Proof.
  split; [repeat constructor|].
  apply (rjson_parse_ignores_white_space_behind (quoted "{'a': [1, true]}")
           [" "; "010"]%char sample_heap).
  repeat constructor.
Defined.

(** ** The cursor that a parsing function returns *)

Lemma advance_suffix n (json : c_string) : advance n json `suffix_of` json.
Proof. unfold advance. apply suffix_drop. Qed.

Lemma skip_whitespace_suffix json : skip_whitespace json `suffix_of` json.
Proof.
  induction json as [|c json IH]; cbn [skip_whitespace]; [reflexivity|].
  destruct (_ || _); [apply suffix_cons_r, IH|reflexivity].
Qed.

Lemma separator_suffix (json1 json : c_string) :
  json1 `suffix_of` json -> advance 1 (skip_whitespace json1) `suffix_of` json.
Proof.
  intros H. etrans; [apply advance_suffix|]. etrans; [apply skip_whitespace_suffix|].
  exact H.
Qed.

Lemma parse_string_suffix json h v json' h' :
  parse_string json h = (Some (v, json'), h') -> json' `suffix_of` json.
Proof.
  unfold parse_string. intros H.
  destruct (scan_string (advance 1 json)) as [j|] eqn:E; [|discriminate H].
  apply scan_string_suffix in E as (taken & E).
  destruct (negb _); [discriminate H|].
  destruct (unescape_string _ h) as [[s|] h1]; [|discriminate H].
  destruct (create_value RJSON_STRING h1) as [[[]|] h2]; try discriminate H.
  assert (Hj : json' = advance 1 j) by congruence. rewrite Hj.
  etrans; [apply advance_suffix|]. etrans; [|apply (advance_suffix 1 json)].
  rewrite E. apply suffix_app_r. reflexivity.
Qed.

Lemma parse_number_suffix json h v json' h' :
  parse_number json h = (Some (v, json'), h') -> json' `suffix_of` json.
Proof.
  unfold parse_number. intros H.
  destruct (scan_number json) as [j|] eqn:E; [|discriminate H].
  destruct (scan_number_sound json j E) as (neg & i & f & x & Hj & _).
  assert (Hs : j `suffix_of` json).
  { rewrite Hj. do 4 apply suffix_app_r. reflexivity. }
  destruct (strtod json) as [[num e] err].
  destruct (err || negb (isfinite num)); [discriminate H|].
  match type of H with
  | (match ?c with _ => _ end) = _ => destruct c as [[n|] h1]
  end; [|discriminate H].
  unfold create_value in H. destruct (calloc _ _ h1) as [[p|] h2]; [|discriminate H].
  cbn [zeroed] in H. injection H as _ <- _. exact Hs.
Qed.

Lemma parse_literal_suffix json h v json' h' :
  parse_literal json h = (Some (v, json'), h') -> json' `suffix_of` json.
Proof.
  unfold parse_literal, create_value. intros H.
  destruct (starts_with (lit "true") json).
  { destruct (calloc _ _ h) as [[p|] h1]; [|discriminate H].
    cbn [zeroed] in H. assert (Hj : json' = advance 4 json) by congruence.
    rewrite Hj. apply advance_suffix. }
  destruct (starts_with (lit "false") json).
  { destruct (calloc _ _ h) as [[p|] h1]; [|discriminate H].
    cbn [zeroed] in H. assert (Hj : json' = advance 5 json) by congruence.
    rewrite Hj. apply advance_suffix. }
  destruct (starts_with (lit "null") json); [|discriminate H].
  destruct (calloc _ _ h) as [[p|] h1]; [|discriminate H].
  cbn [zeroed] in H. assert (Hj : json' = advance 4 json) by congruence.
  rewrite Hj. apply advance_suffix.
Qed.

Section Suffix.

Variable rec : Z -> c_string -> heap -> parsed.

Hypothesis rec_suffix :
  forall depth json h v json' h',
    rec depth json h = (Some (v, json'), h') -> json' `suffix_of` json.

Lemma parse_array_loop_suffix fuel : forall depth arr json h v json' h',
  parse_array_loop rec fuel depth arr json h = (Some (v, json'), h') ->
  json' `suffix_of` json.
Proof.
  induction fuel as [|fuel IH]; intros depth arr json h v json' h' H; [discriminate H|].
  cbn [parse_array_loop] in H.
  destruct (rec (depth + 1) json h) as [[[element json1]|] h1] eqn:Erec;
    [|discriminate H].
  apply rec_suffix in Erec.
  destruct (rjson_array_add arr (Some element) h1) as [[ret arr1] h2].
  destruct (negb (ret =? 0)); [discriminate H|].
  destruct (Ascii.eqb (peek (skip_whitespace json1)) "]").
  { destruct arr1; [|discriminate H].
    assert (Hj : json' = advance 1 (skip_whitespace json1)) by congruence.
    rewrite Hj. apply separator_suffix, Erec. }
  destruct (negb (Ascii.eqb (peek (skip_whitespace json1)) ",")); [discriminate H|].
  apply IH in H. etrans; [exact H|]. apply separator_suffix, Erec.
Qed.

Lemma parse_array_suffix json depth h v json' h' :
  parse_array rec json depth h = (Some (v, json'), h') -> json' `suffix_of` json.
Proof.
  unfold parse_array. destruct (depth >=? RJSON_MAX_DEPTH); [discriminate|].
  destruct (rjson_array_new h) as [[node|] h1]; [|discriminate].
  destruct (Ascii.eqb (peek (skip_whitespace (advance 1 json))) "]").
  - intros H.
    assert (Hj : json' = advance 1 (skip_whitespace (advance 1 json))) by congruence.
    rewrite Hj. apply separator_suffix, advance_suffix.
  - intros H. apply parse_array_loop_suffix in H. etrans; [exact H|].
    etrans; [apply skip_whitespace_suffix|apply advance_suffix].
Qed.

Lemma parse_object_loop_suffix fuel : forall depth obj json h v json' h',
  parse_object_loop rec fuel depth obj json h = (Some (v, json'), h') ->
  json' `suffix_of` json.
Proof.
  induction fuel as [|fuel IH]; intros depth obj json h v json' h' H; [discriminate H|].
  cbn [parse_object_loop] in H.
  destruct (negb (Ascii.eqb (peek (skip_whitespace json)) "034")); [discriminate H|].
  destruct (parse_string (skip_whitespace json) h) as [[[key_val json1]|] h1] eqn:Ekey;
    [|discriminate H].
  apply parse_string_suffix in Ekey.
  assert (Hkey : json1 `suffix_of` json)
    by (etrans; [exact Ekey|apply skip_whitespace_suffix]).
  destruct (negb (Ascii.eqb (peek (skip_whitespace json1)) ":")); [discriminate H|].
  destruct (rec (depth + 1) (advance 1 (skip_whitespace json1)) h1)
    as [[[val json2]|] h2] eqn:Erec; [|discriminate H].
  apply rec_suffix in Erec.
  assert (Hval : json2 `suffix_of` json)
    by (etrans; [exact Erec|apply separator_suffix, Hkey]).
  match type of H with
  | context [rjson_object_add obj ?k (Some val) h2] =>
      destruct (rjson_object_add obj k (Some val) h2) as [[ret obj1] h3]
  end.
  destruct (negb (ret =? 0)); [discriminate H|].
  match type of H with
  | context [Ascii.eqb (peek (skip_whitespace json2)) "}"] =>
      destruct (Ascii.eqb (peek (skip_whitespace json2)) "}")
  end.
  { destruct obj1; [|discriminate H].
    assert (Hj : json' = advance 1 (skip_whitespace json2)) by congruence.
    rewrite Hj. apply separator_suffix, Hval. }
  destruct (negb (Ascii.eqb (peek (skip_whitespace json2)) ",")); [discriminate H|].
  apply IH in H. etrans; [exact H|]. apply separator_suffix, Hval.
Qed.

Lemma parse_object_suffix json depth h v json' h' :
  parse_object rec json depth h = (Some (v, json'), h') -> json' `suffix_of` json.
Proof.
  unfold parse_object. destruct (depth >=? RJSON_MAX_DEPTH); [discriminate|].
  destruct (rjson_object_new h) as [[node|] h1]; [|discriminate].
  destruct (Ascii.eqb (peek (skip_whitespace (advance 1 json))) "}").
  - intros H.
    assert (Hj : json' = advance 1 (skip_whitespace (advance 1 json))) by congruence.
    rewrite Hj. apply separator_suffix, advance_suffix.
  - intros H. apply parse_object_loop_suffix in H. etrans; [exact H|].
    etrans; [apply skip_whitespace_suffix|apply advance_suffix].
Qed.

Lemma parse_value_body_suffix json depth h v json' h' :
  parse_value_body rec json depth h = (Some (v, json'), h') -> json' `suffix_of` json.
Proof.
  unfold parse_value_body. intros H.
  pose proof (skip_whitespace_suffix json) as Hs.
  pose proof (parse_string_suffix (skip_whitespace json) h v json' h') as Hstr.
  pose proof (parse_number_suffix (skip_whitespace json) h v json' h') as Hnum.
  pose proof (parse_literal_suffix (skip_whitespace json) h v json' h') as Hlit.
  pose proof (parse_array_suffix (skip_whitespace json) depth h v json' h') as Harr.
  pose proof (parse_object_suffix (skip_whitespace json) depth h v json' h') as Hobj.
  destruct (peek (skip_whitespace json)) as [[] [] [] [] [] [] [] []];
    cbv iota in H;
    try discriminate H;
    first [ apply Hstr in H | apply Hlit in H | apply Harr in H | apply Hobj in H
          | (match type of H with
             | (if ?c then _ else _) = _ =>
                 destruct c; [apply Hnum in H|discriminate H]
             end) ];
    (etrans; [exact H|exact Hs]).
Qed.

End Suffix.

Lemma parse_value_at_suffix levels : forall depth json h v json' h',
  parse_value_at levels depth json h = (Some (v, json'), h') -> json' `suffix_of` json.
Proof.
  induction levels as [|levels IH]; intros depth json h v json' h' H; [discriminate H|].
  cbn [parse_value_at] in H. eapply parse_value_body_suffix; [|exact H]. exact IH.
Qed.

(** ** Arrays and scalars under any allocator *)

Lemma no_brace_suffix (json' json : c_string) :
  json' `suffix_of` json -> no_brace json -> no_brace json'.
Proof. intros [k ->] H. apply Forall_app in H as [_ H]. exact H. Qed.

Lemma no_brace_peek json : no_brace json -> peek json <> "{".
Proof. intros H. destruct H as [|c j Hc _]; [discriminate|exact Hc]. Qed.

Lemma no_brace_c_str bytes : no_brace bytes -> no_brace (c_str bytes).
Proof.
  induction 1 as [|c bytes Hc _ IH]; cbn [c_str]; [constructor|].
  destruct (Ascii.eqb c NUL); constructor; assumption.
Qed.

Lemma owned_same h : heap_wf h -> owned h (None, h).
Proof. intros W. apply allocated_refl, W. Qed.

Lemma create_value_any type h :
  heap_wf h ->
  (exists p h', create_value type h = (Some (zeroed type p), h') /\ allocated h h' [p])
  \/ (exists h', create_value type h = (None, h') /\ allocated h h' []).
Proof.
  intros W. unfold create_value, calloc.
  pose proof (malloc_any (1 * sizeof_rjson_value) h W) as A.
  destruct (malloc (1 * sizeof_rjson_value) h) as [[p|] h1]; cbn [fst snd] in *.
  - left. exists p, h1. split; [reflexivity|exact A].
  - right. exists h1. split; [reflexivity|exact A].
Qed.

Lemma parse_string_owned json h : heap_wf h -> owned h (parse_string json h).
Proof.
  intros W. unfold parse_string.
  destruct (scan_string (advance 1 json)) as [j|]; [|apply owned_same, W].
  destruct (negb _); [apply owned_same, W|].
  unfold unescape_string.
  match goal with
  | |- context [malloc ?size h] =>
      pose proof (malloc_any size h W) as A1;
      destruct (malloc size h) as [[out|] h1]
  end; cbn [fst snd option_list] in A1; [|exact A1].
  destruct (unescape_loop _ _ []) as [d|].
  - destruct (create_value_any RJSON_STRING h1 (allocated_wf _ _ _ A1))
      as [(p & h2 & -> & A2)|(h2 & -> & A2)]; cbn [zeroed].
    + unfold owned. cbn [fst snd blocks option_map option_list].
      eapply allocated_perm; [|exact (allocated_trans _ _ _ _ _ A1 A2)].
      solve_Permutation.
    + unfold owned. cbn [fst snd].
      apply (free_any h h2 out [] ([out] ++ []) W (reflexivity _)).
      exact (allocated_trans _ _ _ _ _ A1 A2).
  - unfold owned. cbn [fst snd].
    exact (free_any h h1 out [] [out] W (reflexivity _) A1).
Qed.

Lemma parse_number_owned json h : heap_wf h -> owned h (parse_number json h).
Proof.
  intros W. unfold parse_number.
  destruct (scan_number json) as [j|]; [|apply owned_same, W].
  destruct (strtod json) as [[num end_] erange].
  destruct (erange || negb (isfinite num)); [apply owned_same, W|].
  assert (Hnew : forall x h1, allocated h h1 [] ->
            owned h match create_value RJSON_NUMBER h1 with
                    | (Some (V_NUMBER p _), h) => (Some (V_NUMBER p x, j), h)
                    | (_, h) => (None, h)
                    end).
  { intros x h1 A1.
    destruct (create_value_any RJSON_NUMBER h1 (allocated_wf _ _ _ A1))
      as [(p & h2 & -> & A2)|(h2 & -> & A2)]; cbn [zeroed];
      exact (allocated_trans _ _ _ _ _ A1 A2). }
  destruct (negb (same_position end_ j)); [|apply Hnew, allocated_refl, W].
  pose proof (malloc_any (Z.of_nat (length json - length j) + 1) h W) as A1.
  destruct (malloc (Z.of_nat (length json - length j) + 1) h) as [[t|] h1];
    cbn [fst snd option_list] in A1; [|exact A1].
  destruct (strtod (firstn (length json - length j) json)) as [[num' end'] er'].
  pose proof (free_any h h1 t [] [t] W (reflexivity _) A1) as A2.
  destruct (negb (Ascii.eqb (peek end') NUL)); [exact A2|].
  apply Hnew, A2.
Qed.

Lemma parse_literal_owned json h : heap_wf h -> owned h (parse_literal json h).
Proof.
  intros W. unfold parse_literal.
  destruct (starts_with (lit "true") json).
  { destruct (create_value_any RJSON_BOOL h W) as [(p & h2 & -> & A2)|(h2 & -> & A2)];
      exact A2. }
  destruct (starts_with (lit "false") json).
  { destruct (create_value_any RJSON_BOOL h W) as [(p & h2 & -> & A2)|(h2 & -> & A2)];
      exact A2. }
  destruct (starts_with (lit "null") json); [|apply owned_same, W].
  destruct (create_value_any RJSON_NULL h W) as [(p & h2 & -> & A2)|(h2 & -> & A2)];
    exact A2.
Qed.

Section Owned.

Variable rec : Z -> c_string -> heap -> parsed.

Hypothesis rec_progress :
  forall depth json h v json' h',
    rec depth json h = (Some (v, json'), h') -> (length json' < length json)%nat.

Hypothesis rec_suffix :
  forall depth json h v json' h',
    rec depth json h = (Some (v, json'), h') -> json' `suffix_of` json.

Hypothesis rec_owned :
  forall depth json h, heap_wf h -> no_brace json -> owned h (rec depth json h).

Lemma parse_array_loop_owned fuel : forall depth p elements elems json h0 h,
  (length json < fuel)%nat -> heap_wf h0 -> no_brace json ->
  allocated h0 h (blocks (V_ARRAY p elements elems)) ->
  owned h0 (parse_array_loop rec fuel depth (Some (V_ARRAY p elements elems)) json h).
Proof.
  induction fuel as [|fuel IH]; intros depth p elements elems json h0 h Hf W Hb A;
    [lia|].
  cbn [parse_array_loop].
  pose proof (rec_owned (depth + 1) json h (allocated_wf _ _ _ A) Hb) as A1.
  unfold owned in A1.
  destruct (rec (depth + 1) json h) as [[[element json1]|] h1] eqn:Erec;
    cbn [fst snd] in A1.
  - pose proof (rec_progress _ _ _ _ _ _ Erec) as Hlen.
    pose proof (no_brace_suffix _ _ (rec_suffix _ _ _ _ _ _ Erec) Hb) as Hb1.
    pose proof (allocated_trans _ _ _ _ _ A A1) as A2.
    unfold rjson_array_add.
    assert (Hsize : (Z.of_nat (length elems) + 1) * sizeof_ptr <> 0)
      by (unfold sizeof_ptr; lia).
    assert (P : blocks (V_ARRAY p elements elems) ++ blocks element
                ≡ₚ option_list elements ++ p :: flat_map blocks elems ++ blocks element)
      by (cbn [blocks]; solve_Permutation).
    pose proof (realloc_any h0 h1 elements ((Z.of_nat (length elems) + 1) * sizeof_ptr)
                  (p :: flat_map blocks elems ++ blocks element) _ W Hsize P A2) as A3.
    destruct (realloc elements _ h1) as [[q|] h2]; cbn [fst snd] in A3.
    + change (negb (0 =? 0)) with false. cbv iota.
      assert (A4 : allocated h0 h2 (blocks (V_ARRAY p (Some q) (elems ++ [element])))).
      { eapply allocated_perm; [|exact A3]. cbn [blocks option_list].
        rewrite flat_map_app. simpl. rewrite app_nil_r. solve_Permutation. }
      destruct (Ascii.eqb (peek (skip_whitespace json1)) "]"); [exact A4|].
      destruct (negb (Ascii.eqb (peek (skip_whitespace json1)) ",")) eqn:Ecomma.
      { unfold owned, rjson_free. cbn [fst snd].
        apply (free_value_any h0 h2 _ [] _ W (reflexivity _) A4). }
      apply negb_false_iff in Ecomma.
      pose proof (after_separator json1 "," Ecomma ltac:(discriminate)).
      apply IH; [lia|exact W| |exact A4].
      eapply no_brace_suffix; [|exact Hb1]. apply separator_suffix. reflexivity.
    + change (negb (-1 =? 0)) with true. cbv iota.
      unfold owned, rjson_free. cbn [fst snd].
      apply (free_value_any h0 _ (V_ARRAY p elements elems) []
               (blocks (V_ARRAY p elements elems)) W (reflexivity _)).
      apply (free_value_any h0 h2 element (blocks (V_ARRAY p elements elems))
               (option_list elements ++ p :: flat_map blocks elems ++ blocks element) W);
        [symmetry; exact P|exact A3].
  - unfold owned, rjson_free. cbn [fst snd].
    apply (free_value_any h0 h1 _ [] _ W (reflexivity _)).
    eapply allocated_perm; [|exact (allocated_trans _ _ _ _ _ A A1)].
    rewrite app_nil_r. reflexivity.
Qed.

Lemma parse_array_owned json depth h :
  heap_wf h -> no_brace json -> owned h (parse_array rec json depth h).
Proof.
  intros W Hb. unfold parse_array.
  destruct (depth >=? RJSON_MAX_DEPTH); [apply owned_same, W|].
  unfold rjson_array_new.
  destruct (create_value_any RJSON_ARRAY h W) as [(p & h1 & -> & A1)|(h1 & -> & A1)];
    [|exact A1].
  cbn [zeroed].
  destruct (Ascii.eqb (peek (skip_whitespace (advance 1 json))) "]"); [exact A1|].
  apply parse_array_loop_owned; [lia|exact W| |exact A1].
  eapply no_brace_suffix; [|exact Hb].
  etrans; [apply skip_whitespace_suffix|apply advance_suffix].
Qed.

Lemma parse_value_body_owned json depth h :
  heap_wf h -> no_brace json -> owned h (parse_value_body rec json depth h).
Proof.
  intros W Hb. unfold parse_value_body.
  pose proof (no_brace_suffix _ _ (skip_whitespace_suffix json) Hb) as Hb1.
  pose proof (no_brace_peek _ Hb1) as Hpk.
  pose proof (parse_string_owned (skip_whitespace json) h W) as Hstr.
  pose proof (parse_number_owned (skip_whitespace json) h W) as Hnum.
  pose proof (parse_literal_owned (skip_whitespace json) h W) as Hlit.
  pose proof (parse_array_owned (skip_whitespace json) depth h W Hb1) as Harr.
  pose proof (owned_same h W) as Hnone.
  revert Hpk.
  destruct (peek (skip_whitespace json)) as [[] [] [] [] [] [] [] []];
    intros Hpk; cbv iota; try assumption;
    try (contradiction Hpk; reflexivity);
    match goal with
    | |- owned _ (if ?c then _ else _) => destruct c; assumption
    end.
Qed.

End Owned.

Lemma parse_value_at_owned levels : forall depth json h,
  heap_wf h -> no_brace json -> owned h (parse_value_at levels depth json h).
Proof.
  induction levels as [|levels IH]; intros depth json h W Hb.
  - apply owned_same, W.
  - cbn [parse_value_at]. apply parse_value_body_owned; try assumption.
    + intros d j h1 v j' h1'. apply parse_value_at_progress.
    + intros d j h1 v j' h1'. apply parse_value_at_suffix.
Qed.

(** X27. Without objects the decoder is safe under any allocator: for a
    text that holds no opening brace, whichever requests are refused,
    [rjson_parse] either returns a tree whose blocks are distinct and new
    and are all that the call leaves allocated, or returns NULL with the
    live blocks as they were before the call; no release is invalid. *)
Theorem rjson_parse_without_objects_leaks_nothing bytes h :
  heap_wf h -> "{" ∉ bytes ->
  match rjson_parse (Some bytes) h with
  | (Some t, h') => allocated h h' (blocks t)
  | (None, h') => live h' = live h /\ faults h' = faults h
  end.
Proof.
  intros W Hb.
  assert (Hnb : no_brace bytes).
  { apply Forall_forall. intros c Hc ->. exact (Hb Hc). }
  assert (Hnone : forall h', allocated h h' [] ->
                             live h' = live h /\ faults h' = faults h).
  { intros h' A. split; [exact (allocated_nil_live _ _ A)|exact (allocated_faults _ _ _ A)]. }
  unfold rjson_parse, parse_value.
  set (json := if starts_with BOM (c_str bytes) then advance 3 (c_str bytes)
               else c_str bytes).
  assert (Hj : no_brace json).
  { subst json. destruct (starts_with BOM (c_str bytes)).
    - eapply no_brace_suffix; [apply advance_suffix|apply no_brace_c_str, Hnb].
    - apply no_brace_c_str, Hnb. }
  pose proof (parse_value_at_owned (Z.to_nat (RJSON_MAX_DEPTH + 1 - 0)) 0 json h W Hj)
    as A.
  unfold owned in A.
  destruct (parse_value_at _ 0 json h) as [[[result pos]|] h1]; cbn [fst snd] in A.
  - destruct (negb (Ascii.eqb (peek (skip_whitespace pos)) NUL)); [|exact A].
    apply Hnone. unfold rjson_free.
    exact (free_value_any h h1 result [] _ W (reflexivity _) A).
  - apply Hnone, A.
Qed.

Lemma rjson_parse_without_objects_leaks_nothing_witness :
  heap_wf (heap_init [Stay; Stay; Move; Stay; Fail])
  /\ fst (rjson_parse (Some (quoted "[1, 'a', true]"))
            (heap_init [Stay; Stay; Move; Stay; Fail])) = None
  /\ live (snd (rjson_parse (Some (quoted "[1, 'a', true]"))
                  (heap_init [Stay; Stay; Move; Stay; Fail])))
     = live (heap_init [Stay; Stay; Move; Stay; Fail]).
Proof.
  assert (W : heap_wf (heap_init [Stay; Stay; Move; Stay; Fail])).
  { intros a Ha. vm_compute in Ha. set_solver. }
  split; [exact W|].
  pose proof (rjson_parse_without_objects_leaks_nothing (quoted "[1, 'a', true]")
                (heap_init [Stay; Stay; Move; Stay; Fail]) W) as H.
  assert (E : fst (rjson_parse (Some (quoted "[1, 'a', true]"))
                     (heap_init [Stay; Stay; Move; Stay; Fail])) = None)
    by (vm_compute; reflexivity).
  split; [exact E|].
  destruct (rjson_parse (Some (quoted "[1, 'a', true]"))
              (heap_init [Stay; Stay; Move; Stay; Fail])) as [[t|] h'];
    [discriminate E|].
  apply H. intros Hin. vm_compute in Hin.
  repeat (apply elem_of_cons in Hin as [Hin|Hin]; [discriminate Hin|]).
  inversion Hin.
Defined.

(** ** The text of an integer *)

Lemma byte_of_digit c : isdigit c = true -> byte_of (code "0" + digit_val c) = c.
Proof.
  destruct c as [[] [] [] [] [] [] [] []]; intros H; try discriminate H; reflexivity.
Qed.

Lemma digits_of_number_of i :
  digits i -> digits_of (length i) (number_of 10 i) [] = i.
Proof.
  induction i as [|d l IH] using rev_ind; intros Hi; [reflexivity|].
  apply Forall_app in Hi as [Hl Hd]. inversion Hd as [|? ? Hd1 _]; subst.
  pose proof (digit_val_digit d Hd1) as Hv.
  rewrite length_app, Nat.add_1_r. cbn [digits_of].
  rewrite number_of_app.
  change (number_of 10 [d]) with (10 * 0 + digit_val d).
  change (10 ^ Z.of_nat (length [d])) with 10.
  replace ((number_of 10 l * 10 + (10 * 0 + digit_val d)) / 10) with (number_of 10 l)
    by (apply Z.div_unique with (r := digit_val d); lia).
  replace ((number_of 10 l * 10 + (10 * 0 + digit_val d)) mod 10) with (digit_val d)
    by (apply Z.mod_unique with (q := number_of 10 l); lia).
  rewrite digits_of_acc, (IH Hl), (byte_of_digit d Hd1). reflexivity.
Qed.

Lemma digits_of_shift a b n :
  0 <= n ->
  digits_of (a + b) (n * 10 ^ Z.of_nat b) [] = digits_of a n [] ++ repeat "0" b.
Proof.
  intros Hn. induction b as [|b IH].
  - rewrite Nat.add_0_r, app_nil_r. change (10 ^ Z.of_nat 0) with 1.
    rewrite Z.mul_1_r. reflexivity.
  - rewrite Nat.add_succ_r. cbn [digits_of].
    rewrite Nat2Z.inj_succ, Z.pow_succ_r by lia.
    replace (n * (10 * 10 ^ Z.of_nat b)) with (n * 10 ^ Z.of_nat b * 10) by lia.
    rewrite Z.div_mul, Z.mod_mul by lia.
    rewrite digits_of_acc, IH, <- app_assoc. f_equal.
    change (byte_of (code "0" + 0)) with "0".
    cbn [repeat]. symmetry. apply repeat_cons.
Qed.

Lemma strip_zeros_repeat k : strip_zeros (repeat "0" k) = [].
Proof.
  unfold strip_zeros.
  assert (Hrev : rev (repeat "0" k) = repeat "0" k).
  { induction k as [|k IH]; [reflexivity|]. cbn [repeat rev]. rewrite IH.
    symmetry. apply repeat_cons. }
  rewrite Hrev. clear Hrev.
  assert (Hs : strip_zeros_rev (repeat "0" k) = []).
  { induction k as [|k IH]; [reflexivity|]. exact IH. }
  rewrite Hs. reflexivity.
Qed.

(** The decimal exponent of an integer with [x + 1] digits. *)
Lemma log10_floor_integer n den x :
  0 < den -> 0 <= x -> 10 ^ x <= n < 10 ^ (x + 1) -> log10_floor (n * den) den = x.
Proof.
  intros Hden Hx Hn.
  assert (Hn0 : 0 < n) by (pose proof (Z.pow_pos_nonneg 10 x); lia).
  destruct (log10_floor_spec (n * den) den ltac:(nia) Hden) as [L1 L2].
  set (y := log10_floor (n * den) den) in *.
  pose proof (pow10_pos y). pose proof (pow10_pos (- y)).
  pose proof (pow10_pos (y + 1)). pose proof (pow10_pos (- (y + 1))).
  assert (M1 : 10 ^ Z.max 0 y <= n * 10 ^ Z.max 0 (- y)) by nia.
  assert (M2 : n * 10 ^ Z.max 0 (- (y + 1)) < 10 ^ Z.max 0 (y + 1)) by nia.
  destruct (Z.lt_ge_cases y 0) as [Hy|Hy].
  { replace (Z.max 0 (y + 1)) with 0 in M2 by lia. change (10 ^ 0) with 1 in M2. nia. }
  replace (Z.max 0 y) with y in M1 by lia.
  replace (Z.max 0 (- y)) with 0 in M1 by lia.
  replace (Z.max 0 (- (y + 1))) with 0 in M2 by lia.
  replace (Z.max 0 (y + 1)) with (y + 1) in M2 by lia.
  change (10 ^ 0) with 1 in M1, M2.
  destruct (Z.lt_trichotomy y x) as [Hlt|[Heq|Hgt]]; [|exact Heq|].
  - pose proof (Z.pow_le_mono_r 10 (y + 1) x ltac:(lia) ltac:(lia)). lia.
  - pose proof (Z.pow_le_mono_r 10 (x + 1) y ltac:(lia) ltac:(lia)). lia.
Qed.

Lemma format_g_integer n den x :
  0 < den -> 0 <= x < 17 -> 10 ^ x <= n < 10 ^ (x + 1) ->
  format_g 17 "." (n * den) den = digits_of (Z.to_nat (x + 1)) n [].
Proof.
  intros Hden Hx Hn.
  assert (Hn0 : 0 < n) by (pose proof (Z.pow_pos_nonneg 10 x); lia).
  unfold format_g, sig_digits.
  rewrite (log10_floor_integer n den x Hden ltac:(lia) Hn).
  replace (Z.max 0 (- (x - 17 + 1))) with (16 - x) by lia.
  replace (Z.max 0 (x - 17 + 1)) with 0 by lia.
  change (10 ^ 0) with 1. rewrite Z.mul_1_r.
  assert (Hp : 0 < 10 ^ (16 - x)) by (apply Z.pow_pos_nonneg; lia).
  rewrite (round_div_unique (n * den * 10 ^ (16 - x)) den (n * 10 ^ (16 - x)) Hden)
    by (replace (n * den * 10 ^ (16 - x) - n * 10 ^ (16 - x) * den) with 0 by lia;
        cbn [Z.abs]; lia).
  assert (Hlt : n * 10 ^ (16 - x) < 10 ^ 17).
  { replace 17 with ((x + 1) + (16 - x)) at 1 by lia.
    rewrite Z.pow_add_r by lia. nia. }
  replace (n * 10 ^ (16 - x) =? 10 ^ 17) with false by lia.
  replace ((x <? -4) || (17 <=? x)) with false by lia.
  replace (x <? 0) with false by lia.
  pose proof (digits_of_shift (Z.to_nat (x + 1)) (Z.to_nat (16 - x)) n ltac:(lia)) as Hds.
  rewrite Z2Nat.id in Hds by lia.
  replace (Z.to_nat (x + 1) + Z.to_nat (16 - x))%nat with (Z.to_nat 17) in Hds by lia.
  rewrite Hds.
  assert (Hlen : length (digits_of (Z.to_nat (x + 1)) n []) = Z.to_nat (x + 1))
    by (rewrite digits_of_length; cbn [length]; lia).
  rewrite firstn_app, skipn_app, Hlen, Nat.sub_diag.
  rewrite <- Hlen at 1 3. rewrite firstn_all, skipn_all.
  cbn [firstn skipn app]. rewrite app_nil_r.
  change (drop 0 (repeat "0" (Z.to_nat (16 - x)))) with (repeat "0" (Z.to_nat (16 - x))).
  unfold with_fraction. rewrite strip_zeros_repeat. reflexivity.
Qed.

Lemma int_part_bounds d ds :
  isdigit d = true -> d <> "0" -> digits ds ->
  10 ^ Z.of_nat (length ds) <= number_of 10 (d :: ds) < 10 ^ (Z.of_nat (length ds) + 1).
Proof.
  intros Hd Hd0 Hds.
  pose proof (number_of_bound (d :: ds) ltac:(constructor; assumption)) as Hb.
  cbn [length] in Hb. rewrite Nat2Z.inj_succ in Hb.
  replace (Z.succ (Z.of_nat (length ds))) with (Z.of_nat (length ds) + 1) in Hb by lia.
  split; [|lia].
  change (d :: ds) with ([d] ++ ds). rewrite number_of_app.
  change (number_of 10 [d]) with (10 * 0 + digit_val d).
  pose proof (number_of_bound ds Hds) as Hb2.
  pose proof (digit_val_digit d Hd) as Hv.
  assert (Hv1 : 1 <= digit_val d).
  { destruct (Z.eq_dec (digit_val d) 0) as [E|E]; [|lia].
    contradiction Hd0. rewrite <- (byte_of_digit d Hd), E. reflexivity. }
  assert (0 < 10 ^ Z.of_nat (length ds)) by (apply Z.pow_pos_nonneg; lia).
  nia.
Qed.

(** [%.17g] on the binary64 that is exactly an integer below 10^17 writes
    the digits of the integer: no point, no exponent. *)
Lemma printf_g_integer x i :
  int_part i -> number_of 10 i < 10 ^ 17 -> is_exact x (number_of 10 i) 1 = true ->
  printf_g 17 "." x = (if sign_bit x then ["-"] else []) ++ i.
Proof.
  intros Hi Hn Hx. destruct x as [s|s| |s m e]; try discriminate Hx.
  - cbn [is_exact] in Hx. apply Z.eqb_eq in Hx. cbn [printf_g sign_bit].
    destruct Hi as [->|(d & ds & -> & Hd & Hd0 & Hds)]; [destruct s; reflexivity|].
    pose proof (int_part_bounds d ds Hd Hd0 Hds) as [Hlo _].
    assert (0 < 10 ^ Z.of_nat (length ds)) by (apply Z.pow_pos_nonneg; lia). lia.
  - cbn [is_exact] in Hx. apply Z.eqb_eq in Hx. rewrite Z.mul_1_r in Hx.
    cbn [printf_g sign_bit]. f_equal. rewrite <- Hx.
    assert (Hden : 0 < 2 ^ Z.max 0 (- e)) by (apply Z.pow_pos_nonneg; lia).
    assert (Hnum : 0 < Z.pos m * 2 ^ Z.max 0 e)
      by (apply Z.mul_pos_pos; [lia|apply Z.pow_pos_nonneg; lia]).
    destruct Hi as [->|(d & ds & -> & Hd & Hd0 & Hds)].
    { change (number_of 10 ["0"]) with 0 in Hx. lia. }
    pose proof (int_part_bounds d ds Hd Hd0 Hds) as Hb.
    assert (Hlen : Z.of_nat (length ds) < 17).
    { destruct (Z.lt_ge_cases (Z.of_nat (length ds)) 17) as [H|H]; [exact H|].
      pose proof (Z.pow_le_mono_r 10 17 (Z.of_nat (length ds)) ltac:(lia) H). lia. }
    rewrite (format_g_integer (number_of 10 (d :: ds)) _ (Z.of_nat (length ds)) Hden
               ltac:(lia) Hb).
    replace (Z.to_nat (Z.of_nat (length ds) + 1)) with (length (d :: ds))
      by (cbn [length]; lia).
    apply digits_of_number_of. constructor; assumption.
Qed.

(** X28. Integers come back as they were written: a text of decimal
    digits without a leading zero, with or without a minus sign, whose
    value is below 2^53 is decoded by [rjson_parse] and encoded again by
    [rjson_serialize] as the same text, with no point and no exponent. *)
Theorem integers_are_written_as_read (neg : bool) i cell out_length h :
  int_part i -> number_of 10 i < 2 ^ 53 -> granted h ->
  exists t h1 b h2,
    rjson_parse (Some ((if neg then ["-"] else []) ++ i)) h = (Some t, h1)
    /\ rjson_serialize (Some t) (Some cell) out_length h1
       = (0, Some (Some (b, (if neg then ["-"] else []) ++ i)),
          option_map (fun _ => strlen ((if neg then ["-"] else []) ++ i)) out_length, h2).
Proof.
  intros Hi Hn Hg.
  assert (Htok : number_token ((if neg then ["-"] else []) ++ i)).
  { exists (if neg then ["-"] else []), i, [], [].
    rewrite !app_nil_r. split; [reflexivity|].
    split; [destruct neg; [right|left]; reflexivity|].
    split; [exact Hi|]. split; left; reflexivity. }
  pose proof (strtod_value neg i [] [] Hi ltac:(left; reflexivity)
                ltac:(left; reflexivity)) as Hv.
  rewrite !app_nil_r in Hv. cbn [tl length exp_value] in Hv.
  change (0 - Z.of_nat 0) with 0 in Hv.
  destruct (int_part_digits i Hi) as [Hds _].
  pose proof (number_of_bound i Hds) as [Hn0 _].
  destruct (scaled_integer neg (number_of 10 i) ltac:(lia)) as (He & Hx & Hs & Hf).
  pose proof (scaled_valid neg (number_of 10 i) 10 0 Hn0 ltac:(lia)) as Hvalid.
  destruct (parse_number_token _ [] h Htok eq_refl Hg) as (_ & _ & Hok).
  rewrite app_nil_r in Hok.
  rewrite (rjson_parse_number_token _ h Htok).
  rewrite Hv in Hok. cbn [fst snd] in Hok.
  destruct Hok as (p & h1 & -> & Hg1); [rewrite He, Hf; reflexivity|].
  set (x := fst (scaled neg (number_of 10 i) 10 0)) in *.
  destruct (rjson_serialize_granted (V_NUMBER p x) cell out_length h1 Hg1
              ltac:(split; assumption) ltac:(cbn; unfold RJSON_MAX_DEPTH; lia))
    as (b & h2 & E & _).
  cbn [shape encode] in E.
  rewrite (printf_g_integer x i Hi ltac:(change (2 ^ 53) with 9007199254740992 in Hn;
                                          change (10 ^ 17) with 100000000000000000; lia)
             Hx), Hs in E.
  exists (V_NUMBER p x), h1, b, h2. split; [reflexivity|exact E].
Qed.

Lemma integers_are_written_as_read_witness :
  exists t h1 b h2,
    rjson_parse (Some ((if true then ["-"] else []) ++ lit "9007199254740991"))
      (heap_init []) = (Some t, h1)
    /\ rjson_serialize (Some t) (Some None) (Some 0) h1
       = (0, Some (Some (b, (if true then ["-"] else []) ++ lit "9007199254740991")),
          option_map (fun _ => strlen ((if true then ["-"] else [])
                                         ++ lit "9007199254740991")) (Some 0), h2).
Proof.
  apply (integers_are_written_as_read true (lit "9007199254740991") None (Some 0)
           (heap_init [])).
  - right. exists "9", (lit "007199254740991"). split; [reflexivity|].
    split; [reflexivity|]. split; [discriminate|]. repeat constructor.
  - vm_compute. reflexivity.
  - constructor.
Defined.

(** ** The text of a plain string *)

Lemma escaped_byte_plain c : plain c = true -> escaped_byte c = [c].
Proof.
  destruct c as [[] [] [] [] [] [] [] []]; intros H; try discriminate H; reflexivity.
Qed.

Lemma escaped_plain s : Forall (fun c => plain c = true) s -> escaped s = s.
Proof.
  unfold escaped. induction 1 as [|c s Hc _ IH]; [reflexivity|].
  cbn [map concat]. rewrite IH, (escaped_byte_plain c Hc). reflexivity.
Qed.

Lemma plain_no_nul s : Forall (fun c => plain c = true) s -> no_nul s.
Proof.
  intros H. eapply Forall_impl; [exact H|]. intros c Hc ->. discriminate Hc.
Qed.

(** X29. Plain strings come back as they were written: a string between
    quotation marks whose bytes are neither control bytes nor quotation
    marks nor backslashes (bytes from 0x80 on, so UTF-8 text, included) is
    decoded by [rjson_parse] as these bytes and encoded again by
    [rjson_serialize] as the same text. *)
Theorem plain_strings_are_written_as_read s cell out_length h :
  Forall (fun c => plain c = true) s -> granted h ->
  exists p a h1 b h2,
    rjson_parse (Some ("034" :: s ++ ["034"])) h = (Some (V_STRING p (Some (a, s))), h1)
    /\ rjson_serialize (Some (V_STRING p (Some (a, s)))) (Some cell) out_length h1
       = (0, Some (Some (b, "034" :: s ++ ["034"])),
          option_map (fun _ => strlen ("034" :: s ++ ["034"])) out_length, h2).
Proof.
  intros Hs Hg.
  assert (Hwf : well_formed (J_STRING (Some s))).
  { exists s. split; [reflexivity|apply plain_no_nul, Hs]. }
  destruct (rjson_parse_encoded (J_STRING (Some s)) h Hg Hwf I
              ltac:(cbn; unfold RJSON_MAX_DEPTH; lia))
    as (t & h1 & E & Hshape & Hg1).
  cbn [encode] in E. unfold encode_string in E. rewrite (escaped_plain s Hs) in E.
  destruct t as [| | |p str| |]; try discriminate Hshape.
  destruct str as [[a s']|]; [|discriminate Hshape].
  cbn [shape option_map snd] in Hshape.
  assert (Es : s' = s) by congruence. subst s'.
  destruct (rjson_serialize_granted (V_STRING p (Some (a, s))) cell out_length h1 Hg1
              Hwf ltac:(cbn; unfold RJSON_MAX_DEPTH; lia))
    as (b & h2 & E2 & _).
  cbn [shape option_map snd encode] in E2. unfold encode_string in E2.
  rewrite (escaped_plain s Hs) in E2.
  exists p, a, h1, b, h2. split; [exact E|exact E2].
Qed.

Lemma plain_strings_are_written_as_read_witness :
  exists p a h1 b h2,
    rjson_parse (Some ("034" :: ["c"; "a"; "f"; "195"; "169"; " "; "/"] ++ ["034"]))
      (heap_init [])
    = (Some (V_STRING p (Some (a, ["c"; "a"; "f"; "195"; "169"; " "; "/"]))), h1)
    /\ rjson_serialize (Some (V_STRING p (Some (a, ["c"; "a"; "f"; "195"; "169"; " "; "/"]))))
         (Some None) (Some 0) h1
       = (0, Some (Some (b, "034" :: ["c"; "a"; "f"; "195"; "169"; " "; "/"] ++ ["034"])),
          option_map (fun _ => strlen ("034" :: ["c"; "a"; "f"; "195"; "169"; " "; "/"]
                                         ++ ["034"])) (Some 0), h2).
Proof.
  apply (plain_strings_are_written_as_read ["c"; "a"; "f"; "195"; "169"; " "; "/"]
           None (Some 0) (heap_init [])).
  - repeat constructor.
  - constructor.
Defined.
